(* ===== verification/_CoqProject ===== *)
-Q . S2P
Prelude.v
Exception.v
Bytes.v
Event.v
EventInv.v
EventOps.v
Bus.v
EventProps.v
EventKeep.v
EventWait.v
Thread.v
ThreadProps.v
Timer.v
TimerProps.v
Plugin.v
PluginProps.v
Util.v
UtilProps.v
Conf.v
ConfProps.v
Main.v
MainProps.v
MainConf.v
PluginFile.v
Socket.v
SocketProps.v
Netlink.v
NetlinkProps.v
NetlinkRun.v
NetlinkLive.v
Log.v
LogProps.v
Example.v
ExampleProps.v
Process.v
StartProps.v
ProcessProps.v
ThreadKeep.v
Running.v
Saved.v
ExampleLoaded.v
PluginThread.v
PluginRun.v
Shutdown.v
