(* ===== verification/Prelude.v ===== *)
(** * ClearSync: a verification development

    ClearSync is a daemon that loads plugins and runs them as threads.  The
    threads talk through events: every thread, and the main program, is an
    event client with a queue.  This file explains the development; below it
    are the definitions and lemmas that all of it shares.

    ** The program

    - csevent.cpp: events, and clients that register in one static vector.  A
      dispatch puts an event into the queue of one client, or a copy into the
      queue of each.  Flags make an event exclusive (it replaces a queued one of
      the same id), go to the front, stay in the queue (sticky) or survive its
      handling (persistent).
    - csthread.cpp: a thread is an event client that is started and joined.
    - cstimer.cpp: timers, and the thread that counts them down once a second
      and dispatches an event for each that is due.
    - csnetlink.cpp: the thread that asks the kernel for routes and links, and
      dispatches the answers to the clients that asked.
    - csplugin.cpp: a plugin is a thread with named variables that are stored in
      a state file; the loader opens the shared library a plugin comes from.
    - csconf.cpp: configuration files, in XML, through expat and virtual
      handlers.
    - csmain.cpp: the handlers of the main configuration, the scan of the
      plugin directory, the filters that hand events of one plugin to others,
      the signal handler, the main loop, options, start and end.
    - cssocket.cpp, cslog.cpp, csutil.cpp: stream sockets; loggers; regular
      expressions, commands, hexadecimal text, SHA-1, the critical section.
    - plugin/csplugin-example.cpp: a plugin that counts the events it handles.

    ** How the code is modelled

    A routine is a function of the state monad [M] below: it returns a value,
    throws a C++ exception with the state it leaves, or is [Stuck]: undefined
    behaviour (access through a dead or a null pointer, out of bounds, signed
    overflow, misuse of a mutex), waiting for ever, or an allocation that
    fails.  "Never stuck" is thus memory safety and freedom from deadlock at
    once.  Objects that the code shares live in stores ([gmap]) addressed by
    their pointers, so that aliasing and dangling pointers are visible; static
    members are fields of the state.  Machine integers are [Z] with the wrap
    or the overflow written out.  A mutex is null, free or held, and locking a
    held one is stuck, since between two operations of the model no other
    thread runs inside one; where interleaving matters (waiting for events, the
    usage protocols) the operations are the steps of a relation.  What the
    code calls outside the repository (the kernel, pthreads, expat, OpenSSL,
    dlopen, the C library's matchers and clocks) gives its results as arguments,
    over all of which the theorems quantify.  Each definition has the name of
    the C++ member it translates, or [Class_new] and [Class_delete] for
    constructors and destructors, [Class_member] where two classes share a name.

    ** The files, and what their theorems show

    - [Prelude], [Exception], [Bytes]: outcomes, loops, mutexes, a weakest
      precondition [wp] with its rules; exceptions; bytes and integers in them.
    - [Event] (csevent.cpp, csevent.h and the critical section of csutil.cpp):
      data and operations.  [EventInv]: the ownership invariant [core]/[wf] and
      the abstract queues [view].  [EventOps]: each operation against them.
      [EventProps]: dispatch, broadcast and pop refine the abstract queues; no
      protocol of use leaks, frees twice or deadlocks; exclusive events
      coalesce; quit reaches everyone; what a netlink broadcast breaks.
      [Bus]: the contract the other components use, a class, and its instance.
      [EventKeep]: routines on other events leave one that persists as it is.
    - [EventWait] ([EventPopWait]): the deadline arithmetic, and a relation that
      interleaves a waiting client with the others: it returns the event it
      finds, a dispatch wakes it, and the wake-up that can be lost.  A negative
      limit is a step to an undefined state: the code waits with an unset time.
    - [Thread], [ThreadProps] (csthread.cpp): threads are joined exactly once and
      a constructor that throws leaves nothing behind.
    - [Timer], [TimerProps] (cstimer.cpp), against the class of [Bus]: a tick
      refines its abstract effect, how often a timer fires as a closed
      formula, no use of timers breaks the thread, and in every state it can
      reach each operation on a live timer returns; its main loop ends.
    - [Plugin], [PluginProps] (csplugin.cpp): loading returns on every file
      content; what is saved is what is loaded, over a restart; typed access to
      variables.  The loader works on any state that has the open libraries.
    - [Util], [UtilProps] (csutil.cpp): hexadecimal round trip, the dump against
      a reference, SHA-1 of a file against SHA-1 of its bytes, lines of a
      command, groups of an expression.
    - [Conf], [ConfProps] (csconf.cpp): a well-formed document leaves no tag and
      gives each element, at any depth, its name, attributes and text, for any
      subclass that keeps the contract [HandlersOk]; an error makes a later
      [Reset] delete twice.
    - [Main], [MainProps] (csmain.cpp): who gets a plugin event, what the main
      loop does with the events before a quit event, the names of a filter, what
      --dump-state prints.
    - [MainConf]: the handlers of the main configuration keep the parser's
      contract with the invariant [main_ok] of the program (every pointer of
      the configuration is a live plugin, thread and event client with an open
      library), and so does reading the whole configuration, whatever fails.
      [PluginFile]: parsing the file of a plugin against a reference program
      that loads it and applies its settings.
    - [Socket], [SocketProps] (cssocket.cpp): reads and writes transfer exactly
      what was asked or tell, whatever the system returns; the outcomes of a
      connection attempt; descriptors are closed once.
    - [Netlink], [NetlinkProps] (csnetlink.cpp): the walk over a datagram routes
      every message to exactly the events the rule names; registration and
      requests; the thread ends; queries that dangle or get no answer.
      [NetlinkRun]: a query from its dispatch to the client that reads its
      answers.  [NetlinkLive]: one round with any datagram is safe whatever is
      registered, and what it may do to the queues of others.
    - [Log], [LogProps] (cslog.cpp): the life of loggers and where a line goes.
    - [Example], [ExampleProps] (the example plugin): events, timer and
      variables composed: what it counts survives a restart; its handlers keep
      the parser's contract.
    - [Process] (start and end in csmain.cpp): [main], the constructor and the
      destructor of [csMain] over the state of the whole process.
      [StartProps]: each step of the constructor keeps the invariant as far as
      the program is built; it returns with everything running, or throws and
      has unregistered the program.  [ProcessProps]: after any life of the
      program the destructor takes everything apart; the options that end the
      program, and its exit code.  [Running]: the main loop, the timer thread,
      the signal handler, the netlink thread and the others interleaved as one
      relation, in whose states the next thing each of them can do returns;
      [ThreadKeep]: they leave the events alone that the netlink thread has
      registered.  [Saved]: after any such life the
      destructor leaves each plugin's variables in its state file, and the next
      program reads them back.  [Shutdown]: on a signal every loop returns the
      next time it looks at its queue.
    - [ExampleLoaded]: constructor, configuration and destructor of the example
      plugin are what the program assumes of its plugins.  [PluginThread]: its
      [Entry] as turns, the calls between which other threads may run; alone
      they are the [Entry] of [Example].  [PluginRun]: these turns among the
      steps of [Running] (but the netlink rounds): never stuck, the count is
      right and stored, and the timer does not outlive the thread.

    ** Fuel

    Loops that are not structural take fuel, and a theorem or a comment says
    why what the code's caller gives them is enough: records of a state file
    (each takes at least 17 bytes; fuel: the file's length), messages of a
    datagram (at least 16 bytes each; fuel: its length), pages of a file for
    SHA-1 and lines of a command's output (at least a byte each; fuel: the
    input's length), the fields of an event filter (at least a character; fuel:
    the text's length), the main loops of csmain.cpp and of the example plugin
    (an event each; theorems give the number of events as a bound).  Loops
    over results of system calls recurse over the list of the results.

    ** Not modelled

    Calls of the logger inside the other components, and code under
    [_CS_DEBUG]: they change nothing the components see.  Spurious wake-ups of
    condition variables.  Buffering inside [FILE]: what is written is in the
    file at once.  The sets of signals: the threads get the signals they wait
    for as results.  [csEventPlugin] and [csEvent] accessors that only return a
    member are fields.  Destructors that only release memory the model does not
    count ([csRegEx], [csEventNetlink], [csMainConf]).  Interleaving inside one
    call: the turns of [PluginThread] and the steps of [Running] are whole calls
    or more.  A pop that throws, since a sticky netlink event cannot be copied,
    leaves its queue locked ([EventPop_refines]): the protocols of [EventProps]
    and [Running] have no step for it.  Read errors of [fread] in [csSHA1], which
    the code takes for the end of the file.  The headers' declarations, build,
    packaging and service files.

    ** What the theorems on the whole program assume

    [system_ok] and [disk_loadable], for the start, the run and the end of the
    program: each configuration file is missing, unreadable, no XML from the
    start, or a document of one page whose inner elements the program accepts;
    no file that is loaded as a state file makes an allocation fail; addresses
    and thread ids that are given out are not in use.  What goes wrong without
    them is shown by [error_double_free] and by the one bad outcome of
    [LoadState_total].  [Running] and [PluginRun] assume besides that what is
    sent to the main program, to the netlink thread and to the plugin is what
    these can handle, and that persistent events are not freed while the
    netlink thread has them.

    ** What could follow

    The netlink thread's rounds, and several example plugins at once, in
    [PluginRun]; the accepting socket in a server loop. *)

From stdpp Require Export base gmap gmultiset list strings numbers sorting.
From Stdlib Require Export Lia.

(** ** Outcomes of a piece of C++ code

    A routine that runs in a state [S] either returns a value, leaves with a
    C++ exception (the state keeps every change made before the [throw]), or
    is stuck: undefined behaviour, a thread that waits for ever, or an exception
    that ends the process. *)

Inductive fault :=
  | UseAfterFree (p : Z)    (* access or delete through a dead pointer *)
  | NullDeref               (* access through a null pointer *)
  | Deadlock                (* lock of a mutex that is never released *)
  | BadUnlock               (* unlock of a mutex that is not locked *)
  | BadDestroy              (* destruction of a mutex that is locked *)
  | SignedOverflow          (* arithmetic outside the range of the type *)
  | OutOfBounds             (* access outside an array or a vector *)
  | BadAlloc                (* [new] fails; nothing in the program catches it *)
  | OutOfFuel.              (* the bound of a modelled loop: never reached *)

Inductive outcome (E S A : Type) : Type :=
  | Ok (a : A) (s : S)
  | Throw (e : E) (s : S)
  | Stuck (f : fault).
Arguments Ok {E S A}.
Arguments Throw {E S A}.
Arguments Stuck {E S A}.

Definition M (E S A : Type) : Type := S → outcome E S A.

#[export] Instance M_ret {E S} : MRet (M E S) := λ A a s, Ok a s.
#[export] Instance M_bind {E S} : MBind (M E S) := λ A B f m s,
  match m s with
  | Ok a s' => f a s'
  | Throw e s' => Throw e s'
  | Stuck f => Stuck f
  end.

Section combinators.
Context {E S : Type}.

Definition throw {A} (e : E) : M E S A := λ s, Throw e s.
Definition stuck {A} (f : fault) : M E S A := λ _, Stuck f.
Definition gets {A} (f : S → A) : M E S A := λ s, Ok (f s) s.
Definition modify (f : S → S) : M E S unit := λ s, Ok tt (f s).

(** [if (b) m] *)
Definition when (b : bool) (m : M E S unit) : M E S unit :=
  if b then m else mret tt.

(** A [for] loop over the elements a container has when the loop starts. *)
Fixpoint foreach {A} (l : list A) (f : A → M E S unit) : M E S unit :=
  match l with
  | [] => mret tt
  | a :: l => f a;; foreach l f
  end.

(** [try m catch (e) h] *)
Definition try_catch {A} (m : M E S A) (h : E → M E S A) : M E S A := λ s,
  match m s with
  | Throw e s' => h e s'
  | o => o
  end.
End combinators.

(** Run a routine of a component inside the state of its owner. *)
Definition zoom {E S T A} (get : S → T) (put : T → S → S) (m : M E T A) :
    M E S A := λ s,
  match m (get s) with
  | Ok a t => Ok a (put t s)
  | Throw e t => Throw e (put t s)
  | Stuck f => Stuck f
  end.

(** ** [time_t]: 64-bit signed arithmetic, undefined on overflow *)

Definition INT64_MIN : Z := - 2 ^ 63.
Definition INT64_MAX : Z := 2 ^ 63 - 1.

Definition add_time {E S} (a b : Z) : M E S Z :=
  if (INT64_MIN <=? a + b)%Z && (a + b <=? INT64_MAX)%Z then mret (a + b)%Z
  else stuck SignedOverflow.

#[global] Arguments add_time : simpl never.

Lemma add_time_ok {E S} a b s :
  (INT64_MIN ≤ a + b ≤ INT64_MAX)%Z → add_time (E:=E) (S:=S) a b s = Ok (a + b)%Z s.
Proof.
  intros [Hl Hu]. unfold add_time.
  by rewrite (proj2 (Z.leb_le _ _) Hl), (proj2 (Z.leb_le _ _) Hu).
Qed.

Lemma bind_ok {E S A B} (m : M E S A) (f : A → M E S B) s a s' :
  m s = Ok a s' → (m ≫= f) s = f a s'.
Proof. unfold mbind, M_bind. by intros ->. Qed.

Lemma bind_inv {E S A B} (m : M E S A) (f : A → M E S B) s b s2 :
  (m ≫= f) s = Ok b s2 → ∃ a s1, m s = Ok a s1 ∧ f a s1 = Ok b s2.
Proof. unfold mbind, M_bind. destruct (m s) as [a s1| |]; [eauto|done..]. Qed.

Lemma foreach_app_ok {E S A} (l1 l2 : list A) (f : A → M E S unit) s s1 :
  foreach l1 f s = Ok tt s1 → foreach (l1 ++ l2) f s = foreach l2 f s1.
Proof.
  revert s. induction l1 as [|x l1 IH]; intros s; [by intros [= ->]|]. cbn.
  unfold mbind, M_bind. destruct (f x s); [apply IH|done..].
Qed.

Lemma zoom_ok {E S T A} (get : S → T) put (m : M E T A) s a t :
  m (get s) = Ok a t → zoom get put m s = Ok a (put t s).
Proof. unfold zoom. by intros ->. Qed.

(** ** Mutexes: a null pointer, or a mutex and whether it is locked *)

Inductive mutex := MNull | MFree | MHeld.

#[export] Instance mutex_eq_dec : EqDecision mutex.
Proof. solve_decision. Defined.

(** [pthread_mutex_lock] and [pthread_mutex_unlock] on the mutex a state
    holds at [get].  Operations run one at a time, so a mutex that is locked
    when an operation starts was left locked and is never released. *)
Definition mutex_lock {E S} (get : S → mutex) (put : mutex → S → S) :
    M E S unit := λ s,
  match get s with
  | MFree => Ok tt (put MHeld s)
  | MHeld => Stuck Deadlock
  | MNull => Stuck NullDeref
  end.

Definition mutex_unlock {E S} (get : S → mutex) (put : mutex → S → S) :
    M E S unit := λ s,
  match get s with
  | MHeld => Ok tt (put MFree s)
  | MFree => Stuck BadUnlock
  | MNull => Stuck NullDeref
  end.

(** ** Total-correctness predicate transformer

    [wp m Q X s]: from [s], [m] is never stuck; it returns with [Q] or leaves
    with an exception and [X]. *)

Definition wp {E S A} (m : M E S A) (Q : A → S → Prop) (X : E → S → Prop)
    (s : S) : Prop :=
  match m s with
  | Ok a s' => Q a s'
  | Throw e s' => X e s'
  | Stuck _ => False
  end.

(** No exception leaves the routine. *)
Abbreviation nothrow := (λ _ _, False).

Section wp.
Context {E S : Type}.
Implicit Types (s : S) (e : E).

Lemma wp_ret {A} (a : A) Q X s : wp (E:=E) (mret a) Q X s ↔ Q a s.
Proof. done. Qed.

Lemma wp_bind {A B} (m : M E S A) (f : A → M E S B) Q X s :
  wp (m ≫= f) Q X s ↔ wp m (λ a, wp (f a) Q X) X s.
Proof. unfold wp, mbind, M_bind. by destruct (m s). Qed.

Lemma wp_throw {A} (e : E) Q X s : wp (throw (A:=A) e) Q X s ↔ X e s.
Proof. done. Qed.

Lemma wp_gets {A} (f : S → A) Q X s : wp (E:=E) (gets f) Q X s ↔ Q (f s) s.
Proof. done. Qed.

Lemma wp_modify f Q X s : wp (E:=E) (modify f) Q X s ↔ Q tt (f s).
Proof. done. Qed.

Lemma wp_mono {A} (m : M E S A) (Q Q' : A → S → Prop) (X X' : E → S → Prop) s :
  wp m Q X s → (∀ a s', Q a s' → Q' a s') → (∀ e s', X e s' → X' e s') →
  wp m Q' X' s.
Proof. unfold wp. destruct (m s); auto. Qed.

Lemma wp_conseq {A} (m : M E S A) (Q Q' : A → S → Prop) (X : E → S → Prop) s :
  wp m Q X s → (∀ a s', Q a s' → Q' a s') → wp m Q' X s.
Proof. intros Hm HQ. by apply (wp_mono m Q Q' X X). Qed.

Lemma wp_ok {A} (m : M E S A) a s' Q X s :
  m s = Ok a s' → Q a s' → wp m Q X s.
Proof. unfold wp. by intros ->. Qed.

Lemma wp_inv {A} (m : M E S A) Q s :
  wp m Q nothrow s → ∃ a s', m s = Ok a s' ∧ Q a s'.
Proof. unfold wp. destruct (m s); naive_solver. Qed.

Lemma wp_run {A} (m : M E S A) (Q : A → S → Prop) (X : E → S → Prop) s a s' :
  wp m Q X s → m s = Ok a s' → Q a s'.
Proof. unfold wp. intros Hm Hrun. by rewrite Hrun in Hm. Qed.

Lemma wp_try_catch {A} (m : M E S A) h Q X s :
  wp (try_catch m h) Q X s ↔ wp m Q (λ e, wp (h e) Q X) s.
Proof. unfold wp, try_catch. by destruct (m s). Qed.

Lemma wp_zoom {T A} (get : S → T) put (m : M E T A) Q X s :
  wp (zoom get put m) Q X s ↔
  wp m (λ a t, Q a (put t s)) (λ e t, X e (put t s)) (get s).
Proof. unfold wp, zoom. by destruct (m (get s)). Qed.

Lemma wp_lock get put Q X s :
  wp (E:=E) (mutex_lock get put) Q X s ↔ get s = MFree ∧ Q tt (put MHeld s).
Proof. unfold wp, mutex_lock. destruct (get s); split; by try intros []. Qed.

Lemma wp_unlock get put Q X s :
  wp (E:=E) (mutex_unlock get put) Q X s ↔ get s = MHeld ∧ Q tt (put MFree s).
Proof. unfold wp, mutex_unlock. destruct (get s); split; by try intros []. Qed.

(** Loops: [I done s] holds after the body ran on the elements [done]. *)
Lemma wp_foreach {A} (I : list A → S → Prop) (l : list A)
    (f : A → M E S unit) (X : E → S → Prop) s :
  I [] s →
  (∀ done a rest s', l = done ++ a :: rest → I done s' →
    wp (f a) (λ _, I (done ++ [a])) X s') →
  wp (foreach l f) (λ _, I l) X s.
Proof.
  intros H0 Hstep.
  enough (∀ rest done, l = done ++ rest → ∀ s', I done s' →
    wp (foreach rest f) (λ _, I l) X s') as Hgen by by apply (Hgen l []).
  induction rest as [|a rest IH]; intros done Hl s' HI; simpl.
  - by rewrite app_nil_r in Hl; subst.
  - apply wp_bind. eapply wp_mono; [by eapply Hstep| |done].
    intros [] s'' HI'. apply (IH (done ++ [a])); [|done].
    by rewrite <-app_assoc.
Qed.

Lemma wp_foreach_app {A} (l1 l2 : list A) (f : A → M E S unit) Q X s :
  wp (foreach l1 f) (λ _, wp (foreach l2 f) Q X) X s → wp (foreach (l1 ++ l2) f) Q X s.
Proof.
  revert s. induction l1 as [|a l1 IH]; intros s; [done|]. cbn. rewrite !wp_bind.
  intros Hf. eapply wp_conseq; [done|]. intros [] s'. apply IH.
Qed.
End wp.

Create Rewrite HintDb wp.
#[export] Hint Rewrite @wp_bind @wp_ret @wp_gets @wp_modify @wp_throw
  @wp_zoom @wp_lock @wp_unlock @wp_try_catch : wp.

(** Execute the primitive steps at the head of a [wp] goal. *)
Ltac wp_steps := repeat (progress (autorewrite with wp; cbn beta)).

(** Split conjunctions and solve what is immediate. *)
Ltac split_done := split_and?; try done.

(** Case split on every decision and boolean test in the goal. *)
Ltac cases := repeat (case_decide || case_match); simplify_eq.

(** Run code on a store: reduce, and look up what is known to be there. *)
Ltac run_lookups := repeat (progress cbn || rewrite lookup_insert_eq ||
  match goal with H : ?m !! ?k = _ |- context [?m !! ?k] => rewrite H end).

(** ** Counting occurrences and summing over lists *)

Definition cnt (p : Z) (q : list Z) : nat := count_occ Z.eq_dec q p.
#[global] Arguments cnt : simpl never.

Lemma cnt_nil p : cnt p [] = 0. Proof. done. Qed.

Lemma cnt_cons p x q :
  cnt p (x :: q) = (if decide (x = p) then 1 else 0) + cnt p q.
Proof. unfold cnt. simpl. destruct (Z.eq_dec x p); case_decide; lia. Qed.

Lemma cnt_app p q1 q2 : cnt p (q1 ++ q2) = cnt p q1 + cnt p q2.
Proof. apply count_occ_app. Qed.

Lemma cnt_pos p q : p ∈ q ↔ 0 < cnt p q.
Proof. unfold cnt. rewrite list_elem_of_In, (count_occ_In Z.eq_dec). lia. Qed.

Lemma cnt_zero p q : p ∉ q ↔ cnt p q = 0.
Proof. rewrite cnt_pos. lia. Qed.

Create Rewrite HintDb cnt.
#[export] Hint Rewrite cnt_nil cnt_cons cnt_app : cnt.

(** The sum of a count over the elements of a duplicate-free list changes by
    the change at the one element where two counts differ. *)
Lemma sum_list_with_update {A} (f g : A → nat) (l : list A) (c : A) :
  NoDup l → c ∈ l → (∀ a, a ≠ c → f a = g a) →
  sum_list_with f l + g c = sum_list_with g l + f c.
Proof.
  intros Hnd Hc Hfg. induction Hnd as [|a l Ha Hnd IH]; [by apply elem_of_nil in Hc|].
  simpl. apply elem_of_cons in Hc as [->|Hc].
  - enough (sum_list_with f l = sum_list_with g l) by lia.
    clear IH Hnd. induction l as [|b l IH]; [done|]. simpl.
    apply not_elem_of_cons in Ha as [Hne Ha].
    rewrite (Hfg b), IH by done. done.
  - assert (a ≠ c) by by intros ->.
    rewrite (Hfg a) by done. specialize (IH Hc). lia.
Qed.

Lemma sum_list_with_ext {A} (f g : A → nat) (l : list A) :
  (∀ a, a ∈ l → f a = g a) → sum_list_with f l = sum_list_with g l.
Proof.
  intros Hfg. induction l as [|a l IH]; [done|]. simpl.
  rewrite Hfg, IH; set_solver.
Qed.

Lemma sum_list_with_zero {A} (f : A → nat) (l : list A) :
  sum_list_with f l = 0 ↔ ∀ a, a ∈ l → f a = 0.
Proof.
  induction l as [|a l IH]; simpl; [set_solver|].
  rewrite Nat.eq_add_0, IH. set_solver.
Qed.

Lemma sum_list_with_elem {A} (f : A → nat) (l : list A) (a : A) :
  a ∈ l → f a ≤ sum_list_with f l.
Proof.
  induction l as [|b l IH]; simpl; [set_solver|].
  intros [->|Ha]%elem_of_cons; [lia|]. specialize (IH Ha). lia.
Qed.

Lemma sum_list_with_elem2 {A} (f : A → nat) (l : list A) (a b : A) :
  NoDup l → a ∈ l → b ∈ l → a ≠ b → f a + f b ≤ sum_list_with f l.
Proof.
  induction 1 as [|x l Hx Hnd IH]; [set_solver|]; simpl.
  intros [->|Ha]%elem_of_cons [->|Hb]%elem_of_cons Hab; try done.
  - pose proof (sum_list_with_elem f l b Hb). lia.
  - pose proof (sum_list_with_elem f l a Ha). lia.
  - specialize (IH Ha Hb Hab). lia.
Qed.
