(* ===== verification/Exception.v ===== *)
(** * Exceptions (include/clearsync/csexception.h)

    [csException] carries the arguments of its constructors: [eint],
    [estring] and the text that [what()] returns, which is either given or is
    [strerror] of an error number.  The classes derived from it in the other
    headers are the constructors of [csClass]. *)

From S2P Require Import Prelude.

(** ** Error numbers of the platform (Linux) *)

Definition EINTR : Z := 4.
Definition EAGAIN : Z := 11.
Definition EEXIST : Z := 17.
Definition EINVAL : Z := 22.
Definition EISCONN : Z := 106.
Definition ETIMEDOUT : Z := 110.
Definition EALREADY : Z := 114.
Definition EINPROGRESS : Z := 115.

(** ** The exception classes *)

Inductive csClass :=
  | CsException
  | CsDebugException (efile : string) (eline : Z)
  | CsXmlParseException (row col byte : Z)
  | CsXmlKeyNotFound
  | CsSocketTimeout
  | CsSocketConnecting
  | CsSocketHangup
  | CsUsageException
  | CsDumpStateException
  | CsInvalidOptionException.

Inductive csWhat :=
  | WhatText (s : string)       (* runtime_error(s) *)
  | WhatErrno (e : Z).          (* runtime_error(strerror(e)) *)

Record csException := CsExc {
  cls : csClass;
  what_arg : csWhat;
  eint : Z;
  estring : string;
}.

Definition csException_void : csException :=
  CsExc CsException (WhatText "csException") (-1) "csException".
Definition csException_str (s : string) : csException :=
  CsExc CsException (WhatText "csException") (-1) s.
Definition csException_int (e : Z) : csException :=
  CsExc CsException (WhatErrno e) e "csException".
Definition csException_int_str (e : Z) (s : string) : csException :=
  CsExc CsException (WhatErrno e) e s.
Definition csException_str_str (s es : string) : csException :=
  CsExc CsException (WhatText s) 0 es.

Definition csDebugException_new (e : Z) (s : string) (l : Z) (f : string) :
    csException :=
  CsExc (CsDebugException f l) (WhatErrno e) e s.

(** [what()]: [strerror] is the library's. *)
Definition what (strerror : Z → string) (e : csException) : string :=
  match what_arg e with
  | WhatText s => s
  | WhatErrno n => strerror n
  end.

(** Programs of this development throw [csException]s. *)
Abbreviation prog := (M csException).
