(* ===== verification/Bytes.v ===== *)
(** * Bytes, and integers stored in them

    Files, messages and plugin variables are lists of bytes; the program
    stores [size_t], [unsigned long] and [float] in the byte order of the
    machine (x86-64: least significant byte first). *)

From S2P Require Import Prelude.
From Stdlib Require Export Strings.Byte.

Definition byte_val (b : byte) : Z := Z.of_N (Byte.to_N b).
Definition byte_of (z : Z) : byte :=
  match Byte.of_N (Z.to_N (z `mod` 256)) with Some b => b | None => x00 end.

Lemma byte_val_range b : (0 ≤ byte_val b < 256)%Z.
Proof. unfold byte_val. by destruct b. Qed.

Lemma byte_of_val b : byte_of (byte_val b) = b.
Proof. by destruct b. Qed.

Lemma byte_val_of z : byte_val (byte_of z) = (z `mod` 256)%Z.
Proof.
  unfold byte_val, byte_of. pose proof (Z.mod_pos_bound z 256 ltac:(lia)) as Hr.
  destruct (Byte.of_N _) as [b|] eqn:Hb.
  - apply Byte.to_of_N in Hb. rewrite Hb. lia.
  - apply Byte.of_N_None_iff in Hb. lia.
Qed.

(** [bs] written over [c] at [pos]. *)
Definition overwrite (pos : nat) (bs c : list byte) : list byte :=
  take pos c ++ bs ++ drop (pos + length bs) c.

Lemma length_overwrite pos bs c :
  pos + length bs ≤ length c → length (overwrite pos bs c) = length c.
Proof. intros. unfold overwrite. rewrite !length_app, length_take, length_drop. lia. Qed.

Lemma overwrite_nil pos c : overwrite pos [] c = c.
Proof. unfold overwrite. cbn. rewrite Nat.add_0_r. apply take_drop. Qed.

(** Two writes, the second where the first ended, are one. *)
Lemma overwrite_app pos bs1 bs2 c :
  pos ≤ length c →
  overwrite (pos + length bs1) bs2 (overwrite pos bs1 c) = overwrite pos (bs1 ++ bs2) c.
Proof.
  intros Hpos. unfold overwrite.
  assert (length (take pos c ++ bs1) = pos + length bs1) as Hl
    by (rewrite length_app, length_take; lia).
  rewrite (app_assoc (take pos c) bs1), take_app_length' by done.
  rewrite drop_app_ge by lia. rewrite drop_drop, !length_app, <-!app_assoc, length_take.
  do 3 f_equal. f_equal. lia.
Qed.

(** [n] bytes of [z], least significant first. *)
Fixpoint le_bytes (n : nat) (z : Z) : list byte :=
  match n with
  | O => []
  | S n => byte_of z :: le_bytes n (z / 256)
  end.

Fixpoint le_val (bs : list byte) : Z :=
  match bs with
  | [] => 0
  | b :: bs => byte_val b + 256 * le_val bs
  end.

Lemma length_le_bytes n z : length (le_bytes n z) = n.
Proof. revert z. induction n as [|n IH]; intros z; cbn; [done|by rewrite IH]. Qed.

Lemma le_val_bytes n z : (0 ≤ z < 256 ^ Z.of_nat n)%Z → le_val (le_bytes n z) = z.
Proof.
  revert z. induction n as [|n IH]; intros z Hz.
  { cbn in *. lia. }
  cbn. rewrite byte_val_of, IH.
  - pose proof (Z.div_mod z 256). lia.
  - rewrite Nat2Z.inj_succ, Z.pow_succ_r in Hz by lia. split.
    + apply Z.div_pos; lia.
    + apply Z.div_lt_upper_bound; lia.
Qed.

Lemma le_val_range bs : (0 ≤ le_val bs < 256 ^ Z.of_nat (length bs))%Z.
Proof.
  induction bs as [|b bs IH]; [cbn; lia|]. cbn [le_val length].
  rewrite Nat2Z.inj_succ, Z.pow_succ_r by lia. pose proof (byte_val_range b). lia.
Qed.

Lemma le_bytes_val bs : le_bytes (length bs) (le_val bs) = bs.
Proof.
  induction bs as [|b bs IH]; [done|]. cbn. pose proof (byte_val_range b).
  replace ((byte_val b + 256 * le_val bs) / 256)%Z with (le_val bs).
  2: { rewrite Z.mul_comm, Z.div_add, Z.div_small by lia. lia. }
  rewrite IH. f_equal. rewrite <-(byte_of_val b) at 2. unfold byte_of.
  by rewrite Z.mul_comm, Z.mod_add by lia.
Qed.

(** ** Strings as bytes *)

Definition str_bytes (s : string) : list byte := String.list_byte_of_string s.
Definition bytes_str (bs : list byte) : string := String.string_of_list_byte bs.

Lemma bytes_str_bytes s : bytes_str (str_bytes s) = s.
Proof. apply String.string_of_list_byte_of_string. Qed.

Lemma length_str_bytes s : length (str_bytes s) = String.length s.
Proof.
  unfold str_bytes. induction s as [|a s IH]; cbn; [done|]. by rewrite <-IH.
Qed.

#[global] Arguments le_bytes : simpl never.
#[global] Arguments le_val : simpl never.
