(* ===== verification/Event.v ===== *)
(** * Events and event clients (csevent.cpp, csevent.h): data and operations

    Event objects and client objects live in shared stores addressed by
    pointers, because the code shares them: one event may sit in several
    queues, and every client can reach every other client through the static
    vector [event_client]. *)

From S2P Require Import Prelude Exception.
From Stdlib Require Import Strings.Byte.

(** ** Reserved event ids and pointers *)

Definition csEVENT_QUIT : Z := 0x0000.
Definition csEVENT_RELOAD : Z := 0x0001.
Definition csEVENT_TIMER : Z := 0x0002.
Definition csEVENT_PLUGIN : Z := 0x0003.
Definition csEVENT_NETLINK : Z := 0x0004.
Definition csEVENT_USER : Z := 0x1000.

Definition NULL : Z := 0.
(** [(csEventClient * ) -1]: the all-ones 64-bit address. *)
Definition CS_EVENT_BROADCAST : Z := 2 ^ 64 - 1.
(** [(csEvent * ) NULL] *)
Definition CS_EVENT_NONE : Z := NULL.

(** ** Flags: an [unsigned long] used as a bit set *)

Definition FlagNone : Z := 0x00.
Definition Exclusive : Z := 0x01.
Definition HighPriority : Z := 0x02.
Definition Sticky : Z := 0x04.
Definition Persistent : Z := 0x08.

(** [(bool)(flags & bit)] *)
Definition test_flag (bit flags : Z) : bool := negb (Z.land flags bit =? 0)%Z.

(** [if (enable) flags |= bit; else flags &= ~bit;] *)
Definition assign_flag (bit : Z) (enable : bool) (flags : Z) : Z :=
  if enable then Z.lor flags bit else Z.land flags (Z.lnot bit).

(** ** Event objects *)

Inductive NetlinkType := NL_Query | NL_RouteWatch.

(** The dynamic class of an event object, with the fields the class adds. *)
Inductive csEventClass :=
  | EvPlain                                                (* csEvent *)
  | EvPlugin (key_value : gmap string string)              (* csEventPlugin *)
  | EvTimer (timer : Z)                                    (* csEventTimer *)
  | EvNetlink (type : NetlinkType) (query query_seq : Z)
      (reply : list (list byte)).                          (* csEventNetlink *)

Record csEvent := CsEvent {
  ev_id : Z;
  ev_flags : Z;
  ev_src : Z;
  ev_dst : Z;
  ev_user_data : Z;
  ev_class : csEventClass;
}.

Definition csEvent_new (id flags : Z) : csEvent :=
  CsEvent id flags NULL NULL NULL EvPlain.

Definition csEventPlugin_new (type : string) : csEvent :=
  CsEvent csEVENT_PLUGIN FlagNone NULL NULL NULL
    (EvPlugin {[ "event_type" := type ]}).

Definition csEventTimer_new (timer : Z) : csEvent :=
  CsEvent csEVENT_TIMER FlagNone NULL NULL NULL (EvTimer timer).

Definition csEventNetlink_new (type : NetlinkType) (query : Z) : csEvent :=
  CsEvent csEVENT_NETLINK FlagNone NULL NULL NULL (EvNetlink type query 0 []).

Definition GetId (e : csEvent) : Z := ev_id e.
Definition GetFlags (e : csEvent) : Z := ev_flags e.
Definition GetSource (e : csEvent) : Z := ev_src e.
Definition GetTarget (e : csEvent) : Z := ev_dst e.

Definition SetSource (src : Z) (e : csEvent) : csEvent :=
  CsEvent (ev_id e) (ev_flags e) src (ev_dst e) (ev_user_data e) (ev_class e).
Definition SetTarget (dst : Z) (e : csEvent) : csEvent :=
  CsEvent (ev_id e) (ev_flags e) (ev_src e) dst (ev_user_data e) (ev_class e).
Definition set_flags (f : Z → Z) (e : csEvent) : csEvent :=
  CsEvent (ev_id e) (f (ev_flags e)) (ev_src e) (ev_dst e) (ev_user_data e)
    (ev_class e).
Definition set_class (c : csEventClass) (e : csEvent) : csEvent :=
  CsEvent (ev_id e) (ev_flags e) (ev_src e) (ev_dst e) (ev_user_data e) c.

Definition IsExclusive (e : csEvent) : bool := test_flag Exclusive (ev_flags e).
Definition IsHighPriority (e : csEvent) : bool :=
  test_flag HighPriority (ev_flags e).
Definition IsSticky (e : csEvent) : bool := test_flag Sticky (ev_flags e).
Definition IsPersistent (e : csEvent) : bool := test_flag Persistent (ev_flags e).

#[global] Arguments IsExclusive : simpl never.
#[global] Arguments IsHighPriority : simpl never.
#[global] Arguments IsSticky : simpl never.
#[global] Arguments IsPersistent : simpl never.

Definition SetExclusive (enable : bool) : csEvent → csEvent :=
  set_flags (assign_flag Exclusive enable).
Definition SetHighPriority (enable : bool) : csEvent → csEvent :=
  set_flags (assign_flag HighPriority enable).
Definition SetSticky (enable : bool) : csEvent → csEvent :=
  set_flags (assign_flag Sticky enable).
Definition SetPersistent (enable : bool) : csEvent → csEvent :=
  set_flags (assign_flag Persistent enable).

Definition GetUserData (e : csEvent) : Z := ev_user_data e.
Definition SetUserData (user_data : Z) (e : csEvent) : csEvent :=
  CsEvent (ev_id e) (ev_flags e) (ev_src e) (ev_dst e) user_data (ev_class e).

(** [csEventPlugin::GetValue] returns the value instead of filling a
    reference; [None] is its [false]. *)
Definition GetValue (key : string) (key_value : gmap string string) :
    option string := key_value !! key.
Definition SetValue (key value : string) (key_value : gmap string string) :
    gmap string string := <[key := value]> key_value.

(** The virtual [Clone]: the object a copy constructor makes.  The class
    [csEventTimer] does not override it, so its copy is a plain [csEvent];
    [csEventNetlink] refuses. *)
Definition Clone_of (e : csEvent) : csEvent + csException :=
  match ev_class e with
  | EvPlain | EvTimer _ => inl (set_class EvPlain e)
  | EvPlugin kv => inl (set_class (EvPlugin kv) e)
  | EvNetlink _ _ _ _ => inr (csException_int_str EINVAL "Broadcast/clone")
  end.

#[global] Arguments Clone_of : simpl never.

(** ** Event clients and the state they share *)

Record csEventClient := EventClient {
  event_enable : bool;
  event_queue : list Z;               (* vector<csEvent *> *)
  event_queue_mutex : mutex;
  event_condition : nat;              (* broadcasts on the condition so far *)
}.

(** [csCriticalSection] (csutil.cpp): its static members. *)
Record critical := Critical {
  crit_instance : Z;
  crit_mutex : mutex;
}.

Record world := World {
  heap : gmap Z csEvent;              (* live event objects *)
  brk : Z;                            (* addresses handed out by new *)
  clients : gmap Z csEventClient;     (* live event client objects *)
  event_client : list Z;              (* static vector<csEventClient *> *)
  event_client_mutex : mutex;
  crit : critical;
}.

Definition set_heap (h : gmap Z csEvent) (w : world) : world :=
  World h (brk w) (clients w) (event_client w) (event_client_mutex w)
    (crit w).
Definition set_clients (c : gmap Z csEventClient) (w : world) : world :=
  World (heap w) (brk w) c (event_client w) (event_client_mutex w)
    (crit w).
Definition set_event_client (l : list Z) (w : world) : world :=
  World (heap w) (brk w) (clients w) l (event_client_mutex w) (crit w).
Definition set_client_mutex (m : mutex) (w : world) : world :=
  World (heap w) (brk w) (clients w) (event_client w) m (crit w).
Definition set_crit (c : critical) (w : world) : world :=
  World (heap w) (brk w) (clients w) (event_client w) (event_client_mutex w) c.

Definition set_queue (q : list Z) (c : csEventClient) : csEventClient :=
  EventClient (event_enable c) q (event_queue_mutex c) (event_condition c).
Definition set_queue_mutex (m : mutex) (c : csEventClient) : csEventClient :=
  EventClient (event_enable c) (event_queue c) m (event_condition c).
Definition set_enable (b : bool) (c : csEventClient) : csEventClient :=
  EventClient b (event_queue c) (event_queue_mutex c) (event_condition c).
Definition cond_broadcast (c : csEventClient) : csEventClient :=
  EventClient (event_enable c) (event_queue c) (event_queue_mutex c)
    (S (event_condition c)).

(** The static members as the program starts, nothing allocated. *)
Definition world0 : world := World ∅ 1 ∅ [] MNull (Critical NULL MNull).

(** ** Memory *)

(** [new csEvent...]: a fresh address. *)
Definition ev_new (e : csEvent) : prog world Z := λ w,
  Ok (brk w) (World (<[brk w := e]> (heap w)) (brk w + 1) (clients w)
    (event_client w) (event_client_mutex w) (crit w)).

(** Access through an event pointer. *)
Definition ev_load (p : Z) : prog world csEvent := λ w,
  match heap w !! p with
  | Some e => Ok e w
  | None => Stuck (UseAfterFree p)
  end.

Definition ev_store (p : Z) (e : csEvent) : prog world unit := λ w,
  match heap w !! p with
  | Some _ => Ok tt (set_heap (<[p := e]> (heap w)) w)
  | None => Stuck (UseAfterFree p)
  end.

(** [delete event] *)
Definition ev_delete (p : Z) : prog world unit := λ w,
  match heap w !! p with
  | Some _ => Ok tt (set_heap (delete p (heap w)) w)
  | None => Stuck (UseAfterFree p)
  end.

(** Access through a client pointer. *)
Definition client_get (c : Z) : prog world csEventClient := λ w,
  match clients w !! c with
  | Some cl => Ok cl w
  | None => Stuck (UseAfterFree c)
  end.

Definition client_put (c : Z) (cl : csEventClient) (w : world) : world :=
  set_clients (<[c := cl]> (clients w)) w.

Definition client_update (c : Z) (f : csEventClient → csEventClient) :
    prog world unit :=
  cl ← client_get c; modify (client_put c (f cl)).

(** ** Locks *)

Definition lock_clients : prog world unit :=
  mutex_lock event_client_mutex set_client_mutex.
Definition unlock_clients : prog world unit :=
  mutex_unlock event_client_mutex set_client_mutex.

Definition lock_queue (c : Z) : prog world unit :=
  cl ← client_get c;
  mutex_lock (λ _, event_queue_mutex cl)
    (λ m, client_put c (set_queue_mutex m cl)).
Definition unlock_queue (c : Z) : prog world unit :=
  cl ← client_get c;
  mutex_unlock (λ _, event_queue_mutex cl)
    (λ m, client_put c (set_queue_mutex m cl)).

(** ** The critical section (csutil.cpp) *)

Definition set_crit_mutex (m : mutex) (w : world) : world :=
  set_crit (Critical (crit_instance (crit w)) m) w.

Definition csCriticalSection_new (this : Z) : prog world unit :=
  k ← gets crit;
  if negb (crit_instance k =? NULL)%Z
  then throw (csException_int_str EEXIST "csCriticalSection")
  else modify (set_crit (Critical this MFree)).

Definition csCriticalSection_delete (this : Z) : prog world unit :=
  k ← gets crit;
  if negb (crit_instance k =? this)%Z then mret tt
  else modify (set_crit_mutex MNull).

(** [if (instance && mutex)] *)
Definition crit_active (w : world) : bool :=
  negb (crit_instance (crit w) =? NULL)%Z && bool_decide (crit_mutex (crit w) ≠ MNull).

Definition csCriticalSection_Lock : prog world unit :=
  b ← gets crit_active;
  when b (mutex_lock (crit_mutex ∘ crit) set_crit_mutex).

Definition csCriticalSection_Unlock : prog world unit :=
  b ← gets crit_active;
  when b (mutex_unlock (crit_mutex ∘ crit) set_crit_mutex).

(** ** Operations of [csEventClient] *)

(** [csEvent *Clone(void)] through a pointer: the copy is a new object. *)
Definition Clone (p : Z) : prog world Z :=
  e ← ev_load p;
  match Clone_of e with
  | inl e' => ev_new e'
  | inr x => throw x
  end.

Definition EventDestroy (p : Z) : prog world unit :=
  e ← ev_load p;
  when (negb (IsPersistent e)) (ev_delete p).

(** The loop of [EventPush] over the queue of an exclusive event's target:
    the first queued event with the same id is destroyed and erased. *)
Fixpoint exclusive_scan (id : Z) (q : list Z) : prog world (list Z) :=
  match q with
  | [] => mret []
  | p :: q' =>
      e ← ev_load p;
      if (GetId e =? id)%Z
      then EventDestroy p;; mret q'
      else (r ← exclusive_scan id q'; mret (p :: r))
  end.

Definition EventPush (this event src : Z) : prog world unit :=
  c ← client_get this;
  if negb (event_enable c) then EventDestroy event
  else
    lock_queue this;;
    e ← ev_load event;
    when (IsExclusive e)
      (c ← client_get this;
       q ← exclusive_scan (GetId e) (event_queue c);
       client_update this (set_queue q));;
    e ← ev_load event;
    ev_store event (SetSource src e);;
    e ← ev_load event;
    (if IsHighPriority e
     then client_update this (λ c, set_queue (event :: event_queue c) c)
     else client_update this (λ c, set_queue (event_queue c ++ [event]) c));;
    client_update this cond_broadcast;;
    unlock_queue this.

(** The body of the broadcast loop of [EventDispatch]. *)
Definition broadcast_to (this event c : Z) : prog world unit :=
  cl ← client_get c;
  if negb (event_enable cl) then mret tt
  else (p ← Clone event; EventPush c p this).

Definition EventDispatch (this event dst : Z) : prog world unit :=
  lock_clients;;
  e ← ev_load event;
  ev_store event (SetTarget dst e);;
  e ← ev_load event;
  regs ← gets event_client;
  (if (GetTarget e =? CS_EVENT_BROADCAST)%Z
   then
     foreach regs (broadcast_to this event);;
     EventDestroy event
   else if bool_decide (dst ∈ regs)
   then EventPush dst event this
   else EventDestroy event);;
  unlock_clients.

Definition EventBroadcast (this event : Z) : prog world unit :=
  EventDispatch this event CS_EVENT_BROADCAST.

Definition IsEventsEnabled (this : Z) : prog world bool :=
  c ← client_get this; mret (event_enable c).
Definition EventsEnable (this : Z) (enable : bool) : prog world unit :=
  client_update this (set_enable enable).

Definition EventPop (this : Z) : prog world Z :=
  lock_queue this;;
  c ← client_get this;
  r ← match event_queue c with
      | [] => mret CS_EVENT_NONE
      | event :: q =>
          e ← ev_load event;
          if IsSticky e then Clone event
          else client_update this (set_queue q);; mret event
      end;
  unlock_queue this;;
  mret r.

(** The constructor at address [this]. *)
Definition csEventClient_new (this : Z) : prog world unit :=
  modify (client_put this (EventClient true [] MFree 0));;
  csCriticalSection_Lock;;
  m ← gets event_client_mutex;
  when (bool_decide (m = MNull)) (modify (set_client_mutex MFree));;
  csCriticalSection_Unlock;;
  lock_clients;;
  modify (λ w, set_event_client (event_client w ++ [this]) w);;
  unlock_clients.

(** [event_client.erase(i)] of the first entry equal to [this]. *)
Fixpoint erase_first (this : Z) (l : list Z) : list Z :=
  match l with
  | [] => []
  | c :: l' => if (c =? this)%Z then l' else c :: erase_first this l'
  end.

(** [pthread_mutex_destroy] of the queue's mutex, which is undefined while some
    thread has it locked. *)
Definition destroy_queue_mutex (c : csEventClient) : prog world unit :=
  match event_queue_mutex c with MHeld => stuck BadDestroy | _ => mret tt end.

Definition csEventClient_delete (this : Z) : prog world unit :=
  lock_clients;;
  c ← client_get this;
  destroy_queue_mutex c;;
  foreach (event_queue c) EventDestroy;;
  client_update this (set_queue []);;
  modify (λ w, set_event_client (erase_first this (event_client w)) w);;
  csCriticalSection_Lock;;
  count ← gets (length ∘ event_client);
  unlock_clients;;
  when (count =? 0)%nat (modify (set_client_mutex MNull));;
  csCriticalSection_Unlock;;
  modify (λ w, set_clients (delete this (clients w)) w).
