(* ===== verification/EventInv.v ===== *)
(** * Event clients: ownership invariant and abstract queues

    [core w H] is the invariant of the shared state: every live event that is
    not persistent has exactly one owner, which is one slot of one queue or
    the set [H] of events that running code holds; nothing points to a dead
    event; the static vector lists exactly the live clients.  [view] maps a
    client to the queue of event values it promises its users, and [deliver]
    says what a push does to it. *)

From S2P Require Import Prelude Exception Event.

(** ** Ownership *)

Definition queue_of (w : world) (c : Z) : list Z :=
  match clients w !! c with
  | Some cl => event_queue cl
  | None => []
  end.

(** How many queue slots point to [p]. *)
Definition refs (w : world) (p : Z) : nat :=
  sum_list_with (λ c, cnt p (queue_of w c)) (event_client w).

#[global] Arguments refs : simpl never.

Definition held (H : gset Z) (p : Z) : nat := if decide (p ∈ H) then 1 else 0.

(** An address with [r] queue slots and [h] holders. *)
Definition own_at (o : option csEvent) (r h : nat) : Prop :=
  match o with
  | None => r = 0 ∧ h = 0
  | Some e => if IsPersistent e then h = 0 else r + h = 1
  end.

Record core (w : world) (H : gset Z) : Prop := Core {
  core_nodup : NoDup (event_client w);
  core_dom : ∀ c, c ∈ event_client w ↔ is_Some (clients w !! c);
  core_qmutex : ∀ c cl, clients w !! c = Some cl →
    event_queue_mutex cl = MFree;
  core_addr : ∀ c, c ∈ event_client w → c ≠ NULL ∧ c ≠ CS_EVENT_BROADCAST;
  core_heap : ∀ p e, heap w !! p = Some e → (0 < p < brk w)%Z;
  core_brk : (0 < brk w)%Z;
  core_own : ∀ p, own_at (heap w !! p) (refs w p) (held H p);
  core_crit : crit_mutex (crit w) ≠ MHeld;
}.

(** Between operations the client mutex is free; it is null exactly while no
    client exists. *)
Definition wf (w : world) (H : gset Z) : Prop :=
  core w H ∧
  event_client_mutex w = if decide (event_client w = []) then MNull else MFree.

(** ** Abstract queues *)

Definition events (h : gmap Z csEvent) (q : list Z) : list csEvent :=
  omap (λ p, h !! p) q.
#[global] Arguments events : simpl never.

(** What a registered client shows: whether it accepts events, its queue. *)
Definition view (w : world) (c : Z) : option (bool * list csEvent) :=
  cl ← clients w !! c; Some (event_enable cl, events (heap w) (event_queue cl)).

Fixpoint remove_first_id (id : Z) (q : list csEvent) : list csEvent :=
  match q with
  | [] => []
  | e :: q' => if (GetId e =? id)%Z then q' else e :: remove_first_id id q'
  end.

Definition enqueue (e : csEvent) (q : list csEvent) : list csEvent :=
  let q := if IsExclusive e then remove_first_id (GetId e) q else q in
  if IsHighPriority e then e :: q else q ++ [e].
#[global] Arguments enqueue : simpl never.

Definition deliver (e : csEvent) (v : bool * list csEvent) : bool * list csEvent :=
  if v.1 then (v.1, enqueue e v.2) else v.

Definition deliver_if (b : bool) (e : csEvent) :
    bool * list csEvent → bool * list csEvent :=
  if b then deliver e else id.

(** Whether a dispatch to [dst] reaches client [c]. *)
Definition reaches (dst c : Z) : bool :=
  (dst =? CS_EVENT_BROADCAST)%Z || (dst =? c)%Z.

(** ** Basic facts *)

Lemma held_in H p : p ∈ H → held H p = 1.
Proof. unfold held. by case_decide. Qed.

Lemma held_diff_ne H p x : x ≠ p → held (H ∖ {[p]}) x = held H x.
Proof. unfold held. intros. repeat case_decide; set_solver. Qed.

Lemma held_diff_eq H p : held (H ∖ {[p]}) p = 0.
Proof. unfold held. case_decide; set_solver. Qed.

Lemma held_union_ne H p x : x ≠ p → held ({[p]} ∪ H) x = held H x.
Proof. unfold held. intros. repeat case_decide; set_solver. Qed.

Lemma held_union_eq H p : held ({[p]} ∪ H) p = 1.
Proof. unfold held. case_decide; set_solver. Qed.

Lemma held_not_in H p : held H p = 0 ↔ p ∉ H.
Proof. unfold held. case_decide; naive_solver. Qed.

Lemma refs_ge w c p cl :
  c ∈ event_client w → clients w !! c = Some cl →
  cnt p (event_queue cl) ≤ refs w p.
Proof.
  intros Hc Hcl. unfold refs.
  pose proof (sum_list_with_elem (λ c, cnt p (queue_of w c)) _ _ Hc) as Hle.
  cbn in Hle. unfold queue_of in Hle at 1. by rewrite Hcl in Hle.
Qed.

Lemma sum_two w c1 c2 p cl1 cl2 :
  NoDup (event_client w) → c1 ∈ event_client w → c2 ∈ event_client w → c1 ≠ c2 →
  clients w !! c1 = Some cl1 → clients w !! c2 = Some cl2 →
  cnt p (event_queue cl1) + cnt p (event_queue cl2) ≤ refs w p.
Proof.
  intros Hnd Hc1 Hc2 Hne Hcl1 Hcl2. unfold refs.
  pose proof (sum_list_with_elem2 (λ c, cnt p (queue_of w c)) _ _ _ Hnd Hc1 Hc2 Hne)
    as Hle. cbn in Hle. unfold queue_of in Hle at 1 2. by rewrite Hcl1, Hcl2 in Hle.
Qed.

(** Replacing one client and the heap. *)
Lemma refs_put w h c cl cl' p :
  NoDup (event_client w) → c ∈ event_client w → clients w !! c = Some cl →
  refs (client_put c cl' (set_heap h w)) p + cnt p (event_queue cl)
    = refs w p + cnt p (event_queue cl').
Proof.
  intros Hnd Hc Hcl. unfold refs; cbn [event_client client_put set_clients set_heap].
  set (w' := client_put c cl' (set_heap h w)).
  pose proof (sum_list_with_update (λ x, cnt p (queue_of w' x))
    (λ x, cnt p (queue_of w x)) _ c Hnd Hc) as Hs.
  assert (queue_of w c = event_queue cl) as Hq by (unfold queue_of; by rewrite Hcl).
  assert (queue_of w' c = event_queue cl') as Hq'.
  { unfold queue_of, w'; cbn. by rewrite lookup_insert_eq. }
  cbn in Hs. rewrite Hq, Hq' in Hs. apply Hs. intros a Ha.
  unfold queue_of, w'; cbn. by rewrite lookup_insert_ne.
Qed.

Lemma core_live w H c cl p :
  core w H → clients w !! c = Some cl → p ∈ event_queue cl →
  ∃ e, heap w !! p = Some e.
Proof.
  intros Hw Hcl Hp. assert (c ∈ event_client w) as Hc by (apply Hw; eauto).
  pose proof (refs_ge w c p cl Hc Hcl). apply cnt_pos in Hp.
  pose proof (core_own _ _ Hw p) as Hown. unfold own_at in Hown.
  destruct (heap w !! p); [eauto|lia].
Qed.

(** The one place where [core] is re-established after a queue changed. *)
Lemma core_put w H H' c cl cl' h :
  core w H → clients w !! c = Some cl → event_queue_mutex cl' = MFree →
  (∀ p e, h !! p = Some e → 0 < p < brk w)%Z →
  (∀ p r, r + cnt p (event_queue cl) = refs w p + cnt p (event_queue cl') →
    own_at (h !! p) r (held H' p)) →
  core (client_put c cl' (set_heap h w)) H'.
Proof.
  intros Hw Hcl Hm Hh Hown.
  assert (c ∈ event_client w) as Hc by (apply Hw; eauto).
  destruct Hw as [Hnd Hdom Hqm Haddr Hheap Hbrk Hown0 Hcrit].
  split; try done; cbn.
  - intros c'. rewrite Hdom. destruct (decide (c = c')) as [<-|Hne].
    + rewrite lookup_insert_eq, Hcl. split; eauto.
    + by rewrite lookup_insert_ne.
  - intros c' cl''. destruct (decide (c = c')) as [<-|Hne].
    + rewrite lookup_insert_eq. by intros [= <-].
    + rewrite lookup_insert_ne by done. apply Hqm.
  - intros p. apply Hown. by apply refs_put.
Qed.

(** ** The state after a push *)

(** [EventDestroy] on a live event [e] at [v]. *)
Definition destroyed (h : gmap Z csEvent) (v : Z) (e : csEvent) :
    gmap Z csEvent :=
  if IsPersistent e then h else delete v h.

Definition no_id (h : gmap Z csEvent) (id : Z) (p : Z) : Prop :=
  ∃ e, h !! p = Some e ∧ GetId e ≠ id.

(** What the scan of an exclusive push makes of queue [q] and heap [h]. *)
Inductive scanned (h : gmap Z csEvent) (id : Z) (q : list Z) :
    list Z → gmap Z csEvent → Prop :=
  | scanned_none : Forall (no_id h id) q → scanned h id q q h
  | scanned_some l1 v l2 e :
      q = l1 ++ v :: l2 → Forall (no_id h id) l1 → h !! v = Some e →
      GetId e = id → scanned h id q (l1 ++ l2) (destroyed h v e).

Lemma EventDestroy_run w p e :
  heap w !! p = Some e →
  EventDestroy p w = Ok tt (set_heap (destroyed (heap w) p e) w).
Proof.
  intros Hp. unfold EventDestroy, mbind, M_bind, ev_load. rewrite Hp.
  unfold when, destroyed, ev_delete. destruct (IsPersistent e); simpl.
  - by destruct w.
  - by rewrite Hp.
Qed.

Lemma exclusive_scan_run h id q :
  (∀ p, p ∈ q → is_Some (h !! p)) →
  ∃ q' h', scanned h id q q' h' ∧
    ∀ w, heap w = h → exclusive_scan id q w = Ok q' (set_heap h' w).
Proof.
  induction q as [|p q IH]; intros Hlive.
  { exists [], h. split; [by constructor|]. by intros [] <-. }
  destruct (Hlive p) as [e He]; [set_solver|].
  destruct IH as (q' & h' & Hsc & Hrun); [set_solver|].
  destruct (decide (GetId e = id)) as [Hid|Hid].
  - exists q, (destroyed h p e). split; [by apply (scanned_some _ _ _ [] p q e)|].
    intros w <-. simpl. unfold mbind, M_bind, ev_load. rewrite He.
    rewrite (proj2 (Z.eqb_eq _ _) Hid). by rewrite (EventDestroy_run w p e).
  - exists (p :: q'), h'. split.
    + assert (no_id h id p) by by exists e.
      inversion Hsc as [Hf|l1 v l2 e' -> Hf Hv Hid']; subst.
      * apply scanned_none. by constructor.
      * apply (scanned_some _ _ _ (p :: l1) v l2 e'); try done. by constructor.
    + intros w Hw. simpl. unfold mbind, M_bind, ev_load. rewrite Hw, He.
      rewrite (proj2 (Z.eqb_neq _ _) Hid). by rewrite Hrun.
Qed.

Definition insert_event (e : csEvent) (p : Z) (q : list Z) : list Z :=
  if IsHighPriority e then p :: q else q ++ [p].
#[global] Arguments insert_event : simpl never.

(** The queue and the heap a push starts its insertion from. *)
Definition scanned_if (excl : bool) (h : gmap Z csEvent) (id : Z) (q q' : list Z)
    (h' : gmap Z csEvent) : Prop :=
  if excl then scanned h id q q' h' else q' = q ∧ h' = h.

Definition pushed (w : world) (this : Z) (cl : csEventClient) (e : csEvent)
    (p src : Z) (q' : list Z) (h' : gmap Z csEvent) : world :=
  client_put this
    (EventClient (event_enable cl) (insert_event e p q') MFree
       (S (event_condition cl)))
    (set_heap (<[p := SetSource src e]> h') w).

Lemma client_put_put c a b w : client_put c a (client_put c b w) = client_put c a w.
Proof. unfold client_put, set_clients; simpl. by rewrite insert_insert_eq. Qed.

Lemma EventPush_run w this cl p src e :
  clients w !! this = Some cl → event_enable cl = true →
  event_queue_mutex cl = MFree → heap w !! p = Some e →
  (∀ x, x ∈ event_queue cl → is_Some (heap w !! x)) →
  (IsExclusive e = true → IsPersistent e = false → p ∉ event_queue cl) →
  ∃ q' h', scanned_if (IsExclusive e) (heap w) (GetId e) (event_queue cl) q' h' ∧
    EventPush this p src w = Ok tt (pushed w this cl e p src q' h').
Proof.
  intros Hcl Hen Hm Hp Hlive Hnew.
  destruct (exclusive_scan_run (heap w) (GetId e) (event_queue cl) Hlive)
    as (qs & hs & Hsc & Hrun).
  set (q' := if IsExclusive e then qs else event_queue cl).
  set (h' := if IsExclusive e then hs else heap w).
  assert (h' !! p = Some e) as Hp'.
  { unfold h'. destruct (IsExclusive e) eqn:Hex; [|done].
    inversion Hsc as [|l1 v l2 e' Hq Hf Hv Hid]; subst; [done|].
    unfold destroyed. destruct (IsPersistent e') eqn:Hper; [done|].
    rewrite lookup_delete_ne; [done|]. intros ->. simplify_eq.
    apply Hnew; [done..|]. rewrite Hq. set_solver. }
  exists q', h'. split.
  { unfold scanned_if, q', h'. by destruct (IsExclusive e). }
  unfold EventPush, client_update, lock_queue, unlock_queue.
  unfold mbind, M_bind, client_get, mutex_lock, mutex_unlock, ev_load, ev_store,
    modify, when, pushed, insert_event, client_put, set_clients, set_heap.
  rewrite Hcl, Hen; simpl. rewrite Hcl, Hm; simpl. rewrite Hp; simpl.
  destruct (IsExclusive e) eqn:Hex; unfold q', h' in *; run_lookups;
    [rewrite Hrun by done; run_lookups|];
    change (IsHighPriority (SetSource src e)) with (IsHighPriority e);
    destruct (IsHighPriority e); run_lookups; by rewrite !insert_insert_eq, <-Hen.
Qed.

(** ** Invariant and views across heap changes *)

(** [w'] has the clients of [w]. *)
Definition same_clients (w w' : world) : Prop :=
  clients w' = clients w ∧ event_client w' = event_client w ∧ crit w' = crit w.

Lemma refs_same w w' p : same_clients w w' → refs w' p = refs w p.
Proof.
  intros (Hc & He & _). unfold refs. rewrite He.
  apply sum_list_with_ext. intros a _. unfold queue_of. by rewrite Hc.
Qed.

Lemma core_change w w' H H' :
  core w H → same_clients w w' →
  (∀ p e, heap w' !! p = Some e → 0 < p < brk w')%Z → (0 < brk w')%Z →
  (∀ p, own_at (heap w' !! p) (refs w p) (held H' p)) →
  core w' H'.
Proof.
  intros Hw Hs Hheap Hbrk Hown. pose proof Hs as (Hc & He & Hk).
  destruct Hw. split; rewrite ?Hc, ?He, ?Hk; try done.
  intros p. by rewrite (refs_same w).
Qed.

Lemma core_set_client_mutex w H m : core w H → core (set_client_mutex m w) H.
Proof. intros Hw. apply (core_change w _ H); try apply Hw. done. Qed.

Lemma events_ext h h' q :
  (∀ p, p ∈ q → h' !! p = h !! p) → events h' q = events h q.
Proof.
  intros Hq. induction q as [|p q IH]; [done|].
  assert (events h' q = events h q) as Hr by (apply IH; set_solver).
  unfold events in *; simpl. rewrite Hq by set_solver.
  destruct (h !! p); [f_equal|]; exact Hr.
Qed.

Lemma events_app h q1 q2 : events h (q1 ++ q2) = events h q1 ++ events h q2.
Proof. unfold events. apply omap_app. Qed.

Lemma events_cons h p e q :
  h !! p = Some e → events h (p :: q) = e :: events h q.
Proof. intros Hp. unfold events; simpl. by rewrite Hp. Qed.

(** Heap changes at addresses that no queue mentions are not visible. *)
Lemma view_heap w w' H c :
  core w H → clients w' = clients w →
  (∀ p, refs w p ≠ 0 → heap w' !! p = heap w !! p) →
  view w' c = view w c.
Proof.
  intros Hw Hc Hh. unfold view. rewrite Hc.
  destruct (clients w !! c) as [cl|] eqn:Hcl; [|done]. simpl. do 2 f_equal.
  apply events_ext. intros p Hp. apply Hh.
  assert (c ∈ event_client w) as Hin by (apply Hw; eauto).
  pose proof (refs_ge w c p cl Hin Hcl). apply cnt_pos in Hp. lia.
Qed.

Lemma own_refs w H p e :
  core w H → heap w !! p = Some e → IsPersistent e = false → p ∈ H →
  refs w p = 0.
Proof.
  intros Hw Hp Hper HH. pose proof (core_own _ _ Hw p) as Ho.
  rewrite Hp in Ho. cbn in Ho. rewrite Hper, (held_in H p) in Ho by done. lia.
Qed.

Lemma destroy_ok w H p e :
  core w H → heap w !! p = Some e → (IsPersistent e = false → p ∈ H) →
  let w' := set_heap (destroyed (heap w) p e) w in
  core w' (H ∖ {[p]}) ∧ ∀ c, view w' c = view w c.
Proof.
  intros Hw Hp Hown w'. unfold w', destroyed. destruct (IsPersistent e) eqn:Hper.
  - split; [|by destruct w]. apply (core_change w _ H); try done; try apply Hw.
    intros x. destruct (decide (x = p)) as [->|Hne].
    + pose proof (core_own _ _ Hw p) as Ho. cbn. rewrite Hp in *. cbn in *.
      rewrite Hper in *. apply held_diff_eq.
    + rewrite held_diff_ne by done. apply Hw.
  - specialize (Hown eq_refl). pose proof (own_refs w H p e Hw Hp Hper Hown) as H0.
    split.
    + apply (core_change w _ H); try done; try apply Hw; cbn.
      * intros x ex [_ Hx]%lookup_delete_Some. by apply (core_heap _ _ Hw x ex).
      * intros x. destruct (decide (x = p)) as [->|Hne].
        { rewrite lookup_delete_eq; cbn. by rewrite held_diff_eq. }
        rewrite lookup_delete_ne, held_diff_ne by done. apply Hw.
    + intros c. apply (view_heap w _ H c); try done. intros x Hx; cbn.
      rewrite lookup_delete_ne; [done|]. by intros ->.
Qed.

(** ** Push *)

Lemma scanned_cnt h id q q' h' :
  scanned h id q q' h' →
  (q' = q ∧ h' = h) ∨
  ∃ v e, h !! v = Some e ∧ GetId e = id ∧ h' = destroyed h v e ∧
    ∀ x, cnt x q = cnt x q' + (if decide (v = x) then 1 else 0).
Proof.
  intros [Hf|l1 v l2 e -> Hf Hv Hid]; [by left|right].
  exists v, e. split_done. intros x. autorewrite with cnt. lia.
Qed.

Lemma events_scanned h id q q' h' :
  scanned h id q q' h' →
  (∀ v e, h !! v = Some e → IsPersistent e = false → cnt v q ≤ 1) →
  events h' q' = remove_first_id id (events h q).
Proof.
  assert (∀ l, Forall (no_id h id) l → ∀ r,
    remove_first_id id (events h l ++ r) = events h l ++ remove_first_id id r) as Hno.
  { induction 1 as [|x l (e & He & Hid) _ IH]; intros r; [done|].
    rewrite (events_cons h x e l) by done. cbn.
    rewrite (proj2 (Z.eqb_neq _ _) Hid). by rewrite IH. }
  intros [Hf|l1 v l2 e -> Hf Hv Hid] Hone.
  - pose proof (Hno _ Hf []) as Hn. cbn in Hn. by rewrite !app_nil_r in Hn.
  - rewrite (events_app h), (events_cons h v e), Hno by done. cbn.
    rewrite (proj2 (Z.eqb_eq _ _) Hid), <-events_app.
    apply events_ext. intros x Hx. unfold destroyed.
    destruct (IsPersistent e) eqn:Hper; [done|].
    rewrite lookup_delete_ne; [done|]. intros <-.
    specialize (Hone v e Hv Hper). autorewrite with cnt in Hone.
    rewrite decide_True in Hone by done.
    apply elem_of_app in Hx as [Hx%cnt_pos|Hx%cnt_pos]; lia.
Qed.

Lemma cnt_insert_event e p q x :
  cnt x (insert_event e p q) = cnt x q + (if decide (p = x) then 1 else 0).
Proof. unfold insert_event. destruct (IsHighPriority e); autorewrite with cnt; lia. Qed.

(** A client keeps its setting, and broadcasts on its condition only add up. *)
Definition client_le (cl cl' : csEventClient) : Prop :=
  event_enable cl' = event_enable cl ∧ event_condition cl ≤ event_condition cl'.

#[export] Instance client_le_preorder : PreOrder client_le.
Proof.
  split; [by split|]. intros c1 c2 c3 [He1 Hc1] [He2 Hc2].
  split; [congruence|lia].
Qed.

(** The part of the state that an operation on queues leaves alone. *)
Record frame (w w' : world) : Prop := Frame {
  frame_reg : event_client w' = event_client w;
  frame_mutex : event_client_mutex w' = event_client_mutex w;
  frame_crit : crit w' = crit w;
  frame_clients : ∀ c, option_Forall2 client_le (clients w !! c) (clients w' !! c);
}.

#[export] Instance frame_preorder : PreOrder frame.
Proof.
  split.
  - intros w. split; [done..|]. intros c. reflexivity.
  - intros w1 w2 w3 [? ? ? H1] [? ? ? H2]. split; [congruence..|].
    intros c. etrans; [apply H1|apply H2].
Qed.

Lemma client_le_same (w : world) c :
  option_Forall2 client_le (clients w !! c) (clients w !! c).
Proof. reflexivity. Qed.
#[export] Hint Resolve client_le_same : core.

(** Client [c], if it accepts events, was notified between [w] and [w']. *)
Definition woken (w w' : world) (c : Z) : Prop := ∀ cl,
  clients w !! c = Some cl → event_enable cl = true →
  ∃ cl', clients w' !! c = Some cl' ∧ event_condition cl < event_condition cl'.

Lemma scanned_if_cnt excl h id q q' h' :
  scanned_if excl h id q q' h' →
  (q' = q ∧ h' = h) ∨
  ∃ v e, h !! v = Some e ∧ GetId e = id ∧ h' = destroyed h v e ∧
    ∀ x, cnt x q = cnt x q' + (if decide (v = x) then 1 else 0).
Proof. unfold scanned_if. destruct excl; [apply scanned_cnt|by left]. Qed.

Lemma destroyed_lookup h v e x ex :
  destroyed h v e !! x = Some ex → h !! x = Some ex.
Proof.
  unfold destroyed. destruct (IsPersistent e); [done|].
  by intros [_ ?]%lookup_delete_Some.
Qed.

Lemma core_pushed w H this cl e p src q' h' :
  core w H → clients w !! this = Some cl → heap w !! p = Some e →
  (IsPersistent e = false → p ∈ H) →
  scanned_if (IsExclusive e) (heap w) (GetId e) (event_queue cl) q' h' →
  h' !! p = Some e →
  core (pushed w this cl e p src q' h') (H ∖ {[p]}).
Proof.
  intros Hw Hcl Hp Hown Hsc Hp'.
  assert (this ∈ event_client w) as Hin by (apply Hw; eauto).
  apply scanned_if_cnt in Hsc.
  apply (core_put w H _ this cl); try done; cbn.
  - intros x ex. destruct (decide (p = x)) as [<-|Hne].
    + intros _. by apply (core_heap _ _ Hw p e).
    + rewrite lookup_insert_ne by done. intros Hx. apply (core_heap _ _ Hw x ex).
      destruct Hsc as [[_ ->]|(v & ev & _ & _ & -> & _)]; [done|].
      by apply destroyed_lookup in Hx.
  - intros x r. rewrite cnt_insert_event.
    pose proof (refs_ge w this x cl Hin Hcl) as Hle.
    pose proof (core_own _ _ Hw x) as Ho.
    destruct (decide (p = x)) as [<-|Hne].
    + rewrite lookup_insert_eq. cbn. change (IsPersistent (SetSource src e)) with (IsPersistent e).
      rewrite held_diff_eq. destruct (IsPersistent e) eqn:Hper; [done|].
      rewrite (own_refs w H p e) in * by auto.
      destruct Hsc as [[-> _]|(v & ev & Hv & _ & _ & Hc)]; [lia|].
      specialize (Hc p). lia.
    + rewrite lookup_insert_ne, held_diff_ne by done. intros Hr.
      destruct Hsc as [[-> ->]|(v & ev & Hv & _ & -> & Hc)].
      { replace r with (refs w x) by lia. done. }
      specialize (Hc x). unfold destroyed. destruct (decide (v = x)) as [<-|Hvx].
      * rewrite Hv in Ho. cbn in Ho.
        destruct (IsPersistent ev) eqn:Hper.
        { rewrite Hv. cbn. by rewrite Hper. }
        rewrite lookup_delete_eq. cbn. lia.
      * replace r with (refs w x) by lia.
        destruct (IsPersistent ev); [done|]. by rewrite lookup_delete_ne.
Qed.

Lemma events_insert h e p q :
  p ∉ q → events (<[p := e]> h) (insert_event e p q) =
    if IsHighPriority e then e :: events h q else events h q ++ [e].
Proof.
  intros Hp. unfold insert_event.
  assert (events (<[p := e]> h) q = events h q) as Hq.
  { apply events_ext. intros x Hx. rewrite lookup_insert_ne; [done|]. by intros ->. }
  destruct (IsHighPriority e).
  - rewrite (events_cons _ p e) by apply lookup_insert_eq. by rewrite Hq.
  - rewrite events_app, (events_cons _ p e) by apply lookup_insert_eq. by rewrite Hq.
Qed.

Lemma view_pushed w H this cl e p src q' h' c :
  core w H → clients w !! this = Some cl → event_enable cl = true →
  heap w !! p = Some e → refs w p = 0 →
  scanned_if (IsExclusive e) (heap w) (GetId e) (event_queue cl) q' h' →
  view (pushed w this cl e p src q' h') c =
    if decide (c = this) then deliver (SetSource src e) <$> view w c
    else view w c.
Proof.
  intros Hw Hcl Hen Hp Hrefs Hsc.
  assert (this ∈ event_client w) as Hin by (apply Hw; eauto).
  pose proof (refs_ge w this p cl Hin Hcl) as Hle.
  pose proof (scanned_if_cnt _ _ _ _ _ _ Hsc) as Hcnt.
  assert (∀ v ev, heap w !! v = Some ev → IsPersistent ev = false →
    refs w v ≤ 1) as Hone.
  { intros v ev Hv Hper. pose proof (core_own _ _ Hw v) as Ho.
    rewrite Hv in Ho. cbn in Ho. rewrite Hper in Ho. lia. }
  case_decide as Hc; [subst c|].
  - unfold view, pushed, client_put; cbn. rewrite lookup_insert_eq, Hcl; cbn.
    unfold deliver; cbn. rewrite Hen. do 2 f_equal.
    change (insert_event e p q') with (insert_event (SetSource src e) p q').
    rewrite events_insert.
    2:{ apply cnt_zero. destruct Hcnt as [[-> _]|(v & ev & _ & _ & _ & Hx)]; [lia|].
        specialize (Hx p). lia. }
    unfold enqueue.
    change (IsHighPriority (SetSource src e)) with (IsHighPriority e).
    change (IsExclusive (SetSource src e)) with (IsExclusive e).
    change (GetId (SetSource src e)) with (GetId e).
    enough (events h' q' = if IsExclusive e
      then remove_first_id (GetId e) (events (heap w) (event_queue cl))
      else events (heap w) (event_queue cl)) as -> by done.
    unfold scanned_if in Hsc. destruct (IsExclusive e).
    + apply (events_scanned _ _ _ _ _ Hsc). intros v ev Hv Hper.
      pose proof (refs_ge w this v cl Hin Hcl). specialize (Hone v ev Hv Hper). lia.
    + by destruct Hsc as [-> ->].
  - unfold view, pushed, client_put; cbn. rewrite lookup_insert_ne by done.
    destruct (clients w !! c) as [clc|] eqn:Hclc; [|done]. cbn. do 2 f_equal.
    assert (c ∈ event_client w) as Hcin by (apply Hw; eauto).
    apply events_ext. intros x Hx.
    pose proof (refs_ge w c x clc Hcin Hclc) as Hxr. apply cnt_pos in Hx.
    rewrite lookup_insert_ne by (intros ->; lia).
    destruct Hcnt as [[_ ->]|(v & ev & Hv & _ & -> & Hcv)]; [done|].
    unfold destroyed. destruct (IsPersistent ev) eqn:Hper; [done|].
    rewrite lookup_delete_ne; [done|]. intros <-.
    specialize (Hone v ev Hv Hper). specialize (Hcv v).
    rewrite decide_True in Hcv by done.
    pose proof (sum_two w c this v clc cl) as Htwo. specialize (Htwo (core_nodup _ _ Hw)).
    specialize (Htwo Hcin Hin Hc Hclc Hcl). lia.
Qed.

Lemma frame_pushed w this cl e p src q' h' :
  clients w !! this = Some cl → frame w (pushed w this cl e p src q' h').
Proof.
  intros Hcl. split; try done. intros c. cbn.
  destruct (decide (this = c)) as [<-|Hne].
  - rewrite lookup_insert_eq, Hcl. constructor. split; cbn; [done|lia].
  - by rewrite lookup_insert_ne.
Qed.

(** Addresses that no queue mentions are not touched. *)
Lemma pushed_untouched w H this cl e p src q' h' x :
  core w H → clients w !! this = Some cl →
  scanned_if (IsExclusive e) (heap w) (GetId e) (event_queue cl) q' h' →
  x ≠ p → refs w x = 0 →
  heap (pushed w this cl e p src q' h') !! x = heap w !! x ∧
  refs (pushed w this cl e p src q' h') x = 0.
Proof.
  intros Hw Hcl Hsc%scanned_if_cnt Hne H0.
  assert (this ∈ event_client w) as Hin by (apply Hw; eauto).
  pose proof (refs_ge w this x cl Hin Hcl) as Hle. split.
  - cbn. rewrite lookup_insert_ne by done.
    destruct Hsc as [[_ ->]|(v & ev & Hv & _ & -> & Hc)]; [done|].
    unfold destroyed. destruct (IsPersistent ev); [done|].
    apply lookup_delete_ne. intros ->. specialize (Hc x).
    rewrite decide_True in Hc by done. lia.
  - unfold pushed.
    set (cl' := EventClient (event_enable cl) (insert_event e p q') MFree
      (S (event_condition cl))).
    pose proof (refs_put w (<[p:=SetSource src e]> h') this cl cl' x
      (core_nodup _ _ Hw) Hin Hcl) as Hr.
    cbn [cl' event_queue] in Hr. rewrite cnt_insert_event, decide_False in Hr by congruence.
    destruct Hsc as [[-> _]|(v & ev & _ & _ & _ & Hc)]; [|specialize (Hc x)]; lia.
Qed.

(** What [EventPush] guarantees; [e] is the event at [p]. *)
Record push_post (w : world) (H : gset Z) (this p src : Z) (e : csEvent)
    (w' : world) : Prop := PushPost {
  push_core : core w' (H ∖ {[p]});
  push_frame : frame w w';
  push_brk : brk w' = brk w;
  push_other : ∀ x, x ≠ p → refs w x = 0 →
    heap w' !! x = heap w !! x ∧ refs w' x = 0;
  push_wakes : woken w w' this;
  push_view : refs w p = 0 → ∀ c, view w' c =
    if decide (c = this) then deliver (SetSource src e) <$> view w c
    else view w c;
}.

(** [EventPush] takes over the event: it is queued, or destroyed when the
    client does not accept events. *)
Lemma EventPush_ok w H this cl p src e :
  core w H → clients w !! this = Some cl → heap w !! p = Some e →
  (IsPersistent e = false → p ∈ H) →
  ∃ w', EventPush this p src w = Ok tt w' ∧ push_post w H this p src e w'.
Proof.
  intros Hw Hcl Hp Hown.
  assert (this ∈ event_client w) as Hreg by (apply Hw; eauto).
  destruct (event_enable cl) eqn:Hen.
  - assert (IsPersistent e = false → cnt p (event_queue cl) = 0) as Hnew.
    { intros Hper. pose proof (refs_ge w this p cl Hreg Hcl).
      rewrite (own_refs w H p e) in * by auto. lia. }
    destruct (EventPush_run w this cl p src e) as (q' & h' & Hsc & Hrun); try done.
    + by apply (core_qmutex _ _ Hw this).
    + intros x Hx. destruct (core_live w H this cl x) as [ex Hex]; eauto.
    + intros _ Hper. by apply cnt_zero, Hnew.
    + assert (h' !! p = Some e) as Hp'.
      { destruct (scanned_if_cnt _ _ _ _ _ _ Hsc) as [[_ ->]|(v & ev & Hv & _ & -> & Hc)];
          [done|].
        unfold destroyed. destruct (IsPersistent ev) eqn:Hper; [done|].
        rewrite lookup_delete_ne; [done|]. intros ->. simplify_eq.
        specialize (Hc p). rewrite decide_True in Hc by done.
        specialize (Hnew Hper). lia. }
      exists (pushed w this cl e p src q' h'). split; [done|]. split; [..|done| | |].
      * by apply (core_pushed w H).
      * by apply frame_pushed.
      * intros x. by apply (pushed_untouched w H).
      * intros cl' Hcl' _. simplify_eq. cbn. rewrite lookup_insert_eq. eauto.
      * intros H0 c. by apply (view_pushed w H).
  - unfold EventPush, mbind, M_bind, client_get. rewrite Hcl, Hen; simpl.
    rewrite (EventDestroy_run w p e) by done.
    destruct (destroy_ok w H p e) as [Hcore Hview]; try done.
    eexists; split; [done|]. split; try done.
    + intros x Hne H0. split; [|done]. cbn. unfold destroyed.
      destruct (IsPersistent e); [done|]. by rewrite lookup_delete_ne.
    + intros cl' Hcl' Hen'. congruence.
    + intros _ c. rewrite Hview.
      case_decide as Hc; [subst c|done]. unfold view. rewrite Hcl; cbn.
      unfold deliver; cbn. by rewrite Hen.
Qed.

(** ** Stores and allocations *)

(** Overwriting a live event without changing whether it persists. *)
Lemma core_store w H p e e' :
  core w H → heap w !! p = Some e → IsPersistent e' = IsPersistent e →
  core (set_heap (<[p := e']> (heap w)) w) H.
Proof.
  intros Hw Hp Hper. apply (core_change w _ H); try done; try apply Hw; cbn.
  - intros x ex. destruct (decide (p = x)) as [<-|Hne].
    + intros _. by apply (core_heap _ _ Hw p e).
    + rewrite lookup_insert_ne by done. apply (core_heap _ _ Hw).
  - intros x. pose proof (core_own _ _ Hw x) as Ho.
    destruct (decide (p = x)) as [<-|Hne].
    + rewrite lookup_insert_eq. rewrite Hp in Ho. cbn in *. by rewrite Hper.
    + by rewrite lookup_insert_ne.
Qed.

Lemma view_store w H p e' c :
  core w H → refs w p = 0 →
  view (set_heap (<[p := e']> (heap w)) w) c = view w c.
Proof.
  intros Hw H0. apply (view_heap w _ H); try done. intros x Hx; cbn.
  rewrite lookup_insert_ne; [done|]. by intros ->.
Qed.

Definition allocated (w : world) (e : csEvent) : world :=
  World (<[brk w := e]> (heap w)) (brk w + 1) (clients w) (event_client w)
    (event_client_mutex w) (crit w).

Lemma heap_brk w H : core w H → heap w !! brk w = None.
Proof.
  intros Hw. destruct (heap w !! brk w) as [e|] eqn:Hb; [|done].
  pose proof (core_heap _ _ Hw _ _ Hb). lia.
Qed.

Lemma refs_brk w H : core w H → refs w (brk w) = 0 ∧ brk w ∉ H.
Proof.
  intros Hw. pose proof (core_own _ _ Hw (brk w)) as Ho.
  rewrite (heap_brk w H) in Ho by done. cbn in Ho. by rewrite <-held_not_in.
Qed.

(** A new event that is not persistent is held by the code that made it. *)
Lemma core_allocated w H e :
  core w H →
  core (allocated w e) (if IsPersistent e then H else {[brk w]} ∪ H).
Proof.
  intros Hw. destruct (refs_brk w H Hw) as [H0 Hh].
  apply (core_change w _ H); try done; cbn.
  - intros x ex. pose proof (core_brk _ _ Hw). intros [[<- _]|[Hne Hx]]%lookup_insert_Some.
    + lia.
    + pose proof (core_heap _ _ Hw x ex Hx). lia.
  - pose proof (core_brk _ _ Hw). lia.
  - intros x. pose proof (core_own _ _ Hw x) as Ho.
    destruct (decide (brk w = x)) as [<-|Hne].
    + rewrite lookup_insert_eq, H0; cbn. destruct (IsPersistent e).
      * by apply held_not_in.
      * by rewrite held_union_eq.
    + rewrite lookup_insert_ne by done.
      destruct (IsPersistent e); [done|]. by rewrite held_union_ne.
Qed.

Lemma view_allocated w H e c : core w H → view (allocated w e) c = view w c.
Proof.
  intros Hw. apply (view_heap w _ H); try done. intros x Hx; cbn.
  rewrite lookup_insert_ne; [done|]. intros <-. by destruct (refs_brk w H Hw).
Qed.
