(* ===== verification/EventOps.v ===== *)
(** * Event clients: the operations against the invariant

    Each operation of csevent.cpp from a well-formed state: it is never stuck,
    the invariant holds again, and the abstract queues change as promised. *)

From S2P Require Import Prelude Exception Event EventInv.

(** ** Rules for the memory accesses *)

Lemma wp_ev_load w p e Q X :
  heap w !! p = Some e → Q e w → wp (ev_load p) Q X w.
Proof. intros Hp HQ. unfold wp, ev_load. by rewrite Hp. Qed.

Lemma wp_ev_store w p e e' Q X :
  heap w !! p = Some e → Q tt (set_heap (<[p := e']> (heap w)) w) →
  wp (ev_store p e') Q X w.
Proof. intros Hp HQ. unfold wp, ev_store. by rewrite Hp. Qed.

Lemma wp_client_get w c cl Q X :
  clients w !! c = Some cl → Q cl w → wp (client_get c) Q X w.
Proof. intros Hc HQ. unfold wp, client_get. by rewrite Hc. Qed.

Lemma wp_client_update w c cl f Q X :
  clients w !! c = Some cl → Q tt (client_put c (f cl) w) →
  wp (client_update c f) Q X w.
Proof.
  intros Hc HQ. unfold client_update. apply wp_bind.
  eapply wp_client_get; [done|]. by apply wp_modify.
Qed.

Lemma wp_EventDestroy w p e Q X :
  heap w !! p = Some e → Q tt (set_heap (destroyed (heap w) p e) w) →
  wp (EventDestroy p) Q X w.
Proof. intros Hp HQ. by eapply wp_ok; [by apply EventDestroy_run|]. Qed.

Lemma wp_Clone w p e e' Q X :
  heap w !! p = Some e → Clone_of e = inl e' → Q (brk w) (allocated w e') →
  wp (Clone p) Q X w.
Proof.
  intros Hp Hc HQ. unfold Clone. apply wp_bind. eapply wp_ev_load; [done|].
  by rewrite Hc.
Qed.

(** ** Locking the static vector *)

Lemma wf_lock w H :
  wf w H → event_client w ≠ [] → event_client_mutex w = MFree.
Proof. intros [_ ->] Hne. by rewrite decide_False. Qed.

(** A region that runs with the client mutex held. *)
Lemma wf_unlocked w H :
  core w H → event_client w ≠ [] → wf (set_client_mutex MFree w) H.
Proof.
  intros Hw Hne. split; [by apply core_set_client_mutex|].
  cbn. by rewrite decide_False.
Qed.

Lemma view_set_client_mutex m w c : view (set_client_mutex m w) c = view w c.
Proof. done. Qed.

Lemma refs_set_client_mutex m w p : refs (set_client_mutex m w) p = refs w p.
Proof. done. Qed.

(** Live events that are in no queue stay as they are. *)
Definition untouched (w w' : world) : Prop :=
  ∀ x e, heap w !! x = Some e → refs w x = 0 → heap w' !! x = Some e ∧ refs w' x = 0.

(** What a dispatch of the event at [p] guarantees: every client for which
    [reach] is true is offered [e']. *)
Record dispatch_post (w : world) (H : gset Z) (p : Z) (reach : Z → bool)
    (e' : csEvent) (w' : world) : Prop := DispatchPost {
  dp_wf : wf w' (H ∖ {[p]});
  dp_frame : frame w w';
  dp_brk : (brk w ≤ brk w')%Z;
  dp_wakes : ∀ c, reach c = true → woken w w' c;
  dp_other : ∀ x ex, x ≠ p → heap w !! x = Some ex → refs w x = 0 →
    heap w' !! x = Some ex ∧ refs w' x = 0;
  dp_view : refs w p = 0 → ∀ c, view w' c = deliver_if (reach c) e' <$> view w c;
}.

(** ** Dispatch to one client *)

Lemma view_client w c cl :
  clients w !! c = Some cl →
  view w c = Some (event_enable cl, events (heap w) (event_queue cl)).
Proof. intros Hc. unfold view. by rewrite Hc. Qed.

Lemma view_unregistered w H c :
  core w H → c ∉ event_client w → view w c = None.
Proof.
  intros Hw Hc. unfold view. destruct (clients w !! c) eqn:Hcl; [|done].
  destruct Hc. apply Hw. eauto.
Qed.

Lemma reaches_one dst c : dst ≠ CS_EVENT_BROADCAST → reaches dst c = bool_decide (c = dst).
Proof.
  intros Hdst. unfold reaches. rewrite (proj2 (Z.eqb_neq _ _) Hdst). cbn.
  case_bool_decide as Hc; [by rewrite Hc, Z.eqb_refl|].
  apply Z.eqb_neq. congruence.
Qed.

Section dispatch.
Context (w : world) (H : gset Z) (this p dst : Z) (e : csEvent).
Context (Hwf : wf w H) (Hne : event_client w ≠ []) (Hdst : dst ≠ CS_EVENT_BROADCAST).
Context (Hp : heap w !! p = Some e) (Hown : IsPersistent e = false → p ∈ H).

(** The event with its target, while the clients are locked. *)
Abbreviation e1 := (SetTarget dst e).
Abbreviation w1 := (set_heap (<[p := e1]> (heap w)) (set_client_mutex MHeld w)).
Abbreviation dispatched := (dispatch_post w H p (reaches dst) (SetSource this e1)).

Lemma targeted_core : core w1 H.
Proof.
  apply (core_store (set_client_mutex MHeld w) H p e e1); try done.
  apply core_set_client_mutex, Hwf.
Qed.

Lemma targeted_view : refs w p = 0 → ∀ c, view w1 c = view w c.
Proof.
  intros H0 c. apply (view_store (set_client_mutex MHeld w) H); [|done].
  apply core_set_client_mutex, Hwf.
Qed.

(** A registered target. *)
Lemma dispatch_pushed cl :
  clients w !! dst = Some cl → wp (EventPush dst p this) (λ _ w', dispatched (set_client_mutex MFree w') ∧
    event_client_mutex w' = MHeld) nothrow w1.
Proof.
  intros Hcl. pose proof (wf_lock w H Hwf Hne) as Hfree.
  destruct (EventPush_ok w1 H dst cl p this e1)
    as (w2 & Hrun & [Hc2 Hf2 Hb2 Ho2 Hwk2 Hv2]); try done.
  { exact targeted_core. } { apply lookup_insert_eq. }
  eapply wp_ok; [done|]. split; [|by rewrite (frame_mutex _ _ Hf2)].
  destruct Hf2 as [Hr Hm Hk Hen]. split.
  - apply wf_unlocked; [done|by rewrite Hr].
  - by split; cbn; [rewrite Hr|rewrite Hfree|rewrite Hk|].
  - cbn. by rewrite Hb2.
  - intros c. rewrite reaches_one by done. by intros ->%bool_decide_eq_true_1.
  - intros x ex Hx Hex H0. destruct (Ho2 x Hx H0) as [Hh Hr0]. split; [|done].
    cbn. rewrite Hh. cbn. by rewrite lookup_insert_ne.
  - intros H0 c. rewrite view_set_client_mutex, Hv2, targeted_view, reaches_one by done.
    destruct (decide (c = dst)); [by rewrite bool_decide_eq_true_2|].
    rewrite bool_decide_eq_false_2 by done. by destruct (view w c).
Qed.

(** An unknown target: the event is destroyed. *)
Lemma dispatch_dropped :
  dst ∉ event_client w → dispatched (set_client_mutex MFree (set_heap (destroyed (heap w1) p e1) w1)).
Proof.
  intros Hin. pose proof (wf_lock w H Hwf Hne) as Hfree. pose proof (proj1 Hwf) as Hw.
  destruct (destroy_ok w1 H p e1) as [Hc2 Hv2]; try done.
  { exact targeted_core. } { apply lookup_insert_eq. }
  assert (view w dst = None) as Hnone by by apply (view_unregistered w H).
  split.
  - by apply wf_unlocked.
  - by split; cbn; [|rewrite Hfree| |].
  - done.
  - intros c. rewrite reaches_one by done. intros ->%bool_decide_eq_true_1 cl Hcl.
    by rewrite (view_client w dst cl) in Hnone.
  - intros x ex Hx Hex H0. split; [|done]. cbn. unfold destroyed.
    destruct (IsPersistent e1); rewrite ?lookup_delete_ne, lookup_insert_ne by done; done.
  - intros H0 c. rewrite view_set_client_mutex, Hv2, targeted_view, reaches_one by done.
    case_bool_decide as Hc; [subst c; by rewrite Hnone|by destruct (view w c)].
Qed.

Lemma wp_EventDispatch :
  wp (EventDispatch this p dst) (λ _, dispatched) nothrow w.
Proof.
  pose proof (wf_lock w H Hwf Hne) as Hfree. unfold EventDispatch. apply wp_bind, wp_lock.
  split; [done|]. apply wp_bind, (wp_ev_load _ p e); [done|].
  apply wp_bind, (wp_ev_store _ p e); [done|].
  apply wp_bind, (wp_ev_load _ p e1); [apply lookup_insert_eq|].
  apply wp_bind, wp_gets, wp_bind.
  change (GetTarget e1) with dst. rewrite (proj2 (Z.eqb_neq _ _) Hdst).
  change (event_client w1) with (event_client w). case_bool_decide as Hin.
  - destruct (proj1 (core_dom _ _ (proj1 Hwf) dst) Hin) as [cl Hcl].
    eapply wp_conseq; [by apply (dispatch_pushed cl)|]. intros [] w2 [Hd Hm].
    by apply wp_unlock.
  - apply (wp_EventDestroy _ p e1); [apply lookup_insert_eq|]. apply wp_unlock.
    split; [done|]. by apply dispatch_dropped.
Qed.
End dispatch.

(** ** Broadcast *)

(** After the broadcast loop handled the clients [done]. *)
Record bcast_inv (w : world) (H : gset Z) (e2 : csEvent)
    (done : list Z) (w' : world) : Prop := BcastInv {
  bi_core : core w' H;
  bi_frame : frame w w';
  bi_brk : (brk w ≤ brk w')%Z;
  bi_keep : untouched w w';
  bi_wakes : ∀ c, c ∈ done → woken w w' c;
  bi_view : ∀ c, view w' c = deliver_if (bool_decide (c ∈ done)) e2 <$> view w c;
}.

Lemma frame_client w w' c cl :
  frame w w' → clients w !! c = Some cl →
  ∃ cl', clients w' !! c = Some cl' ∧ client_le cl cl'.
Proof.
  intros Hf Hc. pose proof (frame_clients _ _ Hf c) as He. rewrite Hc in He.
  inversion He; subst. eauto.
Qed.

Lemma woken_frame w w1 w2 c : woken w w1 c → frame w1 w2 → woken w w2 c.
Proof.
  intros Hwk Hf cl Hcl Hen. destruct (Hwk cl Hcl Hen) as (cl1 & Hcl1 & Hlt).
  destruct (frame_client w1 w2 c cl1 Hf Hcl1) as (cl2 & Hcl2 & _ & Hle).
  exists cl2. split; [done|lia].
Qed.

Lemma frame_woken w w1 w2 c : frame w w1 → woken w1 w2 c → woken w w2 c.
Proof.
  intros Hf Hwk cl Hcl Hen.
  destruct (frame_client w w1 c cl Hf Hcl) as (cl1 & Hcl1 & Hen1 & Hle).
  destruct (Hwk cl1 Hcl1) as (cl2 & Hcl2 & Hlt); [by rewrite Hen1|].
  exists cl2. split; [done|lia].
Qed.

Lemma alloc_push_ok w H e2 this c cl :
  core w H → clients w !! c = Some cl →
  ∃ w', EventPush c (brk w) this (allocated w e2) = Ok tt w' ∧ core w' H ∧
    frame w w' ∧ (brk w ≤ brk w')%Z ∧ untouched w w' ∧
    woken w w' c ∧
    ∀ x, view w' x =
      if decide (x = c) then deliver (SetSource this e2) <$> view w x else view w x.
Proof.
  intros Hw Hcl. destruct (refs_brk w H Hw) as [Hb Hnin].
  set (H2 := if IsPersistent e2 then H else {[brk w]} ∪ H).
  assert (H2 ∖ {[brk w]} = H) as HH.
  { unfold H2. apply leibniz_equiv. destruct (IsPersistent e2); set_solver. }
  destruct (EventPush_ok (allocated w e2) H2 c cl (brk w) this e2)
    as (w' & Hrun & [Hc Hf Hbr Ho Hwk Hv]); [by apply core_allocated|done|
    by apply lookup_insert_eq| |].
  { unfold H2. intros ->. set_solver. }
  rewrite HH in Hc. exists w'. split_done.
  - destruct Hf as [Hr Hm Hk Hen]. by split.
  - rewrite Hbr. cbn. lia.
  - intros x ex Hx H0. assert (x ≠ brk w) as Hxb.
    { intros ->. by rewrite (heap_brk w H) in Hx. }
    destruct (Ho x Hxb H0) as [Hh Hr0]. split; [|done]. rewrite Hh. cbn.
    by rewrite lookup_insert_ne.
  - intros x. rewrite Hv, (view_allocated w H) by done. done.
Qed.

Lemma broadcast_to_ok w H p e1 e2 this done c w' :
  Clone_of e1 = inl e2 → c ∈ event_client w → c ∉ done → core w H →
  heap w !! p = Some e1 → refs w p = 0 →
  bcast_inv w H (SetSource this e2) done w' →
  wp (broadcast_to this p c)
    (λ _, bcast_inv w H (SetSource this e2) (done ++ [c])) nothrow w'.
Proof.
  intros Hcl Hc Hnew Hw Hp H0 [Hw' Hf Hb Hk Hwk Hv]. destruct (Hk p e1 Hp H0) as [Hp' H0'].
  destruct (proj1 (core_dom _ _ Hw c) Hc) as [cl0 Hcl0].
  destruct (frame_client w w' c cl0) as (cl & Hclc & Hen & _); [done..|].
  assert (∀ x, x ≠ c → bool_decide (x ∈ done ++ [c]) = bool_decide (x ∈ done)) as Hdone.
  { intros x Hx. apply bool_decide_ext. set_solver. }
  unfold broadcast_to. apply wp_bind, (wp_client_get _ c cl); [done|].
  rewrite Hen. destruct (event_enable cl0) eqn:Hen0; cbn.
  - apply wp_bind, (wp_Clone _ p e1 e2); [done..|].
    destruct (alloc_push_ok w' H e2 this c cl)
      as (w2 & Hrun & Hc2 & Hf2 & Hb2 & Hk2 & Hwk2 & Hv2); [done..|].
    eapply wp_ok; [done|]. split; try done.
    + by etrans.
    + lia.
    + intros x ex Hx Hx0. destruct (Hk x ex Hx Hx0). by apply Hk2.
    + intros x [Hx| ->%list_elem_of_singleton]%elem_of_app.
      * by eapply woken_frame; [apply Hwk|].
      * by eapply frame_woken.
    + intros x. rewrite Hv2, Hv. destruct (decide (x = c)) as [->|Hne].
      * rewrite bool_decide_eq_false_2, bool_decide_eq_true_2 by set_solver.
        by destruct (view w c).
      * by rewrite Hdone.
  - change (bcast_inv w H (SetSource this e2) (done ++ [c]) w').
    split; try done.
    { intros x [Hx| ->%list_elem_of_singleton]%elem_of_app; [by apply Hwk|].
      intros cl1 Hcl1 Hen1. congruence. }
    intros x. rewrite Hv.
    destruct (decide (x = c)) as [->|Hne]; [|by rewrite Hdone].
    rewrite (view_client w c cl0), Hen0 by done. cbn.
    by destruct (bool_decide (c ∈ done)), (bool_decide (c ∈ done ++ [c])).
Qed.

Lemma wp_EventBroadcast w H this p e e2 :
  wf w H → event_client w ≠ [] → heap w !! p = Some e →
  (IsPersistent e = false → p ∈ H) → refs w p = 0 →
  Clone_of (SetTarget CS_EVENT_BROADCAST e) = inl e2 →
  wp (EventBroadcast this p)
    (λ _, dispatch_post w H p (reaches CS_EVENT_BROADCAST) (SetSource this e2))
    nothrow w.
Proof.
  intros Hwf Hne Hp Hown H0 Hclone. pose proof (wf_lock w H Hwf Hne) as Hfree.
  destruct Hwf as [Hw _].
  set (e1 := SetTarget CS_EVENT_BROADCAST e) in *.
  set (wl := set_client_mutex MHeld w).
  assert (core wl H) as Hwl by by apply core_set_client_mutex.
  set (w1 := set_heap (<[p := e1]> (heap wl)) wl).
  assert (core w1 H) as Hw1 by by apply (core_store wl H p e e1).
  assert (heap w1 !! p = Some e1) as Hp1 by apply lookup_insert_eq.
  unfold EventBroadcast, EventDispatch. apply wp_bind, wp_lock. split; [done|].
  apply wp_bind, (wp_ev_load _ p e); [done|].
  apply wp_bind, (wp_ev_store _ p e); [done|]. fold e1 wl w1.
  apply wp_bind, (wp_ev_load _ p e1); [done|].
  apply wp_bind, wp_gets, wp_bind.
  rewrite (proj2 (Z.eqb_eq _ _)) by done.
  apply wp_bind. eapply wp_conseq.
  { apply (wp_foreach (bcast_inv w1 H (SetSource this e2))).
    - split; try done.
      { intros c Hc. by apply elem_of_nil in Hc. }
      intros c. rewrite bool_decide_eq_false_2 by apply not_elem_of_nil.
      by destruct (view w1 c).
    - intros dn c rest w' Hl Hinv. apply (broadcast_to_ok w1 H p e1); try done.
      + rewrite Hl. set_solver.
      + pose proof (core_nodup _ _ Hw1) as Hnd. rewrite Hl in Hnd.
        apply NoDup_app in Hnd. set_solver. }
  intros _ w2 [Hc2 Hf2 Hb2 Hk2 Hwk2 Hv2].
  destruct (Hk2 p e1) as [Hp2 Hr2]; [done..|].
  destruct (destroy_ok w2 H p e1) as [Hc3 Hv3]; [done..|].
  apply (wp_EventDestroy _ p e1); [done|]. apply wp_unlock.
  destruct Hf2 as [Hr Hm Hk Hen]. split; [by cbn; rewrite Hm|]. split.
  - apply wf_unlocked; [done|]. cbn. by rewrite Hr.
  - by split; cbn; [rewrite Hr|rewrite Hfree|rewrite Hk|].
  - done.
  - intros c _ cl Hcl Hen1. apply (Hwk2 c); [|done..]. apply Hw. eauto.
  - intros x ex Hx Hex Hx0. destruct (Hk2 x ex) as [Hh Hr0]; [|done|].
    { unfold w1, wl. cbn. by rewrite lookup_insert_ne. }
    split; [|done]. cbn. unfold destroyed.
    destruct (IsPersistent e1); [done|by rewrite lookup_delete_ne].
  - intros _ c. rewrite view_set_client_mutex, Hv3, Hv2.
    unfold w1. rewrite (view_store wl H p e1) by done.
    change (view wl c) with (view w c). unfold deliver_if. case_bool_decide as Hin; [done|].
    by rewrite (view_unregistered w H c).
Qed.

(** ** Pop *)

Lemma client_put_same c cl w : clients w !! c = Some cl → client_put c cl w = w.
Proof.
  intros Hc. unfold client_put, set_clients. rewrite insert_id by done. by destruct w.
Qed.

Ltac run_pop := unfold EventPop, Clone, lock_queue, unlock_queue, client_update, mbind,
  M_bind, client_get, mutex_lock, mutex_unlock, ev_load, modify, mret, M_ret,
  client_put, set_clients; run_lookups.

Section pop.
Context (w : world) (H : gset Z) (c : Z) (cl : csEventClient).
Context (Hcl : clients w !! c = Some cl) (Hm : event_queue_mutex cl = MFree).

Lemma relock : set_queue_mutex MFree (set_queue_mutex MHeld cl) = cl.
Proof. destruct cl; cbn in *. by subst. Qed.

Lemma EventPop_empty : event_queue cl = [] → EventPop c w = Ok CS_EVENT_NONE w.
Proof.
  intros Hq. run_pop. rewrite Hm. run_lookups. rewrite Hq. run_lookups.
  rewrite insert_insert_eq, relock, (insert_id (clients w)) by done. by destruct w.
Qed.

Lemma EventPop_take p q e :
  event_queue cl = p :: q → heap w !! p = Some e → IsSticky e = false →
  EventPop c w = Ok p (client_put c (set_queue q cl) w).
Proof.
  intros Hq Hp Hst. run_pop. rewrite Hm. run_lookups. rewrite Hq. run_lookups.
  rewrite Hst. run_lookups. rewrite !insert_insert_eq.
  by destruct cl; cbn in *; subst.
Qed.

Lemma EventPop_sticky p q e e2 :
  event_queue cl = p :: q → heap w !! p = Some e → IsSticky e = true →
  Clone_of e = inl e2 → EventPop c w = Ok (brk w) (allocated w e2).
Proof.
  intros Hq Hp Hst He2. run_pop. rewrite Hm. run_lookups. rewrite Hq. run_lookups.
  rewrite Hst. run_lookups. rewrite He2. run_lookups.
  rewrite insert_insert_eq, relock, (insert_id (clients w)) by done. by destruct w.
Qed.

Lemma EventPop_throws p q e x :
  event_queue cl = p :: q → heap w !! p = Some e → IsSticky e = true →
  Clone_of e = inr x →
  EventPop c w = Throw x (client_put c (set_queue_mutex MHeld cl) w).
Proof.
  intros Hq Hp Hst He2. run_pop. rewrite Hm. run_lookups. rewrite Hq. run_lookups.
  rewrite Hst. run_lookups. by rewrite He2.
Qed.
End pop.

(** The events that running code holds once it received [e] at [r]. *)
Definition take (r : Z) (e : csEvent) (H : gset Z) : gset Z :=
  if IsPersistent e then H else {[r]} ∪ H.

Lemma core_take w H c cl p q e :
  core w H → clients w !! c = Some cl → event_queue cl = p :: q →
  heap w !! p = Some e →
  core (client_put c (set_queue q cl) w) (take p e H).
Proof.
  intros Hw Hcl Hq Hp.
  assert (set_heap (heap w) w = w) as Hset by by destruct w.
  rewrite <-Hset at 1.
  apply (core_put w H _ c cl); try done.
  - exact (core_qmutex _ _ Hw c cl Hcl).
  - apply Hw.
  - intros x r. rewrite Hq. cbn. autorewrite with cnt.
    assert (c ∈ event_client w) as Hin by (apply Hw; eauto).
    pose proof (refs_ge w c x cl Hin Hcl) as Hle. rewrite Hq in Hle.
    autorewrite with cnt in Hle.
    pose proof (core_own _ _ Hw x) as Ho. destruct (decide (p = x)) as [<-|Hne].
    + rewrite Hp in Ho |- *. cbn in *. unfold take.
      destruct (IsPersistent e); [done|]. rewrite held_union_eq. lia.
    + intros Hr. replace r with (refs w x) by lia. unfold take.
      destruct (IsPersistent e); [done|]. by rewrite held_union_ne.
Qed.

Lemma view_take w H c cl p q e x :
  core w H → clients w !! c = Some cl → event_queue cl = p :: q →
  heap w !! p = Some e →
  view (client_put c (set_queue q cl) w) x =
    if decide (x = c) then Some (event_enable cl, events (heap w) q) else view w x.
Proof.
  intros Hw Hcl Hq Hp. unfold view; cbn. case_decide as Hx.
  - subst. by rewrite lookup_insert_eq.
  - by rewrite lookup_insert_ne.
Qed.

(** ** Construction and destruction of clients *)

Lemma set_crit_mutex_same w m :
  crit_mutex (crit w) = m → set_crit_mutex m w = w.
Proof. destruct w as [????? [??]]. by intros <-. Qed.

Lemma crit_active_free w H :
  core w H → crit_active w = true → crit_mutex (crit w) = MFree.
Proof.
  intros Hw [_ Hm%bool_decide_eq_true_1]%andb_true_iff.
  pose proof (core_crit _ _ Hw). by destruct (crit_mutex (crit w)).
Qed.

(** The critical section is entered when it exists, and left as it was. *)
Definition entered (w : world) : world :=
  if crit_active w then set_crit_mutex MHeld w else w.

(** Nobody is in the section of [w] (it need not exist). *)
Definition crit_idle (w : world) : Prop :=
  crit_active w = true → crit_mutex (crit w) = MFree.

Lemma core_crit_idle w w' H : core w H → crit w' = crit w → crit_idle w'.
Proof.
  intros Hw Hc. unfold crit_idle, crit_active. rewrite Hc. by apply (crit_active_free w H).
Qed.

Lemma crit_Lock_run w : crit_idle w → csCriticalSection_Lock w = Ok tt (entered w).
Proof.
  intros Hw. unfold csCriticalSection_Lock, entered, mbind, M_bind, gets, when.
  destruct (crit_active w) eqn:Ha; [|done].
  unfold mutex_lock; cbn. by rewrite Hw.
Qed.

Lemma crit_Unlock_run w :
  crit_active w = true → crit_mutex (crit w) = MHeld →
  csCriticalSection_Unlock w = Ok tt (set_crit_mutex MFree w).
Proof.
  intros Ha Hm. unfold csCriticalSection_Unlock, mbind, M_bind, gets, when.
  rewrite Ha. unfold mutex_unlock; cbn. by rewrite Hm.
Qed.

(** Leaving the section after [f] changed other parts of the state. *)
Lemma crit_leave w (f : world → world) :
  crit_idle w → (∀ w, crit (f w) = crit w) →
  (∀ w m, set_crit_mutex m (f w) = f (set_crit_mutex m w)) →
  csCriticalSection_Unlock (f (entered w)) = Ok tt (f w).
Proof.
  intros Hw Hf Hcomm. unfold entered. destruct (crit_active w) eqn:Ha.
  - assert (crit_active (f (set_crit_mutex MHeld w)) = true) as Ha'.
    { unfold crit_active in *. rewrite Hf; cbn.
      apply andb_true_iff in Ha as [-> _]. done. }
    rewrite crit_Unlock_run; [|done|by rewrite Hf].
    rewrite Hcomm. do 2 f_equal.
    change (set_crit_mutex MFree (set_crit_mutex MHeld w)) with (set_crit_mutex MFree w).
    by apply set_crit_mutex_same, Hw.
  - unfold csCriticalSection_Unlock, mbind, M_bind, gets, when.
    unfold crit_active in *. by rewrite Hf, Ha.
Qed.

Definition constructed (this : Z) (w : world) : world :=
  World (heap w) (brk w) (<[this := EventClient true [] MFree 0]> (clients w))
    (event_client w ++ [this]) MFree (crit w).

Lemma csEventClient_new_run w H this :
  wf w H → csEventClient_new this w = Ok tt (constructed this w).
Proof.
  intros [Hw Hm]. set (w1 := client_put this (EventClient true [] MFree 0) w).
  assert (csCriticalSection_Lock w1 = Ok tt (entered w1)) as Hlock.
  { by apply crit_Lock_run, (core_crit_idle w w1 H). }
  assert (∀ f : world → world, (∀ w, crit (f w) = crit w) →
    (∀ w m, set_crit_mutex m (f w) = f (set_crit_mutex m w)) →
    csCriticalSection_Unlock (f (entered w1)) = Ok tt (f w1)) as Hleave.
  { intros f. by apply crit_leave, (core_crit_idle w w1 H). }
  unfold csEventClient_new, mbind at 1, M_bind, modify at 1. fold w1.
  unfold mbind at 1, M_bind. rewrite Hlock.
  unfold mbind at 1, M_bind, gets at 1, mbind at 1, M_bind, when.
  assert (event_client_mutex (entered w1) = event_client_mutex w) as ->.
  { unfold entered. by destruct (crit_active w1). }
  assert (∀ w2, event_client w2 = event_client w → event_client_mutex w2 = MFree →
    heap w2 = heap w → brk w2 = brk w → clients w2 = clients w1 → crit w2 = crit w →
    (lock_clients;; modify (λ w, set_event_client (event_client w ++ [this]) w);;
     unlock_clients) w2 = Ok tt (constructed this w)) as Hrest.
  { intros w2 He Hm2 Hh Hb Hc Hk.
    unfold lock_clients, unlock_clients, mutex_lock, mutex_unlock, mbind, M_bind, modify.
    rewrite Hm2; cbn. unfold set_event_client; cbn. by rewrite Hh, Hb, Hc, He, Hk. }
  case_bool_decide as Hnull.
  - unfold modify. unfold mbind at 1, M_bind.
    rewrite (Hleave (set_client_mutex MFree)) by done. by apply Hrest.
  - unfold mret, M_ret. unfold mbind at 1, M_bind.
    pose proof (Hleave id ltac:(done) ltac:(done)) as Hl. cbn in Hl. rewrite Hl.
    apply Hrest; try done. cbn.
    rewrite Hm in Hnull |- *. by destruct (decide _).
Qed.

Lemma sum_list_with_snoc {A} (f : A → nat) l a :
  sum_list_with f (l ++ [a]) = sum_list_with f l + f a.
Proof. rewrite sum_list_with_app. cbn. lia. Qed.

Lemma constructed_ok w H this :
  wf w H → clients w !! this = None → this ≠ NULL → this ≠ CS_EVENT_BROADCAST →
  wf (constructed this w) H ∧ ∀ c, view (constructed this w) c =
    if decide (c = this) then Some (true, []) else view w c.
Proof.
  intros [Hw _] Hnew Hnull Hbc.
  assert (this ∉ event_client w) as Hnin.
  { intros Hin%(core_dom _ _ Hw). rewrite Hnew in Hin. by destruct Hin. }
  assert (∀ p, refs (constructed this w) p = refs w p) as Hrefs.
  { intros p. unfold refs; cbn. rewrite sum_list_with_snoc.
    unfold queue_of at 2; cbn. rewrite lookup_insert_eq; cbn.
    rewrite Nat.add_0_r. apply sum_list_with_ext. intros c Hc.
    unfold queue_of; cbn. rewrite lookup_insert_ne; [done|]. by intros ->. }
  split; [split|].
  - destruct Hw as [Hnd Hdom Hqm Haddr Hheap Hbrk Hown Hcrit].
    split; try done; cbn.
    + apply NoDup_app. split_done; [set_solver|]. apply NoDup_singleton.
    + intros c. rewrite elem_of_app, list_elem_of_singleton, Hdom.
      destruct (decide (this = c)) as [<-|Hne].
      * rewrite lookup_insert_eq. naive_solver.
      * rewrite lookup_insert_ne by done. naive_solver.
    + intros c cl. destruct (decide (this = c)) as [<-|Hne].
      * rewrite lookup_insert_eq. by intros [= <-].
      * rewrite lookup_insert_ne by done. apply Hqm.
    + intros c. rewrite elem_of_app, list_elem_of_singleton. naive_solver.
    + intros p. rewrite Hrefs. apply Hown.
  - cbn. rewrite decide_False; [done|]. by destruct (event_client w).
  - intros c. unfold view; cbn. case_decide as Hc; [subst c|].
    + by rewrite lookup_insert_eq.
    + by rewrite lookup_insert_ne.
Qed.

(** What is taken from a queue and destroyed leaves the caller what he had. *)
Lemma take_back w H c cl p q e :
  core w H → clients w !! c = Some cl → event_queue cl = p :: q → heap w !! p = Some e →
  take p e H ∖ {[p]} = H.
Proof.
  intros Hw Hcl Hq He. assert (p ∉ H) as Hp.
  { apply held_not_in. pose proof (core_own _ _ Hw p) as Ho. rewrite He in Ho. cbn in Ho.
    destruct (IsPersistent e); [done|].
    assert (c ∈ event_client w) as Hreg by (apply Hw; eauto).
    pose proof (refs_ge w c p _ Hreg Hcl) as Hle. rewrite Hq in Hle.
    autorewrite with cnt in Hle. rewrite decide_True in Hle by done. lia. }
  apply leibniz_equiv. unfold take. destruct (IsPersistent e); set_solver.
Qed.

(** The destructor empties the queue first: the loop over the queue leaves
    the state as if the queue held only what is still to be visited. *)
Lemma wp_drain w H c cl :
  core w H → clients w !! c = Some cl →
  wp (foreach (event_queue cl) EventDestroy)
    (λ _ w', ∃ h, w' = set_heap h w ∧
       core (client_put c (set_queue [] cl) w') H ∧
       ∀ x, x ≠ c → view (client_put c (set_queue [] cl) w') x = view w x)
    nothrow w.
Proof.
  intros Hw Hcl.
  set (I := λ done w', ∃ h rest, event_queue cl = done ++ rest ∧
    w' = set_heap h w ∧ core (client_put c (set_queue rest cl) w') H ∧
    ∀ x, x ≠ c → view (client_put c (set_queue rest cl) w') x = view w x).
  eapply wp_conseq; [apply (wp_foreach I)|].
  - assert (set_queue (event_queue cl) cl = cl) as Hcleq by by destruct cl.
    exists (heap w), (event_queue cl). rewrite Hcleq.
    rewrite (client_put_same c cl w) by done. split_done. by destruct w.
  - intros dn p rest w' Hq (h & rest' & Hq' & -> & Hc & Hv).
    rewrite Hq in Hq'. apply app_inv_head in Hq' as <-.
    set (wq := client_put c (set_queue (p :: rest) cl) (set_heap h w)) in *.
    assert (clients wq !! c = Some (set_queue (p :: rest) cl)) as Hclq
      by (cbn; apply lookup_insert_eq).
    destruct (core_live wq H c _ p Hc Hclq) as [e He]; [set_solver|].
    pose proof (core_take wq H c _ p rest e Hc Hclq eq_refl He) as Htake.
    assert (client_put c (set_queue rest (set_queue (p :: rest) cl)) wq =
      client_put c (set_queue rest cl) (set_heap h w)) as Hput.
    { unfold wq. by rewrite client_put_put. }
    rewrite Hput in Htake.
    destruct (destroy_ok _ _ p e Htake He) as [Hc2 Hv2].
    { unfold take. intros ->. set_solver. }
    apply (wp_EventDestroy _ p e); [done|].
    exists (destroyed h p e), rest. split_done.
    + by rewrite <-app_assoc.
    + by rewrite (take_back wq H c _ p rest e Hc Hclq eq_refl He) in Hc2.
    + intros x Hx. specialize (Hv2 x). cbn in Hv2.
      rewrite <-(Hv x Hx). unfold wq.
      transitivity (view (client_put c (set_queue rest cl) (set_heap h w)) x); [done|].
      unfold view; cbn. by rewrite !lookup_insert_ne.
  - intros _ w' (h & rest & Hq & -> & Hc & Hv).
    rewrite <-(app_nil_r (event_queue cl)) in Hq at 1.
    apply app_inv_head in Hq as <-. eauto.
Qed.

Lemma erase_first_perm c l : c ∈ l → l ≡ₚ c :: erase_first c l.
Proof.
  induction l as [|x l IH]; [set_solver|]. simpl.
  destruct (x =? c)%Z eqn:Hx.
  - apply Z.eqb_eq in Hx as ->. done.
  - apply Z.eqb_neq in Hx. intros Hc. rewrite IH at 1 by set_solver.
    apply Permutation_swap.
Qed.

Lemma erase_first_snoc c l : c ∉ l → erase_first c (l ++ [c]) = l.
Proof.
  induction l as [|x l IH]; intros Hc; simpl; [by rewrite Z.eqb_refl|].
  apply not_elem_of_cons in Hc as [Hne Hc].
  by rewrite (proj2 (Z.eqb_neq _ _)), IH.
Qed.

Lemma erase_first_elem c l :
  NoDup l → NoDup (erase_first c l) ∧ ∀ x, x ∈ erase_first c l ↔ x ≠ c ∧ x ∈ l.
Proof.
  intros Hnd. destruct (decide (c ∈ l)) as [Hin|Hnin].
  - pose proof (erase_first_perm c l Hin) as Hperm. rewrite Hperm in Hnd.
    apply NoDup_cons in Hnd as [Hnin Hnd]. split; [done|].
    intros x. rewrite Hperm at 2. rewrite elem_of_cons. naive_solver.
  - assert (erase_first c l = l) as ->; [|naive_solver].
    clear Hnd. induction l as [|x l IH]; [done|]. cbn.
    rewrite (proj2 (Z.eqb_neq x c)), IH; set_solver.
Qed.

Lemma sum_list_with_perm {A} (f : A → nat) l l' :
  l ≡ₚ l' → sum_list_with f l = sum_list_with f l'.
Proof. induction 1; simpl; lia. Qed.

Definition removed (c : Z) (w : world) : world :=
  set_clients (delete c (clients w))
    (set_event_client (erase_first c (event_client w)) w).

Lemma core_removed w H c cl :
  core w H → clients w !! c = Some cl → event_queue cl = [] →
  core (removed c w) H ∧
  ∀ x, view (removed c w) x = if decide (x = c) then None else view w x.
Proof.
  intros Hw Hcl Hq. assert (c ∈ event_client w) as Hin by (apply Hw; eauto).
  pose proof (erase_first_perm c _ Hin) as Hperm.
  destruct (erase_first_elem c _ (core_nodup _ _ Hw)) as [Hnd Hmem].
  assert (∀ p, refs (removed c w) p = refs w p) as Hrefs.
  { intros p. unfold refs; cbn. rewrite (sum_list_with_perm _ _ _ Hperm); cbn.
    unfold queue_of at 2. rewrite Hcl, Hq. cbn.
    apply sum_list_with_ext. intros x [Hne _]%Hmem.
    unfold queue_of; cbn. by rewrite lookup_delete_ne. }
  split.
  - destruct Hw as [_ Hdom Hqm Haddr Hheap Hbrk Hown Hcrit]. split; try done; cbn.
    + intros x. rewrite Hmem, Hdom. destruct (decide (c = x)) as [<-|Hne].
      * rewrite lookup_delete_eq. split; [naive_solver|]. by intros [].
      * rewrite lookup_delete_ne by done. naive_solver.
    + intros x clx [_ Hx]%lookup_delete_Some. by apply (Hqm x).
    + intros x [_ Hx]%Hmem. by apply Haddr.
    + intros p. rewrite Hrefs. apply Hown.
  - intros x. unfold view; cbn. case_decide as Hx; [subst x|].
    + by rewrite lookup_delete_eq.
    + by rewrite lookup_delete_ne.
Qed.

(** ~csEventClient: its queued events are destroyed, it is unregistered, and
    the last client takes the mutex with it. *)
Lemma wp_csEventClient_delete w H c cl :
  wf w H → clients w !! c = Some cl →
  wp (csEventClient_delete c)
    (λ _ w', wf w' H ∧ event_client w' = erase_first c (event_client w) ∧
      ∀ x, view w' x = if decide (x = c) then None else view w x) nothrow w.
Proof.
  intros Hwf Hcl.
  assert (c ∈ event_client w) as Hin by (apply Hwf; eauto).
  assert (event_client_mutex w = MFree) as Hfree.
  { apply (wf_lock w H Hwf). by intros Hnil; rewrite Hnil in Hin; apply elem_of_nil in Hin. }
  destruct Hwf as [Hw _].
  set (wl := set_client_mutex MHeld w).
  assert (core wl H) as Hwl by by apply core_set_client_mutex.
  unfold csEventClient_delete. apply wp_bind, wp_lock. split; [done|]. fold wl.
  apply wp_bind, (wp_client_get _ c cl); [done|].
  apply wp_bind, (wp_ok _ tt wl).
  { unfold destroy_queue_mutex. by rewrite (core_qmutex _ _ Hw c cl Hcl). }
  apply wp_bind. eapply wp_conseq; [by apply (wp_drain wl H c cl)|].
  intros _ w' (h & -> & Hc & Hv).
  apply wp_bind, (wp_client_update _ c cl); [done|].
  set (wq := client_put c (set_queue [] cl) (set_heap h wl)) in *.
  apply wp_bind, wp_modify.
  set (we := set_event_client (erase_first c (event_client wq)) wq).
  assert (clients wq !! c = Some (set_queue [] cl)) as Hclq by (cbn; apply lookup_insert_eq).
  destruct (core_removed wq H c _ Hc Hclq eq_refl) as [Hcr Hvr].
  assert (crit_idle we) as Hidle by by apply (core_crit_idle w we H).
  apply wp_bind. eapply wp_ok; [by apply crit_Lock_run|].
  apply wp_bind, wp_gets, wp_bind, wp_unlock.
  set (final := λ w, set_client_mutex
    (if (length (event_client we) =? 0)%nat then MNull else MFree) w).
  assert (∀ x, crit_active x = crit_active (final x)) as Hact by done.
  split. { unfold entered. by destruct (crit_active we). }
  assert (event_client (entered we) = event_client we) as Hecl.
  { unfold entered. by destruct (crit_active we). }
  apply wp_bind.
  apply (wp_ok _ tt (final (entered we))).
  { unfold when, final; cbn [compose]. rewrite Hecl. cbn.
    by destruct (length _ =? 0)%nat. }
  apply wp_bind.
  apply (wp_ok _ tt (final we)); [by apply crit_leave|].
  apply wp_modify.
  assert (removed c (final wq) = set_clients (delete c (clients (final we))) (final we))
    as <- by done.
  assert (event_client (removed c (final wq)) = erase_first c (event_client w)) as Her by done.
  split_done.
  - split.
    + by apply (core_set_client_mutex _ H _ Hcr).
    + rewrite Her. cbn. by destruct (erase_first c (event_client w)).
  - intros x. change (view (removed c (final wq)) x) with (view (removed c wq) x).
    rewrite Hvr. destruct (decide (x = c)); [done|]. by rewrite Hv.
Qed.
