(* ===== verification/Bus.v ===== *)
(** * The event bus as its users see it

    Timers, the signal handler, the netlink thread and the main program use
    the event system through one operation, "allocate an event and dispatch
    it", and rely on what it does to the queues of the clients.  The class
    [EventBus] states that contract; [event_bus] discharges it for the event
    clients of csevent.cpp. *)

From S2P Require Import Prelude Exception Event EventInv EventOps.

(** The event a client finds in its queue after [src] dispatched [e] to
    [dst]: the event itself, or for a broadcast a copy of it. *)
Definition posted (src dst : Z) (e : csEvent) : option csEvent :=
  let e1 := SetTarget dst e in
  if (dst =? CS_EVENT_BROADCAST)%Z then
    match Clone_of e1 with
    | inl e2 => Some (SetSource src e2)
    | inr _ => None
    end
  else Some (SetSource src e1).

Class EventBus (W : Type) := {
  bus_ok : W → Prop;
  (** accepts events?, queued events: for a registered client *)
  bus_view : W → Z → option (bool * list csEvent);
  (** [EventDispatch(new e, dst)] called by the client at [src] *)
  bus_post : Z → Z → csEvent → prog W unit;
  bus_post_spec : ∀ w src dst e e',
    bus_ok w → is_Some (bus_view w src) → posted src dst e = Some e' →
    ∃ w', bus_post src dst e w = Ok tt w' ∧ bus_ok w' ∧
      ∀ c, bus_view w' c =
        deliver_if (reaches dst c) e' <$> bus_view w c;
}.

(** ** The event clients of csevent.cpp implement it *)

Definition post (src dst : Z) (e : csEvent) : prog world unit :=
  p ← ev_new e; EventDispatch src p dst.

Definition world_ok (w : world) : Prop := ∃ H, wf w H.

Lemma wf_allocated w H e :
  wf w H → wf (allocated w e) (take (brk w) e H).
Proof. intros [Hw Hm]. split; [by apply core_allocated|done]. Qed.

Lemma view_registered w H c :
  core w H → is_Some (view w c) → event_client w ≠ [].
Proof.
  intros Hw [v Hv] Hnil. unfold view in Hv.
  destruct (clients w !! c) as [cl|] eqn:Hc; [|done].
  assert (c ∈ event_client w) as Hin by (apply Hw; eauto).
  rewrite Hnil in Hin. by apply elem_of_nil in Hin.
Qed.

Lemma post_ok w H src dst e e' :
  wf w H → is_Some (view w src) → posted src dst e = Some e' →
  ∃ w', post src dst e w = Ok tt w' ∧ wf w' H ∧ frame w w' ∧
    (∀ c, reaches dst c = true → woken w w' c) ∧ untouched w w' ∧
    ∀ c, view w' c = deliver_if (reaches dst c) e' <$> view w c.
Proof.
  intros Hwf Hsrc Hpost. pose proof Hwf as [Hw _].
  assert (event_client (allocated w e) ≠ []) as Hne by by apply (view_registered w H src).
  pose proof (wf_allocated w H e Hwf) as Hwfa. destruct (refs_brk w H Hw) as [H0 Hnin].
  assert (take (brk w) e H ∖ {[brk w]} = H) as HH.
  { unfold take. apply leibniz_equiv. destruct (IsPersistent e); set_solver. }
  assert (heap (allocated w e) !! brk w = Some e) as Hp by apply lookup_insert_eq.
  assert (IsPersistent e = false → brk w ∈ take (brk w) e H) as Hown.
  { unfold take. intros ->. set_solver. }
  enough (∃ a w', EventDispatch src (brk w) dst (allocated w e) = Ok a w' ∧
    dispatch_post (allocated w e) (take (brk w) e H) (brk w)
      (reaches dst) e' w') as ([] & w' & Hrun & [Hd Hf _ Hwk Ho Hv]).
  { exists w'. unfold post, mbind, M_bind, ev_new. split; [done|].
    rewrite HH in Hd. split_done.
    - destruct Hf as [Hr Hm Hk He]. by split.
    - intros x ex Hx Hx0. assert (x ≠ brk w) as Hxb.
      { intros ->. by rewrite (heap_brk w H) in Hx. }
      apply Ho; [done| |done]. cbn. by rewrite lookup_insert_ne.
    - intros c. by rewrite (Hv H0), (view_allocated w H). }
  apply wp_inv. unfold posted in Hpost. destruct (dst =? CS_EVENT_BROADCAST)%Z eqn:Hb.
  - apply Z.eqb_eq in Hb as ->.
    destruct (Clone_of (SetTarget CS_EVENT_BROADCAST e)) as [e2|] eqn:Hcl;
      simplify_eq.
    by apply (wp_EventBroadcast _ _ src _ e e2 Hwfa Hne Hp Hown H0).
  - apply Z.eqb_neq in Hb. simplify_eq.
    by apply (wp_EventDispatch _ _ src _ dst e Hwfa Hne Hb Hp Hown).
Qed.

Lemma post_spec w H src dst e e' :
  wf w H → is_Some (view w src) → posted src dst e = Some e' →
  ∃ w', post src dst e w = Ok tt w' ∧ wf w' H ∧ frame w w' ∧
    (∀ c, reaches dst c = true → woken w w' c) ∧
    ∀ c, view w' c = deliver_if (reaches dst c) e' <$> view w c.
Proof.
  intros Hw Hs Hp. destruct (post_ok w H src dst e e' Hw Hs Hp)
    as (w' & ? & ? & ? & ? & _ & ?). by exists w'.
Qed.

#[export] Program Instance event_bus : EventBus world := {|
  bus_ok := world_ok;
  bus_view := view;
  bus_post := post;
|}.
Next Obligation.
  intros w src dst e e' [H Hw] Hsrc Hp.
  destruct (post_spec w H src dst e e') as (w' & Hrun & Hok & _ & _ & Hv); try done.
  exists w'. split_done. by exists H.
Qed.
