(* ===== verification/EventProps.v ===== *)
(** * Event clients: properties

    The usage protocol of the event system as a step relation, and the
    theorems about dispatch, broadcast, pop and the life of clients. *)

From S2P Require Import Prelude Exception Event EventInv EventOps Bus.

(** ** The usage protocol

    [(w, H)]: the shared state and the events that running code holds.  Code
    may dispatch, or destroy, an event that it holds, or a persistent one; it
    broadcasts events that can be cloned and are not queued. *)

Definition may_use (w : world) (H : gset Z) (p : Z) (e : csEvent) : Prop :=
  heap w !! p = Some e ∧ (IsPersistent e = false → p ∈ H).

Definition may_broadcast (w : world) (p : Z) (e : csEvent) : Prop :=
  refs w p = 0 ∧
  is_Some (posted NULL CS_EVENT_BROADCAST e).

Inductive bus_step : world * gset Z → world * gset Z → Prop :=
  | step_new_client w H c w' :
      clients w !! c = None → c ≠ NULL → c ≠ CS_EVENT_BROADCAST →
      csEventClient_new c w = Ok tt w' → bus_step (w, H) (w', H)
  | step_delete_client w H c cl w' :
      clients w !! c = Some cl → csEventClient_delete c w = Ok tt w' →
      bus_step (w, H) (w', H)
  | step_enable w H c b cl w' :
      clients w !! c = Some cl → EventsEnable c b w = Ok tt w' →
      bus_step (w, H) (w', H)
  | step_new_event w H e p w' :
      ev_new e w = Ok p w' → bus_step (w, H) (w', take p e H)
  | step_dispatch w H this p dst e w' :
      event_client w ≠ [] → may_use w H p e →
      (dst = CS_EVENT_BROADCAST → may_broadcast w p e) →
      EventDispatch this p dst w = Ok tt w' → bus_step (w, H) (w', H ∖ {[p]})
  | step_pop_none w H c cl w' :
      clients w !! c = Some cl → EventPop c w = Ok CS_EVENT_NONE w' →
      bus_step (w, H) (w', H)
  | step_pop w H c cl p e w' :
      clients w !! c = Some cl → EventPop c w = Ok p w' → p ≠ CS_EVENT_NONE →
      heap w' !! p = Some e → bus_step (w, H) (w', take p e H)
  | step_destroy w H p e w' :
      may_use w H p e → EventDestroy p w = Ok tt w' →
      bus_step (w, H) (w', H ∖ {[p]}).

Definition reachable (s : world * gset Z) : Prop := rtc bus_step (world0, ∅) s.

Lemma world0_wf : wf world0 ∅.
Proof.
  split; [|done]. split; try done; cbn.
  - apply NoDup_nil_2.
  - intros c. rewrite lookup_empty, elem_of_nil. split; [done|]. by intros [].
  - intros c Hc. by apply elem_of_nil in Hc.
Qed.

Lemma wf_enable w H c cl b :
  wf w H → clients w !! c = Some cl → wf (client_put c (set_enable b cl) w) H.
Proof.
  intros [Hw Hm] Hcl. split; [|done].
  assert (set_heap (heap w) w = w) as Hset by by destruct w.
  rewrite <-Hset at 1. apply (core_put w H H c cl); try done.
  - exact (core_qmutex _ _ Hw c cl Hcl).
  - apply Hw.
  - intros p r Hr. cbn in Hr. replace r with (refs w p) by lia. apply Hw.
Qed.

(** Whatever [EventPop] returns normally keeps the invariant. *)
Lemma wf_pop w H c cl r w' :
  wf w H → clients w !! c = Some cl → EventPop c w = Ok r w' →
  (event_queue cl = [] ∧ r = CS_EVENT_NONE ∧ w' = w) ∨
  ∃ e, heap w' !! r = Some e ∧ wf w' (take r e H).
Proof.
  intros [Hw Hm] Hcl. pose proof (core_qmutex _ _ Hw c cl Hcl) as Hfree.
  destruct (event_queue cl) as [|p q] eqn:Hq.
  - rewrite (EventPop_empty w c cl) by done. intros [= <- <-]. by left.
  - destruct (core_live w H c cl p) as [e He]; [done..|rewrite Hq; set_solver|].
    destruct (IsSticky e) eqn:Hst.
    + destruct (Clone_of e) as [e2|x] eqn:Hcl2.
      * rewrite (EventPop_sticky w c cl Hcl Hfree p q e e2) by done.
        intros [= <- <-]. right. exists e2. split; [apply lookup_insert_eq|].
        by apply wf_allocated.
      * by rewrite (EventPop_throws w c cl Hcl Hfree p q e x).
    + rewrite (EventPop_take w c cl Hcl Hfree p q e) by done.
      intros [= <- <-]. right. exists e. split; [done|]. split; [|done].
      by apply core_take.
Qed.

Lemma heap_null w H e : core w H → heap w !! CS_EVENT_NONE = Some e → False.
Proof. intros Hw Hp. pose proof (core_heap _ _ Hw _ _ Hp). unfold CS_EVENT_NONE, NULL in *. lia. Qed.

Lemma wf_destroy w H p e w' :
  wf w H → may_use w H p e → EventDestroy p w = Ok tt w' → wf w' (H ∖ {[p]}).
Proof.
  intros [Hw Hm] [Hp Hown]. rewrite (EventDestroy_run w p e) by done.
  intros [= <-]. split; [|done]. by apply destroy_ok.
Qed.

Lemma wf_dispatch w H this p dst e :
  wf w H → event_client w ≠ [] → may_use w H p e →
  (dst = CS_EVENT_BROADCAST → may_broadcast w p e) →
  wp (EventDispatch this p dst) (λ _ w', wf w' (H ∖ {[p]})) nothrow w.
Proof.
  intros Hw Hne [Hp Hown] Hbc. destruct (decide (dst = CS_EVENT_BROADCAST)) as [->|Hdst].
  - destruct (Hbc eq_refl) as [H0 [e' He']]. unfold posted in He'. cbn in He'.
    destruct (Clone_of _) as [e2|] eqn:Hcl; [|done].
    eapply wp_conseq; [by apply (wp_EventBroadcast w H this p e e2)|].
    by intros _ w' [].
  - eapply wp_conseq; [by apply (wp_EventDispatch w H this p dst e)|].
    by intros _ w' [].
Qed.

Lemma bus_step_wf s s' : bus_step s s' → wf s.1 s.2 → wf s'.1 s'.2.
Proof.
  destruct 1 as [w H c w' Hnew Hn Hb Hrun|w H c cl w' Hcl Hrun|w H c b cl w' Hcl Hrun
    |w H e p w' Hrun|w H this p dst e w' Hne Huse Hbc Hrun|w H c cl w' Hcl Hrun
    |w H c cl p e w' Hcl Hrun Hp He|w H p e w' Huse Hrun]; cbn; intros Hw.
  - rewrite (csEventClient_new_run w H c) in Hrun by done. simplify_eq.
    by apply constructed_ok.
  - by apply (wp_run _ _ _ _ _ _ (wp_csEventClient_delete w H c cl Hw Hcl)) in Hrun as [? _].
  - unfold EventsEnable, client_update, mbind, M_bind, client_get, modify in Hrun.
    rewrite Hcl in Hrun. simplify_eq. by apply wf_enable.
  - unfold ev_new in Hrun. simplify_eq. by apply (wf_allocated w H e).
  - by apply (wp_run _ _ _ _ _ _ (wf_dispatch w H this p dst e Hw Hne Huse Hbc) Hrun).
  - destruct (wf_pop w H c cl _ w' Hw Hcl Hrun) as [(_ & _ & ->)|(e & He & Hwf)]; [done|].
    by destruct (heap_null w' _ e (proj1 Hwf) He).
  - destruct (wf_pop w H c cl _ w' Hw Hcl Hrun) as [(_ & -> & _)|(e' & He' & Hwf)]; [done|].
    by simplify_eq.
  - by apply (wf_destroy w H p e).
Qed.

Lemma reachable_wf s : reachable s → wf s.1 s.2.
Proof.
  unfold reachable. revert s.
  apply (rtc_ind_r (R:=bus_step) (λ s, wf s.1 s.2) (world0, ∅)); [apply world0_wf|].
  intros s1 s2 _ Hstep Hw. by apply (bus_step_wf s1).
Qed.

(** ** A small concrete state for the witnesses: two clients, one held event *)

Definition sample0 : world := constructed 200 (constructed 100 world0).

Lemma sample0_wf : wf sample0 ∅.
Proof.
  assert (wf (constructed 100 world0) ∅) as Hw.
  { by apply (constructed_ok world0 ∅ 100 world0_wf). }
  by apply (constructed_ok _ ∅ 200 Hw).
Qed.

Definition sample (e : csEvent) : world := allocated sample0 e.

Lemma sample_wf e : wf (sample e) (take 1 e ∅).
Proof. exact (wf_allocated sample0 ∅ e sample0_wf). Qed.

Lemma sample_use e : may_use (sample e) (take 1 e ∅) 1 e.
Proof. split; [done|]. unfold take. intros ->. set_solver. Qed.

Lemma sample_refs e : refs (sample e) 1 = 0.
Proof. done. Qed.

(** ** Dispatch and broadcast *)

(** C1. [EventDispatch] to one client refines the abstract queues: from a
    well-formed state, with an event the caller may use and that is not
    queued yet, the call returns normally, the invariant holds again and the
    caller no longer holds the event; exactly the queue of [dst] changes (to
    what [deliver] says: insertion at the front or the back, with an
    exclusive event replacing the queued one of its id), and only if [dst] is
    registered and accepts events. *)
Theorem EventDispatch_refines w H this p dst e :
  wf w H → event_client w ≠ [] → dst ≠ CS_EVENT_BROADCAST →
  may_use w H p e → refs w p = 0 →
  ∃ w', EventDispatch this p dst w = Ok tt w' ∧ wf w' (H ∖ {[p]}) ∧
    event_client w' = event_client w ∧
    ∀ c, view w' c =
      if decide (c = dst)
      then deliver (SetSource this (SetTarget dst e)) <$> view w c
      else view w c.
Proof.
  intros Hw Hne Hdst [Hp Hown] H0.
  destruct (wp_inv _ _ _ (wp_EventDispatch w H this p dst e Hw Hne Hdst Hp Hown))
    as ([] & w' & Hrun & [Hwf Hf _ _ _ Hv]).
  exists w'. split_done; [apply Hf|]. intros c. rewrite (Hv H0). unfold reaches.
  rewrite (proj2 (Z.eqb_neq _ _) Hdst). cbn. case_decide as Hc.
  - by rewrite Hc, Z.eqb_refl.
  - rewrite (proj2 (Z.eqb_neq _ _)) by congruence. by destruct (view w c).
Qed.

Lemma EventDispatch_refines_witness :
  let e := csEvent_new 77 HighPriority in
  ∃ w', EventDispatch 100 1 200 (sample e) = Ok tt w' ∧
    wf w' (take 1 e ∅ ∖ {[1%Z]}) ∧
    event_client w' = [100; 200]%Z ∧
    ∀ c, view w' c =
      if decide (c = 200%Z)
      then deliver (SetSource 100 (SetTarget 200 e)) <$> view (sample e) c
      else view (sample e) c.
Proof.
  intros e. apply (EventDispatch_refines (sample e) (take 1 e ∅) 100 1 200 e).
  - apply sample_wf.
  - done.
  - done.
  - apply sample_use.
  - apply sample_refs.
Defined.

(** C2. A broadcast puts one copy of the event into the queue of every
    registered client that accepts events, leaves the other clients alone,
    and gives up the original event. *)
Theorem EventBroadcast_refines w H this p e e2 :
  wf w H → event_client w ≠ [] → may_use w H p e → refs w p = 0 →
  Clone_of (SetTarget CS_EVENT_BROADCAST e) = inl e2 →
  ∃ w', EventBroadcast this p w = Ok tt w' ∧ wf w' (H ∖ {[p]}) ∧
    event_client w' = event_client w ∧
    ∀ c, view w' c = deliver (SetSource this e2) <$> view w c.
Proof.
  intros Hw Hne [Hp Hown] H0 Hcl.
  destruct (wp_inv _ _ _ (wp_EventBroadcast w H this p e e2 Hw Hne Hp Hown H0 Hcl))
    as ([] & w' & Hrun & [Hwf Hf _ _ _ Hv]).
  exists w'. split_done; [apply Hf|]. exact (Hv H0).
Qed.

Lemma EventBroadcast_refines_witness :
  let e := csEvent_new csEVENT_RELOAD FlagNone in
  ∃ w', EventBroadcast 100 1 (sample e) = Ok tt w' ∧
    wf w' (take 1 e ∅ ∖ {[1%Z]}) ∧
    event_client w' = [100; 200]%Z ∧
    ∀ c, view w' c =
      deliver (SetSource 100 (SetTarget CS_EVENT_BROADCAST e)) <$> view (sample e) c.
Proof.
  intros e. apply (EventBroadcast_refines (sample e) (take 1 e ∅) 100 1 e).
  - apply sample_wf.
  - done.
  - apply sample_use.
  - apply sample_refs.
  - reflexivity.
Defined.

(** ** Pop *)

Lemma view_queue w H c b q :
  core w H → view w c = Some (b, q) →
  ∃ cl, clients w !! c = Some cl ∧ event_enable cl = b ∧
    event_queue_mutex cl = MFree ∧
    match q with
    | [] => event_queue cl = []
    | e :: q' => ∃ p ps, event_queue cl = p :: ps ∧ heap w !! p = Some e ∧
        events (heap w) ps = q'
    end.
Proof.
  intros Hw Hv. unfold view in Hv.
  destruct (clients w !! c) as [cl|] eqn:Hcl; [|done]. cbn in Hv. simplify_eq.
  exists cl. split_done; [exact (core_qmutex _ _ Hw c cl Hcl)|].
  destruct (event_queue cl) as [|p ps] eqn:Hq; [done|].
  destruct (core_live w H c cl p) as [e He]; [done..|rewrite Hq; set_solver|].
  rewrite (events_cons (heap w) p e) by done. by exists p, ps.
Qed.

(** What [EventPop] does on a client whose abstract queue is [q]. *)
Definition pop_result (w : world) (H : gset Z) (c : Z) (b : bool)
    (q : list csEvent) (o : outcome csException world Z) : Prop :=
  match q with
  | [] => o = Ok CS_EVENT_NONE w
  | e :: q' =>
      if IsSticky e then
        match Clone_of e with
        | inl e2 => ∃ r w', o = Ok r w' ∧ heap w !! r = None ∧
            heap w' !! r = Some e2 ∧ wf w' (take r e2 H) ∧
            ∀ x, view w' x = view w x
        | inr exc => ∃ w' cl, o = Throw exc w' ∧ clients w' !! c = Some cl ∧
            event_queue_mutex cl = MHeld
        end
      else
        ∃ r w', o = Ok r w' ∧ heap w' !! r = Some e ∧ wf w' (take r e H) ∧
          ∀ x, view w' x = if decide (x = c) then Some (b, q') else view w x
  end.

Lemma EventPop_result w H c b q :
  wf w H → view w c = Some (b, q) → pop_result w H c b q (EventPop c w).
Proof.
  intros [Hw Hm] Hv. destruct (view_queue w H c b q Hw Hv) as (cl & Hcl & Hen & Hfree & Hq).
  destruct q as [|e q']; [by apply (EventPop_empty w c cl)|].
  destruct Hq as (p & ps & Hq & He & Hps). unfold pop_result.
  destruct (IsSticky e) eqn:Hst.
  - destruct (Clone_of e) as [e2|x] eqn:Hcl2.
    + exists (brk w), (allocated w e2). split_done.
      * by apply (EventPop_sticky w c cl Hcl Hfree p ps e).
      * by apply (heap_brk w H).
      * by apply lookup_insert_eq.
      * by apply wf_allocated.
      * intros x. by apply (view_allocated w H).
    + eexists _, (set_queue_mutex MHeld cl). split_done.
      * by apply (EventPop_throws w c cl Hcl Hfree p ps e x).
      * by apply lookup_insert_eq.
  - exists p, (client_put c (set_queue ps cl) w). split_done.
    + by apply (EventPop_take w c cl Hcl Hfree p ps e).
    + split; [by apply (core_take w H c cl p ps e)|done].
    + intros x. rewrite (view_take w H c cl p ps e) by done. by rewrite Hen, Hps.
Qed.

(** C3. [EventPop] of a well-formed client never gets stuck and refines the
    abstract queue: an empty queue yields the null event and changes nothing;
    a head that is not sticky is taken off the queue and handed to the caller;
    a sticky head stays and the caller receives a fresh copy; only a sticky
    event that refuses to be copied leaves with that exception, and then the
    queue's mutex stays locked. *)
Theorem EventPop_refines w H c b q :
  wf w H → view w c = Some (b, q) → pop_result w H c b q (EventPop c w).
Proof. apply EventPop_result. Qed.

(** A client that pops an event and destroys it when it is done with it. *)
Lemma clone_id e e2 : Clone_of e = inl e2 → GetId e2 = GetId e.
Proof. unfold Clone_of. destruct (ev_class e); by intros [= <-]. Qed.

Lemma not_held_of w H p :
  core w H → (heap w !! p = None ∨ 0 < refs w p ∨ ∃ e, heap w !! p = Some e ∧
    IsPersistent e = true) → p ∉ H.
Proof.
  intros Hw Hp. apply held_not_in. pose proof (core_own _ _ Hw p) as Ho.
  unfold own_at in Ho. destruct Hp as [Hp|[Hp|(e & Hp & Hper)]].
  - rewrite Hp in Ho. apply Ho.
  - destruct (heap w !! p) as [e|]; [destruct (IsPersistent e); [done|lia]|lia].
  - by rewrite Hp, Hper in Ho.
Qed.

(** An event that a client can always receive. *)
Definition receivable (e : csEvent) : Prop :=
  IsSticky e = true → is_Some (posted NULL CS_EVENT_BROADCAST e).

Lemma pop_take_run w H c b e q :
  wf w H → view w c = Some (b, e :: q) → IsSticky e = false →
  ∃ r w1, EventPop c w = Ok r w1 ∧ r ≠ CS_EVENT_NONE ∧ heap w1 !! r = Some e ∧ r ∉ H ∧
    wf w1 (take r e H) ∧
    ∀ x, view w1 x = if decide (x = c) then Some (b, q) else view w x.
Proof.
  intros Hwf Hv Hst. pose proof (EventPop_result w H c b _ Hwf Hv) as Hres.
  pose proof Hwf as [Hw _]. cbn in Hres. rewrite Hst in Hres.
  destruct Hres as (r & w' & Hpop & Hr & Hwf' & Hv').
  exists r, w'. split_done; [intros ->; by apply (heap_null w' _ e (proj1 Hwf'))|].
  destruct (view_queue w H c b _ Hw Hv) as (cl & Hcl' & _ & Hfree & p & ps & Hq & He & _).
  rewrite (EventPop_take w c cl Hcl' Hfree p ps e) in Hpop by done. simplify_eq.
  apply (not_held_of w); [done|]. right. left.
  apply Nat.lt_le_trans with (cnt r (event_queue cl)).
  - rewrite Hq, <-cnt_pos. set_solver.
  - apply (refs_ge w c r cl); [apply Hw; eauto|done].
Qed.

Lemma clone_flags e e2 : Clone_of e = inl e2 → GetFlags e2 = GetFlags e.
Proof. unfold Clone_of. destruct (ev_class e); by intros [= <-]. Qed.

Lemma pop_run w H c b e q :
  wf w H → view w c = Some (b, e :: q) → receivable e →
  ∃ r w1 e1, EventPop c w = Ok r w1 ∧ r ≠ CS_EVENT_NONE ∧ heap w1 !! r = Some e1 ∧
    GetId e1 = GetId e ∧ GetFlags e1 = GetFlags e ∧ (IsSticky e = false → e1 = e) ∧
    r ∉ H ∧ wf w1 (take r e1 H) ∧
    ∀ x, view w1 x = if decide (x = c) then Some (b, if IsSticky e then e :: q else q)
                     else view w x.
Proof.
  intros Hwf Hv Hcl. pose proof (EventPop_result w H c b _ Hwf Hv) as Hres.
  pose proof Hwf as [Hw _]. cbn in Hres. destruct (IsSticky e) eqn:Hst.
  - destruct (Clone_of e) as [e2|x] eqn:He2.
    + destruct Hres as (r & w' & Hpop & Hnone & Hr & Hwf' & Hv').
      exists r, w', e2. split_done.
      * intros ->. by apply (heap_null w' _ e2 (proj1 Hwf')).
      * by apply clone_id.
      * by apply clone_flags.
      * apply (not_held_of w); auto.
      * intros x. rewrite Hv'. case_decide; [by subst|done].
    + destruct (Hcl Hst) as [e' He']. unfold posted, Clone_of in *. cbn in He'.
      by destruct (ev_class e).
  - destruct (pop_take_run w H c b e q Hwf Hv Hst) as (r & w' & Hpop & _ & Hr & Hn & Hwf' & Hv').
    exists r, w', e. split_done. intros ->. by apply (heap_null w' _ e (proj1 Hwf')).
Qed.

Lemma untake r e H : r ∉ H → take r e H ∖ {[r]} = H.
Proof. intros. unfold take. apply leibniz_equiv. destruct (IsPersistent e); set_solver. Qed.

Lemma pop_destroy_run w H c b e q :
  wf w H → view w c = Some (b, e :: q) → receivable e →
  ∃ r w1 e1 w2, EventPop c w = Ok r w1 ∧ r ≠ CS_EVENT_NONE ∧
    heap w1 !! r = Some e1 ∧ GetId e1 = GetId e ∧ GetFlags e1 = GetFlags e ∧
    (IsSticky e = false → e1 = e) ∧
    EventDestroy r w1 = Ok tt w2 ∧ wf w2 H ∧
    ∀ x, view w2 x = if decide (x = c) then Some (b, if IsSticky e then e :: q else q)
                     else view w x.
Proof.
  intros Hwf Hv Hcl. destruct (pop_run w H c b e q Hwf Hv Hcl)
    as (r & w1 & e1 & Hpop & Hnone & Hr & Hid & Hfl & Hst & Hnin & [Hw1 Hm1] & Hv1).
  destruct (destroy_ok w1 (take r e1 H) r e1 Hw1 Hr) as [Hc2 Hv2].
  { unfold take. intros ->. set_solver. }
  exists r, w1, e1, (set_heap (destroyed (heap w1) r e1) w1). split_done.
  - by apply (EventDestroy_run w1 r e1).
  - by rewrite <-(untake r e1 H).
  - intros x. by rewrite Hv2.
Qed.

Definition sample_queued : world :=
  match EventDispatch 100 1 200 (sample (csEvent_new 77 Sticky)) with
  | Ok _ w => w
  | _ => world0
  end.

Lemma sample_queued_wf : wf sample_queued ∅.
Proof.
  set (e := csEvent_new 77 Sticky).
  destruct (wp_inv _ _ _ (wf_dispatch (sample e) (take 1 e ∅) 100 1 200 e
    (sample_wf e) ltac:(done) (sample_use e) ltac:(done))) as (u & w' & Hrun & Hwf).
  replace sample_queued with w'.
  - replace (∅ : gset Z) with (take 1 e ∅ ∖ {[1%Z]}); [done|by vm_compute].
  - unfold sample_queued. fold e. by rewrite Hrun.
Qed.

Definition queued_event : csEvent := CsEvent 77 Sticky 100 200 NULL EvPlain.

Lemma EventPop_refines_witness :
  pop_result sample_queued ∅ 200 true [queued_event] (EventPop 200 sample_queued).
Proof.
  apply (EventPop_refines sample_queued ∅ 200 true [queued_event]).
  - apply sample_queued_wf.
  - vm_compute. reflexivity.
Defined.

(** ** Sticky events *)

(** [n] calls of [EventPop] in a row, with the events they return. *)
Fixpoint pops (n : nat) (c : Z) : prog world (list Z) :=
  match n with
  | O => mret []
  | S n => r ← EventPop c; rs ← pops n c; mret (r :: rs)
  end.

Lemma pops_sticky n w H c b e e2 q :
  wf w H → view w c = Some (b, e :: q) → IsSticky e = true → Clone_of e = inl e2 →
  ∃ rs w', pops n c w = Ok rs w' ∧ length rs = n ∧ NoDup rs ∧
    Forall (λ r, (brk w ≤ r)%Z ∧ heap w' !! r = Some e2) rs ∧
    (∀ p, (p < brk w)%Z → heap w' !! p = heap w !! p) ∧
    view w' c = Some (b, e :: q).
Proof.
  revert w H. induction n as [|n IH]; intros w H Hwf Hv Hst Hcl2.
  { exists [], w. split_done; by constructor. }
  pose proof Hwf as [Hw Hm].
  destruct (view_queue w H c b _ Hw Hv) as (cl & Hcl & _ & Hfree & p & ps & Hq & He & _).
  destruct (IH (allocated w e2) (take (brk w) e2 H))
    as (rs & w' & Hrun & Hlen & Hnd & Hrs & Hold & Hv');
    [by apply wf_allocated|by rewrite (view_allocated w H)|done..|].
  cbn in Hrs, Hold.
  exists (brk w :: rs), w'. split_done.
  - cbn. unfold mbind, M_bind.
    by rewrite (EventPop_sticky w c cl Hcl Hfree p ps e e2), Hrun.
  - cbn. by rewrite Hlen.
  - constructor; [|done]. intros Hin. rewrite Forall_forall in Hrs.
    destruct (Hrs _ Hin). lia.
  - constructor.
    + split; [done|]. rewrite Hold by lia. apply lookup_insert_eq.
    + eapply Forall_impl; [done|]. cbn. intros r [? ?]. split; [lia|done].
  - intros x Hx. rewrite Hold by lia. apply lookup_insert_ne. lia.
Qed.

(** Termination reaches everyone: after the broadcast of the quit event
    that the signal handler and the timer thread make (sticky, high priority)
    every registered client that accepts events receives the quit event from
    each of its next [n] pops, for every [n] and whatever its queue held. *)
Theorem quit_reaches_all w H src c q n :
  wf w H → is_Some (view w src) → view w c = Some (true, q) →
  ∃ w', post src CS_EVENT_BROADCAST
      (csEvent_new csEVENT_QUIT (Z.lor Sticky HighPriority)) w = Ok tt w' ∧
    ∃ rs w'', pops n c w' = Ok rs w'' ∧ length rs = n ∧
      Forall (λ r, ∃ e, heap w'' !! r = Some e ∧ GetId e = csEVENT_QUIT) rs.
Proof.
  intros Hw Hsrc Hv. set (e := csEvent_new csEVENT_QUIT (Z.lor Sticky HighPriority)).
  destruct (post_spec w H src CS_EVENT_BROADCAST e _ Hw Hsrc eq_refl)
    as (w' & Hrun & Hw' & _ & _ & Hv').
  exists w'. split; [done|]. specialize (Hv' c). rewrite Hv in Hv'.
  destruct (pops_sticky n w' H c _ _ _ _ Hw' Hv' eq_refl eq_refl)
    as (rs & w'' & Hpops & Hlen & _ & Hrs & _).
  exists rs, w''. split_done. eapply Forall_impl; [done|]. cbn.
  intros r [_ Hr]. eexists. by split.
Qed.

Lemma quit_reaches_all_witness :
  ∃ w', post 100 CS_EVENT_BROADCAST
      (csEvent_new csEVENT_QUIT (Z.lor Sticky HighPriority)) sample_queued = Ok tt w' ∧
    ∃ rs w'', pops 3 200 w' = Ok rs w'' ∧ length rs = 3 ∧
      Forall (λ r, ∃ e, heap w'' !! r = Some e ∧ GetId e = csEVENT_QUIT) rs.
Proof.
  apply (quit_reaches_all sample_queued ∅ 100 200 [queued_event] 3).
  - apply sample_queued_wf.
  - vm_compute. eauto.
  - vm_compute. reflexivity.
Defined.

(** ** Exclusive events *)

Definition count_id (id : Z) (q : list csEvent) : nat :=
  length (filter (λ e, GetId e = id) q).

Definition others (id : Z) (q : list csEvent) : list csEvent :=
  filter (λ e, GetId e ≠ id) q.

Lemma count_remove id q : count_id id (remove_first_id id q) = pred (count_id id q).
Proof.
  unfold count_id. induction q as [|e q IH]; [done|]. simpl.
  destruct (GetId e =? id)%Z eqn:Hid.
  - apply Z.eqb_eq in Hid. by rewrite filter_cons_True.
  - apply Z.eqb_neq in Hid. by rewrite !filter_cons_False.
Qed.

Lemma others_remove id q : others id (remove_first_id id q) = others id q.
Proof.
  unfold others. induction q as [|e q IH]; [done|]. simpl.
  destruct (GetId e =? id)%Z eqn:Hid.
  - apply Z.eqb_eq in Hid. rewrite filter_cons_False; naive_solver.
  - apply Z.eqb_neq in Hid. rewrite !filter_cons_True by done. by rewrite IH.
Qed.

Lemma enqueue_exclusive e q :
  IsExclusive e = true →
  count_id (GetId e) (enqueue e q) = Nat.max 1 (count_id (GetId e) q) ∧
  others (GetId e) (enqueue e q) = others (GetId e) q.
Proof.
  intros Hex. unfold enqueue. rewrite Hex.
  pose proof (count_remove (GetId e) q) as Hc.
  pose proof (others_remove (GetId e) q) as Ho. unfold count_id, others in *.
  destruct (IsHighPriority e).
  - rewrite filter_cons_True, filter_cons_False by naive_solver. cbn. split; [lia|done].
  - rewrite !filter_app, filter_cons_True, filter_cons_False by naive_solver.
    cbn. rewrite app_nil_r, length_app. cbn. split; [lia|done].
Qed.

(** C28. Exclusive events coalesce: after an exclusive event was dispatched to
    a client that accepts events, the queue holds as many events of its id as
    before, or one when there was none, and the events with other ids are the
    same in the same order. *)
Theorem exclusive_coalesces w H src dst e q :
  wf w H → is_Some (view w src) → dst ≠ CS_EVENT_BROADCAST →
  IsExclusive e = true → view w dst = Some (true, q) →
  ∃ w' q', post src dst e w = Ok tt w' ∧ view w' dst = Some (true, q') ∧
    count_id (GetId e) q' = Nat.max 1 (count_id (GetId e) q) ∧
    others (GetId e) q' = others (GetId e) q.
Proof.
  intros Hw Hsrc Hdst Hex Hv.
  assert (posted src dst e = Some (SetSource src (SetTarget dst e))) as Hp.
  { unfold posted. by rewrite (proj2 (Z.eqb_neq _ _) Hdst). }
  destruct (post_spec w H src dst e _ Hw Hsrc Hp) as (w' & Hrun & _ & _ & _ & Hv').
  exists w', (enqueue (SetSource src (SetTarget dst e)) q). split_done.
  - rewrite Hv', Hv. unfold reaches. by rewrite Z.eqb_refl, orb_true_r.
  - by apply (enqueue_exclusive (SetSource src (SetTarget dst e))).
  - by apply (enqueue_exclusive (SetSource src (SetTarget dst e))).
Qed.

Lemma exclusive_coalesces_witness :
  ∃ w' q', post 100 200 (csEvent_new 77 Exclusive) sample_queued = Ok tt w' ∧
    view w' 200 = Some (true, q') ∧
    count_id 77 q' = Nat.max 1 (count_id 77 [queued_event]) ∧
    others 77 q' = others 77 [queued_event].
Proof.
  apply (exclusive_coalesces sample_queued ∅ 100 200 (csEvent_new 77 Exclusive)).
  - apply sample_queued_wf.
  - vm_compute. eauto.
  - done.
  - reflexivity.
  - vm_compute. reflexivity.
Defined.

(** ** Ownership of event memory *)

(** C4. Memory and locks along every run of the protocol: a live event that
    is not persistent is in exactly one slot of one queue, or held by exactly
    one piece of running code; queues and running code only point to live
    events; between operations no mutex is locked; and the next operation
    that the protocol allows is never stuck: dispatching, destroying and
    unregistering return, and a pop returns or throws. *)
Theorem bus_memory_safe w H :
  reachable (w, H) →
  (∀ p e, heap w !! p = Some e → IsPersistent e = false → refs w p + held H p = 1) ∧
  (∀ c p, p ∈ queue_of w c → is_Some (heap w !! p)) ∧
  (∀ p, p ∈ H → is_Some (heap w !! p)) ∧
  event_client_mutex w ≠ MHeld ∧
  (∀ c cl, clients w !! c = Some cl → event_queue_mutex cl = MFree) ∧
  (∀ this p dst e, event_client w ≠ [] → may_use w H p e →
    (dst = CS_EVENT_BROADCAST → may_broadcast w p e) →
    ∃ w', EventDispatch this p dst w = Ok tt w') ∧
  (∀ p e, may_use w H p e → ∃ w', EventDestroy p w = Ok tt w') ∧
  (∀ c cl, clients w !! c = Some cl →
    (∃ w', csEventClient_delete c w = Ok tt w') ∧
    ∀ f, EventPop c w ≠ Stuck f).
Proof.
  intros Hr. pose proof (reachable_wf _ Hr) as Hwf. cbn in Hwf.
  pose proof Hwf as [Hw Hm]. split_done.
  - intros p e Hp Hper. pose proof (core_own _ _ Hw p) as Ho. rewrite Hp in Ho.
    cbn in Ho. by rewrite Hper in Ho.
  - intros c p Hp. unfold queue_of in Hp.
    destruct (clients w !! c) as [cl|] eqn:Hcl; [|by apply elem_of_nil in Hp].
    destruct (core_live w H c cl p Hw Hcl Hp) as [e He]. by exists e.
  - intros p Hp. pose proof (core_own _ _ Hw p) as Ho. rewrite (held_in H p Hp) in Ho.
    destruct (heap w !! p); [eauto|]. by destruct Ho.
  - rewrite Hm. by destruct (decide _).
  - intros c cl. apply (core_qmutex _ _ Hw).
  - intros this p dst e Hne Huse Hbc.
    destruct (wp_inv _ _ _ (wf_dispatch w H this p dst e Hwf Hne Huse Hbc))
      as ([] & w' & Hrun & _). eauto.
  - intros p e [Hp _]. eexists. by apply (EventDestroy_run w p e).
  - intros c cl Hcl. split.
    + destruct (wp_inv _ _ _ (wp_csEventClient_delete w H c cl Hwf Hcl))
        as ([] & w' & Hrun & _). eauto.
    + pose proof (EventPop_result w H c _ _ Hwf (view_client w c cl Hcl)) as Hres.
      intros f Hf. rewrite Hf in Hres. unfold pop_result in Hres. repeat case_match; naive_solver.
Qed.

Lemma sample0_reachable : reachable (sample0, ∅).
Proof.
  eapply rtc_l; [by apply (step_new_client world0 ∅ 100 (constructed 100 world0))|].
  eapply rtc_l; [by apply (step_new_client _ ∅ 200 sample0)|]. apply rtc_refl.
Qed.

Lemma bus_memory_safe_witness :
  reachable (sample0, ∅) ∧ event_client_mutex sample0 ≠ MHeld.
Proof.
  split; [apply sample0_reachable|].
  destruct (bus_memory_safe sample0 ∅ sample0_reachable) as (_ & _ & _ & Hm & _).
  exact Hm.
Defined.

(** ** Life of clients *)

(** C29. A client constructed at a fresh address is registered last, accepts
    events and has an empty queue; destroying it again gives back the views
    and the registrations of before, whatever else was registered, and the
    client mutex exists exactly while some client is registered. *)
Theorem client_lifecycle w H c :
  wf w H → clients w !! c = None → c ≠ NULL → c ≠ CS_EVENT_BROADCAST →
  ∃ w1, csEventClient_new c w = Ok tt w1 ∧ wf w1 H ∧
    event_client w1 = event_client w ++ [c] ∧ view w1 c = Some (true, []) ∧
    event_client_mutex w1 = MFree ∧
    ∃ w2, csEventClient_delete c w1 = Ok tt w2 ∧ wf w2 H ∧
      event_client w2 = event_client w ∧ (∀ x, view w2 x = view w x) ∧
      event_client_mutex w2 = event_client_mutex w.
Proof.
  intros Hw Hnew Hn Hb. destruct (constructed_ok w H c Hw Hnew Hn Hb) as [Hw1 Hv1].
  exists (constructed c w). split_done.
  - by apply (csEventClient_new_run w H).
  - by rewrite Hv1, decide_True.
  - destruct (wp_inv _ _ _ (wp_csEventClient_delete (constructed c w) H c _ Hw1
      (lookup_insert_eq _ _ _))) as ([] & w2 & Hrun & Hw2 & Hr2 & Hv2).
    assert (event_client w2 = event_client w) as Hreg.
    { rewrite Hr2. apply erase_first_snoc. intros Hin%(core_dom _ _ (proj1 Hw)).
      rewrite Hnew in Hin. by destruct Hin. }
    exists w2. split_done.
    + intros x. rewrite Hv2, Hv1. case_decide as Hx; [|done]. subst.
      unfold view. by rewrite Hnew.
    + rewrite (proj2 Hw2), (proj2 Hw). by rewrite Hreg.
Qed.

Lemma client_lifecycle_witness :
  ∃ w1, csEventClient_new 300 sample_queued = Ok tt w1 ∧ wf w1 ∅ ∧
    event_client w1 = event_client sample_queued ++ [300%Z] ∧
    view w1 300 = Some (true, []) ∧ event_client_mutex w1 = MFree ∧
    ∃ w2, csEventClient_delete 300 w1 = Ok tt w2 ∧ wf w2 ∅ ∧
      event_client w2 = event_client sample_queued ∧
      (∀ x, view w2 x = view sample_queued x) ∧
      event_client_mutex w2 = event_client_mutex sample_queued.
Proof.
  apply (client_lifecycle sample_queued ∅ 300).
  - apply sample_queued_wf.
  - vm_compute. reflexivity.
  - done.
  - done.
Defined.

(** ** Events that refuse to be copied *)

Definition is_netlink (e : csEvent) : bool :=
  match ev_class e with EvNetlink _ _ _ _ => true | _ => false end.

Definition clone_refused : csException := csException_int_str EINVAL "Broadcast/clone".

Lemma broadcast_loop_throws regs this p e1 w c cl :
  (∀ x, x ∈ regs → is_Some (clients w !! x)) →
  heap w !! p = Some e1 → Clone_of e1 = inr clone_refused →
  c ∈ regs → clients w !! c = Some cl → event_enable cl = true →
  foreach regs (broadcast_to this p) w = Throw clone_refused w.
Proof.
  intros Hlive Hp Hcl Hc Hcc Hen. induction regs as [|x regs IH]; [by apply elem_of_nil in Hc|].
  cbn. unfold mbind at 1, M_bind. unfold broadcast_to at 1, client_get, mbind at 1, M_bind.
  destruct (Hlive x) as [clx Hclx]; [set_solver|]. rewrite Hclx.
  destruct (event_enable clx) eqn:Henx; cbn.
  - unfold Clone, mbind, M_bind, ev_load. by rewrite Hp, Hcl.
  - apply IH; [set_solver|]. apply elem_of_cons in Hc as [->|]; [congruence|done].
Qed.

(** With the client mutex locked for ever, no client can be made. *)
Lemma csEventClient_new_locked w c :
  event_client_mutex w = MHeld → (crit_active w = true → crit_mutex (crit w) = MFree) →
  csEventClient_new c w = Stuck Deadlock.
Proof.
  destruct w as [hp bk cs ec mx [ci cm]]; cbn. intros -> Hfree.
  unfold csEventClient_new, csCriticalSection_Lock, csCriticalSection_Unlock, lock_clients,
    when, mutex_lock, mutex_unlock, mbind, M_bind, gets, modify, mret, M_ret.
  unfold crit_active in *; cbn in *.
  assert (bool_decide (MHeld = MNull) = false) as Hh by reflexivity.
  assert (bool_decide (MFree ≠ MNull) = true) as Hf by reflexivity.
  assert (bool_decide (MNull ≠ MNull) = false) as Hn by reflexivity.
  assert (bool_decide (MHeld ≠ MNull) = true) as Hhn by reflexivity.
  destruct (ci =? NULL)%Z eqn:Hci; cbn in *; [|destruct cm];
    rewrite ?Hf, ?Hn, ?Hhn; cbn; rewrite ?Hh; cbn; rewrite ?Hci, ?Hn; cbn; try done.
  all: by specialize (Hfree Hhn).
Qed.

(** C30. Broadcasting a netlink event is fatal: as soon as one client accepts
    events, [csEventNetlink::Clone] throws out of [EventDispatch] while the
    client mutex is locked, and from then on every dispatch, by anyone and to
    anyone, and every construction or destruction of a client waits for that
    mutex for ever. *)
Theorem netlink_broadcast_deadlocks w H this p e c q :
  wf w H → heap w !! p = Some e → is_netlink e = true → view w c = Some (true, q) →
  ∃ w', EventBroadcast this p w = Throw clone_refused w' ∧
    (∀ this' p' dst', EventDispatch this' p' dst' w' = Stuck Deadlock) ∧
    ∀ c', csEventClient_new c' w' = Stuck Deadlock ∧ csEventClient_delete c' w' = Stuck Deadlock.
Proof.
  intros Hw Hp Hnl Hv. pose proof Hw as [Hc _].
  assert (event_client_mutex w = MFree) as Hfree.
  { apply (wf_lock w H Hw), (view_registered w H c Hc). by rewrite Hv. }
  set (e1 := SetTarget CS_EVENT_BROADCAST e).
  assert (Clone_of e1 = inr clone_refused) as Hcl.
  { unfold is_netlink in Hnl. unfold Clone_of; cbn. by destruct (ev_class e). }
  set (w1 := set_heap (<[p := e1]> (heap w)) (set_client_mutex MHeld w)).
  assert (∃ cl, clients w !! c = Some cl ∧ event_enable cl = true) as (cl & Hcc & Hen).
  { unfold view in Hv. destruct (clients w !! c) as [cl|]; [|done].
    cbn in Hv. simplify_eq. eauto. }
  assert (foreach (event_client w) (broadcast_to this p) w1 = Throw clone_refused w1)
    as Hloop.
  { apply (broadcast_loop_throws _ this p e1 w1 c cl); try done.
    - intros x Hx. by apply Hc.
    - apply lookup_insert_eq.
    - apply Hc. eauto. }
  exists w1. split; [|split; [done|intros c'; split; [|done]]].
  2:{ apply csEventClient_new_locked; [done|]. exact (crit_active_free w H Hc). }
  unfold EventBroadcast, EventDispatch, lock_clients, unlock_clients, mutex_lock,
    ev_load, ev_store, gets, mbind, M_bind.
  rewrite Hfree. run_lookups. fold e1 w1. rewrite Z.eqb_refl. by rewrite Hloop.
Qed.

Definition sample_netlink : csEvent := csEventNetlink_new NL_RouteWatch 0.

Lemma netlink_broadcast_deadlocks_witness :
  ∃ w', EventBroadcast 100 1 (sample sample_netlink) = Throw clone_refused w' ∧
    (∀ this' p' dst', EventDispatch this' p' dst' w' = Stuck Deadlock) ∧
    ∀ c', csEventClient_new c' w' = Stuck Deadlock ∧ csEventClient_delete c' w' = Stuck Deadlock.
Proof.
  apply (netlink_broadcast_deadlocks _ (take 1 sample_netlink ∅) 100 1
    sample_netlink 200 []).
  - apply sample_wf.
  - reflexivity.
  - reflexivity.
  - vm_compute. reflexivity.
Defined.
