(* ===== verification/EventKeep.v ===== *)
(** * Events that persist stay

    Code that works on other events leaves an event that persists as it is,
    in whatever queues it lies: [EventDestroy] does not free it, and only the
    code that dispatches it writes to it.  [keeps] says so of a routine over
    any state that has the event clients. *)

From S2P Require Import Prelude Exception Event EventInv EventOps EventProps Bus.

Section keeps.
Context (x : Z) (ex : csEvent) (Hper : IsPersistent ex = true).

(** The event at [x], which is allocated. *)
Definition there (w : world) : Prop := heap w !! x = Some ex ∧ (x < brk w)%Z.

Section state.
Context {S : Type} (get : S → world).

(** [m] leaves the event alone, and its result satisfies [Q]. *)
Definition keeps {A} (m : prog S A) (Q : A → Prop) : Prop := ∀ s,
  there (get s) →
  match m s with
  | Ok a s' => there (get s') ∧ Q a
  | Throw _ s' => there (get s')
  | Stuck _ => True
  end.

Lemma keeps_ret {A} (a : A) (Q : A → Prop) : Q a → keeps (mret a) Q.
Proof. by intros Ha s Hs. Qed.

Lemma keeps_bind {A B} (m : prog S A) (f : A → prog S B) Q R :
  keeps m R → (∀ a, R a → keeps (f a) Q) → keeps (m ≫= f) Q.
Proof.
  intros Hm Hf s Hs. specialize (Hm s Hs). unfold mbind, M_bind.
  destruct (m s) as [a s'| |]; [|done..]. destruct Hm as [Hs' Ha]. by apply Hf.
Qed.

Lemma keeps_conseq {A} (m : prog S A) (Q Q' : A → Prop) :
  keeps m Q → (∀ a, Q a → Q' a) → keeps m Q'.
Proof.
  intros Hm HQ s Hs. specialize (Hm s Hs). destruct (m s); naive_solver.
Qed.

Lemma keeps_gets {A} (f : S → A) : keeps (gets f) (λ _, True).
Proof. by intros s Hs. Qed.

Lemma keeps_modify (f : S → S) :
  (∀ s, there (get s) → there (get (f s))) → keeps (modify f) (λ _, True).
Proof. intros Hf s Hs. split; [by apply Hf|done]. Qed.

Lemma keeps_throw {A} e (Q : A → Prop) : keeps (throw e) Q.
Proof. by intros s Hs. Qed.

Lemma keeps_stuck {A} f (Q : A → Prop) : keeps (stuck f) Q.
Proof. by intros s Hs. Qed.

Lemma keeps_when (b : bool) m : keeps m (λ _, True) → keeps (when b m) (λ _, True).
Proof. destruct b; [done|]. intros _. by apply keeps_ret. Qed.

Lemma keeps_foreach {A} (l : list A) (f : A → prog S unit) :
  (∀ a, keeps (f a) (λ _, True)) → keeps (foreach l f) (λ _, True).
Proof.
  intros Hf. induction l as [|a l IH]; [by apply keeps_ret|].
  eapply keeps_bind; [apply Hf|]. by intros.
Qed.

Lemma keeps_lock (m : S → mutex) put :
  (∀ k s, there (get s) → there (get (put k s))) → keeps (mutex_lock m put) (λ _, True).
Proof. intros Hp s Hs. unfold mutex_lock. destruct (m s); try done. split; [by apply Hp|done]. Qed.

Lemma keeps_unlock (m : S → mutex) put :
  (∀ k s, there (get s) → there (get (put k s))) → keeps (mutex_unlock m put) (λ _, True).
Proof. intros Hp s Hs. unfold mutex_unlock. destruct (m s); try done. split; [by apply Hp|done]. Qed.
End state.

(** A routine of a component, inside a state that has it. *)
Lemma keeps_zoom {S T A} (get : S → world) (gt : T → world) (f : S → T) put (m : prog T A) Q :
  (∀ s, gt (f s) = get s) → (∀ t s, get (put t s) = gt t) →
  keeps gt m Q → keeps get (zoom f put m) Q.
Proof.
  intros Hf Hput Hm s Hs. specialize (Hm (f s)). rewrite Hf in Hm. specialize (Hm Hs).
  unfold zoom. destruct (m (f s)); rewrite ?Hput; done.
Qed.

(** A routine on a part of the state that has no events. *)
Lemma keeps_beside {S T A} (get : S → world) (f : S → T) put (m : prog T A) :
  (∀ t s, get (put t s) = get s) → keeps get (zoom f put m) (λ _, True).
Proof. intros Hput s Hs. unfold zoom. destruct (m (f s)); rewrite ?Hput; done. Qed.

(** ** The operations of csevent.cpp *)

Abbreviation kept m Q := (keeps (λ w : world, w) m Q).
Abbreviation any := (λ _, True).

Lemma kept_ev_load p : kept (ev_load p) any.
Proof. intros w Hw. unfold ev_load. by destruct (heap w !! p). Qed.

Lemma kept_ev_store p e : p ≠ x → kept (ev_store p e) any.
Proof.
  intros Hp w [Hx Hb]. unfold ev_store. destruct (heap w !! p); [|done].
  split; [|done]. split; [|done]. cbn. by rewrite lookup_insert_ne.
Qed.

Lemma kept_ev_new e : kept (ev_new e) (λ p, p ≠ x).
Proof.
  intros w [Hx Hb]. unfold ev_new. split; [|lia]. split; cbn; [|lia].
  rewrite lookup_insert_ne; [done|lia].
Qed.

Lemma kept_EventDestroy p : kept (EventDestroy p) any.
Proof.
  intros w [Hx Hb]. unfold EventDestroy, mbind, M_bind, ev_load, when, ev_delete.
  destruct (heap w !! p) as [e|] eqn:Hp; [|done].
  destruct (IsPersistent e) eqn:Hpe; cbn; [done|]. rewrite Hp. split; [|done]. split; [|done].
  cbn. rewrite lookup_delete_ne; [done|]. intros ->. congruence.
Qed.

Lemma kept_Clone p : kept (Clone p) (λ r, r ≠ x).
Proof.
  eapply keeps_bind; [apply kept_ev_load|]. intros e _. destruct (Clone_of e);
    [apply kept_ev_new|apply keeps_throw].
Qed.

Lemma kept_client_get c : kept (client_get c) any.
Proof. intros w Hw. unfold client_get. by destruct (clients w !! c). Qed.

Lemma kept_client_update c f : kept (client_update c f) any.
Proof. eapply keeps_bind; [apply kept_client_get|]. intros cl _. by apply keeps_modify. Qed.

Lemma kept_lock_queue c : kept (lock_queue c) any.
Proof. eapply keeps_bind; [apply kept_client_get|]. intros cl _. by apply keeps_lock. Qed.

Lemma kept_unlock_queue c : kept (unlock_queue c) any.
Proof. eapply keeps_bind; [apply kept_client_get|]. intros cl _. by apply keeps_unlock. Qed.

Lemma kept_scan id q : kept (exclusive_scan id q) any.
Proof.
  induction q as [|p q IH]; [by apply keeps_ret|].
  eapply keeps_bind; [apply kept_ev_load|]. intros e _. destruct (GetId e =? id)%Z.
  - eapply keeps_bind; [apply kept_EventDestroy|]. intros _ _. by apply keeps_ret.
  - eapply keeps_bind; [apply IH|]. intros r _. by apply keeps_ret.
Qed.

Create HintDb keeps.
#[local] Hint Resolve kept_ev_load kept_ev_store kept_ev_new kept_EventDestroy kept_Clone
  kept_client_get kept_client_update kept_lock_queue kept_unlock_queue kept_scan
  keeps_when keeps_gets : keeps.

Ltac keeps_step := first
  [ by eauto with keeps
  | by apply keeps_ret
  | eapply keeps_bind; [by eauto with keeps|intros ? ?] ].

Lemma kept_EventPush c p src : p ≠ x → kept (EventPush c p src) any.
Proof.
  intros Hp. unfold EventPush. keeps_step. destruct (negb _); [keeps_step|].
  keeps_step. keeps_step. eapply keeps_bind.
  { apply keeps_when. repeat keeps_step. }
  intros _ _. do 3 keeps_step. eapply keeps_bind; [|intros _ _; repeat keeps_step].
  destruct (IsHighPriority _); keeps_step.
Qed.
#[local] Hint Resolve kept_EventPush : keeps.

Lemma kept_EventDispatch this p dst : p ≠ x → kept (EventDispatch this p dst) any.
Proof.
  intros Hp. unfold EventDispatch, lock_clients, unlock_clients.
  eapply keeps_bind; [by apply keeps_lock|]. intros _ _. do 4 keeps_step.
  eapply keeps_bind; [|intros _ _; by apply keeps_unlock].
  destruct (GetTarget _ =? _)%Z; [|case_bool_decide; keeps_step].
  eapply keeps_bind; [apply keeps_foreach|intros _ _; keeps_step].
  intros c. unfold broadcast_to. keeps_step. destruct (negb _); [keeps_step|].
  eapply keeps_bind; [apply kept_Clone|]. intros r Hr. by apply kept_EventPush.
Qed.
#[local] Hint Resolve kept_EventDispatch : keeps.

Lemma kept_post src dst e : kept (post src dst e) any.
Proof. eapply keeps_bind; [apply kept_ev_new|]. intros p Hp. by apply kept_EventDispatch. Qed.

Lemma kept_EventPop c : kept (EventPop c) any.
Proof.
  unfold EventPop. do 2 keeps_step. eapply keeps_bind.
  - destruct (event_queue _) as [|p q]; [by apply (keeps_ret _ _ any)|]. keeps_step.
    destruct (IsSticky _); [eapply keeps_conseq; [apply kept_Clone|done]|].
    keeps_step. by apply keeps_ret.
  - intros r _. keeps_step. by apply keeps_ret.
Qed.
End keeps.

(** What a routine keeps when it returns. *)
Lemma keeps_run {S A} (get : S → world) (m : prog S A) Q x ex s a s' :
  keeps x ex get m Q → there x ex (get s) → m s = Ok a s' → there x ex (get s').
Proof. intros Hm Hs Hrun. specialize (Hm s Hs). rewrite Hrun in Hm. apply Hm. Qed.

Lemma there_live w H x ex : core w H → heap w !! x = Some ex → there x ex w.
Proof. intros Hw Hx. split; [done|]. by apply (core_heap _ _ Hw x ex). Qed.
