(* ===== verification/EventWait.v ===== *)
(** * Waiting for events (csEventClient::EventPopWait, csevent.cpp)

    The deadline arithmetic, and the loop as a step relation that interleaves
    one waiting client with the other threads.  A condition variable is the
    number of broadcasts made on it: a thread that blocked when [n] had been
    made is woken by the next one.  A negative limit makes the code wait with a
    deadline it never set, which is a state of its own.  Wake-ups that POSIX
    allows but does not promise are left out. *)

From S2P Require Import Prelude Exception Event EventInv EventOps Bus EventProps EventKeep.

(** ** The absolute deadline *)

Record timespec := Timespec { tv_sec : Z; tv_nsec : Z }.

(** Lines "if (wait_ms > 0)" of [EventPopWait]; C division truncates. *)
Definition deadline (wait_ms : Z) (now : timespec) : timespec :=
  let delay_sec := Z.quot wait_ms 1000 in
  let delay_nsec := ((wait_ms - delay_sec * 1000) * 1000 * 1000)%Z in
  let sec := (tv_sec now + delay_sec)%Z in
  let nsec := (tv_nsec now + delay_nsec)%Z in
  if (1000000000 <=? nsec)%Z then Timespec (sec + 1) (nsec - 1000000000)
  else Timespec sec nsec.

Definition nanoseconds (t : timespec) : Z := (tv_sec t * 1000000000 + tv_nsec t)%Z.

(** C27. The deadline of a timed wait is exact and well formed: it lies
    [wait_ms] milliseconds after [now], its nanosecond field is within one
    second, and with the clock below 2^62 seconds it fits the 64-bit type for
    every positive 64-bit delay. *)
Theorem deadline_exact wait_ms now :
  (0 < wait_ms < 2 ^ 63)%Z → (0 <= tv_sec now < 2 ^ 62)%Z →
  (0 <= tv_nsec now < 1000000000)%Z →
  nanoseconds (deadline wait_ms now) = (nanoseconds now + wait_ms * 1000000)%Z ∧
  (0 <= tv_nsec (deadline wait_ms now) < 1000000000)%Z ∧
  (tv_sec now <= tv_sec (deadline wait_ms now) < 2 ^ 63)%Z.
Proof.
  intros Hms Hsec Hnsec. unfold deadline, nanoseconds.
  rewrite Z.quot_div_nonneg by lia.
  pose proof (Z.div_mod wait_ms 1000 ltac:(done)).
  pose proof (Z.mod_pos_bound wait_ms 1000 ltac:(done)).
  destruct (Z.leb_spec 1000000000
    (tv_nsec now + (wait_ms - wait_ms / 1000 * 1000) * 1000 * 1000)); cbn; lia.
Qed.

Lemma deadline_exact_witness :
  let now := Timespec 100 900000000 in
  nanoseconds (deadline 500 now) = (nanoseconds now + 500 * 1000000)%Z ∧
  (0 <= tv_nsec (deadline 500 now) < 1000000000)%Z ∧
  (100 <= tv_sec (deadline 500 now) < 2 ^ 63)%Z.
Proof. intros now. apply (deadline_exact 500 now); cbn; lia. Defined.

(** ** The loop and the other threads *)

Inductive wait_pc :=
  | AtPop                    (* about to call EventPop *)
  | AtWait                   (* found nothing, about to wait *)
  | Blocked (n : nat)        (* in pthread_cond_wait since broadcast n *)
  | Returned (r : Z)
  | Raised (x : csException)
  | Undefined.               (* the deadline was read before it was set *)

Record wait_state := WaitState {
  ws_world : world;
  ws_held : gset Z;
  ws_pc : wait_pc;
}.

(** A step of the client [c] inside [EventPopWait(wait_ms)]; the deadline is
    set only for a positive limit. *)
Inductive wait_step (c wait_ms : Z) : wait_state → wait_state → Prop :=
  | wait_pop_none w H w' :
      EventPop c w = Ok CS_EVENT_NONE w' →
      wait_step c wait_ms (WaitState w H AtPop) (WaitState w' H AtWait)
  | wait_pop_some w H w' r e :
      EventPop c w = Ok r w' → r ≠ CS_EVENT_NONE → heap w' !! r = Some e →
      wait_step c wait_ms (WaitState w H AtPop)
        (WaitState w' (take r e H) (Returned r))
  | wait_pop_throw w H w' x :
      EventPop c w = Throw x w' →
      wait_step c wait_ms (WaitState w H AtPop) (WaitState w' H (Raised x))
  | wait_unset w H :
      (wait_ms < 0)%Z →
      wait_step c wait_ms (WaitState w H AtWait) (WaitState w H Undefined)
  | wait_block w H cl :
      (0 ≤ wait_ms)%Z → clients w !! c = Some cl →
      wait_step c wait_ms (WaitState w H AtWait)
        (WaitState w H (Blocked (event_condition cl)))
  | wait_wake w H cl n :
      clients w !! c = Some cl → n < event_condition cl →
      wait_step c wait_ms (WaitState w H (Blocked n)) (WaitState w H AtPop)
  | wait_timeout w H n :
      (0 < wait_ms)%Z →
      wait_step c wait_ms (WaitState w H (Blocked n))
        (WaitState w H (Returned CS_EVENT_NONE))
  | wait_error w H n rc :
      rc ≠ 0%Z → (wait_ms ≠ 0%Z → rc ≠ ETIMEDOUT) →
      wait_step c wait_ms (WaitState w H (Blocked n))
        (WaitState w H (Raised (csException_int_str rc "pthread_cond_wait"))).

(** Another client dispatches a new event. *)
Inductive env_step : wait_state → wait_state → Prop :=
  | env_post w H pc src dst e e' w' :
      is_Some (view w src) → posted src dst e = Some e' →
      post src dst e w = Ok tt w' →
      env_step (WaitState w H pc) (WaitState w' H pc).

Definition either_step (c wait_ms : Z) (s s' : wait_state) : Prop :=
  wait_step c wait_ms s s' ∨ env_step s s'.

(** Errors of [pthread_cond_wait] are for invalid arguments only: a step that
    is enabled without one. *)
Definition regular_step (c wait_ms : Z) (s s' : wait_state) : Prop :=
  wait_step c wait_ms s s' ∧ ∀ x, ws_pc s' ≠ Raised x.

(** ** Invariant of a waiting client *)

(** The event at [r] is live, and the caller's unless it persists. *)
Definition received (w : world) (H : gset Z) (r : Z) : Prop :=
  ∃ e, heap w !! r = Some e ∧ (IsPersistent e = false → r ∈ H).

Definition pc_ok (c wait_ms : Z) (w : world) (H : gset Z) (pc : wait_pc) : Prop :=
  match pc with
  | Blocked n => ∃ cl, clients w !! c = Some cl ∧ n ≤ event_condition cl
  | Returned r =>
      (r = CS_EVENT_NONE ∧ (0 < wait_ms)%Z) ∨
      (r ≠ CS_EVENT_NONE ∧ received w H r)
  | _ => True
  end.

Definition wait_ok (c wait_ms : Z) (s : wait_state) : Prop :=
  wf (ws_world s) (ws_held s) ∧ is_Some (clients (ws_world s) !! c) ∧
  pc_ok c wait_ms (ws_world s) (ws_held s) (ws_pc s).

Lemma wf_held_live w H p : wf w H → p ∈ H → is_Some (heap w !! p).
Proof.
  intros [Hw _] Hp. pose proof (core_own _ _ Hw p) as Ho.
  rewrite (held_in H p Hp) in Ho. destruct (heap w !! p); [eauto|]. by destruct Ho.
Qed.

Lemma view_is_client w c : is_Some (view w c) ↔ is_Some (clients w !! c).
Proof.
  unfold view. destruct (clients w !! c); cbn; split; intros [? ?]; try done; eauto.
Qed.

Lemma pop_registered w H c r w' :
  wf w H → EventPop c w = Ok r w' → is_Some (clients w !! c) → is_Some (clients w' !! c).
Proof.
  intros Hw Hrun [cl Hcl]. pose proof (EventPop_result w H c _ _ Hw (view_client w c cl Hcl)) as Hres.
  rewrite Hrun in Hres. apply view_is_client. unfold pop_result in Hres.
  assert (is_Some (view w c)) as Hv by (apply view_is_client; eauto).
  repeat case_match; simplify_eq; try done.
  - destruct Hres as (r' & w1 & [= <- <-] & _ & _ & _ & Hvv). by rewrite Hvv.
  - by destruct Hres as (w1 & cl1 & ? & _).
  - destruct Hres as (r' & w1 & [= <- <-] & _ & _ & Hvv). rewrite Hvv, decide_True by done. eauto.
Qed.

Lemma wait_step_ok c wait_ms s s' :
  wait_step c wait_ms s s' → (∀ x, ws_pc s' ≠ Raised x) →
  wait_ok c wait_ms s → wait_ok c wait_ms s'.
Proof.
  intros Hstep Hreg (Hw & Hc & Hpc).
  destruct Hstep as [w H w' Hpop|w H w' r e Hpop Hr He|w H w' x Hpop|w H Hneg|w H cl Hms Hcl
    |w H cl n Hcl Hlt|w H n Hms|w H n rc Hrc Hrc']; cbn in *; unfold wait_ok; cbn.
  - split_done; [|by apply (pop_registered w H c CS_EVENT_NONE)]. destruct Hc as [cl Hcl].
    destruct (wf_pop w H c cl _ w' Hw Hcl Hpop) as [(_ & _ & ->)|(e & He & Hwf)]; [done|].
    by destruct (heap_null w' _ e (proj1 Hwf) He).
  - assert (is_Some (clients w' !! c)) by by apply (pop_registered w H c r).
    destruct Hc as [cl Hcl].
    destruct (wf_pop w H c cl _ w' Hw Hcl Hpop) as [(_ & ? & _)|(e' & He' & Hwf)]; [done|].
    simplify_eq. split_done. right. split; [done|]. exists e. split; [done|].
    unfold take. intros ->. set_solver.
  - by destruct (Hreg x).
  - by split_done.
  - split_done. by exists cl.
  - by split_done.
  - split_done. by left.
  - by destruct (Hreg (csException_int_str rc "pthread_cond_wait")).
Qed.

(** What others dispatch does not touch the event. *)
Lemma post_received w w' H src dst e e' r :
  wf w H → is_Some (view w src) → posted src dst e = Some e' → post src dst e w = Ok tt w' →
  received w H r → received w' H r.
Proof.
  intros Hw Hsrc Hp Hrun (ex & Hr & Hown). exists ex. split; [|done].
  destruct (IsPersistent ex) eqn:Hper.
  - eapply (keeps_run (λ w, w)); [by apply (kept_post r ex)|by eapply there_live; [apply Hw|]|done].
  - destruct (post_ok w H src dst e e' Hw Hsrc Hp) as (w1 & Hrun1 & _ & _ & _ & Hun & _).
    rewrite Hrun in Hrun1. simplify_eq. apply Hun; [done|].
    pose proof (core_own _ _ (proj1 Hw) r) as Ho. rewrite Hr in Ho. cbn in Ho. rewrite Hper in Ho.
    rewrite (held_in H r (Hown eq_refl)) in Ho. lia.
Qed.

Lemma env_step_ok c wait_ms s s' :
  env_step s s' → wait_ok c wait_ms s → wait_ok c wait_ms s'.
Proof.
  intros [w H pc src dst e e' w' Hsrc Hp Hrun] (Hw & Hc & Hpc). cbn in *.
  destruct (post_spec w H src dst e e' Hw Hsrc Hp) as (w1 & Hrun1 & Hw1 & Hf & _).
  rewrite Hrun in Hrun1. simplify_eq. destruct Hc as [cl Hcl].
  destruct (frame_client w w1 c cl Hf Hcl) as (cl1 & Hcl1 & _ & Hle).
  unfold wait_ok; cbn. split_done. destruct pc as [| |n|r|x|]; cbn in *; try done.
  - destruct Hpc as (cl' & Hcl' & Hn). simplify_eq. exists cl1. split; [done|lia].
  - destruct Hpc as [?|[Hr Hlive]]; [by left|right]. split; [done|].
    by apply (post_received w w1 H src dst e e').
Qed.

(** Steps of the waiting client and of the others, without the errors of
    [pthread_cond_wait] and of events that cannot be copied. *)
Definition run_step (c wait_ms : Z) (s s' : wait_state) : Prop :=
  regular_step c wait_ms s s' ∨ env_step s s'.

(** C31. [EventPopWait] returns events: whatever the other threads dispatch
    before it, while it runs and after it, what it returned is null only if the
    call had a limit, and else points to a live event that, unless it is marked
    persistent, belongs to the caller (so the main loop and the plugins may use
    it without a test and destroy it). *)
Theorem popwait_returns_event c wait_ms w H s r :
  wf w H → is_Some (clients w !! c) →
  rtc (run_step c wait_ms) (WaitState w H AtPop) s → ws_pc s = Returned r →
  wf (ws_world s) (ws_held s) ∧
  ((r = CS_EVENT_NONE ∧ (0 < wait_ms)%Z) ∨
   (r ≠ CS_EVENT_NONE ∧ ∃ e, heap (ws_world s) !! r = Some e ∧
     (IsPersistent e = false → r ∈ ws_held s))).
Proof.
  intros Hw Hc Hrtc Hpc.
  assert (wait_ok c wait_ms s) as (Hws & _ & Hok).
  { clear Hpc r. assert (wait_ok c wait_ms (WaitState w H AtPop)) as H0 by done.
    clear Hw Hc. induction Hrtc as [s|s1 s2 s3 [[Hst Hreg]|Henv] _ IH]; [done| |].
    - by apply IH, (wait_step_ok c wait_ms s1).
    - by apply IH, (env_step_ok c wait_ms s1). }
  rewrite Hpc in Hok. by split.
Qed.

(** An event is received, and another one dispatched to the client after that. *)
Lemma popwait_returns_event_witness :
  ∃ r w1 w2, EventPop 200 sample_queued = Ok r w1 ∧
    post 100 200 (csEvent_new csEVENT_RELOAD FlagNone) w1 = Ok tt w2 ∧
    r ≠ CS_EVENT_NONE ∧ ∃ e, heap w2 !! r = Some e.
Proof.
  destruct (EventPop 200 sample_queued) as [r0 w1| |] eqn:Hrun; [|by vm_compute in Hrun..].
  assert (r0 = 2%Z) as -> by (vm_compute in Hrun; congruence).
  assert (∃ e, heap w1 !! 2%Z = Some e) as [e He].
  { vm_compute in Hrun. simplify_eq. eexists. vm_compute. reflexivity. }
  destruct (post 100 200 (csEvent_new csEVENT_RELOAD FlagNone) w1) as [[] w2| |] eqn:Hpost;
    [|vm_compute in Hrun; simplify_eq; by vm_compute in Hpost..].
  exists 2%Z, w1, w2. split; [reflexivity|]. split; [exact Hpost|].
  destruct (popwait_returns_event 200 0 sample_queued ∅ (WaitState w2 (take 2 e ∅) (Returned 2)) 2)
    as [_ [[_ Hlim]|(Hn & e' & He' & _)]].
  - exact sample_queued_wf.
  - vm_compute. eauto.
  - eapply rtc_l; [left; split; [by apply (wait_pop_some 200 0 _ ∅ w1 2 e)|done]|].
    apply rtc_once. right. apply (env_post w1 _ _ 100 200
      (csEvent_new csEVENT_RELOAD FlagNone)
      (SetSource 100 (SetTarget 200 (csEvent_new csEVENT_RELOAD FlagNone)))); [|reflexivity|exact Hpost].
    vm_compute in Hrun. simplify_eq. by vm_compute; eexists.
  - reflexivity.
  - discriminate Hlim.
  - split; [exact Hn|]. exists e'. exact He'.
Defined.

(** ** Wake-ups *)

Lemma post_to_client w H c src e e' v :
  wf w H → view w c = Some v → is_Some (view w src) → posted src c e = Some e' →
  ∃ w', post src c e w = Ok tt w' ∧ wf w' H ∧ woken w w' c ∧
    view w' c = Some (deliver e' v) ∧ is_Some (clients w' !! c).
Proof.
  intros Hw Hv Hsrc Hp.
  assert (reaches c c = true) as Hr by (unfold reaches; by rewrite Z.eqb_refl, orb_true_r).
  destruct (post_spec w H src c e e' Hw Hsrc Hp) as (w' & Hrun & Hw' & Hf & Hwk & Hv').
  assert (view w' c = Some (deliver e' v)) as Hvc by by rewrite Hv', Hv, Hr.
  exists w'. split_done; [by apply Hwk|]. apply view_is_client. by rewrite Hvc.
Qed.

(** The first event of a queue that [e'] was put into. *)
Lemma enqueue_first q e' e1 q1 :
  enqueue e' q = e1 :: q1 → q = [] ∨ IsHighPriority e' = true → e1 = e'.
Proof.
  unfold enqueue. intros Hq [->|Hh].
  - destruct (IsExclusive e'), (IsHighPriority e'); cbn in Hq; by simplify_eq.
  - rewrite Hh in Hq. by simplify_eq.
Qed.

(** C32. While a client is blocked in [EventPopWait] no event is missed: the
    dispatch of an event to it enables its wake-up, and the client then
    returns the first event of its queue (itself, or a copy if it is sticky),
    which is the event that was dispatched if nothing was queued or if it has
    high priority; and the rest stays queued.  It does so without help from
    anyone and whether or not the wait has a limit, unless the event it finds
    first refuses to be copied. *)
Theorem blocked_client_wakes w H c wait_ms src e e' q cl :
  wf w H → view w c = Some (true, q) → clients w !! c = Some cl →
  is_Some (view w src) → posted src c e = Some e' →
  (∀ e1 q1, enqueue e' q = e1 :: q1 → ∃ e2, Clone_of e1 = inl e2) →
  ∃ w' e1 q1, post src c e w = Ok tt w' ∧ enqueue e' q = e1 :: q1 ∧
    (q = [] ∨ IsHighPriority e' = true → e1 = e') ∧
    ∃ w'' H'' r e'',
    rtc (regular_step c wait_ms)
      (WaitState w' H (Blocked (event_condition cl)))
      (WaitState w'' H'' (Returned r)) ∧
    r ≠ CS_EVENT_NONE ∧ heap w'' !! r = Some e'' ∧
    (if IsSticky e1 then Clone_of e1 = inl e'' else e'' = e1) ∧
    view w'' c = Some (true, if IsSticky e1 then e1 :: q1 else q1).
Proof.
  intros Hw Hv Hcl Hsrc Hp Hcopy.
  destruct (post_to_client w H c src e e' (true, q) Hw Hv Hsrc Hp)
    as (w' & Hrun & Hw' & Hwk & Hv' & [cl1 Hcl1]).
  assert (event_enable cl = true) as Hen.
  { rewrite (view_client w c cl) in Hv by done. congruence. }
  destruct (Hwk cl Hcl Hen) as (cl2 & Hcl2 & Hlt).
  cbn in Hv'. pose proof (EventPop_result w' H c _ _ Hw' Hv') as Hres. unfold pop_result in Hres.
  destruct (enqueue e' q) as [|e1 q1] eqn:Hq.
  { exfalso. unfold enqueue in Hq. destruct (IsHighPriority e'); [done|].
    by apply app_nil in Hq as [_ ?]. }
  exists w', e1, q1. split; [done|]. split; [done|]. split; [by apply (enqueue_first q e' e1 q1)|].
  destruct (Hcopy e1 q1 eq_refl) as [e2 He2]. rewrite He2 in Hres |- *.
  assert (∃ r w'' e'', EventPop c w' = Ok r w'' ∧ heap w'' !! r = Some e'' ∧
    wf w'' (take r e'' H) ∧ (if IsSticky e1 then inl (B:=csException) e2 = inl e'' else e'' = e1) ∧
    view w'' c = Some (true, if IsSticky e1 then e1 :: q1 else q1))
    as (r & w'' & e'' & Hpop & He'' & Hwf & Hsame & Hview).
  { destruct (IsSticky e1).
    - destruct Hres as (r & w'' & ? & _ & ? & ? & Hvx). exists r, w'', e2. by rewrite Hvx.
    - destruct Hres as (r & w'' & ? & ? & ? & Hvx). exists r, w'', e1.
      by rewrite Hvx, decide_True. }
  assert (r ≠ CS_EVENT_NONE) as Hr.
  { intros ->. by apply (heap_null w'' (take CS_EVENT_NONE e'' H) e''); [apply Hwf|]. }
  exists w'', (take r e'' H), r, e''. split_done.
  eapply rtc_l; [split; [by eapply wait_wake|done]|].
  eapply rtc_l; [split; [by apply (wait_pop_some c wait_ms w' H w'' r e'')|done]|].
  apply rtc_refl.
Qed.

Lemma blocked_client_wakes_witness :
  let e := csEvent_new csEVENT_RELOAD FlagNone in
  ∃ w', post 100 200 e sample0 = Ok tt w' ∧ ∃ w'' H'' r e'',
    rtc (regular_step 200 0) (WaitState w' ∅ (Blocked 0))
      (WaitState w'' H'' (Returned r)) ∧
    r ≠ CS_EVENT_NONE ∧ heap w'' !! r = Some e'' ∧ GetId e'' = csEVENT_RELOAD ∧
    view w'' 200 = Some (true, []).
Proof.
  intros e.
  destruct (blocked_client_wakes sample0 ∅ 200 0 100 e
    (SetSource 100 (SetTarget 200 e)) [] (EventClient true [] MFree 0))
    as (w' & e1 & q1 & Hrun & Hq & _ & w'' & H'' & r & e'' & Hst & Hr & He & Hsame & Hv).
  - apply sample0_wf.
  - vm_compute. reflexivity.
  - vm_compute. reflexivity.
  - vm_compute. eauto.
  - reflexivity.
  - intros e1 q1 [= <- <-]. eexists. reflexivity.
  - change ([SetSource 100 (SetTarget 200 e)] = e1 :: q1) in Hq. injection Hq as <- <-.
    change (e'' = SetSource 100 (SetTarget 200 e)) in Hsame. subst e''.
    exists w'. split; [exact Hrun|]. exists w'', H'', r, (SetSource 100 (SetTarget 200 e)).
    split; [exact Hst|]. split; [exact Hr|]. split; [exact He|]. split; [reflexivity|exact Hv].
Defined.

(** C33. The wake-up can be lost, because the queue and the condition are
    guarded by different mutexes: when an event arrives after [EventPopWait]
    found the queue empty and before it waits, a wait with no limit blocks
    although the event is in the queue, and no step of the client is enabled
    until somebody dispatches something else. *)
Theorem wakeup_can_be_lost w H c src e e' :
  wf w H → view w c = Some (true, []) → is_Some (view w src) →
  posted src c e = Some e' →
  ∃ w' n,
    rtc (either_step c 0) (WaitState w H AtPop) (WaitState w' H (Blocked n)) ∧
    view w' c = Some (true, [e']) ∧
    ∀ s', ¬ regular_step c 0 (WaitState w' H (Blocked n)) s'.
Proof.
  intros Hw Hv Hsrc Hp.
  destruct (post_to_client w H c src e e' (true, []) Hw Hv Hsrc Hp)
    as (w' & Hrun & Hw' & _ & Hv' & [cl Hcl]).
  exists w', (event_condition cl). split_done.
  - eapply rtc_l.
    { left. apply wait_pop_none. exact (EventPop_result w H c _ _ Hw Hv). }
    eapply rtc_l; [right; by apply (env_post w H AtWait src c e e' w')|].
    eapply rtc_l; [left; by apply (wait_block c 0 w' H cl)|]. apply rtc_refl.
  - rewrite Hv'. unfold deliver, enqueue; cbn.
    by destruct (IsExclusive e'), (IsHighPriority e').
  - intros s' [Hstep Hreg]. inversion Hstep; simplify_eq.
    + lia.
    + lia.
    + by eapply Hreg.
Qed.

Lemma wakeup_can_be_lost_witness :
  let e := csEvent_new csEVENT_RELOAD FlagNone in
  ∃ w' n,
    rtc (either_step 200 0) (WaitState sample0 ∅ AtPop) (WaitState w' ∅ (Blocked n)) ∧
    view w' 200 = Some (true, [SetSource 100 (SetTarget 200 e)]) ∧
    ∀ s', ¬ regular_step 200 0 (WaitState w' ∅ (Blocked n)) s'.
Proof.
  intros e. apply (wakeup_can_be_lost sample0 ∅ 200 100 e).
  - apply sample0_wf.
  - vm_compute. reflexivity.
  - vm_compute. eauto.
  - reflexivity.
Defined.
