(* ===== verification/Thread.v ===== *)
(** * Threads (csthread.cpp, csthread.h)

    A thread object is an event client with a thread identifier and attributes.
    The POSIX threads that were created and not joined yet, and those of them
    whose [Entry] has returned, are part of the state; the results of the
    pthread functions are arguments. *)

From S2P Require Import Prelude Exception Event.

Record csThread := CsThread {
  th_id : option Z;                  (* pthread_t, or all bytes 0xff *)
  th_attr : bool;                    (* pthread_attr_t: initialised *)
}.

Record thread_state := ThreadState {
  t_bus : world;
  threads : gmap Z csThread;         (* live thread objects *)
  started : gset Z;                  (* created and not joined *)
  ended : gset Z;                    (* of these: [Entry] returned *)
}.

Definition set_t_bus (w : world) (s : thread_state) : thread_state :=
  ThreadState w (threads s) (started s) (ended s).
Definition set_threads (t : gmap Z csThread) (s : thread_state) : thread_state :=
  ThreadState (t_bus s) t (started s) (ended s).
Definition set_started (t : gset Z) (s : thread_state) : thread_state :=
  ThreadState (t_bus s) (threads s) t (ended s).
Definition set_ended (t : gset Z) (s : thread_state) : thread_state :=
  ThreadState (t_bus s) (threads s) (started s) t.
Definition set_th_id (i : option Z) (t : csThread) : csThread := CsThread i (th_attr t).
Definition set_th_attr (b : bool) (t : csThread) : csThread := CsThread (th_id t) b.

Abbreviation on_clients m := (zoom t_bus set_t_bus m).

Definition thread_get (p : Z) : prog thread_state csThread := λ s,
  match threads s !! p with
  | Some t => Ok t s
  | None => Stuck (UseAfterFree p)
  end.
Definition thread_put (p : Z) (t : csThread) : prog thread_state unit :=
  modify (λ s, set_threads (<[p := t]> (threads s)) s).
Definition thread_update (p : Z) (f : csThread → csThread) : prog thread_state unit :=
  t ← thread_get p; thread_put p (f t).

(** [~csThread] is empty; the object ends with [~csEventClient]. *)
Definition csThread_delete (this : Z) : prog thread_state unit :=
  _ ← thread_get this;
  modify (λ s, set_threads (delete this (threads s)) s);;
  on_clients (csEventClient_delete this).

(** An exception in the constructor's body destroys the base. *)
Definition thread_throw (this rc : Z) (what : string) : prog thread_state unit :=
  csThread_delete this;; throw (csException_int_str rc what).

(** [csThread(stack_size)]; [attr_init] and [attr_setstacksize] give an error
    number or nothing. *)
Definition csThread_new (this stack_size : Z) (attr_init : option Z)
    (attr_setstacksize : Z → option Z) : prog thread_state unit :=
  on_clients (csEventClient_new this);;
  thread_put this (CsThread None false);;
  match attr_init with
  | Some rc => thread_throw this rc "pthread_attr_init"
  | None =>
      thread_update this (set_th_attr true);;
      match attr_setstacksize stack_size with
      | Some rc => thread_throw this rc "pthread_attr_setstacksize"
      | None => mret tt
      end
  end.

(** [Start]; [pthread_create] gives an error number or the new thread. *)
Definition thread_Start (this : Z) (pthread_create : Z + Z) : prog thread_state unit :=
  _ ← thread_get this;
  match pthread_create with
  | inl rc =>
      thread_update this (set_th_id None);;
      throw (csException_int_str rc "pthread_create")
  | inr tid =>
      thread_update this (set_th_id (Some tid));;
      modify (λ s, set_started ({[tid]} ∪ started s) s)
  end.

(** [pthread_attr_destroy]: undefined on attributes that are not initialised. *)
Definition attr_destroy (this : Z) : prog thread_state unit :=
  t ← thread_get this;
  if th_attr t then thread_update this (set_th_attr false) else stuck OutOfBounds.

(** [pthread_join]: waits for the end of the thread; undefined for a thread
    that was joined already. *)
Definition pthread_join (tid : Z) : prog thread_state unit := λ s,
  if bool_decide (tid ∉ started s) then Stuck (UseAfterFree tid)
  else if bool_decide (tid ∉ ended s) then Stuck Deadlock
  else Ok tt (set_ended (ended s ∖ {[tid]}) (set_started (started s ∖ {[tid]}) s)).

Definition thread_Join (this : Z) : prog thread_state unit :=
  attr_destroy this;;
  t ← thread_get this;
  match th_id t with
  | None => mret tt
  | Some tid => pthread_join tid
  end.

(** What the destructor of every class of threads does with the thread: the
    signal handler, the timer thread, the netlink thread, the plugins. *)
Definition thread_destroy (this : Z) : prog thread_state unit :=
  thread_Join this;; csThread_delete this.

(** [Entry] of some thread returns. *)
Definition thread_end (tid : Z) (s : thread_state) : thread_state :=
  set_ended ({[tid]} ∪ ended s) s.
