(* ===== verification/ThreadProps.v ===== *)
(** * Threads: none is joined twice, none is left behind

    The life of thread objects, in any order. *)

From S2P Require Import Prelude Exception Event EventInv EventOps Bus EventProps Thread.

(** ** The invariant *)

(** Every thread object is a registered event client with attributes; the
    threads that were created and not joined are those of the live objects, one
    each. *)
Record threads_ok (s : thread_state) : Prop := ThreadsOk {
  tk_bus : world_ok (t_bus s);
  tk_client : ∀ p, is_Some (threads s !! p) → is_Some (clients (t_bus s) !! p);
  tk_attr : ∀ p t, threads s !! p = Some t → th_attr t = true;
  tk_started : ∀ tid, tid ∈ started s ↔ ∃ p t, threads s !! p = Some t ∧ th_id t = Some tid;
  tk_own : ∀ p q t u tid, threads s !! p = Some t → threads s !! q = Some u →
    th_id t = Some tid → th_id u = Some tid → p = q;
  tk_ended : ended s ⊆ started s;
}.

(** A thread object that can be destroyed: its thread was never created or has
    ended. *)
Definition joinable (s : thread_state) (t : csThread) : Prop :=
  match th_id t with Some tid => tid ∈ ended s | None => True end.

Definition id_set (t : csThread) : gset Z :=
  match th_id t with Some tid => {[tid]} | None => ∅ end.

(** ** Construction *)

Definition born (w : world) (p : Z) (s : thread_state) : thread_state :=
  ThreadState w (<[p := CsThread None true]> (threads s)) (started s) (ended s).

Lemma client_new_run w p :
  world_ok w → clients w !! p = None → p ≠ NULL → p ≠ CS_EVENT_BROADCAST →
  ∃ w1, csEventClient_new p w = Ok tt w1 ∧ world_ok w1 ∧
    event_client w1 = event_client w ++ [p] ∧
    clients w1 = <[p := EventClient true [] MFree 0]> (clients w).
Proof.
  intros [H Hw] Hp Hn Hb. exists (constructed p w). split_and!; try done.
  - by apply (csEventClient_new_run w H).
  - exists H. by apply constructed_ok.
Qed.

Lemma client_delete_run w p :
  world_ok w → is_Some (clients w !! p) →
  ∃ w1, csEventClient_delete p w = Ok tt w1 ∧ world_ok w1 ∧
    event_client w1 = erase_first p (event_client w) ∧
    ∀ q, is_Some (clients w1 !! q) ↔ q ≠ p ∧ is_Some (clients w !! q).
Proof.
  intros [H Hw] [cl Hcl]. pose proof Hw as [Hc _].
  destruct (wp_inv _ _ _ (wp_csEventClient_delete w H p cl Hw Hcl))
    as ([] & w1 & Hrun & Hw1 & Hreg & _).
  exists w1. split_and!; [done|by exists H|done|].
  intros q. rewrite <-(core_dom _ _ (proj1 Hw1) q), Hreg.
  rewrite (proj2 (erase_first_elem p _ (core_nodup _ _ Hc)) q).
  by rewrite (core_dom _ _ Hc q).
Qed.

(** No event was posted yet. *)
Definition unposted (w : world) : Prop := map_Forall (λ _ cl, event_queue cl = []) (clients w).

Lemma unposted_fresh w w' p :
  clients w' = <[p := EventClient true [] MFree 0]> (clients w) → unposted w → unposted w'.
Proof. unfold unposted. intros -> Hq. by apply map_Forall_insert_2. Qed.

Lemma unposted_deleted w p w1 :
  world_ok w → is_Some (clients w !! p) → csEventClient_delete p w = Ok tt w1 → unposted w → unposted w1.
Proof.
  intros [H Hw] [cl Hcl] Hrun Hq c cl1 Hc.
  pose proof (wp_run _ _ _ _ _ _ (wp_csEventClient_delete w H p cl Hw Hcl) Hrun) as (Hw1 & _ & Hv).
  specialize (Hv c). rewrite (view_client w1 c cl1 Hc) in Hv. case_decide; [done|].
  unfold view in Hv. destruct (clients w !! c) as [cl0|] eqn:Hc0; [|done]. cbn in Hv.
  rewrite (Hq c cl0 Hc0) in Hv. destruct (event_queue cl1) as [|x l] eqn:Hl; [done|].
  destruct (core_live w1 H c cl1 x (proj1 Hw1) Hc) as [e He]; [rewrite Hl; by left|].
  unfold events in Hv. cbn in Hv. by rewrite He in Hv.
Qed.

Definition fresh_client (w : world) (p : Z) : Prop :=
  clients w !! p = None ∧ p ≠ NULL ∧ p ≠ CS_EVENT_BROADCAST.

Lemma fresh_thread s p : threads_ok s → fresh_client (t_bus s) p → threads s !! p = None.
Proof.
  intros Hs [Hp _]. destruct (threads s !! p) as [t|] eqn:Ht; [|done].
  destruct (tk_client s Hs p) as [cl Hcl]; [by eexists|]. by rewrite Hcl in Hp.
Qed.

Lemma csThread_delete_run s p w :
  is_Some (threads s !! p) → csEventClient_delete p (t_bus s) = Ok tt w →
  csThread_delete p s = Ok tt (ThreadState w (delete p (threads s)) (started s) (ended s)).
Proof.
  intros [t Ht] Hrun. unfold csThread_delete, thread_get, mbind, M_bind, modify, zoom.
  rewrite Ht. cbn. by rewrite Hrun.
Qed.

(** What a constructor leaves behind that throws. *)
Definition unmade (w : world) (s : thread_state) : Prop :=
  event_client w = event_client (t_bus s) ∧
  (∀ q, is_Some (clients w !! q) ↔ is_Some (clients (t_bus s) !! q)) ∧
  (unposted (t_bus s) → unposted w).

Lemma thread_throw_run s p w t rc what :
  threads_ok s → fresh_client (t_bus s) p →
  world_ok w → event_client w = event_client (t_bus s) ++ [p] →
  clients w = <[p := EventClient true [] MFree 0]> (clients (t_bus s)) →
  ∃ w1, thread_throw p rc what (ThreadState w (<[p := t]> (threads s)) (started s) (ended s)) =
      Throw (csException_int_str rc what) (set_t_bus w1 s) ∧ world_ok w1 ∧ unmade w1 s.
Proof.
  intros Hs Hf Hw Hreg Hcl. pose proof (fresh_thread s p Hs Hf) as Ht. destruct Hf as [Hp _].
  destruct (client_delete_run w p Hw) as (w1 & Hrun & Hw1 & Hreg1 & Hdom).
  { rewrite Hcl, lookup_insert_eq. by eexists. }
  exists w1. unfold unmade. split_and!; [|done| | |].
  - unfold thread_throw, mbind at 1, M_bind at 1.
    rewrite (csThread_delete_run _ p w1) by (cbn; rewrite ?lookup_insert_eq; eauto).
    unfold throw, set_t_bus. cbn. by rewrite delete_insert_id.
  - rewrite Hreg1, Hreg. apply erase_first_snoc. intros Hin.
    destruct (tk_bus s Hs) as [H [Hc _]]. apply (core_dom _ _ Hc) in Hin.
    rewrite Hp in Hin. by destruct Hin.
  - intros q. rewrite Hdom, Hcl. destruct (decide (q = p)) as [->|Hq].
    + rewrite Hp. split; [by intros []|by intros []].
    + rewrite lookup_insert_ne by done. split; [by intros []|done].
  - intros Hq. eapply (unposted_deleted w p); [done| |done|by eapply unposted_fresh].
    rewrite Hcl, lookup_insert_eq. by eexists.
Qed.

Lemma csThread_new_run s p size ai ss :
  threads_ok s → fresh_client (t_bus s) p →
  ∃ w, world_ok w ∧
  match ai, ss size with
  | None, None =>
      csThread_new p size ai ss s = Ok tt (born w p s) ∧
      event_client w = event_client (t_bus s) ++ [p] ∧
      clients w = <[p := EventClient true [] MFree 0]> (clients (t_bus s))
  | _, _ =>
      (∃ x, csThread_new p size ai ss s = Throw x (set_t_bus w s)) ∧ unmade w s
  end.
Proof.
  intros Hs Hf. pose proof Hf as (Hp & Hn & Hb).
  destruct (client_new_run (t_bus s) p (tk_bus s Hs) Hp Hn Hb) as (w & Hrun & Hw & Hreg & Hcl).
  assert (∀ f : M csException thread_state unit, (on_clients (csEventClient_new p);;
    thread_put p (CsThread None false);; f) s =
    f (ThreadState w (<[p := CsThread None false]> (threads s)) (started s) (ended s))) as Hgo.
  { intros f. unfold thread_put, mbind, M_bind, zoom, modify. by rewrite Hrun. }
  unfold csThread_new. rewrite Hgo. destruct ai as [rc|].
  { destruct (thread_throw_run s p w (CsThread None false) rc "pthread_attr_init")
      as (w1 & Ht & Hw1 & Hu); try done. exists w1. eauto. }
  set (s1 := ThreadState w (<[p := CsThread None false]> (threads s)) (started s) (ended s)).
  rewrite (bind_ok _ _ _ tt (born w p s)).
  2:{ unfold thread_update, thread_get, thread_put, mbind, M_bind, modify, s1. cbn.
      rewrite lookup_insert_eq. cbn. by rewrite insert_insert_eq. }
  destruct (ss size) as [rc|]; [|by exists w].
  destruct (thread_throw_run s p w (CsThread None true) rc "pthread_attr_setstacksize")
    as (w1 & Ht & Hw1 & Hu); try done. exists w1. eauto.
Qed.

Lemma born_ok s p w :
  threads_ok s → fresh_client (t_bus s) p → world_ok w →
  clients w = <[p := EventClient true [] MFree 0]> (clients (t_bus s)) →
  threads_ok (born w p s).
Proof.
  intros Hs Hf Hw Hcl. pose proof (fresh_thread s p Hs Hf) as Hp.
  destruct Hs as [_ Hc Ha Hst Hown He]. split; cbn; try done.
  - intros q. rewrite Hcl, !lookup_insert_is_Some'. naive_solver.
  - intros q t [[_ <-]|[_ Hq]]%lookup_insert_Some; [done|by apply (Ha q)].
  - intros tid. rewrite Hst. split; intros (q & t & Hq & Hid).
    + exists q, t. rewrite lookup_insert_ne by (by intros ->; rewrite Hp in Hq). done.
    + apply lookup_insert_Some in Hq as [[_ <-]|[_ Hq]]; [done|eauto].
  - intros q r t u tid [[_ <-]|[_ Hq]]%lookup_insert_Some [[_ <-]|[_ Hr]]%lookup_insert_Some;
      try done. by apply (Hown q r t u).
Qed.

Lemma set_bus_ok s w :
  threads_ok s → world_ok w →
  (∀ q, is_Some (threads s !! q) → is_Some (clients (t_bus s) !! q) → is_Some (clients w !! q)) →
  threads_ok (set_t_bus w s).
Proof.
  intros [_ Hc Ha Hst Hown He] Hw Hd. split; cbn; try done. intros p Hp. by apply Hd, Hc.
Qed.

(** ** Start *)

Definition running_thread (p tid : Z) (t : csThread) (s : thread_state) : thread_state :=
  ThreadState (t_bus s) (<[p := set_th_id (Some tid) t]> (threads s)) ({[tid]} ∪ started s)
    (ended s).

Lemma thread_Start_run s p t create :
  threads s !! p = Some t → th_id t = None →
  thread_Start p create s =
    match create with
    | inl rc => Throw (csException_int_str rc "pthread_create") s
    | inr tid => Ok tt (running_thread p tid t s)
    end.
Proof.
  intros Ht Hid. unfold thread_Start, thread_update, thread_put, thread_get, mbind, M_bind,
    modify, throw. rewrite Ht. destruct create as [rc|tid]; rewrite Ht; [|done].
  f_equal. unfold set_threads. rewrite insert_id; [by destruct s|].
  rewrite Ht. destruct t; cbn in *. by subst.
Qed.

Lemma running_ok s p t tid :
  threads_ok s → threads s !! p = Some t → th_id t = None → tid ∉ started s →
  threads_ok (running_thread p tid t s).
Proof.
  intros [Hw Hc Ha Hst Hown He] Ht Hid Hnew. split; cbn; try done.
  - intros q. rewrite lookup_insert_is_Some'. intros [<-|Hq]; apply Hc; eauto.
  - intros q u [[_ <-]|[_ Hq]]%lookup_insert_Some; [exact (Ha p t Ht)|by apply (Ha q)].
  - intros x. rewrite elem_of_union, elem_of_singleton, Hst. split.
    + intros [->|(q & u & Hq & Hu)]; [exists p, (set_th_id (Some tid) t); by rewrite lookup_insert_eq|].
      exists q, u. rewrite lookup_insert_ne; [done|]. intros ->. congruence.
    + intros (q & u & [[_ <-]|[_ Hq]]%lookup_insert_Some & Hu); [left; cbn in Hu; congruence|eauto].
  - intros q r u v x [[-> <-]|[_ Hq]]%lookup_insert_Some [[-> <-]|[_ Hr]]%lookup_insert_Some Hu Hv;
      cbn in *; try done; [| |by apply (Hown q r u v x)].
    + simplify_eq. destruct Hnew. apply Hst. eauto.
    + simplify_eq. destruct Hnew. apply Hst. eauto.
  - intros x Hx. apply elem_of_union. right. by apply He.
Qed.

(** ** Destruction *)

Definition gone (w : world) (p : Z) (t : csThread) (s : thread_state) : thread_state :=
  ThreadState w (delete p (threads s)) (started s ∖ id_set t) (ended s ∖ id_set t).

Lemma thread_Join_run s p t :
  threads_ok s → threads s !! p = Some t →
  (joinable s t ∧ thread_Join p s =
     Ok tt (ThreadState (t_bus s) (<[p := set_th_attr false t]> (threads s))
       (started s ∖ id_set t) (ended s ∖ id_set t))) ∨
  (¬ joinable s t ∧ thread_Join p s = Stuck Deadlock).
Proof.
  intros Hs Ht. unfold joinable, thread_Join, attr_destroy, thread_update, thread_put, thread_get,
    pthread_join, id_set, mbind, M_bind, modify. rewrite Ht, (tk_attr s Hs p t Ht), Ht.
  cbn. rewrite lookup_insert_eq. cbn. pose proof (tk_started s Hs) as Hst.
  destruct (th_id t) as [tid|] eqn:Hid; cbn.
  - rewrite (bool_decide_eq_false_2 (tid ∉ started s)) by (intros Hn; apply Hn, Hst; eauto).
    destruct (decide (tid ∈ ended s)) as [Hend|Hend]; [left|right]; (split; [done|]).
    + by rewrite (bool_decide_eq_false_2 (tid ∉ ended s)) by naive_solver.
    + by rewrite (bool_decide_eq_true_2 (tid ∉ ended s)).
  - left. unfold set_threads. by rewrite !difference_empty_L.
Qed.

(** The destructor of a thread object waits for its thread, and leaves nothing
    of either. *)
Lemma thread_destroy_run s p t :
  threads_ok s → threads s !! p = Some t → joinable s t →
  ∃ w, thread_destroy p s = Ok tt (gone w p t s) ∧ world_ok w ∧
    event_client w = erase_first p (event_client (t_bus s)) ∧
    ∀ q, is_Some (clients w !! q) ↔ q ≠ p ∧ is_Some (clients (t_bus s) !! q).
Proof.
  intros Hs Ht Hj. destruct (client_delete_run (t_bus s) p (tk_bus s Hs))
    as (w & Hrun & Hw & Hreg & Hdom); [by apply (tk_client s Hs); eauto|].
  exists w. split_and!; try done. unfold thread_destroy, mbind, M_bind.
  destruct (thread_Join_run s p t Hs Ht) as [[_ ->]|[Hn _]]; [|done].
  rewrite (csThread_delete_run _ p w); [|by cbn; rewrite lookup_insert_eq; eauto|done].
  unfold gone. cbn. by rewrite delete_insert_eq.
Qed.

Lemma gone_ok s p t w :
  threads_ok s → threads s !! p = Some t → world_ok w →
  (∀ q, is_Some (clients w !! q) ↔ q ≠ p ∧ is_Some (clients (t_bus s) !! q)) →
  threads_ok (gone w p t s).
Proof.
  intros [_ Hc Ha Hst Hown He] Ht Hw Hd.
  assert (∀ tid, tid ∈ id_set t ↔ th_id t = Some tid) as Hids.
  { intros tid. unfold id_set. destruct (th_id t); set_solver. }
  split; cbn; try done.
  - intros q. rewrite lookup_delete_is_Some, Hd. intros [Hne Hq]. split; [congruence|by apply Hc].
  - intros q u [_ Hq]%lookup_delete_Some. by apply (Ha q).
  - intros tid. rewrite elem_of_difference, Hst, Hids. split.
    + intros [(q & u & Hq & Hu) Hn]. exists q, u. rewrite lookup_delete_ne; [done|].
      intros ->. congruence.
    + intros (q & u & [Hne Hq]%lookup_delete_Some & Hu). split; [eauto|].
      intros Htid. apply Hne. by apply (Hown p q t u tid).
  - intros q r u v tid [_ Hq]%lookup_delete_Some [_ Hr]%lookup_delete_Some. by apply (Hown q r u v).
  - intros x. rewrite !elem_of_difference. intros [Hx Hn]. split; [by apply He|done].
Qed.

(** ** Threads in any order *)

(** What happens while the program runs: threads end, events are posted, and
    whatever else the event system does with the clients there are. *)
Inductive run_step : thread_state → thread_state → Prop :=
  | run_end s tid : tid ∈ started s → run_step s (thread_end tid s)
  | run_post s src dst e e' s' :
      is_Some (view (t_bus s) src) → posted src dst e = Some e' →
      on_clients (post src dst e) s = Ok tt s' → run_step s s'
  | run_bus s w :
      world_ok w →
      (∀ q, is_Some (clients w !! q) ↔ is_Some (clients (t_bus s) !! q)) →
      run_step s (set_t_bus w s).

Inductive thread_step : thread_state → thread_state → Prop :=
  | step_run s s' : run_step s s' → thread_step s s'
  | step_new s p size ai ss s' :
      fresh_client (t_bus s) p →
      (csThread_new p size ai ss s = Ok tt s' ∨ ∃ x, csThread_new p size ai ss s = Throw x s') →
      thread_step s s'
  | step_start s p t create s' :
      threads s !! p = Some t → th_id t = None →
      (∀ tid, create = inr tid → tid ∉ started s) →
      (thread_Start p create s = Ok tt s' ∨ ∃ x, thread_Start p create s = Throw x s') →
      thread_step s s'
  | step_destroy s p s' :
      is_Some (threads s !! p) → thread_destroy p s = Ok tt s' → thread_step s s'.

Lemma run_step_ok s s' :
  run_step s s' → threads_ok s → threads_ok s' ∧ threads s' = threads s ∧
    ∀ q, is_Some (clients (t_bus s') !! q) ↔ is_Some (clients (t_bus s) !! q).
Proof.
  intros [s1 tid Htid|s1 src dst e e' s2 Hsrc Hp Hrun|s1 w Hw Hdom] Hs.
  - split_and!; try done. destruct Hs as [Hw Hc Ha Hst Hown He]. split; cbn; try done. set_solver.
  - destruct (tk_bus s1 Hs) as [H Hw]. pose proof (post_ok (t_bus s1) H src dst e e' Hw Hsrc Hp)
      as (w & Hpost & Hw' & Hf & _).
    unfold zoom in Hrun. rewrite Hpost in Hrun. injection Hrun as <-.
    assert (∀ q, is_Some (clients w !! q) ↔ is_Some (clients (t_bus s1) !! q)) as Hdom.
    { intros q. rewrite <-(core_dom _ _ (proj1 Hw')), <-(core_dom _ _ (proj1 Hw)).
      by rewrite (frame_reg _ _ Hf). }
    split_and!; try done. apply set_bus_ok; [done|by exists H|]. intros q _. by apply Hdom.
  - split_and!; [|done..]. apply set_bus_ok; [done..|]. intros q _. by apply Hdom.
Qed.

Lemma thread_step_ok s s' : thread_step s s' → threads_ok s → threads_ok s'.
Proof.
  intros [s1 s2 Hr|s1 p size ai ss s2 Hf Hrun|s1 p t create s2 Ht Hid Hnew Hrun|s1 p s2 [t Ht] Hrun] Hs.
  - by apply (run_step_ok s1).
  - destruct (csThread_new_run s1 p size ai ss Hs Hf) as (w & Hw & Hcase).
    assert ((∃ x, csThread_new p size ai ss s1 = Throw x (set_t_bus w s1)) ∧
      unmade w s1 → threads_ok s2) as Hbad.
    { intros ([x Hx] & _ & Hd & _). rewrite Hx in Hrun. destruct Hrun as [?|[y [= _ <-]]]; [done|].
      apply set_bus_ok; [done|done|]. intros q _. by apply Hd. }
    destruct ai as [rc|]; [by apply Hbad|]. destruct (ss size) as [rc|]; [by apply Hbad|].
    destruct Hcase as (Hx & _ & Hcl). rewrite Hx in Hrun. destruct Hrun as [[= <-]|[y ?]]; [|done].
    by apply born_ok.
  - rewrite (thread_Start_run s1 p t) in Hrun by done. destruct create as [rc|tid].
    + by destruct Hrun as [?|[x [= _ <-]]].
    + destruct Hrun as [[= <-]|[x ?]]; [|done]. apply running_ok; auto.
  - unfold thread_destroy, mbind, M_bind in Hrun.
    destruct (thread_Join_run s1 p t Hs Ht) as [[Hj Hjr]|[_ Hjr]]; [|by rewrite Hjr in Hrun].
    destruct (thread_destroy_run s1 p t Hs Ht Hj) as (w & Hd & Hw & _ & Hdom).
    unfold thread_destroy, mbind, M_bind in Hd. rewrite Hd in Hrun. injection Hrun as <-.
    by apply gone_ok.
Qed.

Lemma thread_steps_ok s s' : rtc thread_step s s' → threads_ok s → threads_ok s'.
Proof. induction 1 as [|s1 s2 s3 Hst _ IH]; [done|]. intros Hs. by apply IH, (thread_step_ok s1). Qed.

(** C24. Threads are joined exactly once: however thread objects are made, fail to
    be made, started, fail to be started, end and are destroyed, and whatever
    events are posted meanwhile, the threads that were created and not joined are
    those of the live objects, one each, so that none is left when no object is;
    a constructor that throws leaves no client behind; a destructor joins the
    thread when it has ended or was never created and then leaves nothing of it,
    and waits for it otherwise. *)
Theorem threads_joined_once s s' :
  threads_ok s → rtc thread_step s s' →
  threads_ok s' ∧ (threads s' = ∅ → started s' = ∅) ∧
  (∀ p t, threads s' !! p = Some t →
    (joinable s' t ∧ ∃ w, thread_destroy p s' = Ok tt (gone w p t s') ∧
      event_client w = erase_first p (event_client (t_bus s'))) ∨
    (¬ joinable s' t ∧ thread_destroy p s' = Stuck Deadlock)) ∧
  ∀ p size ai ss, fresh_client (t_bus s') p → is_Some ai ∨ is_Some (ss size) →
    ∃ x w, csThread_new p size ai ss s' = Throw x (set_t_bus w s') ∧
      event_client w = event_client (t_bus s').
Proof.
  intros Hs Hr. pose proof (thread_steps_ok s s' Hr Hs) as Hs'. split_and!; [done| | |].
  - intros Hnil. apply leibniz_equiv. intros tid. rewrite elem_of_empty, (tk_started s' Hs'), Hnil.
    split; [|done]. by intros (p & t & ? & _).
  - intros p t Ht. destruct (thread_Join_run s' p t Hs' Ht) as [[Hj _]|[Hj Hrun]]; [left|right].
    + destruct (thread_destroy_run s' p t Hs' Ht Hj) as (w & Hd & _ & Hreg & _). eauto.
    + split; [done|]. unfold thread_destroy, mbind, M_bind. by rewrite Hrun.
  - intros p size ai ss Hf Hbad. destruct (csThread_new_run s' p size ai ss Hs' Hf) as (w & _ & Hcase).
    destruct ai as [rc|]; [destruct Hcase as ([x Hx] & Hreg & _); eauto|].
    destruct Hbad as [[]|[rc Hrc]]; [done|]. rewrite Hrc in Hcase.
    destruct Hcase as ([x Hx] & Hreg & _); eauto.
Qed.

(** *** One thread, that ends and is destroyed *)

Definition no_threads : thread_state := ThreadState world0 ∅ ∅ ∅.

Lemma no_threads_ok : threads_ok no_threads.
Proof.
  split; cbn; try done.
  - exists ∅. apply world0_wf.
  - intros p [t Ht]. by rewrite lookup_empty in Ht.
  - intros tid. rewrite elem_of_empty. split; [done|]. by intros (p & t & ? & _).
Qed.

Definition one_thread : thread_state := born (constructed 100 world0) 100 no_threads.

Lemma threads_joined_once_witness :
  rtc thread_step no_threads (thread_end 7 (running_thread 100 7 (CsThread None true) one_thread)) ∧
  ∃ s', thread_destroy 100
      (thread_end 7 (running_thread 100 7 (CsThread None true) one_thread)) = Ok tt s' ∧
    threads s' = ∅.
Proof.
  assert (rtc thread_step no_threads
    (thread_end 7 (running_thread 100 7 (CsThread None true) one_thread))) as Hr.
  { eapply rtc_l; [apply (step_new no_threads 100 32768 None (λ _, None) one_thread)|].
    - split; [reflexivity|done].
    - left. reflexivity.
    - eapply rtc_l; [apply (step_start one_thread 100 (CsThread None true) (inr 7%Z))|].
      + reflexivity.
      + reflexivity.
      + intros tid _. apply not_elem_of_empty.
      + left. reflexivity.
      + eapply rtc_l; [apply step_run, run_end|apply rtc_refl]. set_solver. }
  split; [exact Hr|].
  destruct (threads_joined_once _ _ no_threads_ok Hr) as (_ & _ & Hd & _).
  destruct (Hd 100%Z (CsThread (Some 7%Z) true) eq_refl) as [[_ (w & Hw & _)]|[Hn _]].
  - eexists. split; [exact Hw|]. reflexivity.
  - destruct Hn. cbn. set_solver.
Defined.
