(* ===== verification/Timer.v ===== *)
(** * Timers (cstimer.cpp, cstimer.h)

    Timer objects, the vector of the timer thread, its tick and its main loop.
    All but the main loop see the event system through the interface
    [EventBus]. *)

From S2P Require Import Prelude Exception Event EventInv EventOps Bus.

(** ** Timer objects and the state of the timer thread *)

Record csTimer := CsTimer {
  running : bool;
  timer_ident : Z;
  target : Z;
  value : Z;
  interval : Z;
  timer_mutex : mutex;
}.

Definition set_running (b : bool) (t : csTimer) : csTimer :=
  CsTimer b (timer_ident t) (target t) (value t) (interval t) (timer_mutex t).
Definition set_value (v : Z) (t : csTimer) : csTimer :=
  CsTimer (running t) (timer_ident t) (target t) v (interval t) (timer_mutex t).
Definition set_interval (v : Z) (t : csTimer) : csTimer :=
  CsTimer (running t) (timer_ident t) (target t) (value t) v (timer_mutex t).
Definition set_timer_mutex (m : mutex) (t : csTimer) : csTimer :=
  CsTimer (running t) (timer_ident t) (target t) (value t) (interval t) m.

Record timer_state (W : Type) := TimerState {
  bus : W;
  timers : gmap Z csTimer;          (* live timer objects *)
  timer_vector : list Z;            (* static vector<csTimer *> *)
  vector_mutex : mutex;             (* static *)
  instance : Z;                     (* static csThreadTimer * *)
}.
Arguments TimerState {W}.
Arguments bus {W}.
Arguments timers {W}.
Arguments timer_vector {W}.
Arguments vector_mutex {W}.
Arguments instance {W}.

Section timer.
Context {W : Type}.
Abbreviation state := (timer_state W).
Implicit Types s : state.

Definition set_bus (b : W) s : state :=
  TimerState b (timers s) (timer_vector s) (vector_mutex s) (instance s).
Definition set_timers (t : gmap Z csTimer) s : state :=
  TimerState (bus s) t (timer_vector s) (vector_mutex s) (instance s).
Definition set_vector (v : list Z) s : state :=
  TimerState (bus s) (timers s) v (vector_mutex s) (instance s).
Definition set_vector_mutex (m : mutex) s : state :=
  TimerState (bus s) (timers s) (timer_vector s) m (instance s).
Definition set_instance (i : Z) s : state :=
  TimerState (bus s) (timers s) (timer_vector s) (vector_mutex s) i.

(** Access through a timer pointer. *)
Definition timer_get (p : Z) : prog state csTimer := λ s,
  match timers s !! p with
  | Some t => Ok t s
  | None => Stuck (UseAfterFree p)
  end.
Definition timer_put (p : Z) (t : csTimer) s : state :=
  set_timers (<[p := t]> (timers s)) s.
Definition timer_update (p : Z) (f : csTimer → csTimer) : prog state unit :=
  t ← timer_get p; modify (timer_put p (f t)).

Definition lock_timer (p : Z) : prog state unit :=
  t ← timer_get p;
  mutex_lock (λ _, timer_mutex t) (λ m, timer_put p (set_timer_mutex m t)).
Definition unlock_timer (p : Z) : prog state unit :=
  t ← timer_get p;
  mutex_unlock (λ _, timer_mutex t) (λ m, timer_put p (set_timer_mutex m t)).

Definition lock_vector : prog state unit := mutex_lock vector_mutex set_vector_mutex.
Definition unlock_vector : prog state unit :=
  mutex_unlock vector_mutex set_vector_mutex.

(** ** The vector *)

Definition AddTimer (timer : Z) : prog state unit :=
  lock_vector;;
  modify (λ s, set_vector (timer_vector s ++ [timer]) s);;
  unlock_vector.

Definition RemoveTimer (timer : Z) : prog state unit :=
  lock_vector;;
  modify (λ s, set_vector (erase_first timer (timer_vector s)) s);;
  unlock_vector.

(** A call through [csThreadTimer::GetInstance()]. *)
Definition with_instance (m : prog state unit) : prog state unit :=
  i ← gets instance;
  if (i =? NULL)%Z then stuck NullDeref else m.

(** ** [csTimer] *)

Definition Start (this : Z) : prog state unit :=
  lock_timer this;; timer_update this (set_running true);; unlock_timer this.
Definition Stop (this : Z) : prog state unit :=
  lock_timer this;; timer_update this (set_running false);; unlock_timer this.

Definition csTimer_new (this ident v i tgt : Z) : prog state unit :=
  modify (timer_put this (CsTimer false ident tgt v i MFree));;
  with_instance (AddTimer this).

Definition csTimer_delete (this : Z) : prog state unit :=
  Stop this;;
  with_instance (RemoveTimer this);;
  modify (λ s, set_timers (delete this (timers s)) s).

Definition SetValue (this v : Z) : prog state unit :=
  lock_timer this;; timer_update this (set_value v);; unlock_timer this.
Definition SetInterval (this i : Z) : prog state unit :=
  lock_timer this;; timer_update this (set_interval i);; unlock_timer this.
Definition Extend (this v : Z) : prog state unit :=
  lock_timer this;;
  t ← timer_get this;
  v' ← add_time (value t) v;
  timer_update this (set_value v');;
  unlock_timer this.
Definition GetInterval (this : Z) : prog state Z :=
  t ← timer_get this; mret (interval t).
Definition GetRemaining (this : Z) : prog state Z :=
  lock_timer this;; t ← timer_get this; unlock_timer this;; mret (value t).
Definition GetTarget (this : Z) : prog state Z :=
  t ← timer_get this; mret (target t).

(** ** [csThreadTimer] *)

(** The constructor, after [csThread()]; [timer_create] gives the error number
    of a failed [timer_create]. *)
Definition csThreadTimer_new (this : Z) (timer_create : option Z) : prog state unit :=
  i ← gets instance;
  if negb (i =? NULL)%Z then throw (csException_int_str EEXIST "csThreadTimer")
  else
    m ← gets vector_mutex;
    when (bool_decide (m = MNull))
      (modify (set_vector_mutex MFree);; modify (set_instance this));;
    match timer_create with
    | Some errno => throw (csException_int_str errno "timer_create")
    | None => mret tt
    end.

(** The destructor, after [Join()]. *)
Definition csThreadTimer_delete (this : Z) : prog state unit :=
  i ← gets instance;
  if negb (i =? this)%Z then mret tt
  else modify (set_vector_mutex MNull).

(** ** The tick *)

Context `{EventBus W}.

(** The local [target] of [Tick]. *)
Definition timer_target (parent : Z) (t : csTimer) : Z :=
  if (target t =? NULL)%Z then parent else target t.

(** The body of the loop of [Tick]; [this] is the timer thread. *)
Definition tick_timer (this parent p : Z) : prog state unit :=
  lock_timer p;;
  t ← timer_get p;
  when (running t)
    (v ← add_time (value t) (-1);
     timer_update p (set_value v);;
     when (v <=? 0)%Z
       (t ← timer_get p;
        zoom bus set_bus
          (bus_post this (timer_target parent t) (csEventTimer_new p));;
        timer_update p (λ t, set_value (interval t) t);;
        timer_update p (λ t, set_running (0 <? value t)%Z t)));;
  unlock_timer p.

Definition Tick (this parent : Z) : prog state unit :=
  lock_vector;;
  v ← gets timer_vector;
  foreach v (tick_timer this parent);;
  unlock_vector.
End timer.

#[global] Arguments timer_target : simpl never.

(** ** The thread (over the event clients of csevent.cpp) *)

(** What [sigtimedwait] gives: a signal number, or [errno]. *)
Inductive sig_result := SigArrived (sig : Z) | SigFailed (errno : Z).

(** [SIGRTMIN] of the C library, which uses the first two real-time signals. *)
Definition SIGRTMIN : Z := 34.

Definition quit_event : csEvent :=
  csEvent_new csEVENT_QUIT (Z.lor Sticky HighPriority).

Abbreviation on_bus m := (zoom bus set_bus m).

(** The event part of one iteration of [Entry]: whether the thread leaves. *)
Definition entry_event (this : Z) : prog (timer_state world) bool :=
  event ← on_bus (EventPop this);
  if (event =? CS_EVENT_NONE)%Z then mret false
  else
    e ← on_bus (ev_load event);
    on_bus (EventDestroy event);;
    mret (GetId e =? csEVENT_QUIT)%Z.

(** The signal part. *)
Definition entry_signal (this parent : Z) (r : sig_result) :
    prog (timer_state world) bool :=
  match r with
  | SigFailed errno =>
      if (errno =? EINTR)%Z || (errno =? EAGAIN)%Z then mret false
      else
        p ← on_bus (ev_new quit_event);
        on_bus (EventBroadcast this p);;
        mret true
  | SigArrived sig =>
      when (sig =? SIGRTMIN)%Z (Tick this parent);; mret false
  end.

(** [Entry] on the results of its successive [sigtimedwait] calls: [true]
    when it returned, [false] when it waits in the next call. *)
Fixpoint Entry (this parent : Z) (results : list sig_result) :
    prog (timer_state world) bool :=
  quit ← entry_event this;
  if (quit : bool) then mret true
  else match results with
  | [] => mret false
  | r :: results =>
      quit ← entry_signal this parent r;
      if (quit : bool) then mret true else Entry this parent results
  end.
