(* ===== verification/TimerProps.v ===== *)
(** * Timers: properties

    What a tick does to every timer and to every queue, how often a timer
    fires, the life of timers and the main loop of the timer thread. *)

From S2P Require Import Prelude Exception Event EventInv EventOps Bus EventProps Timer.

(** ** What a tick means for one timer *)

Definition due (t : csTimer) : bool := running t && (value t <=? 1)%Z.

Definition ticked (t : csTimer) : csTimer :=
  if negb (running t) then t
  else if (value t <=? 1)%Z
  then set_running (0 <? interval t)%Z (set_value (interval t) t)
  else set_value (value t - 1) t.

(** The event the target finds; a copy loses the timer. *)
Definition timer_event (this tgt p : Z) : csEvent :=
  CsEvent csEVENT_TIMER FlagNone this tgt NULL
    (if (tgt =? CS_EVENT_BROADCAST)%Z then EvPlain else EvTimer p).

Lemma posted_timer this tgt p :
  posted this tgt (csEventTimer_new p) = Some (timer_event this tgt p).
Proof. unfold posted, timer_event. by destruct (tgt =? CS_EVENT_BROADCAST)%Z eqn:E. Qed.

Lemma enqueue_timer this tgt p q :
  enqueue (timer_event this tgt p) q = q ++ [timer_event this tgt p].
Proof. done. Qed.

(** What the tick of the timer at [p] offers to client [c]. *)
Definition offered (this parent : Z) (ts : gmap Z csTimer) (c : Z)
    (v : bool * list csEvent) (p : Z) : bool * list csEvent :=
  match ts !! p with
  | Some t =>
      let tgt := timer_target parent t in
      if due t then deliver_if (reaches tgt c) (timer_event this tgt p) v else v
  | None => v
  end.

(** ** The state between operations *)

Section timer_ok.
Context {W : Type} `{EventBus W}.
Implicit Types s : timer_state W.

(** The least [time_t] is left out: a tick of a running timer decrements. *)
Definition in_time (z : Z) : Prop := (INT64_MIN < z ≤ INT64_MAX)%Z.

Definition timer_ok (t : csTimer) : Prop :=
  timer_mutex t = MFree ∧ in_time (interval t) ∧ in_time (value t).

Record timers_ok s : Prop := TimersOk {
  to_vector : vector_mutex s = MFree;
  to_nodup : NoDup (timer_vector s);
  to_live : ∀ p, p ∈ timer_vector s ↔ is_Some (timers s !! p);
  to_timer : ∀ p t, timers s !! p = Some t → timer_ok t;
  to_bus : bus_ok (bus s);
}.

Lemma ticked_ok t : timer_ok t → timer_ok (ticked t).
Proof.
  unfold timer_ok, ticked, in_time. intros (Hm & Hi & Hv).
  destruct (running t); cbn; [|done].
  destruct (value t <=? 1)%Z eqn:Hle; cbn; split_done; unfold INT64_MIN in *; lia.
Qed.

(** State and queues when the tick has handled the timers [done]. *)
Record tick_inv (this parent : Z) s (done : list Z) s' : Prop := TickInv {
  ti_bus : bus_ok (bus s');
  ti_views : ∀ c, bus_view (bus s') c =
    (λ v, foldl (offered this parent (timers s) c) v done) <$> bus_view (bus s) c;
  ti_timers : ∀ p, timers s' !! p =
    (if decide (p ∈ done) then ticked else id) <$> timers s !! p;
  ti_static : timer_vector s' = timer_vector s ∧ vector_mutex s' = MHeld ∧
    instance s' = instance s;
}.

Lemma add_time_dec t s :
  timer_ok t →
  add_time (E:=csException) (S:=timer_state W) (value t) (-1) s = Ok (value t - 1)%Z s.
Proof.
  intros (_ & _ & Hv). unfold in_time in *.
  by apply add_time_ok; lia.
Qed.

Lemma tick_timer_run this parent p t s :
  timers s !! p = Some t → timer_ok t → bus_ok (bus s) →
  is_Some (bus_view (bus s) this) →
  ∃ b, tick_timer this parent p s = Ok tt (set_bus b (timer_put p (ticked t) s)) ∧
    bus_ok b ∧ ∀ c, bus_view b c =
      (λ v, offered this parent (timers s) c v p) <$> bus_view (bus s) c.
Proof.
  intros Hp Hok Hbus Hthis. pose proof Hok as (Hm & _). unfold offered. rewrite Hp.
  unfold tick_timer, lock_timer, unlock_timer, timer_update, timer_get, mutex_lock,
    mutex_unlock, mbind, M_bind, modify, mret, M_ret, when, ticked, due.
  run_lookups. rewrite Hm. run_lookups.
  destruct t as [r i tgt v n m]; cbn in Hm, Hok; subst m. destruct r; run_lookups.
  2: { exists (bus s). unfold set_bus, timer_put, set_timers. cbn.
       rewrite !insert_insert_eq. split_done. intros c. by destruct (bus_view _ c). }
  rewrite (add_time_dec (CsTimer true i tgt v n MFree)) by done. run_lookups.
  destruct (v <=? 1)%Z eqn:Hle; [rewrite (proj2 (Z.leb_le (v - 1) 0)) by lia
    |rewrite (proj2 (Z.leb_gt (v - 1) 0)) by lia]; run_lookups.
  - unfold zoom; run_lookups.
    destruct (bus_post_spec (bus s) this _ (csEventTimer_new p) _ Hbus Hthis
      (posted_timer this (timer_target parent (CsTimer true i tgt v n MFree)) p))
      as (b & Hrun & Hb & Hv).
    change (timer_target parent (Timer.set_value _ _))
      with (timer_target parent (CsTimer true i tgt v n MFree)).
    rewrite Hrun. run_lookups.
    exists b. unfold set_bus, timer_put, set_timers; cbn.
    rewrite !insert_insert_eq. by split_done.
  - exists (bus s). unfold set_bus, timer_put, set_timers; cbn.
    rewrite !insert_insert_eq. split_done. intros c. by destruct (bus_view _ c).
Qed.

Lemma wp_Tick this parent s :
  timers_ok s → is_Some (bus_view (bus s) this) →
  wp (Tick this parent) (λ _ s', ∃ s1, s' = set_vector_mutex MFree s1 ∧
    tick_inv this parent s (timer_vector s) s1) nothrow s.
Proof.
  intros Hs Hthis. pose proof Hs as [Hvm Hnd Hlive Ht Hbus].
  unfold Tick, lock_vector, unlock_vector. wp_steps. split; [done|].
  eapply wp_conseq; [apply (wp_foreach (tick_inv this parent s))|].
  - split; cbn; try done. intros c. by destruct (bus_view _ c).
    intros p. case_decide; [by apply elem_of_nil in H0|]. by destruct (timers s !! p).
  - intros done p rest s' Hvec [Hb Hv Htm Hst]. cbn in Hvec.
    assert (p ∉ done) as Hp.
    { rewrite Hvec in Hnd. apply NoDup_app in Hnd as (_ & Hd & _).
      intros Hin. apply (Hd p Hin). set_solver. }
    destruct (proj1 (Hlive p)) as [t Htp]; [rewrite Hvec; set_solver|].
    assert (timers s' !! p = Some t) as Htp' by by rewrite Htm, decide_False, Htp.
    destruct (tick_timer_run this parent p t s') as (b & Hrun & Hb' & Hv'); try done.
    { by apply (Ht p). } { by rewrite Hv, fmap_is_Some. }
    eapply wp_ok; [done|]. split; [done| | |done].
    + intros c. cbn. rewrite Hv', Hv, <-option_fmap_compose. 
      apply option_fmap_ext. intros v. cbn. rewrite foldl_app. cbn.
      unfold offered at 1 3. by rewrite Htp, Htp'.
    + intros q. cbn. destruct (decide (q = p)) as [->|Hqp].
      * rewrite lookup_insert_eq, decide_True, Htp; [done|set_solver].
      * rewrite lookup_insert_ne, Htm by done. by repeat case_decide; set_solver.
  - intros [] s' Hinv. wp_steps. split; [apply Hinv|]. by exists s'.
Qed.

Lemma tick_inv_ok this parent s s1 :
  timers_ok s → tick_inv this parent s (timer_vector s) s1 →
  timers_ok (set_vector_mutex MFree s1).
Proof.
  intros [Hvm Hnd Hlive Ht Hbus] [Hb Hv Htm (Hvec & Hmx & Hi)]. split; cbn; try done.
  - by rewrite Hvec.
  - intros p. by rewrite Hvec, Htm, fmap_is_Some.
  - intros p t. rewrite Htm. intros (t0 & Ht0 & ->)%fmap_Some.
    case_decide; [apply ticked_ok|]; by apply (Ht p).
Qed.

Lemma Tick_run this parent s :
  timers_ok s → is_Some (bus_view (bus s) this) →
  ∃ s1, Tick this parent s = Ok tt (set_vector_mutex MFree s1) ∧
    timers_ok (set_vector_mutex MFree s1) ∧
    tick_inv this parent s (timer_vector s) s1.
Proof.
  intros Hs Hthis. destruct (wp_inv _ _ _ (wp_Tick this parent s Hs Hthis))
    as ([] & s' & Hrun & s1 & -> & Hinv).
  exists s1. split_done. by apply (tick_inv_ok this parent s).
Qed.
End timer_ok.

(** ** The tick *)

Lemma offered_registered this parent ts c v l :
  (foldl (offered this parent ts c) v l).1 = v.1.
Proof.
  revert v. induction l as [|p l IH]; intros v; cbn; [done|]. rewrite IH.
  unfold offered, deliver_if, deliver.
  destruct (ts !! p) as [t|]; [|done]. destruct (due t); [|done].
  destruct (reaches _ c); [|done]. by destruct v as [[] q].
Qed.

(** C5. A tick of the timer thread returns for every state of the timers and
    the bus; it takes each timer of the vector one second further, leaves the
    other timers alone, and every client finds in its queue the events of the
    due timers that address it, in vector order, and nothing else. *)
Theorem Tick_refines {W : Type} `{EventBus W} (this parent : Z) (s : timer_state W) :
  timers_ok s → is_Some (bus_view (bus s) this) →
  ∃ s', Tick this parent s = Ok tt s' ∧ timers_ok s' ∧
    timer_vector s' = timer_vector s ∧ instance s' = instance s ∧
    (∀ p, timers s' !! p =
      (if decide (p ∈ timer_vector s) then ticked else id) <$> timers s !! p) ∧
    ∀ c, bus_view (bus s') c =
      (λ v, foldl (offered this parent (timers s) c) v (timer_vector s))
        <$> bus_view (bus s) c.
Proof.
  intros Hs Hthis. destruct (Tick_run this parent s Hs Hthis) as (s1 & Hrun & Hok & Hinv).
  destruct Hinv as [Hb Hv Htm (Hvec & Hmx & Hi)]. eexists. by split_done.
Qed.

(** ** Firing *)

Section fires.
Context {W : Type} `{EventBus W}.

(** Events of the timer at [p]. *)
Definition is_timer_event (p : Z) (e : csEvent) : bool :=
  match ev_class e with EvTimer q => (q =? p)%Z | _ => false end.
Definition timer_events (p : Z) (q : list csEvent) : nat :=
  length (filter (λ e, is_timer_event p e = true) q).

#[global] Arguments timer_events : simpl never.

Lemma timer_events_app p q1 q2 :
  timer_events p (q1 ++ q2) = timer_events p q1 + timer_events p q2.
Proof. unfold timer_events. by rewrite filter_app, length_app. Qed.

(** Whether a tick of [q] puts an event of [p] into the queue of [c]. *)
Definition hits (parent : Z) (ts : gmap Z csTimer) (c p q : Z) : bool :=
  bool_decide (q = p) &&
  match ts !! p with
  | Some t => due t && (timer_target parent t =? c)%Z
  | None => false
  end.

Lemma offered_counts this parent ts c p v q :
  v.1 = true → c ≠ CS_EVENT_BROADCAST →
  timer_events p (offered this parent ts c v q).2 =
    timer_events p v.2 + if hits parent ts c p q then 1 else 0.
Proof.
  intros Hv Hc. unfold offered, hits. destruct (decide (q = p)) as [->|Hqp].
  - rewrite bool_decide_eq_true_2 by done. cbn.
    destruct (ts !! p) as [t|]; [|lia]. destruct (due t); [|cbn; lia]. cbn.
    unfold reaches, deliver_if.
    destruct (timer_target parent t =? CS_EVENT_BROADCAST)%Z eqn:Hb; cbn.
    + apply Z.eqb_eq in Hb. rewrite (proj2 (Z.eqb_neq _ c)) by congruence.
      unfold deliver. rewrite Hv. cbn. rewrite enqueue_timer, timer_events_app, Hb. done.
    + destruct (timer_target parent t =? c)%Z eqn:Htc; [|cbn; lia].
      unfold deliver. rewrite Hv. cbn. rewrite enqueue_timer, timer_events_app.
      unfold timer_events at 2, timer_event, is_timer_event. rewrite Hb. cbn.
      by rewrite decide_True by apply Z.eqb_refl.
  - rewrite bool_decide_eq_false_2 by done. cbn.
    destruct (ts !! q) as [t|]; [|lia]. destruct (due t); [|lia].
    unfold deliver_if, deliver. destruct (reaches _ c); [|cbn; lia]. rewrite Hv. cbn.
    rewrite enqueue_timer, timer_events_app.
    unfold timer_events at 2, timer_event, is_timer_event. cbn.
    destruct (timer_target parent t =? CS_EVENT_BROADCAST)%Z; cbn; [done|].
    by rewrite decide_False by by rewrite Z.eqb_eq.
Qed.

Lemma offers_count this parent ts c p v l :
  v.1 = true → c ≠ CS_EVENT_BROADCAST → NoDup l → p ∈ l →
  timer_events p (foldl (offered this parent ts c) v l).2 =
    timer_events p v.2 + if hits parent ts c p p then 1 else 0.
Proof.
  intros Hv Hc Hnd Hp.
  enough (∀ v, v.1 = true → timer_events p (foldl (offered this parent ts c) v l).2 =
    timer_events p v.2 + if decide (p ∈ l) then if hits parent ts c p p then 1 else 0
                         else 0) as Hgen.
  { rewrite Hgen by done. by rewrite decide_True. }
  clear v Hv Hp. induction Hnd as [|q l Hq Hnd IH]; intros v Hv.
  { rewrite decide_False by set_solver. cbn. lia. }
  cbn. pose proof (offered_registered this parent ts c v [q]) as Hreg. cbn in Hreg.
  rewrite IH, offered_counts by (try done; by rewrite Hreg).
  destruct (decide (q = p)) as [->|Hqp].
  - rewrite (decide_False (P:=p ∈ l)), (decide_True (P:=p ∈ p :: l)) by set_solver. lia.
  - unfold hits at 1. rewrite bool_decide_eq_false_2 by done. cbn.
    repeat case_decide; set_solver by lia.
Qed.

Fixpoint Ticks (n : nat) (this parent : Z) : prog (timer_state W) unit :=
  match n with
  | 0 => mret tt
  | S n => Tick this parent;; Ticks n this parent
  end.

(** How often a running timer fires in [n] ticks. *)
Definition fires_by (n v i : Z) : Z :=
  if (n <? Z.max 1 v)%Z then 0
  else if (i <=? 0)%Z then 1
  else 1 + (n - Z.max 1 v) `div` i.

Fixpoint fires (n : nat) (t : csTimer) : nat :=
  match n with
  | 0 => 0
  | S n => (if due t then 1 else 0) + fires n (ticked t)
  end.

Lemma fires_stopped n t : running t = false → fires n t = 0.
Proof.
  induction n as [|n IH]; intros Ht; cbn; [done|].
  unfold due, ticked. rewrite Ht. cbn. by apply IH.
Qed.

Lemma fires_closed n t :
  running t = true → Z.of_nat (fires n t) = fires_by (Z.of_nat n) (value t) (interval t).
Proof.
  revert t. induction n as [|n IH]; intros t Ht.
  { cbn. unfold fires_by. rewrite (proj2 (Z.ltb_lt _ _)) by lia. done. }
  cbn. unfold due. rewrite Ht. cbn. destruct (value t <=? 1)%Z eqn:Hv.
  - assert (ticked t = set_running (0 <? interval t)%Z (set_value (interval t) t)) as Htk.
    { unfold ticked. by rewrite Ht, Hv. }
    apply Z.leb_le in Hv. unfold fires_by. rewrite Z.max_l by lia.
    rewrite (proj2 (Z.ltb_ge _ _)) by lia. destruct (interval t <=? 0)%Z eqn:Hi.
    + rewrite fires_stopped; [done|]. rewrite Htk. cbn. apply Z.leb_le in Hi.
      by apply Z.ltb_ge.
    + apply Z.leb_gt in Hi. rewrite Nat2Z.inj_add, IH, Htk by
        (rewrite Htk; by apply Z.ltb_lt). cbn.
      unfold fires_by. rewrite Z.max_r by lia.
      rewrite (proj2 (Z.leb_gt _ _)) by lia. case_match eqn:Hn.
      * apply Z.ltb_lt in Hn. rewrite Z.div_small by lia. done.
      * apply Z.ltb_ge in Hn.
        replace (Z.of_nat (S n) - 1)%Z with (Z.of_nat n - interval t + 1 * interval t)%Z by lia.
        rewrite Z.div_add by lia. lia.
  - assert (ticked t = set_value (value t - 1) t) as Htk.
    { unfold ticked. by rewrite Ht, Hv. }
    rewrite Nat.add_0_l, IH by (by rewrite Htk). rewrite Htk. cbn. apply Z.leb_gt in Hv.
    unfold fires_by. rewrite !Z.max_r by lia.
    replace (Z.of_nat (S n) - value t)%Z with (Z.of_nat n - (value t - 1))%Z by lia.
    repeat case_match; rewrite ?Z.ltb_lt, ?Z.ltb_ge in *; lia.
Qed.
End fires.

Lemma Ticks_count {W : Type} `{EventBus W} n (this parent : Z) (s : timer_state W) p t c q :
  timers_ok s → is_Some (bus_view (bus s) this) →
  p ∈ timer_vector s → timers s !! p = Some t →
  timer_target parent t = c → c ≠ CS_EVENT_BROADCAST →
  bus_view (bus s) c = Some (true, q) →
  ∃ s' q', Ticks n this parent s = Ok tt s' ∧
    bus_view (bus s') c = Some (true, q') ∧
    timer_events p q' = timer_events p q + fires n t.
Proof.
  revert s t q. induction n as [|n IH]; intros s t q Hs Hthis Hp Ht Htgt Hc Hq.
  { exists s, q. by rewrite Nat.add_0_r. }
  destruct (Tick_run this parent s Hs Hthis)
    as (s1' & Hrun & Hs1 & [_ Hv Htm (Hvec & _ & _)]).
  set (ts := timers s) in *.
  destruct (foldl (offered this parent ts c) (true, q) (timer_vector s)) as [b q1] eqn:Hf.
  assert (b = true) as ->.
  { pose proof (offered_registered this parent ts c (true, q) (timer_vector s)) as Hr.
    by rewrite Hf in Hr. }
  destruct (IH (set_vector_mutex MFree s1') (ticked t) q1) as (s' & q' & Hruns & Hq' & Hcnt); try done; cbn.
  - by rewrite Hv, fmap_is_Some.
  - by rewrite Hvec.
  - rewrite Htm, decide_True by done. fold ts. by rewrite Ht.
  - rewrite <-Htgt. unfold ticked. by repeat case_match.
  - by rewrite Hv, Hq, <-Hf.
  - exists s', q'. split_done. { cbn. unfold mbind, M_bind. by rewrite Hrun. }
    rewrite Hcnt. pose proof (offers_count this parent ts c p (true, q) (timer_vector s)
      eq_refl Hc (to_nodup s Hs) Hp) as Hoc.
    rewrite Hf in Hoc. cbn in Hoc. rewrite Hoc. unfold hits. rewrite Ht, Htgt.
    rewrite bool_decide_eq_true_2, Z.eqb_refl, andb_true_r by done. cbn. lia.
Qed.

(** C21. In [n] ticks a running timer with value [v] and interval [i] puts
    exactly [fires_by n v i] events into the queue of its target: none in the
    first [max 1 v - 1] ticks, then one, then one every [i] ticks for a
    positive interval and no more for another. *)
Theorem timer_fires {W : Type} `{EventBus W} n (this parent : Z)
    (s : timer_state W) p t c q :
  timers_ok s → is_Some (bus_view (bus s) this) →
  p ∈ timer_vector s → timers s !! p = Some t → running t = true →
  timer_target parent t = c → c ≠ CS_EVENT_BROADCAST →
  bus_view (bus s) c = Some (true, q) →
  ∃ s' q', Ticks n this parent s = Ok tt s' ∧
    bus_view (bus s') c = Some (true, q') ∧
    Z.of_nat (timer_events p q') =
      (Z.of_nat (timer_events p q) + fires_by (Z.of_nat n) (value t) (interval t))%Z.
Proof.
  intros Hs Hthis Hp Ht Hr Htgt Hc Hq.
  destruct (Ticks_count n this parent s p t c q) as (s' & q' & Hrun & Hq' & Hcnt);
    try done.
  exists s', q'. split_done. by rewrite Hcnt, Nat2Z.inj_add, fires_closed.
Qed.

(** *** A timer thread at 100, its parent at 200 and two timers *)

Definition timer_a : csTimer := CsTimer true 7 NULL 2 3 MFree.
Definition timer_b : csTimer := CsTimer true 8 CS_EVENT_BROADCAST 1 0 MFree.
Definition sample_timers : timer_state world :=
  TimerState sample0 {[ 500%Z := timer_a; 600%Z := timer_b ]} [500; 600]%Z MFree 100.

Lemma sample_timers_ok : timers_ok sample_timers.
Proof.
  split; try done; cbn.
  - repeat constructor; set_solver.
  - intros p. rewrite lookup_insert_is_Some', lookup_singleton_is_Some. set_solver.
  - intros p t. rewrite lookup_insert_Some, lookup_singleton_Some.
    unfold timer_ok, in_time, INT64_MIN, INT64_MAX. intros [[<- <-]|[? [<- <-]]]; cbn;
      split_done; intros; try lia.
  - exists ∅. apply sample0_wf.
Qed.

Lemma Tick_refines_witness :
  ∃ s', Tick 100 200 sample_timers = Ok tt s' ∧
    timers s' !! 500%Z = Some (Timer.set_value 1 timer_a) ∧
    timers s' !! 600%Z = Some (set_running false (Timer.set_value 0 timer_b)) ∧
    bus_view (bus s') 200%Z =
      Some (true, [CsEvent csEVENT_TIMER FlagNone 100 CS_EVENT_BROADCAST NULL EvPlain]).
Proof.
  destruct (Tick_refines 100 200 sample_timers sample_timers_ok)
    as (s' & Hrun & _ & _ & _ & Ht & Hv); [by eexists|].
  exists s'. split; [done|]. by rewrite !Ht, Hv.
Defined.

Lemma timer_fires_witness :
  ∃ s' q', Ticks 9 100 200 sample_timers = Ok tt s' ∧
    bus_view (bus s') 200%Z = Some (true, q') ∧
    Z.of_nat (timer_events 500 q') = 3%Z.
Proof.
  apply (timer_fires 9 100 200 sample_timers 500 timer_a 200 []); try done.
  - apply sample_timers_ok.
  - set_solver.
Defined.

(** ** The life of timers *)

Section life.
Context {W : Type} `{EventBus W}.
Implicit Types s : timer_state W.

Lemma timer_update_locked (f : csTimer → csTimer) s p t :
  timers s !! p = Some t → timer_mutex t = MFree →
  (∀ m t, f (set_timer_mutex m t) = set_timer_mutex m (f t)) →
  (lock_timer p;; timer_update p f;; unlock_timer p) s =
    Ok tt (timer_put p (f t) s).
Proof.
  intros Hp Hm Hf.
  unfold lock_timer, unlock_timer, timer_update, timer_get, mutex_lock,
    mutex_unlock, mbind, M_bind, modify.
  run_lookups. rewrite Hm. run_lookups. rewrite Hf. cbn. run_lookups.
  unfold timer_put, set_timers. cbn. rewrite !insert_insert_eq.
  assert (set_timer_mutex MFree (set_timer_mutex MHeld (f t)) = f t) as Hfr.
  { rewrite <-!Hf. by destruct t; cbn in *; subst. }
  exact (f_equal (λ x, Ok tt (timer_put p x s)) Hfr).
Qed.

Lemma AddTimer_run s p :
  vector_mutex s = MFree →
  AddTimer p s = Ok tt (set_vector (timer_vector s ++ [p]) s).
Proof. destruct s. by intros [= ->]. Qed.

Lemma RemoveTimer_run s p :
  vector_mutex s = MFree →
  RemoveTimer p s = Ok tt (set_vector (erase_first p (timer_vector s)) s).
Proof. destruct s. by intros [= ->]. Qed.

Lemma with_instance_run s m :
  instance s ≠ NULL → with_instance m s = m s.
Proof.
  intros Hi. unfold with_instance, mbind, M_bind, gets.
  by rewrite (proj2 (Z.eqb_neq _ _)).
Qed.

Lemma csTimer_new_run s p id v i tgt :
  timers_ok s → instance s ≠ NULL →
  csTimer_new p id v i tgt s =
    Ok tt (set_vector (timer_vector s ++ [p])
      (timer_put p (CsTimer false id tgt v i MFree) s)).
Proof.
  intros Hs Hi. unfold csTimer_new, mbind, M_bind, modify.
  rewrite with_instance_run by done. apply (AddTimer_run (timer_put _ _ s)), Hs.
Qed.

Lemma csTimer_delete_run s p t :
  timers_ok s → instance s ≠ NULL → timers s !! p = Some t →
  csTimer_delete p s =
    Ok tt (set_vector (erase_first p (timer_vector s))
      (set_timers (delete p (timers s)) s)).
Proof.
  intros Hs Hi Hp. unfold csTimer_delete, Stop, mbind at 1, M_bind at 1.
  rewrite (timer_update_locked (set_running false) s p t Hp)
    by (try done; by apply (to_timer s Hs p)).
  unfold mbind, M_bind, modify. rewrite with_instance_run by done.
  rewrite RemoveTimer_run by apply Hs. unfold set_timers; cbn. by rewrite delete_insert_eq.
Qed.

Lemma timer_put_ok s p t0 t :
  timers_ok s → timers s !! p = Some t0 → timer_ok t → timers_ok (timer_put p t s).
Proof.
  intros [Hvm Hnd Hlive Ht Hbus] Hp Hok. split; cbn; try done.
  - intros q. rewrite Hlive, lookup_insert_is_Some'. split; [by right|].
    intros [<-|?]; [by eexists|done].
  - intros q t'. rewrite lookup_insert_Some. intros [[<- <-]|[_ ?]]; [done|by apply (Ht q)].
Qed.

Lemma timer_new_ok s p id v i tgt :
  timers_ok s → timers s !! p = None → in_time v → in_time i →
  timers_ok (set_vector (timer_vector s ++ [p])
      (timer_put p (CsTimer false id tgt v i MFree) s)).
Proof.
  intros [Hvm Hnd Hlive Ht Hbus] Hp Hv Hi. split; cbn; try done.
  - apply NoDup_app. split_done; [|by apply NoDup_singleton].
    intros q Hq. apply Hlive in Hq. rewrite list_elem_of_singleton. intros ->.
    rewrite Hp in Hq. by destruct Hq.
  - intros q. rewrite elem_of_app, list_elem_of_singleton, Hlive, lookup_insert_is_Some'.
    naive_solver.
  - intros q t'. rewrite lookup_insert_Some. intros [[<- <-]|[_ ?]]; [done|by apply (Ht q)].
Qed.

Lemma timer_delete_ok s p :
  timers_ok s →
  timers_ok (set_vector (erase_first p (timer_vector s))
      (set_timers (delete p (timers s)) s)).
Proof.
  intros [Hvm Hnd Hlive Ht Hbus].
  destruct (erase_first_elem p _ Hnd) as [Hnd' Hmem]. split; cbn; try done.
  - intros q. rewrite Hmem, Hlive, lookup_delete_is_Some. naive_solver.
  - intros q t [_ Hq]%lookup_delete_Some. by apply (Ht q).
Qed.

(** What programs do with timers while the timer thread ([this], for the
    parent [parent]) runs. *)
Inductive timer_step (this parent : Z) : timer_state W → timer_state W → Prop :=
  | timer_create s p id v i tgt s' :
      timers s !! p = None → in_time v → in_time i →
      csTimer_new p id v i tgt s = Ok tt s' → timer_step this parent s s'
  | timer_delete s p s' :
      is_Some (timers s !! p) → csTimer_delete p s = Ok tt s' →
      timer_step this parent s s'
  | timer_start s p s' : Start p s = Ok tt s' → timer_step this parent s s'
  | timer_stop s p s' : Stop p s = Ok tt s' → timer_step this parent s s'
  | timer_set_value s p v s' :
      in_time v → Timer.SetValue p v s = Ok tt s' → timer_step this parent s s'
  | timer_set_interval s p i s' :
      in_time i → SetInterval p i s = Ok tt s' → timer_step this parent s s'
  | timer_extend s p t v s' :
      timers s !! p = Some t → in_time (value t + v) →
      Extend p v s = Ok tt s' → timer_step this parent s s'
  | timer_tick s s' : Tick this parent s = Ok tt s' → timer_step this parent s s'
  | timer_bus s b :
      bus_ok b → is_Some (bus_view b this) → timer_step this parent s (set_bus b s).

(** The state while the thread at [this] runs. *)
Definition serving (this : Z) s : Prop :=
  timers_ok s ∧ instance s ≠ NULL ∧ is_Some (bus_view (bus s) this).

Lemma locked_dead {A} (m : prog (timer_state W) A) s p a s' :
  (lock_timer p;; m) s = Ok a s' → is_Some (timers s !! p).
Proof.
  unfold lock_timer, timer_get, mbind, M_bind. by destruct (timers s !! p); eauto.
Qed.

(** A locked update of a live timer to another good value. *)
Lemma update_serving this (f : csTimer → csTimer) s p s' :
  serving this s → (∀ m t, f (set_timer_mutex m t) = set_timer_mutex m (f t)) →
  (∀ t, timer_ok t → timer_ok (f t)) →
  (lock_timer p;; timer_update p f;; unlock_timer p) s = Ok tt s' → serving this s'.
Proof.
  intros (Hs & Hi & Hthis) Hf Hok Hrun. destruct (locked_dead _ _ _ _ _ Hrun) as [t Ht].
  pose proof (to_timer s Hs p t Ht) as Htk.
  rewrite (timer_update_locked f s p t) in Hrun by (try done; apply Htk).
  simplify_eq. unfold serving; split_done. apply (timer_put_ok s p t); auto.
Qed.

Lemma Extend_run s p t v :
  timers s !! p = Some t → timer_mutex t = MFree → (INT64_MIN ≤ value t + v ≤ INT64_MAX)%Z →
  Extend p v s = Ok tt (timer_put p (set_value (value t + v) t) s).
Proof.
  intros Hp Hm [Hlo Hhi].
  unfold Extend, lock_timer, unlock_timer, timer_update, timer_get, mutex_lock,
    mutex_unlock, mbind, M_bind, modify, add_time.
  run_lookups. rewrite Hm. run_lookups.
  rewrite (proj2 (Z.leb_le _ _)), (proj2 (Z.leb_le _ _)) by lia. run_lookups.
  unfold timer_put, set_timers. cbn. rewrite !insert_insert_eq.
  by destruct t; cbn in *; subst.
Qed.

Lemma Extend_overflow s p t v :
  timers s !! p = Some t → timer_mutex t = MFree → ¬ (INT64_MIN ≤ value t + v ≤ INT64_MAX)%Z →
  Extend p v s = Stuck SignedOverflow.
Proof.
  intros Hp Hm Hout.
  unfold Extend, lock_timer, timer_get, mutex_lock, mbind, M_bind, add_time.
  run_lookups. rewrite Hm. run_lookups.
  destruct (Z.leb_spec INT64_MIN (value t + v)), (Z.leb_spec (value t + v) INT64_MAX); try done.
  lia.
Qed.

Lemma GetRemaining_run s p t :
  timers s !! p = Some t → timer_mutex t = MFree → GetRemaining p s = Ok (value t) s.
Proof.
  intros Hp Hm. unfold GetRemaining, lock_timer, unlock_timer, timer_get, mutex_lock,
    mutex_unlock, mbind, M_bind. run_lookups. rewrite Hm. run_lookups.
  unfold timer_put, set_timers. cbn. rewrite insert_insert_eq.
  replace (set_timer_mutex MFree (set_timer_mutex MHeld t)) with t by (destruct t; cbn in *; by subst).
  rewrite insert_id by done. by destruct s.
Qed.

Lemma timer_step_serving this parent s s' :
  timer_step this parent s s' → serving this s → serving this s'.
Proof.
  intros Hstep Hsrv. pose proof Hsrv as (Hs & Hi & Hthis).
  destruct Hstep as [s p id v i tgt s' Hp Hv Hin Hrun|s p s' [t Hp] Hrun|s p s' Hrun|s p s' Hrun
    |s p v s' Hv Hrun|s p i s' Hin Hrun|s p t v s' Hp Hv Hrun|s s' Hrun|s b Hb Hr].
  - rewrite csTimer_new_run in Hrun by done. simplify_eq. unfold serving; split_done.
    by apply timer_new_ok.
  - rewrite (csTimer_delete_run s p t) in Hrun by done. simplify_eq. unfold serving; split_done.
    by apply timer_delete_ok.
  - by apply (update_serving this (set_running true) s p).
  - by apply (update_serving this (set_running false) s p).
  - apply (update_serving this (set_value v) s p); try done. by intros t (? & ? & _).
  - apply (update_serving this (set_interval i) s p); try done. by intros t (? & _ & ?).
  - pose proof (to_timer s Hs p t Hp) as (Hm & Hit & Hvt).
    rewrite (Extend_run s p t) in Hrun by (try done; destruct Hv; lia). simplify_eq. unfold serving; split_done.
    by apply (timer_put_ok s p t).
  - destruct (Tick_run this parent s Hs Hthis) as (s1 & Hrun' & Hok & Hinv).
    rewrite Hrun' in Hrun. simplify_eq. destruct Hinv as [_ Hv _ (_ & _ & Hinst)].
    unfold serving; split_done; cbn; [by rewrite Hinst|by rewrite Hv, fmap_is_Some].
  - unfold serving; split_done. destruct Hs as [????]. by split.
Qed.
(** Every call returns, with exactly the effect it has on its timer and on the
    vector; only an extension whose sum leaves the range of [time_t] is
    undefined. *)
Record usable s : Prop := Usable {
  us_new : ∀ p id v i tgt, timers s !! p = None →
    csTimer_new p id v i tgt s = Ok tt
      (set_vector (timer_vector s ++ [p]) (timer_put p (CsTimer false id tgt v i MFree) s));
  us_delete : ∀ p, is_Some (timers s !! p) →
    ∃ s', csTimer_delete p s = Ok tt s' ∧ timers s' = delete p (timers s) ∧ bus s' = bus s ∧
      ∀ q, q ∈ timer_vector s' ↔ q ≠ p ∧ q ∈ timer_vector s;
  us_start : ∀ p t, timers s !! p = Some t → Start p s = Ok tt (timer_put p (set_running true t) s);
  us_stop : ∀ p t, timers s !! p = Some t → Stop p s = Ok tt (timer_put p (set_running false t) s);
  us_value : ∀ p t v, timers s !! p = Some t →
    Timer.SetValue p v s = Ok tt (timer_put p (Timer.set_value v t) s);
  us_interval : ∀ p t i, timers s !! p = Some t →
    SetInterval p i s = Ok tt (timer_put p (set_interval i t) s);
  us_extend : ∀ p t v, timers s !! p = Some t → (INT64_MIN ≤ value t + v ≤ INT64_MAX)%Z →
    Extend p v s = Ok tt (timer_put p (Timer.set_value (value t + v) t) s);
  us_overflow : ∀ p t v, timers s !! p = Some t → ¬ (INT64_MIN ≤ value t + v ≤ INT64_MAX)%Z →
    Extend p v s = Stuck SignedOverflow;
  us_remaining : ∀ p t, timers s !! p = Some t → GetRemaining p s = Ok (value t) s;
  us_read : ∀ p t, timers s !! p = Some t →
    GetInterval p s = Ok (interval t) s ∧ Timer.GetTarget p s = Ok (target t) s;
}.

Lemma serving_usable this s : serving this s → usable s.
Proof.
  intros (Hs & Hi & _).
  assert (∀ p t, timers s !! p = Some t → timer_mutex t = MFree) as Hm.
  { intros p t Hp. apply (to_timer s Hs p t Hp). }
  split.
  - intros. by apply csTimer_new_run.
  - intros p [t Hp]. rewrite (csTimer_delete_run s p t) by done. eexists. split_done.
    apply (erase_first_elem p _ (to_nodup s Hs)).
  - intros p t Hp. apply (timer_update_locked _ s p t Hp); [by apply (Hm p)|done].
  - intros p t Hp. apply (timer_update_locked _ s p t Hp); [by apply (Hm p)|done].
  - intros p t v Hp. apply (timer_update_locked _ s p t Hp); [by apply (Hm p)|done].
  - intros p t i Hp. apply (timer_update_locked _ s p t Hp); [by apply (Hm p)|done].
  - intros p t v Hp Hv. by apply Extend_run; [|apply (Hm p)|].
  - intros p t v Hp Hv. by apply (Extend_overflow s p t); [|apply (Hm p)|].
  - intros p t Hp. by apply GetRemaining_run; [|apply (Hm p)].
  - intros p t Hp. unfold GetInterval, Timer.GetTarget, timer_get, mbind, M_bind. by rewrite Hp.
Qed.
End life.

(** C22. However timers are created, started, changed, extended, deleted and
    ticked while the timer thread runs, the state stays well formed: the vector
    lists each live timer once and every mutex is free.  So the next tick
    returns, and so does every other call: a new timer joins the vector, and
    each operation on a live timer changes that timer alone, in the way its
    name says; the one exception is an extension whose sum overflows [time_t],
    which is undefined. *)
Theorem timer_protocol_safe {W : Type} `{EventBus W} (this parent : Z)
    (s s' : timer_state W) :
  serving this s → rtc (timer_step this parent) s s' →
  serving this s' ∧ (∃ s2, Tick this parent s' = Ok tt s2) ∧ usable s'.
Proof.
  intros Hsrv Hsteps.
  assert (serving this s') as Hsrv'.
  { induction Hsteps as [|s1 s2 s3 Hstep _ IH]; [done|].
    by apply IH, (timer_step_serving this parent s1). }
  split; [done|]. split; [|by apply (serving_usable this)].
  destruct Hsrv' as (Hs & _ & Hthis).
  destruct (Tick_run this parent s' Hs Hthis) as (s1 & Hrun & _). by eexists.
Qed.

Lemma timer_protocol_safe_witness :
  ∃ s', csTimer_new 700 9 5 5 NULL sample_timers = Ok tt s' ∧
    (∃ s2, Tick 100 200 s' = Ok tt s2) ∧ (∃ s2, csTimer_delete 700 s' = Ok tt s2) ∧
    (∃ s2, Extend 700 60 s' = Ok tt s2) ∧ Extend 700 INT64_MAX s' = Stuck SignedOverflow ∧
    ∃ s2, csTimer_new 800 10 1 0 NULL s' = Ok tt s2.
Proof.
  assert (serving 100 sample_timers) as Hsrv.
  { split; [apply sample_timers_ok|]. split; [done|by eexists]. }
  eexists. split; [reflexivity|].
  edestruct (timer_protocol_safe 100 200 sample_timers) as (_ & Htick & Hu); [done| |].
  { apply rtc_once. by eapply (timer_create 100 200 sample_timers 700 9 5 5 NULL). }
  assert (∃ s2, Tick 100 200 (set_vector (timer_vector sample_timers ++ [700%Z])
    (timer_put 700 (CsTimer false 9 NULL 5 5 MFree) sample_timers)) = Ok tt s2) as Ht by exact Htick.
  split; [exact Ht|]. split; [|split; [|split]].
  - destruct (us_delete _ Hu 700%Z) as (s2 & Hdel & _); [by eexists|]. by exists s2.
  - eexists. apply (us_extend _ Hu 700%Z (CsTimer false 9 NULL 5 5 MFree) 60%Z); [reflexivity|].
    cbn. unfold INT64_MIN, INT64_MAX. lia.
  - apply (us_overflow _ Hu 700%Z (CsTimer false 9 NULL 5 5 MFree)); [reflexivity|].
    cbn. unfold INT64_MIN, INT64_MAX. lia.
  - eexists. by apply (us_new _ Hu).
Defined.

(** ** The main loop of the thread *)

Definition continues (r : sig_result) : Prop :=
  match r with
  | SigArrived _ => True
  | SigFailed errno => errno = EINTR ∨ errno = EAGAIN
  end.

Implicit Types s : timer_state world.

Lemma entry_event_empty this s H b :
  wf (bus s) H → view (bus s) this = Some (b, []) → entry_event this s = Ok false s.
Proof.
  intros Hwf Hv. pose proof (EventPop_result _ H this b [] Hwf Hv) as Hpop. cbn in Hpop.
  unfold entry_event, mbind, M_bind, zoom. rewrite Hpop. by destruct s.
Qed.

Lemma entry_event_run this s H b e q :
  wf (bus s) H → view (bus s) this = Some (b, e :: q) → receivable e →
  ∃ w, entry_event this s = Ok (GetId e =? csEVENT_QUIT)%Z (set_bus w s) ∧ wf w H ∧
    ∀ x, view w x = if decide (x = this)
                    then Some (b, if IsSticky e then e :: q else q) else view (bus s) x.
Proof.
  intros Hwf Hv He. destruct (pop_destroy_run _ H this b e q Hwf Hv He)
    as (r & w1 & e1 & w2 & Hpop & Hr & Hr1 & Hid & _ & _ & Hdel & Hwf2 & Hv2).
  exists w2. split_done. unfold entry_event, mbind, M_bind, zoom. rewrite Hpop. cbn.
  rewrite (proj2 (Z.eqb_neq _ _)) by done. unfold ev_load. cbn. rewrite Hr1. cbn.
  by rewrite Hdel, Hid.
Qed.

Lemma offers_append this parent ts c b q l :
  ∃ q', foldl (offered this parent ts c) (b, q) l = (b, q ++ q').
Proof.
  revert q. induction l as [|p l IH]; intros q; cbn.
  { exists []. by rewrite app_nil_r. }
  assert (∃ q', offered this parent ts c (b, q) p = (b, q ++ q')) as (q1 & ->).
  { unfold offered. destruct (ts !! p) as [t|]; [|by exists []; rewrite app_nil_r].
    destruct (due t); [|by exists []; rewrite app_nil_r].
    unfold deliver_if, deliver. destruct (reaches _ c), b; cbn;
      try (exists []; by rewrite app_nil_r). eexists. by rewrite enqueue_timer. }
  destruct (IH (q ++ q1)) as (q2 & ->). exists (q1 ++ q2). by rewrite app_assoc.
Qed.

Lemma entry_signal_run this parent s b q r :
  timers_ok s → view (bus s) this = Some (b, q) → continues r →
  ∃ s' q', entry_signal this parent r s = Ok false s' ∧ timers_ok s' ∧
    view (bus s') this = Some (b, q ++ q').
Proof.
  intros Hs Hv Hr. destruct r as [sig|errno]; cbn in *.
  - unfold entry_signal, mbind, M_bind, when.
    destruct (sig =? SIGRTMIN)%Z; [|exists s, []; by rewrite app_nil_r].
    destruct (Tick_run this parent s Hs) as (s1 & Hrun & Hok & [_ Hv1 _ _]); [by eexists|].
    destruct (offers_append this parent (timers s) this b q (timer_vector s)) as (q' & Hq').
    eexists _, q'. rewrite Hrun. split_done. cbn in *. by rewrite Hv1, Hv, <-Hq'.
  - exists s, []. rewrite app_nil_r. split_done. unfold entry_signal.
    by destruct Hr as [->| ->].
Qed.

(** The timer thread ends: once a quit event is in its queue behind [q1]
    events (none of them sticky), it returns from [Entry] after at most
    [length q1] more waits for a signal, whichever signals arrive, also when
    ticks put further events behind the quit event. *)
Theorem Entry_ends this parent s b q1 e q2 results :
  timers_ok s → view (bus s) this = Some (b, q1 ++ e :: q2) →
  GetId e = csEVENT_QUIT → receivable e → Forall (λ x, IsSticky x = false) q1 →
  Forall continues results → length q1 ≤ length results →
  ∃ s', Entry this parent results s = Ok true s'.
Proof.
  intros Hs Hv Hid He Hq1 Hres Hlen. revert s q2 results Hs Hv Hres Hlen.
  induction Hq1 as [|x q1 Hx Hq1 IH]; intros s q2 results Hs Hv Hres Hlen; cbn in Hv.
  - destruct (to_bus s Hs) as [H Hwf].
    destruct (entry_event_run this s H b e q2 Hwf Hv He) as (w & Hrun & _).
    exists (set_bus w s). rewrite Hid in Hrun.
    destruct results; cbn; unfold mbind, M_bind; by rewrite Hrun.
  - destruct (to_bus s Hs) as [H Hwf]. cbn in Hlen.
    destruct (entry_event_run this s H b x _ Hwf Hv) as (w & Hrun & Hw & Hvw).
    { intros Hst. by rewrite Hx in Hst. }
    specialize (Hvw this). rewrite decide_True, Hx in Hvw by done.
    destruct (GetId x =? csEVENT_QUIT)%Z.
    { exists (set_bus w s). destruct results; cbn; unfold mbind, M_bind; by rewrite Hrun. }
    destruct results as [|r results]; [cbn in Hlen; lia|].
    apply Forall_cons in Hres as [Hr Hres].
    assert (timers_ok (set_bus w s)) as Hsw.
    { destruct Hs as [????]. split; try done. by exists H. }
    destruct (entry_signal_run this parent (set_bus w s) b _ r Hsw Hvw Hr)
      as (s1 & q' & Hsig & Hs1 & Hv1).
    rewrite <-app_assoc in Hv1. cbn in Hv1, Hlen.
    destruct (IH s1 (q2 ++ q') results) as (s' & Hend); try done; [lia|].
    exists s'. cbn. unfold mbind, M_bind. by rewrite Hrun, Hsig.
Qed.

(** The thread at 100 with two events queued: a user event, then quit. *)
Definition sample_quit : timer_state world :=
  match (post 200 100 (csEvent_new csEVENT_USER FlagNone);;
         post 200 100 (csEvent_new csEVENT_QUIT Sticky)) sample0 with
  | Ok _ w => set_bus w sample_timers
  | _ => sample_timers
  end.

Lemma sample_quit_ok : timers_ok sample_quit.
Proof.
  destruct (post_spec sample0 ∅ 200 100 (csEvent_new csEVENT_USER FlagNone) _
    sample0_wf ltac:(by eexists) eq_refl) as (w1 & Hrun1 & Hw1 & _ & _ & Hv1).
  destruct (post_spec w1 ∅ 200 100 (csEvent_new csEVENT_QUIT Sticky) _
    Hw1 ltac:(rewrite Hv1; by eexists) eq_refl) as (w2 & Hrun2 & Hw2 & _).
  unfold sample_quit, mbind, M_bind. rewrite Hrun1, Hrun2.
  pose proof sample_timers_ok as [????]. split; try done. by exists ∅.
Qed.

Lemma Entry_ends_witness :
  ∃ s', Entry 100 200 [SigArrived SIGRTMIN] sample_quit = Ok true s'.
Proof.
  eapply (Entry_ends 100 200 sample_quit true
    [CsEvent csEVENT_USER FlagNone 200 100 NULL EvPlain]
    (CsEvent csEVENT_QUIT Sticky 200 100 NULL EvPlain) []).
  - apply sample_quit_ok.
  - vm_compute. reflexivity.
  - reflexivity.
  - intros _. by eexists.
  - repeat constructor.
  - repeat constructor.
  - cbn. lia.
Defined.

(** When waiting for a signal fails for good, the timer thread returns and
    every client that accepts events has the sticky quit event at the head of
    its queue: the whole program is asked to stop. *)
Theorem Entry_failure this parent s b errno results :
  timers_ok s → view (bus s) this = Some (b, []) →
  errno ≠ EINTR → errno ≠ EAGAIN →
  ∃ w, Entry this parent (SigFailed errno :: results) s = Ok true (set_bus w s) ∧
    world_ok w ∧ ∀ c, view w c =
      deliver (CsEvent csEVENT_QUIT (Z.lor Sticky HighPriority) this CS_EVENT_BROADCAST
        NULL EvPlain) <$> view (bus s) c.
Proof.
  intros Hs Hv Hne1 Hne2. destruct (to_bus s Hs) as [H Hwf].
  destruct (post_spec (bus s) H this CS_EVENT_BROADCAST quit_event _ Hwf
    ltac:(by eexists) eq_refl) as (w & Hrun & Hw & _ & _ & Hvw).
  exists w. split_done; [|by exists H].
  cbn. unfold mbind, M_bind. rewrite (entry_event_empty this s H b Hwf Hv).
  unfold entry_signal. rewrite !(proj2 (Z.eqb_neq _ _)) by done.
  unfold post, mbind, M_bind, ev_new in Hrun. unfold mbind, M_bind, zoom, ev_new. cbn in *.
  unfold EventBroadcast. by rewrite Hrun.
Qed.

Lemma Entry_failure_witness :
  ∃ w, Entry 100 200 [SigFailed 22] sample_timers = Ok true (set_bus w sample_timers) ∧
    view w 200%Z = Some (true, [CsEvent csEVENT_QUIT 6 100 CS_EVENT_BROADCAST NULL EvPlain]).
Proof.
  destruct (Entry_failure 100 200 sample_timers true 22 []) as (w & Hrun & _ & Hv);
    [apply sample_timers_ok|done..|].
  exists w. split; [done|]. by rewrite Hv.
Defined.

(** A process has one timer thread in its life: the destructor takes the
    vector's mutex away but leaves [instance] behind, so every later
    construction of the thread throws, and constructing or deleting a timer
    dereferences the null mutex. *)
Theorem timer_thread_once {W : Type} (s : timer_state W) this tc :
  instance s = this → this ≠ NULL → vector_mutex s = MFree →
  ∃ s' : timer_state W, csThreadTimer_delete this s = Ok tt s' ∧
    (∀ this2, csThreadTimer_new this2 tc s' =
      Throw (csException_int_str EEXIST "csThreadTimer") s') ∧
    (∀ p id v i tgt, csTimer_new p id v i tgt s' = Stuck NullDeref) ∧
    (∀ p t, timers s' !! p = Some t → timer_mutex t = MFree →
      csTimer_delete p s' = Stuck NullDeref).
Proof.
  intros Hi Hn Hvm. exists (set_vector_mutex MNull s).
  split; [|split; [|split]]; intros.
  - unfold csThreadTimer_delete, mbind, M_bind, gets. by rewrite Hi, Z.eqb_refl.
  - unfold csThreadTimer_new, mbind, M_bind, gets. cbn.
    by rewrite Hi, (proj2 (Z.eqb_neq _ _)).
  - unfold csTimer_new, mbind, M_bind, modify. by rewrite with_instance_run by by rewrite <-Hi in Hn.
  - unfold csTimer_delete, Stop, mbind at 1, M_bind at 1.
    rewrite (timer_update_locked (set_running false) _ p t) by done.
    unfold mbind, M_bind. by rewrite with_instance_run by by rewrite <-Hi in Hn.
Qed.

Lemma timer_thread_once_witness :
  ∃ s', csThreadTimer_delete 100 sample_timers = Ok tt s' ∧
    csThreadTimer_new 300 None s' = Throw (csException_int_str EEXIST "csThreadTimer") s' ∧
    csTimer_new 700 1 1 1 NULL s' = Stuck NullDeref.
Proof.
  destruct (timer_thread_once sample_timers 100 None) as (s' & Hdel & Hnew & Htimer & _);
    [done..|].
  exists s'. split_done.
Defined.
