(* ===== verification/Plugin.v ===== *)
(** * Plugin state (csplugin.cpp, csplugin.h): data and operations

    A plugin keeps named variables in a map and stores them in a state file.
    Files are lists of bytes under their path; a stream is a path and a
    position.  Streams are not buffered: what [fwrite] takes is in the file
    when it returns. *)

From S2P Require Import Prelude Exception Bytes.

(** ** Streams *)

Record FILE := Stream { f_path : string; f_pos : nat }.

Record pstate := PState {
  files : gmap string (list byte);
  pl_name : string;
  fh_state : option FILE;                (* FILE *, or NULL *)
  state : gmap string (list byte);       (* map<string, csPluginStateValue *> *)
}.

Definition set_files (f : gmap string (list byte)) (s : pstate) : pstate :=
  PState f (pl_name s) (fh_state s) (state s).
Definition set_fh (h : option FILE) (s : pstate) : pstate :=
  PState (files s) (pl_name s) h (state s).
Definition set_state (m : gmap string (list byte)) (s : pstate) : pstate :=
  PState (files s) (pl_name s) (fh_state s) m.

Definition contents (path : string) (s : pstate) : list byte :=
  default [] (files s !! path).

(** [sizeof(size_t)], [sizeof(unsigned long)], [sizeof(float)] *)
Definition sizeof_size_t : nat := 8.
Definition sizeof_ulong : nat := 8.
Definition sizeof_float : nat := 4.

(** The first [n] of [bs], or all when there are fewer; [n] is a [size_t] and
    may exceed every file. *)
Definition take_z (n : Z) (bs : list byte) : list byte :=
  if (n <? Z.of_nat (length bs))%Z then take (Z.to_nat n) bs else bs.

(** The entries in the order of [map<string, ...>]. *)
Definition key_le (a b : string * list byte) : Prop := String.leb a.1 b.1 = true.
#[export] Instance key_le_dec a b : Decision (key_le a b).
Proof. unfold key_le. apply _. Defined.
Definition entries (m : gmap string (list byte)) : list (string * list byte) :=
  merge_sort key_le (map_to_list m).

Section plugin.
(** The largest array [new] can make, the largest size of a file. *)
Context (alloc_max file_max : Z).
Abbreviation prog_p := (prog pstate).

Definition stream : prog_p FILE := λ s,
  match fh_state s with Some h => Ok h s | None => Stuck NullDeref end.

(** [fread] of [n] bytes: the bytes read, fewer at the end of the file. *)
Definition fread (n : Z) : prog_p (list byte) :=
  h ← stream;
  c ← gets (contents (f_path h));
  let bs := take_z n (drop (f_pos h) c) in
  modify (set_fh (Some (Stream (f_path h) (f_pos h + length bs))));;
  mret bs.

(** [fwrite]: the number of bytes written, fewer when the file is full. *)
Definition fwrite (bs : list byte) : prog_p Z :=
  h ← stream;
  let bs := take_z (Z.max 0 (file_max - Z.of_nat (f_pos h))) bs in
  modify (λ s, set_files
    (<[f_path h := overwrite (f_pos h) bs (contents (f_path h) s)]> (files s)) s);;
  modify (set_fh (Some (Stream (f_path h) (f_pos h + length bs))));;
  mret (Z.of_nat (length bs)).

Definition rewind : prog_p unit :=
  h ← stream; modify (set_fh (Some (Stream (f_path h) 0))).

(** ** Loading *)

(** [new char[length]] *)
Definition new_array (length : Z) : prog_p unit :=
  if (length <=? alloc_max)%Z then mret tt else stuck BadAlloc.

Definition read_size : prog_p (option Z) :=
  bs ← fread (Z.of_nat sizeof_size_t);
  mret (if (length bs =? sizeof_size_t)%nat then Some (le_val bs) else None).

Definition read_array (n : Z) : prog_p (option (list byte)) :=
  bs ← fread n;
  mret (if (Z.of_nat (length bs) =? n)%Z then Some bs else None).

(** One pass of the record loop: the key and the value, or [None] when the
    loop is left early. *)
Definition load_record : prog_p (option (string * list byte)) :=
  length ← read_size;
  match length with
  | None => mret None
  | Some length =>
      if (length =? 0)%Z then mret None
      else
        new_array length;;
        buffer ← read_array length;
        match buffer with
        | None => mret None
        | Some buffer =>
            length ← read_size;
            match length with
            | None => mret None
            | Some length =>
                if (length =? 0)%Z then mret (Some (bytes_str buffer, []))
                else
                  new_array length;;
                  value ← read_array length;
                  mret ((bytes_str buffer,.) <$> value)
            end
        end
  end.

Fixpoint load_records (fuel : nat) (v records : Z) : prog_p unit :=
  if (records <=? v)%Z then mret tt
  else match fuel with
  | O => stuck OutOfFuel
  | S fuel =>
      r ← load_record;
      match r with
      | None => mret tt
      | Some (key, value) =>
          modify (λ s, set_state (<[key := value]> (state s)) s);;
          load_records fuel (v + 1) records
      end
  end.

(** Every pass consumes bytes, so a fuel of the file's length is enough. *)
Definition LoadState : prog_p unit :=
  fh ← gets fh_state;
  match fh with
  | None => mret tt
  | Some h =>
      rewind;;
      modify (set_state ∅);;
      records ← read_size;
      match records with
      | None => mret tt
      | Some records =>
          c ← gets (contents (f_path h));
          load_records (length c) 0 records
      end
  end.

(** ** Saving *)

(** [fwrite] of everything or leave: [true] when all was written. *)
Definition write_all (bs : list byte) : prog_p bool :=
  n ← fwrite bs; mret (n =? Z.of_nat (length bs))%Z.

Definition size_bytes (n : nat) : list byte := le_bytes sizeof_size_t (Z.of_nat n).

Fixpoint save_records (l : list (string * list byte)) : prog_p unit :=
  match l with
  | [] => mret tt
  | (key, value) :: l =>
      let length_key := String.length key in
      if (length_key =? 0)%nat then save_records l
      else
        ok ← write_all (size_bytes length_key);
        if negb ok then mret tt else
        ok ← write_all (str_bytes key);
        if negb ok then mret tt else
        ok ← write_all (size_bytes (length value));
        if negb ok then mret tt else
        ok ← write_all value;
        if negb ok then mret tt else
        save_records l
  end.

Definition SaveState : prog_p unit :=
  fh ← gets fh_state;
  match fh with
  | None => mret tt
  | Some _ =>
      rewind;;
      m ← gets state;
      ok ← write_all (size_bytes (size m));
      if negb ok then mret tt else save_records (entries m)
  end.

(** ** The state file *)

(** [fopen]: [openable] says for which paths it does not fail. *)
Definition SetStateFile (openable : string → bool) (state_file : string) :
    prog_p unit :=
  fs ← gets files;
  let create := bool_decide (fs !! state_file = None) in
  if negb (openable state_file) then modify (set_fh None)
  else
    when create (modify (λ s, set_files (<[state_file := []]> (files s)) s));;
    modify (set_fh (Some (Stream state_file 0)));;
    LoadState.

(** The constructor and the destructor, without the thread. *)
Definition csPlugin_new (name : string) : prog_p unit :=
  modify (λ s, PState (files s) name None ∅).

Definition csPlugin_delete : prog_p unit :=
  SaveState;;
  modify (set_fh None);;
  modify (set_state ∅).

(** ** Variables *)

Definition GetStateVar_ulong (key : string) : prog_p (option Z) :=
  m ← gets state;
  match m !! key with
  | None => mret None
  | Some var =>
      if negb (length var =? sizeof_ulong)%nat then mret None
      else mret (Some (le_val var))
  end.

(** A [float] is its 32-bit pattern. *)
Definition GetStateVar_float (key : string) : prog_p (option Z) :=
  m ← gets state;
  match m !! key with
  | None => mret None
  | Some var =>
      if negb (length var =? sizeof_float)%nat then mret None
      else mret (Some (le_val var))
  end.

Definition GetStateVar_string (key : string) : prog_p (option string) :=
  m ← gets state;
  match m !! key with
  | None => mret None
  | Some var =>
      if (length var =? 0)%nat then mret (Some EmptyString)
      else mret (Some (bytes_str var))
  end.

(** The caller's buffer after the call, with the length it was told. *)
Definition GetStateVar_bytes (key : string) (length_in : Z) (value : list byte) :
    prog_p (option (Z * list byte)) :=
  m ← gets state;
  match m !! key with
  | None => mret None
  | Some var =>
      let len := if (Z.of_nat (length var) <? length_in)%Z
                 then Z.of_nat (length var) else length_in in
      if (Z.of_nat (length value) <? len)%Z then stuck OutOfBounds
      else mret (Some (len, overwrite 0 (take (Z.to_nat len) var) value))
  end.

Definition SetStateVar (key : string) (var : list byte) : prog_p unit :=
  modify (λ s, set_state (<[key := var]> (state s)) s).

Definition SetStateVar_ulong (key : string) (value : Z) : prog_p unit :=
  SetStateVar key (le_bytes sizeof_ulong value).
Definition SetStateVar_float (key : string) (value : Z) : prog_p unit :=
  SetStateVar key (le_bytes sizeof_float value).
Definition SetStateVar_string (key value : string) : prog_p unit :=
  SetStateVar key (str_bytes value).
Definition SetStateVar_bytes (key : string) (length : Z) (value : list byte) :
    prog_p unit :=
  if (Z.of_nat (List.length value) <? length)%Z then stuck OutOfBounds
  else SetStateVar key (take (Z.to_nat length) value).
End plugin.

(** ** The loader of plugin libraries

    [dlopen] and [dlsym] give their results as arguments; the open handles of
    the process are a multiset, since [dlopen] of a library that is open gives
    the same handle again and counts. *)

Record csPluginLoader := PluginLoader {
  so_name : string;
  so_handle : Z;
  plugin : Z;
}.

Record dl_results := DlResults {
  dlopen : string + Z;               (* dlerror(), or a handle *)
  dlsym : option string;             (* dlerror() *)
}.

Section loader.
Context {S : Type} (handles : S → gmultiset Z) (set_handles : gmultiset Z → S → S).

Definition dlclose (h : Z) : prog S unit :=
  modify (λ s, set_handles (handles s ∖ {[+ h +]}) s).

(** [init] is the function [csPluginInit] of the library, which gives a plugin
    or 0. *)
Definition csPluginLoader_new (so : string) (dl : dl_results) (init : prog S Z) :
    prog S csPluginLoader :=
  match dlopen dl with
  | inl err => throw (csException_str err)
  | inr h =>
      modify (λ s, set_handles ({[+ h +]} ⊎ handles s) s);;
      match dlsym dl with
      | Some err => dlclose h;; throw (csException_str err)
      | None =>
          p ← init;
          if (p =? 0)%Z then dlclose h;; throw (csException_str "csPluginInit")
          else mret (PluginLoader so h p)
      end
  end.

Definition csPluginLoader_delete (l : csPluginLoader) : prog S unit :=
  dlclose (so_handle l).
End loader.
