(* ===== verification/PluginProps.v ===== *)
(** * Plugin state: properties

    Loading a state file returns on every content; what a plugin saves is what
    the next plugin loads; the typed accessors of the variables. *)

From S2P Require Import Prelude Exception Bytes Plugin.

(** ** Streams *)

Definition remaining (s : pstate) : list byte :=
  match fh_state s with
  | Some h => drop (f_pos h) (contents (f_path h) s)
  | None => []
  end.

Definition advance (n : nat) (s : pstate) : pstate :=
  match fh_state s with
  | Some h => set_fh (Some (Stream (f_path h) (f_pos h + n))) s
  | None => s
  end.

Lemma advance_add n k s : advance k (advance n s) = advance (n + k) s.
Proof. destruct s as [? ? [[path pos]|] ?]; cbn; unfold set_fh; cbn; [|done]. by rewrite Nat.add_assoc. Qed.

Lemma remaining_advance n s : remaining (advance n s) = drop n (remaining s).
Proof.
  destruct s as [? ? [[path pos]|] ?]; cbn; [|by rewrite drop_nil].
  by rewrite drop_drop.
Qed.

Lemma advance_open n s : is_Some (fh_state s) → is_Some (fh_state (advance n s)).
Proof. unfold advance. destruct (fh_state s) eqn:Hfh; [by eexists|by rewrite Hfh]. Qed.

Lemma advance_state n s : state (advance n s) = state s.
Proof. unfold advance. by destruct (fh_state s). Qed.

Lemma advance_files n s : files (advance n s) = files s.
Proof. unfold advance. by destruct (fh_state s). Qed.

Lemma advance_name n s : pl_name (advance n s) = pl_name s.
Proof. unfold advance. by destruct (fh_state s). Qed.

(** What a routine that reads leaves as it is. *)
Definition same_disk (s s' : pstate) : Prop :=
  files s' = files s ∧ pl_name s' = pl_name s ∧ (is_Some (fh_state s) → is_Some (fh_state s')).

Lemma same_disk_advance n s : same_disk s (advance n s).
Proof. split_and!; [apply advance_files|apply advance_name|apply advance_open]. Qed.

Lemma same_disk_trans s1 s2 s3 : same_disk s1 s2 → same_disk s2 s3 → same_disk s1 s3.
Proof. intros (? & ? & ?) (? & ? & ?). split_and!; [congruence|congruence|auto]. Qed.

Lemma take_z_all n bs : (Z.of_nat (length bs) ≤ n)%Z → take_z n bs = bs.
Proof. intros. unfold take_z. by rewrite (proj2 (Z.ltb_ge _ _)). Qed.

Lemma take_z_app n bs rest : Z.of_nat (length bs) = n → take_z n (bs ++ rest) = bs.
Proof.
  intros <-. unfold take_z. rewrite length_app. case_match eqn:Hlt.
  - by rewrite Nat2Z.id, take_app_length.
  - apply Z.ltb_ge in Hlt. destruct rest; [by rewrite app_nil_r|cbn in Hlt; lia].
Qed.

Lemma length_take_z n bs : length (take_z n bs) ≤ length bs.
Proof. unfold take_z. case_match; [|lia]. rewrite length_take. lia. Qed.

Lemma fread_run n s :
  is_Some (fh_state s) →
  fread n s = Ok (take_z n (remaining s)) (advance (length (take_z n (remaining s))) s).
Proof.
  destruct s as [fs nm [h|] m]; cbn; [|by intros []]. intros _.
  unfold fread, stream, remaining, mbind, M_bind, gets, modify. by cbn.
Qed.

(** ** Loading is total *)

Section load.
Context (alloc_max file_max : Z).

(** [m] fails for want of memory, or it returns with [Q] having read at most
    what remains of the file. *)
Definition reads {A} (m : prog pstate A) (s : pstate) (Q : A → nat → Prop) : Prop :=
  m s = Stuck BadAlloc ∨
  ∃ a n, m s = Ok a (advance n s) ∧ n ≤ length (remaining s) ∧ Q a n.

Lemma reads_bind {A B} (m : prog pstate A) (f : A → prog pstate B) s Q Q' :
  reads m s Q →
  (∀ a n, Q a n → n ≤ length (remaining s) → reads (f a) (advance n s) (λ b k, Q' b (n + k))) →
  reads (m ≫= f) s Q'.
Proof.
  intros [Hm|(a & n & Hm & Hn & HQ)] Hf; unfold reads, mbind, M_bind; rewrite Hm; [by left|].
  destruct (Hf a n HQ Hn) as [Hb|(b & k & Hb & Hk & HQ')]; rewrite Hb; [by left|right].
  exists b, (n + k). rewrite advance_add. split_done.
  rewrite remaining_advance, length_drop in Hk. lia.
Qed.

Lemma advance_0 s : advance 0 s = s.
Proof. destruct s as [? ? [[path pos]|] ?]; cbn; unfold set_fh; cbn; [|done]. by rewrite Nat.add_0_r. Qed.

Lemma reads_ret {A} (a : A) s (Q : A → nat → Prop) : Q a 0 → reads (mret a) s Q.
Proof. right. exists a, 0. rewrite advance_0. split_done. lia. Qed.

Lemma reads_fread n s :
  is_Some (fh_state s) → reads (fread n) s (λ bs k, k = length bs).
Proof.
  intros Hs. right. eexists _, _. rewrite fread_run by done. split_done.
  apply length_take_z.
Qed.

Lemma reads_size s :
  is_Some (fh_state s) →
  reads read_size s (λ r k, ∀ z, r = Some z → k = 8).
Proof.
  intros Hs. eapply reads_bind; [by apply reads_fread|]. intros bs n -> _.
  apply reads_ret. intros z. case_match eqn:Hlen; [|done].
  apply Nat.eqb_eq in Hlen. intros _. unfold sizeof_size_t in Hlen. lia.
Qed.

Lemma reads_array n s :
  is_Some (fh_state s) →
  reads (read_array n) s (λ r k, ∀ bs, r = Some bs → k = length bs ∧ Z.of_nat k = n).
Proof.
  intros Hs. eapply reads_bind; [by apply reads_fread|]. intros bs k -> _.
  apply reads_ret. intros bs'. case_match eqn:Hlen; [|done].
  apply Z.eqb_eq in Hlen. intros [= <-]. by rewrite Nat.add_0_r.
Qed.

Lemma reads_new n s : reads (new_array alloc_max n) s (λ _ k, k = 0).
Proof. unfold new_array. case_match; [by apply reads_ret|by left]. Qed.

Lemma reads_weaken {A} (m : prog pstate A) s (Q Q' : A → nat → Prop) :
  reads m s Q → (∀ a n, Q a n → Q' a n) → reads m s Q'.
Proof. intros [?|(a & n & ? & ? & ?)] HQ; [by left|right]. exists a, n. auto. Qed.

(** A record takes at least its two sizes and one byte of key. *)
Lemma reads_record s :
  is_Some (fh_state s) →
  reads (load_record alloc_max) s (λ r n, ∀ k v, r = Some (k, v) → 17 ≤ n ∧ k ≠ EmptyString).
Proof.
  intros Hs. unfold load_record.
  eapply reads_bind; [by apply reads_size|]. intros [len|] n1 H1 _; [|by apply reads_ret].
  destruct (len =? 0)%Z eqn:H0; [by apply reads_ret|]. apply Z.eqb_neq in H0.
  specialize (H1 len eq_refl). subst n1.
  eapply reads_bind; [by apply reads_new|]. intros _ n2 -> _. rewrite advance_add.
  eapply reads_bind; [by apply reads_array, advance_open|].
  intros [buf|] n3 H3 _; [|by apply reads_ret].
  destruct (H3 buf eq_refl) as [-> Hlen]. rewrite advance_add.
  assert (buf ≠ []) as Hbuf by by intros ->.
  assert (bytes_str buf ≠ EmptyString) as Hkey by by destruct buf.
  assert (1 ≤ length buf) by (destruct buf; [done|cbn; lia]).
  eapply reads_bind; [by apply reads_size, advance_open|].
  intros [vlen|] n4 H4 _; [|by apply reads_ret]. specialize (H4 vlen eq_refl). subst n4.
  destruct (vlen =? 0)%Z. { apply reads_ret. intros k v [= <- _]. split; [lia|done]. }
  eapply reads_bind; [by apply reads_new|]. intros _ n5 -> _. rewrite !advance_add.
  eapply reads_bind; [by apply reads_array, advance_open|].
  intros r n6 _ _. apply reads_ret. intros k v. destruct r; [|done].
  intros [= <- _]. split; [lia|done].
Qed.

Definition no_empty_key (m : gmap string (list byte)) : Prop := m !! EmptyString = None.

Lemma load_records_total fuel v records s :
  is_Some (fh_state s) → length (remaining s) < fuel → no_empty_key (state s) →
  load_records alloc_max fuel v records s = Stuck BadAlloc ∨
  ∃ s', load_records alloc_max fuel v records s = Ok tt s' ∧ same_disk s s' ∧
    no_empty_key (state s').
Proof.
  revert v s. induction fuel as [|fuel IH]; intros v s Hs Hlen Hne; [lia|]. cbn.
  destruct (records <=? v)%Z; [by right; eexists|]. unfold mbind, M_bind.
  destruct (reads_record s Hs) as [->|(r & n & -> & Hn & Hr)]; [by left|].
  destruct r as [[key value]|].
  2: { right. eexists. split_and!; [done|apply same_disk_advance..|by rewrite advance_state]. }
  destruct (Hr key value eq_refl) as [H17 Hkey]. cbn.
  set (s1 := set_state _ _).
  assert (remaining s1 = drop n (remaining s)) as Hrem by apply (remaining_advance n s).
  destruct (IH (v + 1)%Z s1) as [->|(s' & -> & Hf & Hne')]; [| | |by left|].
  - by apply (advance_open n s).
  - rewrite Hrem, length_drop. lia.
  - unfold no_empty_key, s1. cbn. rewrite advance_state.
    by rewrite lookup_insert_ne.
  - right. exists s'. split_and!; [done| |done]. apply (same_disk_trans _ s1); [|done].
    apply (same_disk_advance n s).
Qed.

Lemma LoadState_cases (s : pstate) :
  LoadState alloc_max s = Stuck BadAlloc ∨
  ∃ s', LoadState alloc_max s = Ok tt s' ∧ same_disk s s' ∧
    (is_Some (fh_state s) → no_empty_key (state s')).
Proof.
  unfold LoadState, mbind, M_bind, gets.
  destruct (fh_state s) as [h|] eqn:Hfh; cbn.
  2: { right. exists s. split_and!; [done..|]. by intros []. }
  unfold rewind, stream, mbind, M_bind, modify. rewrite Hfh. cbn.
  set (s0 := set_state ∅ _).
  assert (is_Some (fh_state s0)) as Hs0 by by eexists.
  assert (same_disk s s0) as Hsame by done.
  destruct (reads_size s0 Hs0) as [->|(r & n & -> & Hn & Hr)]; [by left|].
  destruct r as [records|].
  2: { right. eexists. split_and!; [done| |by rewrite advance_state].
       apply (same_disk_trans _ s0); [done|apply same_disk_advance]. }
  specialize (Hr records eq_refl). subst n.
  destruct (load_records_total (length (contents (f_path h) (advance 8 s0))) 0 records
    (advance 8 s0)) as [->|(s' & -> & Hf & Hne)]; [| | |by left|].
  - by apply advance_open.
  - rewrite remaining_advance, length_drop. unfold contents. rewrite advance_files.
    unfold remaining, s0 in *. cbn in *. unfold contents in *. cbn in *. rewrite !drop_0 in *. lia.
  - unfold no_empty_key. by rewrite advance_state.
  - right. exists s'. split_and!; [done| |done].
    apply (same_disk_trans _ (advance 8 s0)); [|done].
    apply (same_disk_trans _ s0); [done|apply same_disk_advance].
Qed.

(** C25. Whatever bytes a state file holds, [LoadState] returns: the record
    loop ends, no access leaves the file, the file is not changed and no
    variable gets an empty name.  The only other outcome is that an array of
    the size a corrupt record asks for cannot be allocated. *)
Theorem LoadState_total (s : pstate) :
  LoadState alloc_max s = Stuck BadAlloc ∨
  ∃ s', LoadState alloc_max s = Ok tt s' ∧ files s' = files s ∧
    (is_Some (fh_state s) → no_empty_key (state s')).
Proof.
  destruct (LoadState_cases s) as [Hs|(s' & Hs & (Hf & _) & Hne)]; [by left|right].
  by exists s'.
Qed.
End load.

(** ** Saving and loading *)

Definition encode_entry (kv : string * list byte) : list byte :=
  size_bytes (String.length kv.1) ++ str_bytes kv.1 ++ size_bytes (length kv.2) ++ kv.2.

Definition has_name (kv : string * list byte) : bool := negb (String.length kv.1 =? 0)%nat.

(** What a save writes for the variables [m]. *)
Definition encode (m : gmap string (list byte)) : list byte :=
  size_bytes (size m) ++ concat (encode_entry <$> filter has_name (entries m)).

Definition entries_map (l : list (string * list byte)) (acc : gmap string (list byte)) :
    gmap string (list byte) := foldl (λ m kv, <[kv.1 := kv.2]> m) acc l.

Lemma size_bytes_val n rest :
  (Z.of_nat n < 2 ^ 64)%Z → le_val (take 8 (size_bytes n ++ rest)) = Z.of_nat n.
Proof.
  intros Hn. unfold size_bytes. rewrite take_app_length'; [|by rewrite length_le_bytes].
  apply le_val_bytes. unfold sizeof_size_t. split; [lia|]. exact Hn.
Qed.

Lemma length_size_bytes n : length (size_bytes n) = 8.
Proof. apply length_le_bytes. Qed.

Section roundtrip.
Context (alloc_max file_max : Z).

(** Sizes the machine can handle. *)
Definition entry_fits (kv : string * list byte) : Prop :=
  (Z.of_nat (String.length kv.1) ≤ alloc_max ∧ Z.of_nat (length kv.2) ≤ alloc_max)%Z.

Lemma read_size_run s n rest :
  is_Some (fh_state s) → remaining s = size_bytes n ++ rest → (Z.of_nat n < 2 ^ 64)%Z →
  read_size s = Ok (Some (Z.of_nat n)) (advance 8 s).
Proof.
  intros Hs Hrem Hn. unfold read_size, mbind, M_bind. rewrite fread_run, Hrem by done.
  rewrite take_z_app by by rewrite length_size_bytes.
  rewrite length_size_bytes. cbn. unfold mret, M_ret. do 2 f_equal.
  rewrite <-(size_bytes_val n []) by done. by rewrite app_nil_r, take_ge
    by by rewrite length_size_bytes.
Qed.

Lemma read_array_run s bs rest :
  is_Some (fh_state s) → remaining s = bs ++ rest →
  read_array (Z.of_nat (length bs)) s = Ok (Some bs) (advance (length bs) s).
Proof.
  intros Hs Hrem. unfold read_array, mbind, M_bind. rewrite fread_run, Hrem by done.
  by rewrite take_z_app, Z.eqb_refl.
Qed.

Lemma new_array_run n s : (n ≤ alloc_max)%Z → new_array alloc_max n s = Ok tt s.
Proof. intros Hn. unfold new_array. by rewrite (proj2 (Z.leb_le _ _)). Qed.

Lemma load_record_run s kv rest :
  is_Some (fh_state s) → remaining s = encode_entry kv ++ rest →
  has_name kv = true → entry_fits kv → (alloc_max < 2 ^ 64)%Z →
  load_record alloc_max s = Ok (Some kv) (advance (length (encode_entry kv)) s).
Proof.
  destruct kv as [k v]. unfold encode_entry, has_name, entry_fits. cbn.
  intros Hs Hrem Hk [Hkf Hvf] Hmax. rewrite <-!app_assoc in Hrem.
  unfold load_record, mbind, M_bind.
  rewrite (read_size_run s _ _ Hs Hrem) by lia.
  destruct (String.length k) as [|n] eqn:Hlk; [done|].
  rewrite (proj2 (Z.eqb_neq _ _)) by lia. rewrite new_array_run by lia.
  set (s1 := advance 8 s).
  assert (remaining s1 = str_bytes k ++ size_bytes (length v) ++ v ++ rest) as Hr1.
  { unfold s1. rewrite remaining_advance, Hrem.
    by rewrite drop_app_length' by by rewrite length_size_bytes. }
  rewrite <-Hlk, <-length_str_bytes.
  rewrite (read_array_run s1 _ _ (advance_open 8 s Hs) Hr1).
  set (s2 := advance _ s1).
  assert (remaining s2 = size_bytes (length v) ++ v ++ rest) as Hr2.
  { unfold s2. by rewrite remaining_advance, Hr1, drop_app_length. }
  assert (is_Some (fh_state s2)) as Hs2 by by apply advance_open, advance_open.
  rewrite (read_size_run s2 _ _ Hs2 Hr2) by lia. rewrite bytes_str_bytes.
  rewrite !length_app, !length_size_bytes.
  destruct (Z.of_nat (length v) =? 0)%Z eqn:Hv.
  - apply Z.eqb_eq in Hv. destruct v; [|cbn in Hv; lia]. unfold s2, s1.
    rewrite !advance_add. cbn. unfold mret, M_ret. do 2 f_equal; try lia.
  - rewrite new_array_run by lia.
    rewrite (read_array_run (advance 8 s2) v rest); [|by apply advance_open|].
    + unfold s2, s1. rewrite !advance_add. cbn. unfold mret, M_ret. do 2 f_equal; try lia.
    + rewrite remaining_advance, Hr2. by rewrite drop_app_length' by by rewrite length_size_bytes.
Qed.

(** The loop over records that are there. *)
Lemma load_records_run l fuel v records s rest :
  is_Some (fh_state s) →
  remaining s = concat (encode_entry <$> l) ++ rest →
  Forall (λ kv, has_name kv = true ∧ entry_fits kv) l → (alloc_max < 2 ^ 64)%Z →
  (v + Z.of_nat (length l) ≤ records)%Z → length l ≤ fuel →
  load_records alloc_max fuel v records s =
    load_records alloc_max (fuel - length l) (v + Z.of_nat (length l)) records
      (set_state (entries_map l (state s))
        (advance (length (concat (encode_entry <$> l))) s)).
Proof.
  intros Hs Hrem Hl Hmax. revert fuel v s Hs Hrem.
  induction Hl as [|kv l [Hname Hfit] Hl IH]; intros fuel v s Hs Hrem Hrec Hfuel.
  { cbn. rewrite Nat.sub_0_r, Z.add_0_r, advance_0. by destruct s. }
  cbn in Hfuel, Hrec. destruct fuel as [|fuel]; [lia|]. cbn [load_records].
  rewrite (proj2 (Z.leb_gt _ _)) by lia. cbn in Hrem. rewrite <-app_assoc in Hrem.
  unfold mbind at 1, M_bind at 1. rewrite (load_record_run s kv _ Hs Hrem) by done.
  destruct kv as [k value]. cbn [mbind M_bind modify]. unfold mbind at 1, M_bind at 1, modify.
  rewrite IH; cbn [length fmap list_fmap concat] in *; try lia.
  - cbn. rewrite advance_state, length_app.
    replace (v + 1 + Z.of_nat (length l))%Z with (v + Z.of_nat (S (length l)))%Z by lia.
    f_equal. rewrite <-advance_add. unfold advance. by destruct (fh_state s).
  - by apply (advance_open _ s).
  - change (remaining (advance (length (encode_entry (k, value))) s) =
      concat (encode_entry <$> l) ++ rest).
    by rewrite remaining_advance, Hrem, drop_app_length.
Qed.

(** The state when [B] was written from the start of the file at [path], which
    held [c]. *)
Definition written (s : pstate) (path : string) (c B : list byte) : pstate :=
  PState (<[path := B ++ drop (length B) c]> (files s)) (pl_name s)
    (Some (Stream path (length B))) (state s).

Lemma write_all_run s path c B bs :
  (Z.of_nat (length B + length bs) ≤ file_max)%Z →
  write_all file_max bs (written s path c B) = Ok true (written s path c (B ++ bs)).
Proof.
  intros Hmax. unfold write_all, fwrite, stream, mbind, M_bind, gets, modify. cbn.
  rewrite take_z_all by lia. rewrite Z.eqb_refl. unfold mret, M_ret. f_equal.
  unfold written, set_fh, set_files. cbn. rewrite insert_insert_eq, length_app.
  do 2 f_equal. unfold contents. cbn. rewrite lookup_insert_eq. cbn. unfold overwrite.
  rewrite take_app_length, <-app_assoc. do 2 f_equal.
  rewrite <-drop_drop, drop_app_length, drop_drop. done.
Qed.

Lemma write_first_run s path bs :
  (Z.of_nat (length bs) ≤ file_max)%Z →
  write_all file_max bs (set_fh (Some (Stream path 0)) s) =
    Ok true (written s path (contents path s) bs).
Proof.
  intros Hmax. unfold write_all, fwrite, stream, mbind, M_bind, gets, modify. cbn.
  rewrite take_z_all by lia. by rewrite Z.eqb_refl.
Qed.

Lemma filter_named kv l :
  filter has_name (kv :: l) =
    if has_name kv then kv :: filter has_name l else filter has_name l.
Proof. rewrite filter_cons. by destruct (has_name kv). Qed.

Lemma save_records_run l s path c B :
  (Z.of_nat (length (B ++ concat (encode_entry <$> filter has_name l))) ≤ file_max)%Z →
  save_records file_max l (written s path c B) =
    Ok tt (written s path c (B ++ concat (encode_entry <$> filter has_name l))).
Proof.
  revert B. induction l as [|[k v] l IH]; intros B Hmax.
  { cbn. by rewrite app_nil_r. }
  cbn [save_records]. rewrite filter_named in *. change (has_name (k, v)) with (negb (String.length k =? 0)%nat) in *.
  cbn [fst] in *. destruct (String.length k =? 0)%nat eqn:Hk; cbn [negb] in *; [by apply IH|].
  cbn [fmap list_fmap concat] in *. unfold encode_entry at 1 in Hmax. cbn [fst snd] in Hmax.
  rewrite !length_app in Hmax. rewrite !length_size_bytes in Hmax.
  unfold mbind, M_bind.
  rewrite write_all_run by (rewrite length_size_bytes; lia). cbn.
  rewrite write_all_run by (rewrite length_app, length_size_bytes; lia). cbn.
  rewrite write_all_run by (rewrite !length_app, !length_size_bytes; lia). cbn.
  rewrite write_all_run by (rewrite !length_app, !length_size_bytes; lia). cbn.
  rewrite IH.
  - unfold encode_entry at 2. cbn. by rewrite <-!app_assoc.
  - rewrite !length_app, !length_size_bytes. lia.
Qed.

Lemma SaveState_run s h :
  fh_state s = Some h → (Z.of_nat (length (encode (state s))) ≤ file_max)%Z →
  SaveState file_max s =
    Ok tt (written s (f_path h) (contents (f_path h) s) (encode (state s))).
Proof.
  intros Hh Hmax. unfold SaveState, rewind, stream, mbind, M_bind, gets, modify.
  rewrite Hh. cbn. rewrite Hh.
  rewrite write_first_run by (unfold encode in Hmax;
    rewrite length_app, length_size_bytes in Hmax; rewrite length_size_bytes; lia).
  cbn. by apply save_records_run.
Qed.

Lemma entries_perm m : entries m ≡ₚ map_to_list m.
Proof. apply merge_sort_Permutation. Qed.

Lemma entries_map_cons l acc k v :
  k ∉ l.*1 → entries_map l (<[k := v]> acc) = <[k := v]> (entries_map l acc).
Proof.
  revert acc. induction l as [|[k' v'] l IH]; intros acc Hk; [done|].
  apply not_elem_of_cons in Hk as [Hne Hk]. cbn in Hne.
  change (entries_map l (<[k' := v']> (<[k := v]> acc)) =
    <[k := v]> (entries_map l (<[k' := v']> acc))).
  by rewrite insert_insert_ne, IH by done.
Qed.

Lemma entries_map_list l :
  NoDup l.*1 → entries_map l ∅ = list_to_map l.
Proof.
  induction l as [|[k v] l IH]; [done|]. intros [Hk Hnd]%NoDup_cons.
  change (entries_map l (<[k := v]> ∅) = <[k := v]> (list_to_map l)).
  by rewrite entries_map_cons, IH.
Qed.

Definition named (m : gmap string (list byte)) : list (string * list byte) :=
  filter has_name (entries m).

Lemma named_perm m : named m ≡ₚ filter has_name (map_to_list m).
Proof. unfold named. by rewrite entries_perm. Qed.

Lemma named_nodup m : NoDup (named m).*1.
Proof.
  rewrite named_perm. apply NoDup_fmap_fst; [|apply NoDup_filter, NoDup_map_to_list].
  intros k v1 v2 [_ H1]%list_elem_of_filter [_ H2]%list_elem_of_filter.
  by apply (map_to_list_unique m k).
Qed.

Lemma named_map m : entries_map (named m) ∅ = delete EmptyString m.
Proof.
  pose proof (named_nodup m) as Hnd.
  rewrite entries_map_list by done.
  rewrite (list_to_map_proper _ _ Hnd (named_perm m)), <-map_filter_alt.
  apply map_eq. intros k. destruct (decide (k = EmptyString)) as [->|Hk].
  - rewrite lookup_delete_eq. apply map_lookup_filter_None. right. by intros v _ [].
  - rewrite lookup_delete_ne by done. rewrite map_lookup_filter.
    destruct (m !! k) as [v|]; [|done]. cbn.
    assert (has_name (k, v) = true) as Hn by by destruct k.
    by rewrite option_guard_True by by rewrite Hn.
Qed.

Lemma length_named m :
  length (named m) + (if decide (no_empty_key m) then 0 else 1) = size m.
Proof.
  pose proof (named_nodup m) as Hnd.
  assert (size (delete EmptyString m) = length (named m)) as Hsz.
  { rewrite <-named_map, entries_map_list by done.
    by rewrite <-length_map_to_list, map_to_list_to_map. }
  rewrite <-Hsz. unfold no_empty_key. case_decide as He.
  - rewrite delete_id by done. lia.
  - destruct (m !! EmptyString) as [v|] eqn:Hv; [|done].
    rewrite map_size_delete, Hv. cbn.
    assert (size m ≠ 0); [|lia]. intros Hz%map_size_empty_inv. by rewrite Hz in Hv.
Qed.

(** The variables and the file can be handled by the machine. *)
Definition state_fits (m : gmap string (list byte)) : Prop :=
  map_Forall (λ k v, entry_fits (k, v)) m ∧
  (Z.of_nat (size m) < 2 ^ 64)%Z ∧
  (Z.of_nat (length (encode m)) ≤ file_max)%Z ∧ (alloc_max < 2 ^ 64)%Z.

Lemma named_fits m :
  state_fits m → Forall (λ kv, has_name kv = true ∧ entry_fits kv) (named m).
Proof.
  intros (Hfit & _). apply Forall_forall. intros [k v].
  rewrite named_perm, list_elem_of_filter. intros [Hn Hin%elem_of_map_to_list].
  split; [by destruct (has_name (k, v))|by apply Hfit].
Qed.

Definition loaded (s : pstate) (n : nat) (m : gmap string (list byte)) : pstate :=
  set_state m (advance n (set_fh ((λ h, Stream (f_path h) 0) <$> fh_state s) s)).

(** Loading a file that starts with the encoding of [m]. *)
Lemma LoadState_encoded s h m tail :
  fh_state s = Some h → contents (f_path h) s = encode m ++ tail → state_fits m →
  ∃ fuel, length tail ≤ fuel ∧ 0 < fuel ∧
    LoadState alloc_max s =
      load_records alloc_max fuel (Z.of_nat (length (named m))) (Z.of_nat (size m))
        (loaded s (length (encode m)) (delete EmptyString m)).
Proof.
  intros Hh Hc Hfits. pose proof Hfits as (_ & Hsz & _ & Hmax).
  unfold LoadState, mbind, M_bind, gets, rewind, stream, mbind, M_bind, modify.
  rewrite Hh. cbn. rewrite Hh.
  set (s0 := set_state ∅ _).
  assert (remaining s0 = size_bytes (size m) ++
    concat (encode_entry <$> named m) ++ tail) as Hrem.
  { unfold remaining, s0. cbn. rewrite drop_0. unfold contents in *. cbn. rewrite Hc.
    unfold encode. by rewrite <-app_assoc. }
  assert (is_Some (fh_state s0)) as Hs0 by by eexists.
  rewrite (read_size_run s0 _ _ Hs0 Hrem) by done.
  replace (contents (f_path h) (advance 8 s0)) with (encode m ++ tail).
  pose proof (length_named m) as Hn.
  assert (length (named m) ≤ length (concat (encode_entry <$> named m))) as Hlen.
  { clear. induction (named m) as [|kv l IH]; [done|]. cbn. unfold encode_entry at 1.
    rewrite !length_app, !length_size_bytes. lia. }
  assert (length (encode m) = 8 + length (concat (encode_entry <$> named m))) as Henc.
  { unfold encode, named. by rewrite length_app, length_size_bytes. }
  exists (length (encode m ++ tail) - length (named m)). rewrite length_app, Henc.
  split; [lia|]. split; [lia|].
  rewrite (load_records_run (named m) _ _ _ _ tail); try done.
  - cbn [Z.add]. rewrite advance_state, named_map, advance_add. unfold loaded.
    by rewrite Hh.
  - rewrite remaining_advance, Hrem. by rewrite drop_app_length' by by rewrite length_size_bytes.
  - by apply named_fits.
  - case_decide; lia.
  - lia.
Qed.

Lemma load_records_done fuel n s : load_records alloc_max fuel n n s = Ok tt s.
Proof. destruct fuel; cbn; by rewrite (proj2 (Z.leb_le _ _)). Qed.

Lemma load_saved s h tail m :
  fh_state s = Some h → contents (f_path h) s = encode m ++ tail → state_fits m →
  no_empty_key m →
  LoadState alloc_max s = Ok tt (loaded s (length (encode m)) m).
Proof.
  intros Hh Hc Hfits Hne.
  destruct (LoadState_encoded s h m tail Hh Hc Hfits) as (fuel & _ & _ & ->).
  pose proof (length_named m) as Hn. rewrite decide_True, Nat.add_0_r in Hn by done.
  by rewrite Hn, load_records_done, delete_id.
Qed.

(** The state of a process in which the plugin [name] was made and opened the
    state file at [path]. *)
Definition reopen (openable : string → bool) (name path : string) : prog pstate unit :=
  csPlugin_new name;; SetStateFile alloc_max openable path.

Lemma restart_run s h openable name :
  fh_state s = Some h → state_fits (state s) → no_empty_key (state s) →
  openable (f_path h) = true →
  ∃ s1 s2, csPlugin_delete file_max s = Ok tt s1 ∧
    reopen openable name (f_path h) s1 = Ok tt s2 ∧
    state s2 = state s ∧ pl_name s2 = name ∧ is_Some (fh_state s2) ∧
    ∀ path, path ≠ f_path h → files s2 !! path = files s !! path.
Proof.
  intros Hh Hfits Hne Hopen. pose proof Hfits as (_ & _ & Hmax & _).
  set (s1 := set_state ∅ (set_fh None
    (written s (f_path h) (contents (f_path h) s) (encode (state s))))).
  assert (csPlugin_delete file_max s = Ok tt s1) as Hdel.
  { unfold csPlugin_delete, mbind, M_bind, modify. by rewrite (SaveState_run s h). }
  exists s1. unfold reopen, csPlugin_new, SetStateFile, mbind, M_bind, gets, modify, when.
  cbn. rewrite bool_decide_eq_false_2 by by rewrite lookup_insert_eq.
  rewrite Hopen. cbn.
  erewrite (load_saved _ (Stream (f_path h) 0) _ (state s)); try done.
  2: { unfold contents. cbn. by rewrite lookup_insert_eq. }
  eexists. split_done.
  intros path Hp. unfold loaded. cbn. by rewrite lookup_insert_ne.
Qed.

(** C6. Variables survive a restart: destroying a plugin whose state file is
    open writes all of them, whatever longer or shorter content the file had,
    and a plugin made later that opens the same file has exactly the same
    variables, provided none has an empty name; no other file changes. *)
Theorem state_survives_restart s h openable name :
  fh_state s = Some h → state_fits (state s) → no_empty_key (state s) →
  openable (f_path h) = true →
  ∃ s1 s2, csPlugin_delete file_max s = Ok tt s1 ∧
    reopen openable name (f_path h) s1 = Ok tt s2 ∧
    state s2 = state s ∧ pl_name s2 = name ∧ is_Some (fh_state s2) ∧
    ∀ path, path ≠ f_path h → files s2 !! path = files s !! path.
Proof. apply restart_run. Qed.

(** A variable with an empty name is counted but not written, so loading
    reads one record beyond what was saved: in a file with nothing behind the
    saved records it only loses that variable, but in a file that was longer
    before, a record left over from the older content becomes a variable. *)
Theorem empty_name_reads_stale s h c tail :
  fh_state s = Some h → state_fits (state s) → ¬ no_empty_key (state s) →
  contents (f_path h) s = c → tail = drop (length (encode (state s))) c →
  ∃ s1, SaveState file_max s = Ok tt s1 ∧
    (length tail < 8 → ∃ s2, LoadState alloc_max s1 = Ok tt s2 ∧
      state s2 = delete EmptyString (state s)) ∧
    (∀ kv rest, tail = encode_entry kv ++ rest → has_name kv = true →
      entry_fits kv → ∃ s2, LoadState alloc_max s1 = Ok tt s2 ∧
      state s2 = <[kv.1 := kv.2]> (delete EmptyString (state s))).
Proof.
  intros Hh Hfits Hne Hc Ht. pose proof Hfits as (_ & _ & Hmax & Ham).
  set (m := state s) in *. set (s1 := written s (f_path h) c (encode m)).
  exists s1. split. { unfold s1. rewrite <-Hc. by apply SaveState_run. }
  assert (contents (f_path h) s1 = encode m ++ tail) as Hc1.
  { unfold contents, s1. cbn. by rewrite lookup_insert_eq, Ht. }
  destruct (LoadState_encoded s1 (Stream (f_path h) (length (encode m))) m tail
    eq_refl Hc1 Hfits) as (fuel & Hfuel & Hpos & Hload).
  pose proof (length_named m) as Hn. rewrite decide_False in Hn by done.
  destruct fuel as [|fuel]; [lia|]. cbn [load_records] in Hload.
  rewrite (proj2 (Z.leb_gt _ _)) in Hload by lia. unfold mbind, M_bind in Hload.
  set (sl := loaded _ _ _) in Hload. assert (is_Some (fh_state sl)) as Hsl by by eexists.
  assert (remaining sl = tail) as Hrem.
  { unfold remaining, sl, loaded. cbn. unfold contents in *. cbn in *. rewrite Hc1.
    by rewrite drop_app_length. }
  rewrite Hload. split.
  - intros Hlen. exists (advance (length tail) sl). split; [|by rewrite advance_state].
    unfold load_record, read_size, mbind, M_bind. rewrite fread_run, Hrem by done.
    rewrite take_z_all by (unfold sizeof_size_t; lia).
    rewrite (proj2 (Nat.eqb_neq (length tail) sizeof_size_t)) by (unfold sizeof_size_t; lia).
    done.
  - intros [k v] rest Htl Hname Hfit. rewrite Htl in Hrem.
    rewrite (load_record_run sl (k, v) rest) by done. cbn.
    replace (Z.of_nat (length (named m)) + 1)%Z with (Z.of_nat (size m)) by lia.
    rewrite load_records_done. eexists. split; [done|]. by rewrite ?advance_state.
Qed.
End roundtrip.

(** *** A plugin with two variables and a state file that was longer before *)

Definition sample_vars : gmap string (list byte) :=
  {[ "loops" := le_bytes 8 42; "note" := str_bytes "hi" ]}.
Definition stale_entry : string * list byte := ("old", [x07]).
Definition sample_plugin (m : gmap string (list byte)) (behind : list byte) : pstate :=
  PState {[ "/var/p" := replicate (length (encode m)) x00 ++ behind; "/etc/x" := [x01] ]}
    "p" (Some (Stream "/var/p" 3)) m.

Lemma sample_fits k1 v1 k2 v2 :
  let m : gmap string (list byte) := {[ k1 := v1; k2 := v2 ]} in
  (Z.of_nat (String.length k1) ≤ 4096)%Z → (Z.of_nat (length v1) ≤ 4096)%Z →
  (Z.of_nat (String.length k2) ≤ 4096)%Z → (Z.of_nat (length v2) ≤ 4096)%Z →
  (Z.of_nat (size m) < 2 ^ 64)%Z → (Z.of_nat (length (encode m)) ≤ 4096)%Z →
  state_fits 4096 4096 m.
Proof.
  intros m H1 H2 H3 H4 Hs He. split; [|done]. intros k v. unfold m.
  rewrite lookup_insert_Some, lookup_singleton_Some.
  by intros [[<- <-]|[_ [<- <-]]].
Qed.

Ltac fits := apply sample_fits; vm_compute; discriminate || reflexivity.

Lemma state_survives_restart_witness :
  ∃ s1 s2, csPlugin_delete 4096 (sample_plugin sample_vars [xff; xff]) = Ok tt s1 ∧
    reopen 4096 (λ _, true) "p" "/var/p" s1 = Ok tt s2 ∧ state s2 = sample_vars.
Proof.
  destruct (state_survives_restart 4096 4096 (sample_plugin sample_vars [xff; xff])
    (Stream "/var/p" 3) (λ _, true) "p") as (s1 & s2 & Hdel & Hre & Hst & _).
  - reflexivity.
  - fits.
  - vm_compute. reflexivity.
  - reflexivity.
  - exists s1, s2. exact (conj Hdel (conj Hre Hst)).
Defined.

Definition sample_unnamed : pstate :=
  sample_plugin {[ EmptyString := [x01]; "k" := [x02] ]} (encode_entry stale_entry).

Lemma empty_name_reads_stale_witness :
  ∃ s1 s2, SaveState 4096 sample_unnamed = Ok tt s1 ∧ LoadState 4096 s1 = Ok tt s2 ∧
    state s2 = {[ "old" := [x07]; "k" := [x02] ]}.
Proof.
  destruct (empty_name_reads_stale 4096 4096 sample_unnamed (Stream "/var/p" 3)
    (contents "/var/p" sample_unnamed) (encode_entry stale_entry))
    as (s1 & Hsave & _ & Hstale).
  - reflexivity.
  - fits.
  - vm_compute. discriminate.
  - reflexivity.
  - vm_compute. reflexivity.
  - destruct (Hstale stale_entry []) as (s2 & Hload & Hst).
    + vm_compute. reflexivity.
    + reflexivity.
    + split; vm_compute; discriminate.
    + exists s1, s2. split; [exact Hsave|]. split; [exact Hload|].
      rewrite Hst. vm_compute. reflexivity.
Defined.

(** ** Typed variables *)

Lemma le_bytes_Z n z : (0 ≤ z < 256 ^ Z.of_nat n)%Z → le_val (le_bytes n z) = z.
Proof. apply le_val_bytes. Qed.

(** A variable gives back what was stored in it with the same type, a
    number is never read as one of another size, the copy of a byte array is
    cut to the caller's length, and no other variable changes. *)
Theorem vars_roundtrip (s : pstate) (key : string) :
  (∀ v, (0 ≤ v < 2 ^ 64)%Z → ∃ s', SetStateVar_ulong key v s = Ok tt s' ∧
    GetStateVar_ulong key s' = Ok (Some v) s' ∧ GetStateVar_float key s' = Ok None s' ∧
    delete key (state s') = delete key (state s)) ∧
  (∀ v, (0 ≤ v < 2 ^ 32)%Z → ∃ s', SetStateVar_float key v s = Ok tt s' ∧
    GetStateVar_float key s' = Ok (Some v) s' ∧ GetStateVar_ulong key s' = Ok None s' ∧
    delete key (state s') = delete key (state s)) ∧
  (∀ v, ∃ s', SetStateVar_string key v s = Ok tt s' ∧
    GetStateVar_string key s' = Ok (Some v) s' ∧
    delete key (state s') = delete key (state s)) ∧
  (∀ v n buf, n ≤ length buf → ∃ s',
    SetStateVar_bytes key (Z.of_nat (length v)) v s = Ok tt s' ∧
    GetStateVar_bytes key (Z.of_nat n) buf s' =
      Ok (Some (Z.of_nat (min n (length v)), take n v ++ drop (min n (length v)) buf)) s' ∧
    delete key (state s') = delete key (state s)).
Proof.
  split; [|split; [|split]].
  - intros v Hv. eexists. split; [done|].
    unfold GetStateVar_ulong, GetStateVar_float, mbind, M_bind, gets. cbn.
    rewrite lookup_insert_eq, length_le_bytes, le_bytes_Z, delete_insert_eq by exact Hv.
    by split_done.
  - intros v Hv. eexists. split; [done|].
    unfold GetStateVar_ulong, GetStateVar_float, mbind, M_bind, gets. cbn.
    rewrite lookup_insert_eq, length_le_bytes, le_bytes_Z, delete_insert_eq by exact Hv.
    by split_done.
  - intros v. eexists. split; [done|].
    unfold GetStateVar_string, mbind, M_bind, gets. cbn.
    rewrite lookup_insert_eq, length_str_bytes, bytes_str_bytes, delete_insert_eq.
    split; [|done]. by destruct v.
  - intros v n buf Hn. eexists. split.
    { unfold SetStateVar_bytes. by rewrite Z.ltb_irrefl, Nat2Z.id, firstn_all. }
    unfold GetStateVar_bytes, mbind, M_bind, gets. cbn.
    rewrite lookup_insert_eq, delete_insert_eq. split; [|done].
    replace (if (Z.of_nat (length v) <? Z.of_nat n)%Z then _ else _)
      with (Z.of_nat (min n (length v))).
    2: { case_match eqn:Hl; [apply Z.ltb_lt in Hl|apply Z.ltb_ge in Hl]; lia. }
    rewrite (proj2 (Z.ltb_ge _ _)) by lia. rewrite Nat2Z.id. unfold overwrite.
    assert (take (min n (length v)) v = take n v) as ->.
    { destruct (decide (n ≤ length v)); [by rewrite Nat.min_l|].
      rewrite Nat.min_r by lia. by rewrite !take_ge by lia. }
    cbn. by rewrite length_take.
Qed.

(** ** Saving is total *)

Section save.
Context (file_max : Z).

(** From [s] to [s'] only the file at [path] was written, through the stream. *)
Definition writes_to (path : string) (s s' : pstate) : Prop :=
  f_path <$> fh_state s' = Some path ∧ ∀ q, q ≠ path → files s' !! q = files s !! q.

Lemma writes_to_trans path s1 s2 s3 :
  writes_to path s1 s2 → writes_to path s2 s3 → writes_to path s1 s3.
Proof. intros [_ H1] [Hf H2]. split; [done|]. intros q Hq. by rewrite H2, H1. Qed.

Lemma write_all_total path bs s :
  f_path <$> fh_state s = Some path →
  ∃ b s', write_all file_max bs s = Ok b s' ∧ writes_to path s s'.
Proof.
  destruct s as [fs nm [h|] m]; cbn; [|done]. intros [= <-].
  unfold write_all, fwrite, stream, mbind, M_bind, gets, modify. cbn.
  eexists _, _. split; [done|]. split; [done|]. intros q Hq. cbn. by rewrite lookup_insert_ne.
Qed.

(** A write in a sequence that is left when it fails. *)
Lemma write_step path bs (rest : prog pstate unit) s :
  f_path <$> fh_state s = Some path →
  (∀ s', writes_to path s s' → ∃ s'', rest s' = Ok tt s'' ∧ writes_to path s' s'') →
  ∃ s'', (ok ← write_all file_max bs; if negb ok then mret tt else rest) s = Ok tt s'' ∧
    writes_to path s s''.
Proof.
  intros Hs Hrest. destruct (write_all_total path bs s Hs) as (b & s1 & Hrun & Hw).
  rewrite (bind_ok _ _ _ _ _ Hrun). destruct b; cbn [negb]; [|by exists s1].
  destruct (Hrest s1 Hw) as (s2 & Hr & Hw2). exists s2. split; [done|]. by eapply writes_to_trans.
Qed.

Lemma save_records_total path l s :
  f_path <$> fh_state s = Some path →
  ∃ s', save_records file_max l s = Ok tt s' ∧ writes_to path s s'.
Proof.
  revert s. induction l as [|[key value] l IH]; intros s Hs; [by exists s|]. cbn.
  destruct (String.length key =? 0)%nat; [by apply IH|].
  apply write_step; [done|]. intros s1 [Hs1 _]. apply write_step; [done|]. intros s2 [Hs2 _].
  apply write_step; [done|]. intros s3 [Hs3 _]. apply write_step; [done|]. intros s4 [Hs4 _].
  by apply IH.
Qed.

(** The destructor returns, whatever the file system makes of what it writes,
    and only the plugin's own file can change. *)
Lemma csPlugin_delete_total s :
  ∃ s', csPlugin_delete file_max s = Ok tt s' ∧
    ∀ q, f_path <$> fh_state s ≠ Some q → files s' !! q = files s !! q.
Proof.
  enough (∃ s', SaveState file_max s = Ok tt s' ∧
    ∀ q, f_path <$> fh_state s ≠ Some q → files s' !! q = files s !! q) as (s' & Hs' & Hq).
  { unfold csPlugin_delete. rewrite (bind_ok _ _ _ _ _ Hs'). eexists. split; [done|exact Hq]. }
  unfold SaveState. rewrite (bind_ok _ _ _ (fh_state s) s) by done.
  destruct (fh_state s) as [h|] eqn:Hh; [|by exists s]. cbn.
  set (s0 := set_fh (Some (Stream (f_path h) 0)) s).
  rewrite (bind_ok _ _ _ tt s0).
  2:{ unfold rewind, stream, mbind, M_bind, modify. by rewrite Hh. }
  rewrite (bind_ok _ _ _ (state s) s0) by done.
  destruct (write_step (f_path h) (size_bytes (size (state s)))
    (save_records file_max (entries (state s))) s0 eq_refl) as (s1 & Hrun & _ & Hq).
  { intros s1 [Hs1 _]. by apply save_records_total. }
  exists s1. split; [exact Hrun|]. intros q Hne. rewrite Hq; [done|]. congruence.
Qed.
End save.

(** ** Opening state files *)

(** Files that do not make [LoadState] ask for an array that cannot be
    allocated. *)
Definition loadable (alloc_max : Z) (c : list byte) : Prop :=
  ∀ s h, fh_state s = Some h → contents (f_path h) s = c →
    LoadState alloc_max s ≠ Stuck BadAlloc.
Definition disk_loadable (alloc_max : Z) (disk : gmap string (list byte)) : Prop :=
  map_Forall (λ _, loadable alloc_max) disk.

Lemma read_size_cases s :
  is_Some (fh_state s) →
  ∃ r n, read_size s = Ok r (advance n s) ∧ n ≤ length (remaining s) ∧ (is_Some r → n = 8).
Proof.
  intros Hs. destruct (reads_size s Hs) as [Hb|(r & n & Hr & Hn & Hsize)].
  - unfold read_size, mbind, M_bind in Hb. by rewrite fread_run in Hb.
  - exists r, n. split_and!; [done..|]. intros [z Hz]. by apply (Hsize z).
Qed.

(** A file shorter than two sizes has no record. *)
Lemma loadable_short alloc_max c : length c < 16 → loadable alloc_max c.
Proof.
  intros Hlen s h Hh Hc. unfold LoadState, rewind, stream, mbind, M_bind, gets, modify.
  rewrite Hh. cbn. rewrite Hh. cbn.
  set (s0 := set_state ∅ (set_fh (Some (Stream (f_path h) 0)) s)).
  assert (is_Some (fh_state s0)) as Hs0 by by eexists.
  assert (remaining s0 = c) as Hrem by exact Hc.
  destruct (read_size_cases s0 Hs0) as (r & n & -> & _ & Hsize).
  destruct r as [records|]; [|done]. rewrite (Hsize ltac:(by eexists)).
  destruct (length (contents _ _)) as [|fuel]; cbn [load_records];
    (destruct (records <=? 0)%Z; [done|]); [done|].
  destruct (read_size_cases (advance 8 s0)) as (r & k & Hr & Hk & Hsz); [by apply advance_open|].
  unfold load_record, mbind at 1, M_bind at 1. rewrite (bind_ok _ _ _ _ _ Hr). destruct r; [|done].
  rewrite (Hsz ltac:(by eexists)), remaining_advance, length_drop, Hrem in Hk. lia.
Qed.

Lemma loadable_on alloc_max disk path :
  disk_loadable alloc_max disk → loadable alloc_max (default [] (disk !! path)).
Proof.
  intros Hd. destruct (disk !! path) as [c|] eqn:Hp; [by apply (Hd path)|].
  apply loadable_short. cbn. lia.
Qed.

Lemma LoadState_run alloc_max s :
  disk_loadable alloc_max (files s) →
  ∃ s', LoadState alloc_max s = Ok tt s' ∧ same_disk s s'.
Proof.
  intros Hd. destruct (LoadState_cases alloc_max s) as [Hb|(s' & Hrun & Hs & _)]; [|by exists s'].
  destruct (fh_state s) as [h|] eqn:Hh.
  - by destruct (loadable_on alloc_max (files s) (f_path h) Hd s h Hh).
  - unfold LoadState, mbind, M_bind, gets in Hb. by rewrite Hh in Hb.
Qed.

Lemma SetStateFile_run alloc_max openable path s :
  disk_loadable alloc_max (files s) →
  ∃ s', SetStateFile alloc_max openable path s = Ok tt s' ∧ pl_name s' = pl_name s ∧
    disk_loadable alloc_max (files s').
Proof.
  intros Hd. unfold SetStateFile. rewrite (bind_ok _ _ _ (files s) s) by done.
  destruct (openable path); cbn [negb]; [|by eexists].
  set (fs := if bool_decide (files s !! path = None) then <[path := []]> (files s) else files s).
  assert (disk_loadable alloc_max fs) as Hfs.
  { unfold fs. case_bool_decide as Hp; [|done].
    apply map_Forall_insert_2; [apply loadable_short; cbn; lia|done]. }
  rewrite (bind_ok _ _ _ tt (set_files fs s)).
  2:{ unfold fs. case_bool_decide; [done|]. by destruct s. }
  rewrite (bind_ok _ _ _ tt (PState fs (pl_name s) (Some (Stream path 0)) (state s))) by done.
  destruct (LoadState_run alloc_max (PState fs (pl_name s) (Some (Stream path 0)) (state s)) Hfs)
    as (s' & Hrun & Hf & Hn & _).
  exists s'. split_and!; [done|done|]. by rewrite Hf.
Qed.

(** ** The loader *)

Lemma opened_again (h : Z) (hs : gmultiset Z) : ({[+ h +]} ⊎ hs) ∖ {[+ h +]} = hs.
Proof. multiset_solver. Qed.
