(* ===== verification/Util.v ===== *)
(** * Utilities (csutil.cpp, csutil.h)

    Regular expressions, command execution, hexadecimal text, hex dumps, user
    and group look-ups, SHA-1 and the locale.  The critical section of the same
    file is in [Event], whose clients use it.  The C library's matcher, user
    database and pipes, and OpenSSL, give their results as arguments. *)

From S2P Require Import Prelude Exception Bytes.
From Stdlib Require Import Strings.Ascii.

(** ** Characters *)

#[global] Arguments Ascii.eqb : simpl never.

Definition chars (s : string) : list ascii := String.list_ascii_of_string s.
Definition of_chars (l : list ascii) : string := String.string_of_list_ascii l.
Definition code (c : ascii) : Z := Z.of_N (Ascii.N_of_ascii c).
Definition NUL : ascii := Ascii.ascii_of_N 0.
#[global] Arguments NUL : simpl never.

Lemma chars_of l : chars (of_chars l) = l.
Proof. apply String.list_ascii_of_string_of_list_ascii. Qed.
Lemma of_chars_of s : of_chars (chars s) = s.
Proof. apply String.string_of_list_ascii_of_string. Qed.

(** ** Regular expressions *)

(** A compiled expression: [nmatch], and [regexec] for each subject: the error
    number, or the offsets [rm_so], [rm_eo] of the [nmatch] groups. *)
Record csRegEx := RegEx {
  nmatch : nat;
  regexec : list ascii → Z + list (Z * Z);
  match_ : list (Z * Z);                 (* regmatch_t *match *)
  matches : list (option (list ascii));  (* char **matches *)
}.

(** [regcomp] and [regerror]: an error text, which may be missing, or a
    matcher. *)
Definition csRegEx_new (expr : string)
    (regcomp : option string + (list ascii → Z + list (Z * Z))) (nmatch : nat) :
    csRegEx + csException :=
  match regcomp with
  | inl (Some err) => inr (csException_str_str expr err)
  | inl None => inr (csException_str "Unknown regex compilation error")
  | inr exec => inl (RegEx nmatch exec [] (replicate nmatch None))
  end.

(** The bytes [rm_so .. rm_eo) of the subject. *)
Definition group_text (subject : list ascii) (g : Z * Z) : option (list ascii) :=
  let len := (g.2 - g.1)%Z in
  if (len <? 0)%Z then None
  else if (len =? 0)%Z then Some []
  else if (g.1 <? 0)%Z || (Z.of_nat (length subject) <? g.2)%Z then None
  else Some (take (Z.to_nat len) (drop (Z.to_nat g.1) subject)).

(** [None] is a null subject; the result is [rc]. *)
Definition Execute (subject : option (list ascii)) : prog csRegEx Z :=
  match subject with
  | None => throw (csException_str "Invalid regex subject")
  | Some subject =>
      r ← gets id;
      match regexec r subject with
      | inl rc =>
          modify (λ r, RegEx (nmatch r) (regexec r) (match_ r)
            (replicate (nmatch r) None));;
          mret rc
      | inr gs =>
          let texts := group_text subject <$> gs in
          if bool_decide (None ∈ texts) then stuck OutOfBounds
          else
            modify (λ r, RegEx (nmatch r) (regexec r) gs texts);;
            mret 0%Z
      end
  end.

(** [None] is a null pointer.  The offsets are not initialised before the
    first match; the pointers are null then, so they do not matter. *)
Definition GetMatch (match_no : nat) : prog csRegEx (option (list ascii)) :=
  r ← gets id;
  if (nmatch r <=? match_no)%nat
  then throw (csException_str "Invalid regex match offset")
  else match match_ r !! match_no with
  | Some g => if (g.1 =? -1)%Z then mret None
              else mret (mjoin (matches r !! match_no))
  | None => mret (mjoin (matches r !! match_no))
  end.

(** ** Commands *)

Definition newline : ascii := Ascii.ascii_of_N 10.
#[global] Arguments newline : simpl never.

(** [fgets] from what is left of a pipe: at most [n] characters, to the end of
    the line, and the rest; [None] at the end. *)
Fixpoint fgets_chars (n : nat) (s : list ascii) : list ascii * list ascii :=
  match n, s with
  | S n, c :: s' =>
      if Ascii.eqb c newline then ([c], s')
      else let r := fgets_chars n s' in (c :: r.1, r.2)
  | _, _ => ([], s)
  end.

(** The text a [char *] shows: up to the first NUL. *)
Fixpoint c_str (s : list ascii) : list ascii :=
  match s with
  | [] => []
  | c :: s' => if Ascii.eqb c NUL then [] else c :: c_str s'
  end.

(** The read loop, with the lines it appends to [output]; the output of the
    command is the fuel. *)
Fixpoint execute_loop (fuel page_size : nat) (s : list ascii) : option (list (list ascii)) :=
  match s with
  | [] => Some []
  | _ =>
      match fuel with
      | O => None
      | S fuel =>
          let r := fgets_chars (page_size - 1) s in
          (c_str r.1 ::.) <$> execute_loop fuel page_size r.2
      end
  end.

(** [csExecute(command, output)]: [popen] is [errno], or the output of the
    command and the status [pclose] gives. *)
Definition csExecute (page_size : nat) (popen : Z + (list ascii * Z))
    (output : list (list ascii)) : option (Z * list (list ascii)) :=
  match popen with
  | inl errno => Some (errno, output)
  | inr (out, status) =>
      lines ← execute_loop (length out) page_size out;
      Some (status, output ++ lines)
  end.

(** [csExecute(command)]: the same loop, the lines are dropped. *)
Definition csExecute_quiet (page_size : nat) (popen : Z + (list ascii * Z)) : option Z :=
  match popen with
  | inl errno => Some errno
  | inr (out, status) => _ ← execute_loop (length out) page_size out; Some status
  end.

(** ** Hexadecimal text *)

Definition hex_char (upper : bool) (d : Z) : ascii :=
  Ascii.ascii_of_N (Z.to_N (if (d <? 10)%Z then 48 + d
                            else (if upper then 55 else 87) + d)).

(** [%02x] and [%02X] *)
Definition hex2 (upper : bool) (b : byte) : list ascii :=
  [hex_char upper (byte_val b / 16); hex_char upper (byte_val b mod 16)].

Definition hex_val (c : ascii) : option Z :=
  let n := code c in
  if (48 <=? n)%Z && (n <=? 57)%Z then Some (n - 48)%Z
  else if (65 <=? n)%Z && (n <=? 70)%Z then Some (n - 55)%Z
  else if (97 <=? n)%Z && (n <=? 102)%Z then Some (n - 87)%Z
  else None.

Definition csBinaryToHex (bin : list byte) : list ascii := mjoin (hex2 false <$> bin).

(** The version for a [char *]: the buffer with the text written into it;
    [sprintf] also writes a NUL behind each pair. *)
Fixpoint csBinaryToHex_buf (bin : list byte) (hex : list ascii) : option (list ascii) :=
  match bin with
  | [] => Some hex
  | b :: bin =>
      match hex with
      | _ :: _ :: _ :: hex =>
          r ← csBinaryToHex_buf bin (NUL :: hex); Some (hex2 false b ++ r)
      | _ => None
      end
  end.

Definition isspace (c : ascii) : bool :=
  (code c =? 32)%Z || ((9 <=? code c)%Z && (code c <=? 13)%Z).

Fixpoint skip_space (s : list ascii) : list ascii :=
  match s with
  | c :: s' => if isspace c then skip_space s' else s
  | [] => []
  end.

(** Up to [w] digits: how many, and their value. *)
Fixpoint scan_digits (w : nat) (acc : Z) (s : list ascii) : nat * Z :=
  match w, s with
  | S w, c :: s' =>
      match hex_val c with
      | Some d => let r := scan_digits w (16 * acc + d)%Z s' in (S r.1, r.2)
      | None => (0, acc)
      end
  | _, _ => (0, acc)
  end.

Definition is_char (n : Z) (c : ascii) : bool := (code c =? n)%Z.

(** [sscanf(s, "%2x", &n)]: white space is skipped and does not count, a sign
    does; [lone_0x] says whether the C library takes "0x" for a number. *)
Definition sscanf_2x (lone_0x : bool) (s : list ascii) : option Z :=
  let s := skip_space s in
  let '(neg, w, s) :=
    match s with
    | c :: s' =>
        if is_char 45 c then (true, 1, s')
        else if is_char 43 c then (false, 1, s')
        else (false, 2, s)
    | [] => (false, 2, [])
    end in
  let prefix :=
    match s with
    | c :: d :: _ => (w =? 2)%nat && is_char 48 c && (is_char 120 d || is_char 88 d)
    | _ => false
    end in
  if prefix then (if lone_0x then Some 0%Z else None)
  else
    let r := scan_digits w 0 s in
    if (r.1 =? 0)%nat then None
    else Some ((if neg : bool then - r.2 else r.2) mod 2 ^ 32)%Z.

(** The loop of [csHexToBinary]: [n] pairs are left, [bin[j]] is next. *)
Fixpoint hex_loop (lone_0x : bool) (n j : nat) (s : list ascii) :
    prog (list byte) unit :=
  match n with
  | O => mret tt
  | S n =>
      match sscanf_2x lone_0x s with
      | None => throw (csException_int_str EINVAL "Hex string parse error")
      | Some v =>
          bin ← gets id;
          if (length bin <=? j)%nat then stuck OutOfBounds
          else
            modify (<[j := byte_of v]>);;
            hex_loop lone_0x n (S j) (drop 2 s)
      end
  end.

(** The state is the caller's buffer [bin]. *)
Definition csHexToBinary (lone_0x : bool) (hex : list ascii) (n : nat) :
    prog (list byte) unit :=
  if negb (length hex =? n * 2)%nat
  then throw (csException_int_str EINVAL "Invalid hex string length")
  else hex_loop lone_0x n 0 hex.

(** ** The hex dump *)

(** [strncat(dst, src, sizeof(dst) - strlen(dst) - 1)] *)
Definition strncat (size : nat) (dst src : list ascii) : list ascii :=
  dst ++ take (size - length dst - 1) src.

(** [%.5x]: at least five digits. *)
Fixpoint hex_digits (fuel : nat) (z : Z) : list ascii :=
  match fuel with
  | O => []
  | S fuel => if (z =? 0)%Z then []
              else hex_digits fuel (z / 16) ++ [hex_char false (z mod 16)]
  end.
Definition zero_pad (n : nat) (s : list ascii) : list ascii :=
  replicate (n - length s) (hex_char false 0) ++ s.
Definition addr_text (off : Z) : list ascii := zero_pad 5 (hex_digits 8 off).

Definition space : ascii := Ascii.ascii_of_N 32.
#[global] Arguments space : simpl never.
Definition pad_left (n : nat) (s : list ascii) : list ascii :=
  replicate (n - length s) space ++ s.
Definition pad_right (n : nat) (s : list ascii) : list ascii :=
  s ++ replicate (n - length s) space.

(** [fprintf(fh, "%5.5s:  %-49.49s %s\n", addrstr, hexstr, charstr)] *)
Definition dump_line (addrstr hexstr charstr : list ascii) : list ascii :=
  pad_left 5 (take 5 addrstr) ++ chars ":  " ++ pad_right 49 (take 49 hexstr) ++
  [space] ++ charstr ++ [newline].

Definition isprint (b : byte) : bool := (32 <=? byte_val b)%Z && (byte_val b <=? 126)%Z.
Definition shown (b : byte) : ascii :=
  if isprint b then Ascii.ascii_of_N (Z.to_N (byte_val b)) else Ascii.ascii_of_N 46.

Record dump_state := DumpState {
  addrstr : list ascii;
  hexstr : list ascii;
  charstr : list ascii;
  printed : list (list ascii);
}.

(** One pass of the loop: byte [b], number [n] from 1. *)
Definition dump_byte (n : nat) (b : byte) (s : dump_state) : dump_state :=
  let addr := if (n mod 16 =? 1)%nat then addr_text (Z.of_nat (n - 1)) else addrstr s in
  let hex := strncat 53 (hexstr s) (hex2 true b ++ [space]) in
  let txt := strncat 21 (charstr s) [shown b] in
  if (n mod 16 =? 0)%nat
  then DumpState addr [] [] (printed s ++ [dump_line addr hex txt])
  else if (n mod 8 =? 0)%nat
  then DumpState addr (strncat 53 hex [space]) txt (printed s)
  else DumpState addr hex txt (printed s).

Fixpoint dump_loop (n : nat) (data : list byte) (s : dump_state) : dump_state :=
  match data with
  | [] => s
  | b :: data => dump_loop (S n) data (dump_byte n b s)
  end.

(** What follows the loop. *)
Definition dump_rest (s : dump_state) : list (list ascii) :=
  if (0 <? length (hexstr s))%nat
  then printed s ++ [dump_line (addrstr s) (hexstr s) (charstr s)]
  else printed s.

(** For fewer than 2^32 - 1 bytes, so that the counter does not wrap. *)
Definition csHexDump (data : list byte) : list (list ascii) :=
  dump_rest (dump_loop 1 data (DumpState [] [] [] [])).

(** ** Users and groups *)

(** [getpwnam_r] and its like: [rc], and the entry found. *)
Definition csGetUserId (user : string) (getpwnam_r : string → Z * option Z) :
    Z + csException :=
  match getpwnam_r user with
  | (_, Some uid) => inl uid
  | (rc, None) =>
      inr (if (rc =? 0)%Z then csException_str_str "User not found" user
           else csException_int_str rc "getpwnam_r")
  end.

Definition csGetUserName (uid : Z) (getpwuid_r : Z → Z * option string) :
    string + csException :=
  match getpwuid_r uid with
  | (_, Some name) => inl name
  | (rc, None) =>
      inr (if (rc =? 0)%Z then csException_int_str EINVAL "User ID not found"
           else csException_int_str rc "getpwuid_r")
  end.

Definition csGetGroupId (group : string) (getgrnam_r : string → Z * option Z) :
    Z + csException :=
  match getgrnam_r group with
  | (_, Some gid) => inl gid
  | (rc, None) =>
      inr (if (rc =? 0)%Z then csException_str_str "Group not found" group
           else csException_int_str rc "getgrnam_r")
  end.

Definition csGetGroupName (gid : Z) (getgrgid_r : Z → Z * option string) :
    string + csException :=
  match getgrgid_r gid with
  | (_, Some name) => inl name
  | (rc, None) =>
      inr (if (rc =? 0)%Z then csException_int_str EINVAL "Group ID not found"
           else csException_int_str rc "getgrgid_r")
  end.

(** ** SHA-1 *)

Section sha1.
(** OpenSSL's context and routines; [SHA1_Init] may fail. *)
Context {SHA_CTX : Type} (SHA1_Init : option SHA_CTX)
  (SHA1_Update : SHA_CTX → list byte → SHA_CTX) (SHA1_Final : SHA_CTX → list byte).

(** The loop over the file: each [fread] takes a page, and [feof] is tested
    before the next; the file's length is the fuel. *)
Fixpoint sha1_loop (fuel page_size : nat) (ctx : SHA_CTX) (data : list byte) :
    option SHA_CTX :=
  let buffer := take page_size data in
  if (length buffer =? 0)%nat then Some ctx
  else
    let ctx := SHA1_Update ctx buffer in
    if (length buffer <? page_size)%nat then Some ctx
    else match fuel with
    | O => None
    | S fuel => sha1_loop fuel page_size ctx (drop page_size data)
    end.

(** [fopen] is [errno], or the bytes of the file; the outer [None] is a loop
    that runs out of fuel. *)
Definition csSHA1_file (page_size : nat) (filename : string)
    (fopen : Z + list byte) : option (list byte + csException) :=
  match fopen with
  | inl errno => Some (inr (csException_int_str errno filename))
  | inr data =>
      match SHA1_Init with
      | None => Some (inr (csException_int_str EINVAL "SHA1_Init"))
      | Some ctx =>
          ctx ← sha1_loop (length data) page_size ctx data;
          Some (inl (SHA1_Final ctx))
      end
  end.

Definition csSHA1_buffer (buffer : list byte) : list byte + csException :=
  match SHA1_Init with
  | None => inr (csException_int_str EINVAL "SHA1_Init")
  | Some ctx => inl (SHA1_Final (SHA1_Update ctx buffer))
  end.
End sha1.

(** ** Locale and page size *)

Definition csGetLocale (getenv : string → option string) : string :=
  match getenv "LC_ALL" with
  | Some v => v
  | None => match getenv "LANG" with
    | Some v => v
    | None => "en_US"
    end
  end.

Definition csGetPageSize (getpagesize : option Z) : Z := default 4096%Z getpagesize.
