(* ===== verification/UtilProps.v ===== *)
(** * Utilities: properties

    Hexadecimal text and dumps, the lines of a command's output, SHA-1 of a
    file against SHA-1 of a buffer, and the groups of a regular expression. *)

From S2P Require Import Prelude Exception Bytes Util.
From Stdlib Require Import Strings.Ascii.

(** ** Hexadecimal text *)

Lemma hex_val_char upper d : (0 ≤ d < 16)%Z → hex_val (hex_char upper d) = Some d.
Proof.
  intros Hd. rewrite <-(Z2Nat.id d) by lia. assert (Z.to_nat d < 16) as Hn by lia.
  revert Hn. generalize (Z.to_nat d). intros n Hn. clear d Hd.
  do 16 (destruct n as [|n]; [by destruct upper|]). lia.
Qed.

Lemma byte_digits b :
  (0 ≤ byte_val b / 16 < 16)%Z ∧ (0 ≤ byte_val b mod 16 < 16)%Z ∧
  (16 * (byte_val b / 16) + byte_val b mod 16 = byte_val b)%Z.
Proof.
  pose proof (byte_val_range b). pose proof (Z.div_mod (byte_val b) 16 ltac:(lia)).
  pose proof (Z.mod_pos_bound (byte_val b) 16 ltac:(lia)). split_and!; try lia.
Qed.

(** A pair of digits is no white space, sign or prefix. *)
Lemma digit_plain c d :
  hex_val c = Some d → isspace c = false ∧ is_char 45 c = false ∧ is_char 43 c = false ∧
    is_char 120 c = false ∧ is_char 88 c = false.
Proof.
  unfold hex_val, isspace, is_char. intros Hc.
  rewrite !orb_false_iff, andb_false_iff, !Z.eqb_neq, !Z.leb_gt.
  repeat case_match; simplify_eq; rewrite andb_true_iff, !Z.leb_le in *; lia.
Qed.

Lemma sscanf_pair lone c1 c2 d1 d2 s :
  hex_val c1 = Some d1 → hex_val c2 = Some d2 → (0 ≤ d1 < 16)%Z → (0 ≤ d2 < 16)%Z →
  sscanf_2x lone (c1 :: c2 :: s) = Some (16 * d1 + d2)%Z.
Proof.
  intros H1 H2 Hd1 Hd2. destruct (digit_plain c1 d1 H1) as (Hs & Hm & Hp & _).
  destruct (digit_plain c2 d2 H2) as (_ & _ & _ & Hx & HX).
  unfold sscanf_2x. cbn [skip_space]. rewrite Hs, Hm, Hp, Hx, HX. cbn.
  rewrite andb_false_r, H1, H2. cbn. f_equal. rewrite Z.mod_small; lia.
Qed.

Definition hex_digit (c : ascii) : Prop := is_Some (hex_val c).

(** The value of a text of pairs of digits. *)
Fixpoint pairs_val (s : list ascii) : list byte :=
  match s with
  | c1 :: c2 :: s =>
      byte_of (16 * default 0 (hex_val c1) + default 0 (hex_val c2))%Z :: pairs_val s
  | _ => []
  end.

Lemma hex_val_range c d : hex_val c = Some d → (0 ≤ d < 16)%Z.
Proof.
  unfold hex_val. repeat case_match; intros ?; simplify_eq;
    rewrite andb_true_iff, !Z.leb_le in *; lia.
Qed.

Lemma hex_loop_run lone s pre mid post :
  length s = length mid * 2 → Forall hex_digit s →
  hex_loop lone (length mid) (length pre) s (pre ++ mid ++ post) =
    Ok tt (pre ++ pairs_val s ++ post).
Proof.
  revert pre s. induction mid as [|m mid IH]; intros pre s Hs Hd.
  { by destruct s. }
  destruct s as [|c1 [|c2 s]]; try (cbn in Hs; lia).
  apply Forall_cons in Hd as [[d1 H1] [[d2 H2] Hd]%Forall_cons].
  cbn [length hex_loop]. rewrite (sscanf_pair lone c1 c2 d1 d2) by eauto using hex_val_range.
  unfold mbind, M_bind, gets, modify, id. rewrite (proj2 (Nat.leb_gt _ _))
    by (rewrite !length_app; cbn; lia).
  cbn [drop pairs_val]. rewrite H1, H2. cbn [default from_option id].
  rewrite insert_app_r_alt, Nat.sub_diag by lia. cbn.
  rewrite (cons_middle _ pre (mid ++ post)), (cons_middle _ pre (pairs_val s ++ post)), !app_assoc.
  rewrite <-(app_assoc _ mid), <-(app_assoc _ (pairs_val s)).
  rewrite <-IH by (cbn in *; done || lia). by rewrite length_app, Nat.add_comm.
Qed.

Lemma csHexToBinary_run lone s bin post :
  length s = length bin * 2 → Forall hex_digit s →
  csHexToBinary lone s (length bin) (bin ++ post) = Ok tt (pairs_val s ++ post).
Proof.
  intros Hs Hd. unfold csHexToBinary. rewrite (proj2 (Nat.eqb_eq _ _)) by done. cbn.
  apply (hex_loop_run lone s [] bin post Hs Hd).
Qed.

Lemma length_csBinaryToHex bin : length (csBinaryToHex bin) = length bin * 2.
Proof. induction bin as [|b bin IH]; [done|]. cbn. by rewrite <-IH. Qed.

Lemma csBinaryToHex_digits bin : Forall hex_digit (csBinaryToHex bin).
Proof.
  induction bin as [|b bin IH]; [constructor|].
  pose proof (byte_digits b) as (H1 & H2 & _).
  repeat constructor; [| |exact IH]; unfold hex_digit; by rewrite hex_val_char.
Qed.

Lemma pairs_val_csBinaryToHex bin : pairs_val (csBinaryToHex bin) = bin.
Proof.
  induction bin as [|b bin IH]; [done|]. pose proof (byte_digits b) as (H1 & H2 & H3).
  change (csBinaryToHex (b :: bin)) with (hex2 false b ++ csBinaryToHex bin).
  cbn [hex2 app pairs_val]. rewrite !hex_val_char by done. cbn [default from_option id].
  by rewrite IH, H3, byte_of_val.
Qed.

Definition lower (c : ascii) : ascii :=
  if (65 <=? code c)%Z && (code c <=? 70)%Z
  then Ascii.ascii_of_N (Ascii.N_of_ascii c + 32) else c.

Lemma hex_char_val c d : hex_val c = Some d → hex_char false d = lower c.
Proof.
  intros Hc. destruct c as [[] [] [] [] [] [] [] []]; try done; by injection Hc as <-.
Qed.

Lemma hex_of_pairs s :
  Forall hex_digit s → Nat.even (length s) = true →
  csBinaryToHex (pairs_val s) = lower <$> s.
Proof.
  revert s. fix IH 1. intros [|c1 [|c2 s]]; [done|done|].
  intros [[d1 H1] [[d2 H2] Hd]%Forall_cons]%Forall_cons Hev.
  cbn [pairs_val]. rewrite H1, H2. cbn [default from_option id].
  pose proof (hex_val_range _ _ H1). pose proof (hex_val_range _ _ H2).
  change (csBinaryToHex (?b :: ?l)) with (hex2 false b ++ csBinaryToHex l).
  unfold hex2. rewrite byte_val_of, (Z.mod_small _ 256) by lia.
  replace ((16 * d1 + d2) / 16)%Z with d1
    by (rewrite Z.mul_comm, Z.div_add_l, Z.div_small by lia; lia).
  replace ((16 * d1 + d2) mod 16)%Z with d2
    by (rewrite Z.add_comm, Z.mul_comm, Z.mod_add, Z.mod_small by lia; lia).
  rewrite (hex_char_val _ _ H1), (hex_char_val _ _ H2), (IH s Hd Hev). done.
Qed.

(** C34. Bytes and their hexadecimal text are in bijection: parsing the text of
    [bin] gives [bin] back, in a buffer of exactly that length and without
    touching what lies behind it; and printing what a text of digits parses to
    gives the text in lower case.  A text of any other length than two digits
    a byte is refused before the buffer is touched. *)
Theorem hex_roundtrip (lone : bool) (bin buf post : list byte) (hex : list ascii) n :
  length buf = length bin →
  csHexToBinary lone (csBinaryToHex bin) (length bin) (buf ++ post) = Ok tt (bin ++ post) ∧
  (Forall hex_digit hex → length hex = length buf * 2 →
    ∃ out, csHexToBinary lone hex (length buf) (buf ++ post) = Ok tt (out ++ post) ∧
      csBinaryToHex out = lower <$> hex) ∧
  (length hex ≠ n * 2 → csHexToBinary lone hex n buf =
    Throw (csException_int_str EINVAL "Invalid hex string length") buf).
Proof.
  intros Hlen. split; [|split].
  - rewrite <-Hlen, csHexToBinary_run.
    + by rewrite pairs_val_csBinaryToHex.
    + by rewrite length_csBinaryToHex, Hlen.
    + apply csBinaryToHex_digits.
  - intros Hd Hl. eexists. split; [by apply csHexToBinary_run|].
    apply hex_of_pairs; [done|]. rewrite Hl. apply Nat.even_spec. exists (length buf). lia.
  - intros Hl. unfold csHexToBinary. by rewrite (proj2 (Nat.eqb_neq _ _)).
Qed.

Lemma hex_roundtrip_witness :
  csHexToBinary false (csBinaryToHex [x00; xaf]) 2 [x11; x22; x33] = Ok tt [x00; xaf; x33] ∧
  (∃ out, csHexToBinary false (chars "0aFf") 2 [x11; x22; x33] = Ok tt (out ++ [x33]) ∧
    csBinaryToHex out = chars "0aff").
Proof.
  destruct (hex_roundtrip false [x00; xaf] [x11; x22] [x33] (chars "0aFf") 7 eq_refl)
    as (H1 & H2 & _).
  split; [exact H1|]. destruct H2 as (out & H2 & H3);
    [repeat (apply List.Forall_cons; [by eexists|]); apply List.Forall_nil|done|].
  by exists out.
Defined.

(** Malformed text gets through: [sscanf] skips white space that it does
    not count and takes a sign, so a text of the right length that holds blanks
    or signs is accepted, with bytes that are not those of any two characters
    of it in order. *)
Lemma hex_accepts_malformed lone :
  csHexToBinary lone (chars "  12") 2 [x00; x00] = Ok tt [x12; x12] ∧
  csHexToBinary lone (chars "-1+f") 2 [x00; x00] = Ok tt [xff; x0f] ∧
  csHexToBinary lone (chars "g012") 2 [x00; x00] =
    Throw (csException_int_str EINVAL "Hex string parse error") [x00; x00].
Proof. split; [|split]; by vm_compute. Qed.

(** ** Hexadecimal text in a character buffer *)

(** The [char *] version of [csBinaryToHex] needs room for the terminating
    NUL: it stays inside a buffer of [2 n + 1] characters and writes the same
    text as the [string] version and a NUL; a buffer of [2 n] is overrun. *)
Lemma csBinaryToHex_buf_bound (bin : list byte) (hex : list ascii) :
  bin ≠ [] →
  (length bin * 2 < length hex →
    csBinaryToHex_buf bin hex =
      Some (csBinaryToHex bin ++ [NUL] ++ drop (length bin * 2 + 1) hex)) ∧
  (length hex ≤ length bin * 2 → csBinaryToHex_buf bin hex = None).
Proof.
  intros Hne. revert hex. induction bin as [|b bin IH]; [done|]. intros hex.
  destruct hex as [|h1 [|h2 [|h3 hex]]]; try (cbn; split; [lia|done]).
  destruct bin as [|b' bin]. { cbn. by split; [|lia]. }
  specialize (IH ltac:(done) (NUL :: hex)) as [IH1 IH2]. cbn [length] in *.
  change (csBinaryToHex_buf (b :: b' :: bin) (h1 :: h2 :: h3 :: hex)) with
    (r ← csBinaryToHex_buf (b' :: bin) (NUL :: hex); Some (hex2 false b ++ r)).
  split; intros Hl.
  - rewrite IH1 by lia. done.
  - by rewrite IH2 by lia.
Qed.

(** ** Hex dumps *)

Definition hex_sp (b : byte) : list ascii := hex2 true b ++ [space].
Definition row_hex (row : list byte) : list ascii :=
  mjoin (hex_sp <$> take 8 row) ++ (if 8 <=? length row then [space] else []) ++
  mjoin (hex_sp <$> drop 8 row).

Definition row_line (off : nat) (row : list byte) : list ascii :=
  dump_line (addr_text (Z.of_nat off)) (row_hex row) (shown <$> row).

(** The dump as it is meant: a line for every sixteen bytes. *)
Fixpoint dump_rows (fuel off : nat) (data : list byte) : list (list ascii) :=
  match fuel, data with
  | S fuel, _ :: _ =>
      row_line off (take 16 data) :: dump_rows fuel (off + 16) (drop 16 data)
  | _, _ => []
  end.

Lemma dump_loop_app n l1 l2 s :
  dump_loop n (l1 ++ l2) s = dump_loop (n + length l1) l2 (dump_loop n l1 s).
Proof.
  revert n s. induction l1 as [|b l1 IH]; intros n s; cbn; [by rewrite Nat.add_0_r|].
  rewrite IH. by rewrite Nat.add_succ_comm.
Qed.

Lemma length_hex_row l : length (mjoin (hex_sp <$> l)) = 3 * length l.
Proof.
  induction l as [|b l IH]; [done|].
  change (mjoin (hex_sp <$> b :: l)) with (hex_sp b ++ mjoin (hex_sp <$> l)).
  rewrite length_app, IH. cbn. lia.
Qed.

Lemma length_row_hex row :
  length (row_hex row) = 3 * length row + (if 8 <=? length row then 1 else 0).
Proof.
  unfold row_hex. rewrite !length_app, !length_hex_row, length_take, length_drop.
  destruct (8 <=? length row) eqn:H; [apply Nat.leb_le in H|apply Nat.leb_gt in H];
    cbn [length]; lia.
Qed.

Lemma strncat_fits size dst src :
  length dst + length src < size → strncat size dst src = dst ++ src.
Proof. intros H. unfold strncat. by rewrite take_ge by lia. Qed.

Lemma row_hex_snoc row b :
  length row < 16 →
  row_hex (row ++ [b]) =
    row_hex row ++ hex_sp b ++ if length row =? 7 then [space] else [].
Proof.
  intros Hlen. unfold row_hex. rewrite length_app. cbn [length].
  destruct (decide (length row < 8)) as [H8|H8].
  - rewrite (proj2 (Nat.leb_gt 8 (length row))) by lia.
    rewrite (take_ge (row ++ [b])), (drop_ge (row ++ [b])), (take_ge row), (drop_ge row)
      by (rewrite ?length_app; cbn; lia).
    rewrite fmap_app, join_app.
    destruct (length row =? 7) eqn:H7.
    + apply Nat.eqb_eq in H7. rewrite H7. cbn. by rewrite !app_nil_r, <-app_assoc.
    + apply Nat.eqb_neq in H7. rewrite (proj2 (Nat.leb_gt 8 (length row + 1))) by lia.
      cbn. by rewrite !app_nil_r.
  - rewrite (proj2 (Nat.leb_le 8 (length row + 1))), (proj2 (Nat.leb_le 8 (length row))),
      (proj2 (Nat.eqb_neq _ _)) by lia.
    rewrite take_app_le, drop_app_le, fmap_app, join_app by lia. cbn.
    by rewrite ?app_nil_r, <-?app_assoc.
Qed.

Lemma mod16 k m : m < 16 → (16 * k + 1 + m) mod 16 = if m =? 15 then 0 else m + 1.
Proof.
  intros Hm. rewrite <-Nat.add_assoc, Nat.add_comm, Nat.mul_comm, Nat.Div0.mod_add.
  destruct (m =? 15) eqn:H; [apply Nat.eqb_eq in H; by subst|].
  apply Nat.eqb_neq in H. rewrite Nat.mod_small; lia.
Qed.

Lemma mod8 k m : m < 15 → ((16 * k + 1 + m) mod 8 =? 0) = (m =? 7).
Proof.
  intros Hm. replace (16 * k + 1 + m) with (m + 1 + (2 * k) * 8) by lia.
  rewrite Nat.Div0.mod_add. by do 15 (destruct m as [|m]; [done|]); lia.
Qed.

(** A row that is not complete. *)
Lemma dump_partial k row a out :
  0 < length row < 16 →
  dump_loop (16 * k + 1) row (DumpState a [] [] out) =
    DumpState (addr_text (Z.of_nat (16 * k))) (row_hex row) (shown <$> row) out.
Proof.
  induction row as [|b row IH] using rev_ind; [cbn; lia|].
  rewrite length_app. cbn [length].
  intros Hlen. rewrite dump_loop_app. cbn [dump_loop].
  assert (dump_loop (16 * k + 1) row (DumpState a [] [] out) =
    DumpState (if decide (length row = 0) then a else addr_text (Z.of_nat (16 * k)))
      (row_hex row) (shown <$> row) out) as ->.
  { case_decide as H0; [by destruct row|apply IH; lia]. }
  unfold dump_byte. cbn [addrstr hexstr charstr printed].
  rewrite mod16, mod8 by lia.
  rewrite (proj2 (Nat.eqb_neq (length row) 15)) by lia.
  rewrite (proj2 (Nat.eqb_neq (length row + 1) 0)) by lia.
  rewrite (strncat_fits 53 (row_hex row)), !strncat_fits by
    (rewrite ?length_app, ?length_row_hex, ?length_fmap; cbn [length hex2];
     destruct (8 <=? length row); lia).
  rewrite row_hex_snoc, fmap_app by lia. unfold hex_sp.
  assert ((if length row + 1 =? 1 then addr_text (Z.of_nat (16 * k + 1 + length row - 1))
    else if decide (length row = 0) then a else addr_text (Z.of_nat (16 * k))) =
    addr_text (Z.of_nat (16 * k))) as ->.
  { case_decide as H0.
    - rewrite H0. by replace (16 * k + 1 + 0 - 1) with (16 * k) by lia.
    - by rewrite (proj2 (Nat.eqb_neq (length row + 1) 1)) by lia. }
  destruct (length row =? 7); cbn; by rewrite <-?app_assoc.
Qed.

Lemma dump_row k row a out :
  length row = 16 →
  dump_loop (16 * k + 1) row (DumpState a [] [] out) =
    DumpState (addr_text (Z.of_nat (16 * k))) [] [] (out ++ [row_line (16 * k) row]).
Proof.
  intros Hlen. destruct row as [|b row _] using rev_ind; [done|].
  rewrite length_app in Hlen. cbn in Hlen.
  rewrite dump_loop_app, dump_partial by lia. cbn [dump_loop].
  unfold dump_byte. cbn [addrstr hexstr charstr printed].
  rewrite mod16 by lia. replace (length row) with 15 by lia. cbn [Nat.eqb Nat.add].
  rewrite (strncat_fits 53 (row_hex row)), !strncat_fits by
    (rewrite ?length_app, ?length_row_hex, ?length_fmap; replace (length row) with 15 by lia; cbn; lia).
  unfold row_line. rewrite row_hex_snoc, fmap_app by lia.
  replace (length row) with 15 by lia. cbn [Nat.eqb]. by rewrite app_nil_r.
Qed.

(** The byte loop of [csHexDump] prints exactly one line for every sixteen
    bytes (and one for the rest), each with its offset, its bytes in hexadecimal
    with a gap after the eighth, and its characters; the fixed buffers never
    cut anything off. *)
Theorem hexdump_rows (data : list byte) :
  csHexDump data = dump_rows (length data) 0 data.
Proof.
  enough (∀ fuel k d a out, length d ≤ fuel →
    dump_rest (dump_loop (16 * k + 1) d (DumpState a [] [] out)) =
      out ++ dump_rows fuel (16 * k) d) as Hgen.
  { apply (Hgen (length data) 0 data [] []). lia. }
  induction fuel as [|fuel IH]; intros k d a out Hlen.
  { destruct d; [|cbn in Hlen; lia]. cbn. by rewrite app_nil_r. }
  destruct d as [|b d]; [cbn; by rewrite app_nil_r|].
  cbn [dump_rows]. set (d' := b :: d) in *.
  destruct (decide (length d' < 16)) as [H16|H16].
  - rewrite dump_partial by (cbn in *; lia).
    unfold dump_rest. cbn [hexstr printed addrstr charstr].
    rewrite (proj2 (Nat.ltb_lt 0 _)) by (rewrite length_row_hex; cbn; lia).
    rewrite take_ge, drop_ge by lia. by destruct fuel.
  - rewrite <-(take_drop 16 d') at 1.
    rewrite dump_loop_app, dump_row by (rewrite length_take; lia).
    rewrite length_take, Nat.min_l by lia.
    replace (16 * k + 1 + 16) with (16 * (k + 1) + 1) by lia.
    rewrite IH by (rewrite length_drop; cbn in *; lia).
    rewrite <-app_assoc. by replace (16 * (k + 1)) with (16 * k + 16) by lia.
Qed.

Example hexdump_sample :
  csHexDump [x41; x00; xff] =
    [chars "00000:  41 00 FF " ++ replicate 41 space ++ chars "A.." ++ [newline]].
Proof. by vm_compute. Qed.

(** ** The output of a command *)

Lemma fgets_split n s : (fgets_chars n s).1 ++ (fgets_chars n s).2 = s.
Proof.
  revert s. induction n as [|n IH]; intros [|c s]; cbn; try done.
  destruct (Ascii.eqb c newline); cbn; [done|by rewrite IH].
Qed.

Lemma fgets_length n s : length (fgets_chars n s).1 ≤ n.
Proof.
  revert s. induction n as [|n IH]; intros [|c s]; cbn; try lia.
  destruct (Ascii.eqb c newline); cbn; [lia|]. specialize (IH s). lia.
Qed.

Lemma fgets_progress n s : s ≠ [] → 0 < n → length (fgets_chars n s).2 < length s.
Proof.
  intros Hs Hn. destruct n as [|n]; [lia|]. destruct s as [|c s]; [done|]. cbn.
  destruct (Ascii.eqb c newline); cbn; [lia|].
  pose proof (fgets_split n s) as Hsp. apply (f_equal length) in Hsp.
  rewrite length_app in Hsp. lia.
Qed.

(** A piece [fgets] delivers: a newline can only be its last character. *)
Definition one_line (l : list ascii) : Prop := newline ∉ removelast l.

Lemma fgets_one_line n s : one_line (fgets_chars n s).1.
Proof.
  unfold one_line. revert s. induction n as [|n IH]; intros [|c s]; try (cbn; set_solver).
  cbn [fgets_chars]. destruct (Ascii.eqb c newline) eqn:Hc; [cbn; set_solver|].
  cbn [fst]. specialize (IH s).
  destruct ((fgets_chars n s).1) as [|d l] eqn:Hl; [cbn; set_solver|].
  change (removelast (c :: d :: l)) with (c :: removelast (d :: l)).
  apply not_elem_of_cons. split; [|done]. intros <-. by rewrite Ascii.eqb_refl in Hc.
Qed.

Lemma c_str_id s : NUL ∉ s → c_str s = s.
Proof.
  induction s as [|c s IH]; [done|]. intros [Hne Hs]%not_elem_of_cons. cbn.
  destruct (Ascii.eqb_spec c NUL); [done|by rewrite IH].
Qed.

(** Reading a command's output ends for every output and a page of at least
    two bytes; without NUL characters the lines it appends, put together, are
    exactly the output, each fits the page with its NUL, and holds at most one
    newline, at its end. *)
Theorem execute_lines page_size out status output :
  2 ≤ page_size →
  ∃ lines, csExecute page_size (inr (out, status)) output = Some (status, output ++ lines) ∧
    csExecute_quiet page_size (inr (out, status)) = Some status ∧
    Forall (λ l, length l < page_size) lines ∧
    (NUL ∉ out → mjoin lines = out ∧ Forall one_line lines).
Proof.
  intros Hp.
  enough (∀ fuel s, length s ≤ fuel → ∃ lines, execute_loop fuel page_size s = Some lines ∧
    Forall (λ l, length l < page_size) lines ∧
    (NUL ∉ s → mjoin lines = s ∧ Forall one_line lines)) as Hgen.
  { destruct (Hgen (length out) out) as (lines & Hrun & Hl & Hn); [lia|].
    exists lines. unfold csExecute, csExecute_quiet. by rewrite Hrun. }
  assert (∀ l, length (c_str l) ≤ length l) as Hcs.
  { induction l as [|c l IH]; cbn; [lia|]. case_match; cbn; lia. }
  induction fuel as [|fuel IH]; intros s Hs.
  { destruct s; [|cbn in Hs; lia]. exists []. by split_done. }
  destruct s as [|c s]; [exists []; by split_done|]. set (s' := c :: s) in *.
  pose proof (fgets_progress (page_size - 1) s' ltac:(done) ltac:(lia)) as Hlt.
  destruct (IH (fgets_chars (page_size - 1) s').2) as (lines & Hrun & Hl & Hn); [lia|].
  exists (c_str (fgets_chars (page_size - 1) s').1 :: lines). split; [|split].
  - change (execute_loop (S fuel) page_size s') with
      ((c_str (fgets_chars (page_size - 1) s').1 ::.) <$>
        execute_loop fuel page_size (fgets_chars (page_size - 1) s').2).
    by rewrite Hrun.
  - constructor; [|done]. pose proof (fgets_length (page_size - 1) s').
    specialize (Hcs (fgets_chars (page_size - 1) s').1). lia.
  - intros Hnul. pose proof (fgets_split (page_size - 1) s') as Hsp.
    assert (NUL ∉ (fgets_chars (page_size - 1) s').1 ∧
            NUL ∉ (fgets_chars (page_size - 1) s').2) as [Hn1 Hn2].
    { rewrite <-Hsp in Hnul. by apply not_elem_of_app in Hnul. }
    destruct (Hn Hn2) as [Hj Hone]. rewrite c_str_id by done. split.
    + change (mjoin (?l :: ?ls)) with (l ++ mjoin ls). by rewrite Hj.
    + constructor; [apply fgets_one_line|done].
Qed.

Lemma execute_lines_witness :
  ∃ lines, csExecute 4 (inr (chars "abcdef", 0%Z)) [] = Some (0%Z, lines) ∧
    mjoin lines = chars "abcdef" ∧ Forall (λ l, length l < 4) lines.
Proof.
  destruct (execute_lines 4 (chars "abcdef") 0 []) as (lines & Hrun & _ & Hl & Hn); [lia|].
  destruct Hn as [Hj _]; [|by exists lines].
  cbn. rewrite !not_elem_of_cons. split_and!; try done. apply not_elem_of_nil.
Defined.

(** ** SHA-1 *)

Section sha1.
Context {SHA_CTX : Type} (SHA1_Init : option SHA_CTX)
  (SHA1_Update : SHA_CTX → list byte → SHA_CTX) (SHA1_Final : SHA_CTX → list byte).

(** OpenSSL: an update may be made in pieces. *)
Definition streaming : Prop :=
  (∀ c a b, SHA1_Update (SHA1_Update c a) b = SHA1_Update c (a ++ b)) ∧
  ∀ c, SHA1_Update c [] = c.

Lemma sha1_loop_run fuel page_size ctx data :
  streaming → 0 < page_size → length data ≤ fuel →
  sha1_loop SHA1_Update fuel page_size ctx data = Some (SHA1_Update ctx data).
Proof.
  intros [Hst Hnil] Hp. revert ctx data. induction fuel as [|fuel IH]; intros ctx data Hlen.
  { destruct data; [|cbn in Hlen; lia]. cbn. by rewrite take_nil, Hnil. }
  cbn [sha1_loop]. destruct (length (take page_size data) =? 0) eqn:H0.
  { apply Nat.eqb_eq in H0. rewrite length_take in H0.
    destruct data; [by rewrite Hnil|cbn in H0; lia]. }
  apply Nat.eqb_neq in H0. rewrite length_take in *.
  destruct (page_size `min` length data <? page_size) eqn:Hlt.
  { apply Nat.ltb_lt in Hlt. by rewrite take_ge by lia. }
  rewrite IH by (rewrite length_drop; lia). by rewrite Hst, take_drop.
Qed.

(** C35. The digest of a file is the digest of its contents: for every page size
    and every way its bytes fall into pages, the file version of [csSHA1]
    returns and gives what the buffer version gives. *)
Theorem sha1_file_buffer page_size filename data :
  streaming → 0 < page_size →
  csSHA1_file SHA1_Init SHA1_Update SHA1_Final page_size filename (inr data) =
    Some (csSHA1_buffer SHA1_Init SHA1_Update SHA1_Final data).
Proof.
  intros Hst Hp. unfold csSHA1_file, csSHA1_buffer. destruct SHA1_Init as [ctx|]; [|done].
  by rewrite sha1_loop_run.
Qed.
End sha1.

Lemma sha1_file_buffer_witness :
  csSHA1_file (Some []) app (take 20) 2 "f" (inr [x01; x02; x03]) =
    Some (inl [x01; x02; x03]).
Proof.
  rewrite (sha1_file_buffer (Some []) app (take 20) 2 "f" [x01; x02; x03]).
  - reflexivity.
  - split; [intros c a b; by rewrite app_assoc|apply app_nil_r].
  - lia.
Defined.

(** ** Regular expressions *)

(** [regexec] reports [nmatch] groups, each inside the subject or unset. *)
Definition exec_ok (r : csRegEx) : Prop :=
  ∀ s gs, regexec r s = inr gs → length gs = nmatch r ∧
    Forall (λ g, g = (-1, -1)%Z ∨ (0 ≤ g.1 ≤ g.2 ∧ g.2 ≤ Z.of_nat (length s))%Z) gs.

Lemma group_text_ok s so eo :
  (0 ≤ so ≤ eo ∧ eo ≤ Z.of_nat (length s))%Z →
  group_text s (so, eo) = Some (take (Z.to_nat (eo - so)) (drop (Z.to_nat so) s)).
Proof.
  intros H. unfold group_text. cbn [fst snd]. rewrite (proj2 (Z.ltb_ge _ _)) by lia.
  destruct (eo - so =? 0)%Z eqn:H0; [apply Z.eqb_eq in H0; by rewrite H0|].
  by rewrite !(proj2 (Z.ltb_ge _ _)) by lia.
Qed.

(** After a match, group [i] reads as the part of the subject it matched,
    and as null when it took no part in the match; after a failed match every
    group reads as null; a number beyond the groups is refused. *)
Theorem regex_groups r s i :
  exec_ok r → length (match_ r) ≤ nmatch r →
  ∃ rc r', Execute (Some s) r = Ok rc r' ∧
  match regexec r s with
  | inl e => rc = e ∧ (i < nmatch r → GetMatch i r' = Ok None r')
  | inr gs => rc = 0%Z ∧ ∀ g, gs !! i = Some g →
      GetMatch i r' = Ok (if (g.1 =? -1)%Z then None
        else Some (take (Z.to_nat (g.2 - g.1)) (drop (Z.to_nat g.1) s))) r'
  end ∧ (nmatch r ≤ i → GetMatch i r' = Throw (csException_str "Invalid regex match offset") r').
Proof.
  intros Hok Hm. unfold Execute, mbind, M_bind, gets, modify, id.
  destruct (regexec r s) as [e|gs] eqn:He.
  - eexists _, _. split; [done|]. unfold GetMatch, mbind, M_bind, gets, id. cbn.
    split; [split; [done|]|]; intros Hi.
    + rewrite (proj2 (Nat.leb_gt _ _)), lookup_replicate_2 by done. cbn.
      destruct (match_ r !! i) as [g|]; [|done]. by destruct (g.1 =? -1)%Z.
    + by rewrite (proj2 (Nat.leb_le _ _)).
  - destruct (Hok s gs He) as [Hlen Hgs]. rewrite bool_decide_eq_false_2.
    2: { intros (g & Hg & Hin)%list_elem_of_fmap. rewrite Forall_forall in Hgs.
         destruct (Hgs g Hin) as [->|Hr]; [done|].
         destruct g as [so eo]. by rewrite group_text_ok in Hg. }
    eexists _, _. split; [done|]. unfold GetMatch, mbind, M_bind, gets, id. cbn.
    split; [split; [done|]|].
    + intros g Hg. rewrite (proj2 (Nat.leb_gt _ _)).
      2: { apply lookup_lt_Some in Hg. lia. }
      rewrite Hg, list_lookup_fmap, Hg. cbn.
      destruct (g.1 =? -1)%Z eqn:H1; [done|]. apply Z.eqb_neq in H1.
      rewrite Forall_forall in Hgs. destruct g as [so eo].
      destruct (Hgs (so, eo)) as [[= -> ->]|Hr]; [by eapply list_elem_of_lookup_2|done|].
      by rewrite group_text_ok.
    + intros Hi. by rewrite (proj2 (Nat.leb_le _ _)).
Qed.

Lemma regex_groups_witness :
  let r := RegEx 2 (λ s, inr [(0, Z.of_nat (length s)); (-1, -1)]%Z) [] [None; None] in
  ∃ r', Execute (Some (chars "ab")) r = Ok 0%Z r' ∧ GetMatch 0 r' = Ok (Some (chars "ab")) r' ∧
    GetMatch 1 r' = Ok None r'.
Proof.
  intros r. assert (exec_ok r) as Hok.
  { intros s gs [= <-]. split; [done|]. apply List.Forall_cons; [right; cbn; lia|].
    apply List.Forall_cons; [by left|]. apply List.Forall_nil. }
  destruct (regex_groups r (chars "ab") 0 Hok ltac:(cbn; lia)) as (rc & r' & Hrun & [-> Hg] & _).
  destruct (regex_groups r (chars "ab") 1 Hok ltac:(cbn; lia)) as (rc' & r'' & Hrun' & [_ Hg'] & _).
  rewrite Hrun in Hrun'. injection Hrun' as <- <-.
  exists r'. split; [done|]. split; [by apply (Hg (0, 2)%Z)|by apply (Hg' (-1, -1)%Z)].
Defined.
