(* ===== verification/Conf.v ===== *)
(** * The XML configuration parser (csconf.cpp, csconf.h)

    The element stack and the tags of [csXmlParser], its handlers for expat's
    callbacks, [Reset], [Parse] and [ParseError].  Expat is seen through the
    callbacks it makes for each page of the file and the position and the
    error it reports; the virtual handlers of a subclass are the class
    [XmlHandlers]. *)

From S2P Require Import Prelude Exception Bytes.
From Stdlib Require Import Strings.Ascii.

(** ** Tags *)

Record csXmlTag := XmlTag {
  tag_name : string;
  param : gmap string string;
  tag_text : string;
  tag_data : Z;
}.

(** The attributes come as name and value in turn; a later one of the same
    name overwrites. *)
Definition csXmlTag_new (name : string) (attr : list (string * string)) : csXmlTag :=
  XmlTag name (foldl (λ m a, <[a.1 := a.2]> m) ∅ attr) EmptyString 0.

Definition SetText (text : string) (t : csXmlTag) : csXmlTag :=
  XmlTag (tag_name t) (param t) text (tag_data t).
Definition SetData (data : Z) (t : csXmlTag) : csXmlTag :=
  XmlTag (tag_name t) (param t) (tag_text t) data.
Definition ParamExists (key : string) (t : csXmlTag) : bool :=
  bool_decide (is_Some (param t !! key)).

Definition csXmlKeyNotFound_new (key : string) : csException :=
  CsExc CsXmlKeyNotFound (WhatText "csException") (-1) key.
Definition GetParamValue (key : string) (t : csXmlTag) : string + csException :=
  match param t !! key with
  | Some v => inl v
  | None => inr (csXmlKeyNotFound_new key)
  end.

(** [strcasecmp] in the C locale, as an equality test. *)
Definition lower_ascii (c : ascii) : ascii :=
  let n := Ascii.N_of_ascii c in
  if (65 <=? n)%N && (n <=? 90)%N then Ascii.ascii_of_N (n + 32) else c.
Fixpoint lower_string (s : string) : string :=
  match s with
  | EmptyString => EmptyString
  | String c s => String (lower_ascii c) (lower_string s)
  end.
Definition strcaseeq (a b : string) : bool :=
  bool_decide (lower_string a = lower_string b).

(** [operator==] *)
Definition tag_is (tag : string) (t : csXmlTag) : bool := strcaseeq tag (tag_name t).

(** ** The parser *)

(** Line, column and byte index of expat's current event. *)
Record xml_pos := XmlPos { row : Z; col : Z; byte_index : Z }.

Inductive xml_event :=
  | XOpen (element : string) (attr : list (string * string))
  | XClose (element : string)
  | XText (txt : string).

(** What happens for one page: the bytes [fread] delivers or its error, the
    callbacks expat makes, and its error, if any. *)
Record xml_page := XmlPage {
  page_bytes : list byte;
  page_errno : option Z;
  page_events : list (xml_event * xml_pos);
  page_error : option (string * xml_pos);
}.

(** The state: [C] is what the subclass and its owner add. *)
Record xml_state (C : Type) := XmlState {
  tags : gmap Z csXmlTag;          (* live tag objects *)
  tag_brk : Z;
  stack : list Z;                  (* vector<csXmlTag *> *)
  conf : Z;                        (* csConf *, or NULL *)
  fh : bool;                       (* the file is open *)
  buffer : list byte;
  pos : xml_pos;
  owner : C;
}.
Arguments XmlState {C}.
Arguments tags {C}.
Arguments tag_brk {C}.
Arguments stack {C}.
Arguments conf {C}.
Arguments fh {C}.
Arguments buffer {C}.
Arguments pos {C}.
Arguments owner {C}.

Section parser.
Context {C : Type}.
Abbreviation state := (xml_state C).
Implicit Types s : state.

Definition set_tags (t : gmap Z csXmlTag) s : state :=
  XmlState t (tag_brk s) (stack s) (conf s) (fh s) (buffer s) (pos s) (owner s).
Definition set_stack (st : list Z) s : state :=
  XmlState (tags s) (tag_brk s) st (conf s) (fh s) (buffer s) (pos s) (owner s).
Definition set_fh (b : bool) s : state :=
  XmlState (tags s) (tag_brk s) (stack s) (conf s) b (buffer s) (pos s) (owner s).
Definition set_buffer (b : list byte) s : state :=
  XmlState (tags s) (tag_brk s) (stack s) (conf s) (fh s) b (pos s) (owner s).
Definition set_pos (p : xml_pos) s : state :=
  XmlState (tags s) (tag_brk s) (stack s) (conf s) (fh s) (buffer s) p (owner s).
Definition set_owner (o : C) s : state :=
  XmlState (tags s) (tag_brk s) (stack s) (conf s) (fh s) (buffer s) (pos s) o.

(** The handlers a subclass overrides; they get the tag. *)
Class XmlHandlers := {
  ParseElementOpen : Z → prog state unit;
  ParseElementClose : Z → prog state unit;
}.

Definition tag_new (t : csXmlTag) : prog state Z := λ s,
  Ok (tag_brk s) (XmlState (<[tag_brk s := t]> (tags s)) (tag_brk s + 1) (stack s)
    (conf s) (fh s) (buffer s) (pos s) (owner s)).
Definition tag_get (p : Z) : prog state csXmlTag := λ s,
  match tags s !! p with Some t => Ok t s | None => Stuck (UseAfterFree p) end.
Definition tag_update (p : Z) (f : csXmlTag → csXmlTag) : prog state unit :=
  t ← tag_get p; modify (λ s, set_tags (<[p := f t]> (tags s)) s).
Definition tag_delete (p : Z) : prog state unit :=
  _ ← tag_get p; modify (λ s, set_tags (delete p (tags s)) s).

(** [stack.back()]: undefined on an empty vector. *)
Definition stack_back : prog state Z := λ s,
  match last (stack s) with Some p => Ok p s | None => Stuck OutOfBounds end.

(** [ParseError]: the buffer is indexed by the position in the document. *)
Definition csXmlParseException_new (what : string) (p : xml_pos) (b : byte) : csException :=
  CsExc (CsXmlParseException (row p `mod` 2 ^ 32) (col p `mod` 2 ^ 32) (byte_val b))
    (WhatErrno EINVAL) EINVAL what.

Definition ParseError (what : string) : prog state unit :=
  p ← gets pos;
  b ← gets buffer;
  if (byte_index p <? 0)%Z then stuck OutOfBounds
  else match b !! Z.to_nat (byte_index p) with
  | Some c => throw (csXmlParseException_new what p c)
  | None => stuck OutOfBounds
  end.

Definition Reset (page_size : nat) : prog state unit :=
  modify (set_buffer (replicate page_size x00));;
  st ← gets stack;
  foreach st tag_delete.

(** The constructor and the destructor of the parser; the libexpat parser is
    not part of the state. *)
Definition csXmlParser_new (page_size : nat) (o : C) : outcome csException state unit :=
  Reset page_size (XmlState ∅ 1 [] 0 false [] (XmlPos 1 0 0) o).
Definition csXmlParser_delete (page_size : nat) : prog state unit :=
  Reset page_size;; modify (set_buffer []).

(** [~csConf], with the member [parser]. *)
Definition csConf_delete (page_size : nat) (parser : Z) : prog state unit :=
  when (negb (parser =? 0)%Z) (csXmlParser_delete page_size).

(** ** The callbacks *)

(** Printable characters; the line ends are not. *)
Definition text_char (c : ascii) : bool :=
  let n := Ascii.N_of_ascii c in (32 <=? n)%N && (n <=? 126)%N.
Fixpoint printable (s : string) : string :=
  match s with
  | EmptyString => EmptyString
  | String c s => if text_char c then String c (printable s) else printable s
  end.

Definition csXmlText (txt : string) : prog state unit :=
  if (String.length txt =? 0)%nat then mret tt
  else
    p ← stack_back;
    t ← tag_get p;
    tag_update p (SetText (String.append (tag_text t) (printable txt))).

Context `{XmlHandlers}.

Definition csXmlElementOpen (element : string) (attr : list (string * string)) :
    prog state unit :=
  p ← tag_new (csXmlTag_new element attr);
  ParseElementOpen p;;
  modify (λ s, set_stack (stack s ++ [p]) s).

Definition csXmlElementClose (element : string) : prog state unit :=
  p ← stack_back;
  modify (λ s, set_stack (removelast (stack s)) s);;
  ParseElementClose p;;
  tag_delete p.

Definition callback (e : xml_event * xml_pos) : prog state unit :=
  modify (set_pos e.2);;
  match e.1 with
  | XOpen element attr => csXmlElementOpen element attr
  | XClose element => csXmlElementClose element
  | XText txt => csXmlText txt
  end.

(** The read loop over the pages of the file, of which the last is at its
    end; [errno] values and expat's verdicts come with the pages. *)
Fixpoint parse_pages (filename : string) (pages : list xml_page) : prog state unit :=
  match pages with
  | [] => mret tt
  | pg :: pages =>
      modify (λ s, set_buffer
        (page_bytes pg ++ drop (length (page_bytes pg)) (buffer s)) s);;
      match page_errno pg with
      | Some errno => throw (csException_int_str errno filename)
      | None =>
          foreach (page_events pg) callback;;
          match page_error pg with
          | Some (what, p) => modify (set_pos p);; ParseError what
          | None => mret tt
          end;;
          parse_pages filename pages
      end
  end.

Definition Parse (page_size : nat) (filename : string) (fopen : Z + list xml_page) :
    prog state unit :=
  Reset page_size;;
  c ← gets conf;
  if (c =? 0)%Z then throw (csException_int_str EINVAL "Configuration not set.")
  else match fopen with
  | inl errno => throw (csException_int_str errno filename)
  | inr pages =>
      modify (set_fh true);;
      parse_pages filename pages;;
      modify (set_fh false)
  end.
End parser.
Arguments XmlHandlers : clear implicits.
