(* ===== verification/ConfProps.v ===== *)
(** * The XML configuration parser: properties

    A well-formed document leaves no tag behind and every element gets its own
    text; what an error leaves behind is released twice. *)

From S2P Require Import Prelude Exception Bytes Conf.
From Stdlib Require Import Strings.Ascii.

(** ** Well-formed content *)

(** The text directly inside an element, [d] levels up from here. *)
Fixpoint direct (d : nat) (l : list (xml_event * xml_pos)) : string :=
  match l with
  | [] => EmptyString
  | (XOpen _ _, _) :: l => direct (S d) l
  | (XClose _, _) :: l => direct (pred d) l
  | (XText t, _) :: l => if (d =? 0)%nat then String.append (printable t) (direct d l)
                         else direct d l
  end.

(** The content of an element called [parent]; [ok] may restrict the elements:
    the name around it, its name and its own text. *)
Inductive content (ok : string → string → string → Prop) :
    string → list (xml_event * xml_pos) → Prop :=
  | content_nil parent : content ok parent []
  | content_text parent t p l : content ok parent l → content ok parent ((XText t, p) :: l)
  | content_elem parent e a p inner e' p' l :
      ok parent e (direct 0 inner) → content ok e inner → content ok parent l →
      content ok parent ((XOpen e a, p) :: inner ++ (XClose e', p') :: l).

(** Any element. *)
Definition anything (_ _ _ : string) : Prop := True.

Lemma direct_content ok parent inner :
  content ok parent inner → ∀ d l, direct (S d) (inner ++ l) = direct (S d) l.
Proof.
  induction 1 as [|par t p m _ IH|par e a p i e' p' m _ _ IHi _ IH]; intros d l; cbn;
    [done|apply IH|].
  rewrite <-app_assoc, IHi. cbn. apply IH.
Qed.

Lemma direct_elem ok e a p inner e' p' l :
  content ok e inner → direct 0 ((XOpen e a, p) :: inner ++ (XClose e', p') :: l) = direct 0 l.
Proof. intros Hi. cbn. by rewrite (direct_content ok e). Qed.

Lemma append_assoc a b c :
  String.append (String.append a b) c = String.append a (String.append b c).
Proof. induction a as [|x a IH]; [done|exact (f_equal (String x) IH)]. Qed.

Lemma append_empty a : String.append a EmptyString = a.
Proof. induction a as [|x a IH]; [done|exact (f_equal (String x) IH)]. Qed.

(** ** Handlers *)

Section handlers.
Context {C : Type}.
Implicit Types s : xml_state C.

(** What stays of a tag when a handler sets its data. *)
Definition fixed (t : csXmlTag) : string * gmap string string * string :=
  (tag_name t, param t, tag_text t).

Definition same_tags s s' : Prop :=
  ∀ p, fixed <$> tags s' !! p = fixed <$> tags s !! p.

(** The position of expat's current event lies in the buffer. *)
Definition in_page s (p : xml_pos) : Prop :=
  (0 ≤ byte_index p < Z.of_nat (length (buffer s)))%Z.

Definition handled s s' : Prop :=
  stack s' = stack s ∧ tag_brk s' = tag_brk s ∧ buffer s' = buffer s ∧ conf s' = conf s ∧
  same_tags s s'.

(** The tags on the stack are live and below the next address. *)
Record xml_ok s : Prop := XmlOk {
  xo_stack : ∀ q, q ∈ stack s → is_Some (tags s !! q);
  xo_fresh : ∀ p, (tag_brk s ≤ p)%Z → tags s !! p = None;
  xo_nodup : NoDup (stack s);
}.

(** What the subclass and its owner keep: an invariant of the owner's state, and
    that the data of every tag is good. *)
Definition owned (owner_ok : C → Prop) (data_ok : C → Z → Prop) s : Prop :=
  owner_ok (owner s) ∧ ∀ p t, tags s !! p = Some t → data_ok (owner s) (tag_data t).

(** A handler may refuse an element that is the outermost one, or that
    [accepts] does not list with its parent and its text. *)
Definition refused (accepts : string → string → string → Prop) s (name : string)
    (is_text : string → Prop) : Prop :=
  ∀ q tq text, last (stack s) = Some q → tags s !! q = Some tq → is_text text →
    ¬ accepts (tag_name tq) name text.

(** The promise of a subclass: its handlers are never stuck, they keep its
    invariant, what they change of the parser is at most the data of tags, and
    they throw only for an element they may refuse. *)
Class HandlersOk `{XmlHandlers C} := {
  owner_ok : C → Prop;
  data_ok : C → Z → Prop;
  accepts : string → string → string → Prop;
  data_null : ∀ c, owner_ok c → data_ok c 0%Z;
  open_ok : ∀ s p t, tags s !! p = Some t → owned owner_ok data_ok s →
    (∀ q, q ∈ stack s → is_Some (tags s !! q)) → in_page s (pos s) →
    wp (ParseElementOpen p) (λ _ s', handled s s' ∧ owned owner_ok data_ok s')
      (λ _ s', handled s s' ∧ owned owner_ok data_ok s' ∧
        refused accepts s (tag_name t) (λ _, True)) s;
  close_ok : ∀ s p t, tags s !! p = Some t → owned owner_ok data_ok s →
    (∀ q, q ∈ stack s → is_Some (tags s !! q)) → in_page s (pos s) →
    wp (ParseElementClose p) (λ _ s', handled s s' ∧ owned owner_ok data_ok s')
      (λ _ s', handled s s' ∧ owned owner_ok data_ok s' ∧
        refused accepts s (tag_name t) (λ text, text = tag_text t)) s;
}.

Definition add_text (text : string) (f : string * gmap string string * string) :
    string * gmap string string * string :=
  (f.1, String.append f.2 text).

(** What the events of content do to the tags that were there: the element on
    top gets the text, and nothing else changes. *)
Definition texted s (text : string) s' : Prop :=
  stack s' = stack s ∧ buffer s' = buffer s ∧ conf s' = conf s ∧ (tag_brk s ≤ tag_brk s')%Z ∧
  (∀ p, (tag_brk s ≤ p)%Z → tags s' !! p = None) ∧
  ∀ p, (p < tag_brk s)%Z → fixed <$> tags s' !! p =
    (if decide (last (stack s) = Some p) then add_text text else id) <$>
      (fixed <$> tags s !! p).

Lemma same_tags_live s s' p :
  same_tags s s' → is_Some (tags s !! p) → is_Some (tags s' !! p).
Proof. intros Hs Hp. by rewrite <-(fmap_is_Some fixed), Hs, fmap_is_Some. Qed.

Lemma same_tags_none s s' p : same_tags s s' → tags s !! p = None → tags s' !! p = None.
Proof. intros Hs Hp. specialize (Hs p). rewrite Hp in Hs. by destruct (tags s' !! p). Qed.

Lemma same_tags_trans s1 s2 s3 : same_tags s1 s2 → same_tags s2 s3 → same_tags s1 s3.
Proof. intros H1 H2 p. by rewrite H2, H1. Qed.

Lemma handled_ok s s' : handled s s' → xml_ok s → xml_ok s'.
Proof.
  intros (Hst & Hbrk & _ & _ & Ht) [Hs Hf Hn]. split; rewrite ?Hst, ?Hbrk; [| |done].
  - intros q Hq. by apply (same_tags_live s), Hs.
  - intros p Hp. by apply (same_tags_none s), Hf.
Qed.

Lemma texted_ok s text s' : texted s text s' → xml_ok s → xml_ok s'.
Proof.
  intros (Hst & _ & _ & Hbrk & Hnew & Hold) [Hs Hf Hn]. split; rewrite ?Hst; [| |done].
  - intros q Hq. destruct (Hs q Hq) as [t Ht].
    assert (q < tag_brk s)%Z as Hlt.
    { apply Z.nle_gt. intros Hle. by rewrite Hf in Ht. }
    by rewrite <-(fmap_is_Some fixed), (Hold q Hlt), Ht, !fmap_is_Some.
  - intros p Hp. apply Hnew. lia.
Qed.

Lemma texted_trans s t1 s1 t2 s2 :
  texted s t1 s1 → texted s1 t2 s2 → texted s (String.append t1 t2) s2.
Proof.
  intros (Hst & Hb & Hcf & Hbrk & Hnew & Hold) (Hst' & Hb' & Hcf' & Hbrk' & Hnew' & Hold').
  split_and!; [congruence|congruence|congruence|lia| |].
  - intros p Hp. destruct (decide (tag_brk s1 ≤ p)%Z); [by apply Hnew'|].
    specialize (Hold' p ltac:(lia)). rewrite (Hnew p Hp) in Hold'.
    by destruct (tags s2 !! p).
  - intros p Hp. rewrite Hold', Hold, Hst by lia. case_decide; [|by rewrite option_fmap_id].
    destruct (tags s !! p) as [t|]; [|done]. cbn. unfold add_text. cbn.
    by rewrite append_assoc.
Qed.

Lemma texted_nil s : xml_ok s → texted s EmptyString s.
Proof.
  intros [Hs Hf Hn]. split_and!; try done. intros p _.
  case_decide; [|by rewrite option_fmap_id].
  destruct (tags s !! p); [|done]. cbn. unfold add_text. by rewrite append_empty.
Qed.

(** [ParseError] inside the page throws and changes nothing. *)
Lemma wp_ParseError what s Q (X : csException → xml_state C → Prop) :
  in_page s (pos s) → (∀ x, X x s) → wp (ParseError what) Q X s.
Proof.
  intros [Hlo Hhi] HX. unfold wp, ParseError, mbind, M_bind, gets.
  rewrite (proj2 (Z.ltb_ge _ _)) by done.
  destruct (lookup_lt_is_Some_2 (buffer s) (Z.to_nat (byte_index (pos s)))) as [c ->]; [lia|].
  apply HX.
Qed.

Lemma wp_tag_get s p t Q (X : csException → xml_state C → Prop) :
  tags s !! p = Some t → Q t s → wp (tag_get p) Q X s.
Proof. intros Hp HQ. unfold wp, tag_get. by rewrite Hp. Qed.

Lemma handled_refl s : handled s s.
Proof. by repeat split. Qed.

(** ** Deleting the tags of a list *)

Lemma foreach_delete_dead l s s' p :
  foreach l tag_delete s = Ok tt s' → tags s !! p = None → tags s' !! p = None.
Proof.
  revert s. induction l as [|q l IH]; intros s Hrun Hd; [by injection Hrun as <-|].
  cbn in Hrun. unfold mbind at 1, M_bind at 1, tag_delete, tag_get, mbind, M_bind in Hrun.
  destruct (tags s !! q) eqn:Hq; [|done]. cbn in Hrun.
  apply (IH (set_tags (delete q (tags s)) s)); [done|].
  cbn. apply lookup_delete_None. by right.
Qed.

Lemma foreach_delete l s :
  NoDup l → (∀ q, q ∈ l → is_Some (tags s !! q)) →
  ∃ s', foreach l tag_delete s = Ok tt s' ∧ stack s' = stack s ∧
    ∀ q, q ∈ l → tags s' !! q = None.
Proof.
  intros Hnd. revert s. induction Hnd as [|p l Hp Hnd IH]; intros s Hl.
  { exists s. split_and!; [done..|]. intros q Hq. by apply elem_of_nil in Hq. }
  destruct (Hl p) as [t Ht]; [set_solver|].
  cbn. unfold mbind, M_bind, tag_delete, tag_get, modify, mbind, M_bind. rewrite Ht. cbn.
  set (s1 := set_tags _ s). destruct (IH s1) as (s' & Hrun & Hst & Hdead).
  { intros q Hq. unfold s1. cbn. rewrite lookup_delete_ne by (by intros ->). set_solver. }
  exists s'. split_and!; [done|done|]. intros q [->|Hq]%elem_of_cons; [|by apply Hdead].
  apply (foreach_delete_dead l s1); [done|apply lookup_delete_eq].
Qed.

Context `{XmlHandlers C}.

(** ** After an error *)

(** C36. What a parse error leaves behind is released twice: [Reset] deletes the
    tags of the elements that were open but keeps the pointers on the stack, so
    the next [Reset] deletes them again.  [ScanPlugins] calls [Reset] and then
    [Parse], which begins with [Reset], so the first file after a broken one is
    enough. *)
Theorem error_double_free s page_size filename fopen :
  xml_ok s → stack s ≠ [] →
  ∃ s1 p, Reset page_size s = Ok tt s1 ∧ stack s1 = stack s ∧
    Reset page_size s1 = Stuck (UseAfterFree p) ∧
    (Reset page_size;; Parse page_size filename fopen) s = Stuck (UseAfterFree p).
Proof.
  intros [Hst _ Hnd] Hne. set (s0 := set_buffer (replicate page_size x00) s).
  destruct (foreach_delete (stack s) s0 Hnd Hst) as (s1 & Hrun & Hst1 & Hdead).
  destruct (stack s) as [|p l] eqn:Hs; [done|].
  assert (Reset page_size s = Ok tt s1) as Hreset.
  { unfold Reset, mbind, M_bind, modify, gets. cbn. rewrite Hs. exact Hrun. }
  assert (stack s1 = p :: l) as Hst1' by (rewrite Hst1; exact Hs).
  assert (Reset page_size s1 = Stuck (UseAfterFree p)) as Hagain.
  { unfold Reset, mbind, M_bind, modify, gets. cbn. rewrite Hst1'. cbn.
    unfold mbind, M_bind, tag_delete, tag_get, mbind, M_bind. cbn.
    by rewrite (Hdead p) by set_solver. }
  exists s1, p. split_and!; try done.
  unfold Parse, mbind at 1 2, M_bind at 1 2. by rewrite Hreset, Hagain.
Qed.
(** ** The callbacks on well-formed content *)

Context `{!HandlersOk}.

(** The parser between two callbacks. *)
Definition sound s : Prop := xml_ok s ∧ owned owner_ok data_ok s.

Definition pages_ok s (l : list (xml_event * xml_pos)) : Prop :=
  Forall (λ e, in_page s e.2) l.

Lemma pages_same s s' l : buffer s' = buffer s → pages_ok s l → pages_ok s' l.
Proof. unfold pages_ok, in_page. by intros ->. Qed.

(** Its own steps leave the owner alone and give no tag other data. *)
Lemma owned_frame s s' :
  owned owner_ok data_ok s → owner s' = owner s →
  (∀ p t', tags s' !! p = Some t' → tag_data t' = 0%Z ∨
    ∃ q t, tags s !! q = Some t ∧ tag_data t' = tag_data t) →
  owned owner_ok data_ok s'.
Proof.
  intros [Ho Hd] Heq Ht. split; rewrite Heq; [done|]. intros p t' Hp.
  destruct (Ht p t' Hp) as [->|(q & t & Hq & ->)]; [by apply data_null|by apply (Hd q)].
Qed.

Ltac owned_frame := match goal with
  | H : owned _ _ ?s |- owned _ _ _ => apply (owned_frame s); [exact H|done|]
  end; cbn; eauto.

Context (ok : string → string → string → Prop).

(** After an exception; nothing is left open when the subclass accepts the
    elements of the document. *)
Definition after_error s (_ : csException) s' : Prop :=
  sound s' ∧ conf s' = conf s ∧
  ((∀ parent e text, ok parent e text → accepts parent e text) →
    stack s = [] ∧ stack s' = []).

Lemma after_error_inner s s1 x s' :
  conf s1 = conf s → stack s1 ≠ [] → after_error s1 x s' → after_error s x s'.
Proof.
  intros Hc Hne (Hs & Hc' & Hacc). split_and!; [done|congruence|].
  intros Hok. by destruct (Hacc Hok).
Qed.

Lemma after_error_same s s1 x s' :
  conf s1 = conf s → stack s1 = stack s → after_error s1 x s' → after_error s x s'.
Proof. intros Hc Hst (Hs & Hc' & Hacc). split_and!; [done|congruence|by rewrite <-Hst]. Qed.

Lemma wp_text s t p :
  sound s → stack s ≠ [] →
  wp (callback (XText t, p)) (λ _ s', texted s (printable t) s' ∧ sound s') (after_error s) s.
Proof.
  intros [Hs Ho] Hne.
  enough (wp (callback (XText t, p)) (λ _ s', texted s (printable t) s' ∧
    owned owner_ok data_ok s') (after_error s) s) as Hgo.
  { eapply wp_conseq; [exact Hgo|]. intros [] s' [Ht Ho']. split; [done|].
    split; [by eapply texted_ok|done]. }
  unfold callback. cbn. apply wp_bind, wp_modify.
  unfold csXmlText. destruct (String.length t =? 0)%nat eqn:Hlen.
  { destruct t; [|done]. split; [by apply (texted_nil s)|done]. }
  destruct (last (stack s)) as [top|] eqn:Hlast; [|by apply last_None in Hlast].
  destruct (xo_stack s Hs top) as [tg Htg]; [by apply last_Some_elem_of|].
  unfold wp, mbind, M_bind, stack_back, tag_update, tag_get, modify. cbn.
  rewrite Hlast. cbn. rewrite Htg. cbn. unfold mbind, M_bind. cbn. rewrite Htg. cbn.
  assert (top < tag_brk s)%Z as Hlt.
  { apply Z.nle_gt. intros Hle. by rewrite (xo_fresh s Hs) in Htg. }
  split; [split_and!; try done; cbn|].
  - intros q Hq. rewrite lookup_insert_ne by lia. by apply Hs.
  - intros q Hq. rewrite Hlast. destruct (decide (q = top)) as [->|Hqt].
    + rewrite lookup_insert_eq, decide_True, Htg by done. done.
    + rewrite lookup_insert_ne, decide_False by congruence. by rewrite option_fmap_id.
  - owned_frame. intros q t' [[<- <-]|[_ Hq]]%lookup_insert_Some; eauto.
Qed.

(** The state inside an element that was just opened. *)
Definition opened s (tag : csXmlTag) (p : Z) s' : Prop :=
  p = tag_brk s ∧ fixed <$> tags s' !! p = Some (fixed tag) ∧ stack s' = stack s ++ [p] ∧
  buffer s' = buffer s ∧ conf s' = conf s ∧ tag_brk s' = (tag_brk s + 1)%Z ∧ sound s' ∧
  ∀ q, (q < p)%Z → fixed <$> tags s' !! q = fixed <$> tags s !! q.

(** The innermost open element, if there is one, is called [parent]. *)
Definition within s (parent : string) : Prop :=
  ∀ q, last (stack s) = Some q → tag_name <$> tags s !! q = Some parent.

Lemma stack_below s q : xml_ok s → q ∈ stack s → (q < tag_brk s)%Z.
Proof.
  intros Hs Hq. apply Z.nle_gt. intros Hle. destruct (xo_stack s Hs q Hq) as [t Ht].
  by rewrite (xo_fresh s Hs) in Ht.
Qed.

Lemma last_below s q : xml_ok s → last (stack s) = Some q → (q < tag_brk s)%Z.
Proof. intros Hs Hq. apply stack_below; [done|]. by apply last_Some_elem_of. Qed.

Lemma within_fixed s s' parent :
  stack s' = stack s →
  (∀ q, last (stack s) = Some q →
    ∃ g, fixed <$> tags s' !! q = (λ f, (f.1, g f)) <$> (fixed <$> tags s !! q)) →
  within s parent → within s' parent.
Proof.
  intros Hst Hf Hw q Hq. rewrite Hst in Hq. specialize (Hw q Hq).
  destruct (Hf q Hq) as [g Hg]. destruct (tags s !! q) as [t|]; [|done].
  destruct (tags s' !! q) as [t'|]; [|done]. injection Hg as Hn _ _. cbn in *. congruence.
Qed.

(** A refusal of an element that the document restricts. *)
Lemma refused_error s parent e text s1 s' (x : csException) (is_text : string → Prop) :
  refused accepts s1 e is_text → within s1 parent → is_text text →
  (stack s1 ≠ [] → ok parent e text) →
  sound s' → conf s' = conf s → stack s1 = stack s → stack s' = stack s → xml_ok s1 →
  after_error s x s'.
Proof.
  intros Href Hw Htext Hok Hs Hc Hst1 Hst Hx. split_and!; [done|done|]. intros Hacc.
  enough (stack s1 = []) as Hnil by (rewrite Hst, <-Hst1; done).
  destruct (last (stack s1)) as [q|] eqn:Hlast; [|by apply last_None].
  pose proof (Hw q Hlast) as Hq. destruct (tags s1 !! q) as [tq|] eqn:Htq; [|done].
  injection Hq as Hname. destruct (Href q tq text Hlast Htq Htext). rewrite Hname.
  apply Hacc, Hok. intros Hnil. by rewrite Hnil in Hlast.
Qed.

Lemma wp_open s parent e a text p :
  sound s → in_page s p → within s parent → (stack s ≠ [] → ok parent e text) →
  wp (callback (XOpen e a, p)) (λ _ s', opened s (csXmlTag_new e a) (tag_brk s) s')
    (after_error s) s.
Proof.
  intros [Hs Ho] Hp Hw Hok. unfold callback. cbn. apply wp_bind, wp_modify.
  unfold csXmlElementOpen. apply wp_bind. unfold tag_new, wp at 1.
  set (s1 := XmlState _ _ _ _ _ _ _ _). cbn in s1.
  assert (∀ q, q ∈ stack s → (q < tag_brk s)%Z) as Hbelow by by intros; apply stack_below.
  assert (xml_ok s1) as Hs1.
  { destruct Hs as [Hst Hf Hn]. split; cbn; [| |done].
    - intros q Hq. rewrite lookup_insert_ne; [by apply Hst|]. specialize (Hbelow q Hq). lia.
    - intros q Hq. rewrite lookup_insert_ne by lia. apply Hf. lia. }
  assert (owned owner_ok data_ok s1) as Ho1.
  { owned_frame. intros q t' [[<- <-]|[_ Hq]]%lookup_insert_Some; eauto. }
  assert (tags s1 !! tag_brk s = Some (csXmlTag_new e a)) as Hnew by apply lookup_insert_eq.
  assert (within s1 parent) as Hw1.
  { intros q Hq. cbn in Hq |- *. rewrite lookup_insert_ne; [by apply Hw|].
    pose proof (last_below s q Hs Hq). lia. }
  apply wp_bind. eapply wp_mono; [by apply (open_ok s1 (tag_brk s) _ Hnew Ho1); [apply Hs1|]| |].
  2:{ intros x s2 (Hh & Ho2 & Href). pose proof (handled_ok s1 s2 Hh Hs1) as Hs2.
      destruct Hh as (Hst & _ & _ & Hc & _).
      by apply (refused_error s parent e text s1 s2 x (λ _, True)). }
  intros [] s2 [Hh Ho2]. pose proof (handled_ok s1 s2 Hh Hs1) as Hs2.
  destruct Hh as (Hst & Hbrk & Hb & Hc & Ht). apply wp_modify.
  assert (∀ q, (q < tag_brk s)%Z → fixed <$> tags s2 !! q = fixed <$> tags s !! q) as Hold.
  { intros q Hq. rewrite Ht. cbn. by rewrite lookup_insert_ne by lia. }
  split_and!; try done.
  - cbn. by rewrite Ht, Hnew.
  - cbn. by rewrite Hst.
  - split; [|owned_frame]. destruct Hs2 as [Hst2 Hf2 Hn2]. split; cbn; [|done|].
    + intros q [Hq|Hq]%elem_of_app; [by apply Hst2|].
      apply list_elem_of_singleton in Hq as ->.
      apply (same_tags_live s1); [done|]. by eexists.
    + rewrite Hst. apply NoDup_app. split_and!; [apply Hs| |apply NoDup_singleton].
      intros q Hq. rewrite list_elem_of_singleton. intros ->. specialize (Hbelow _ Hq). lia.
Qed.

(** A closed element leaves the tags that were there before it. *)
Lemma texted_deleted s s5 s6 :
  same_tags s5 s6 → stack s6 = stack s → buffer s6 = buffer s → conf s6 = conf s →
  (tag_brk s ≤ tag_brk s6)%Z → (∀ p, (tag_brk s < p)%Z → tags s5 !! p = None) →
  (∀ q, (q < tag_brk s)%Z → fixed <$> tags s5 !! q = fixed <$> tags s !! q) →
  texted s EmptyString (set_tags (delete (tag_brk s) (tags s6)) s6).
Proof.
  intros Ht Hst Hb Hc Hbrk Hnew Hold. split_and!; try done; cbn.
  - intros q Hq. destruct (decide (q = tag_brk s)) as [->|Hne]; [apply lookup_delete_eq|].
    rewrite lookup_delete_ne by done. apply (same_tags_none s5); [done|]. apply Hnew. lia.
  - intros q Hq. rewrite lookup_delete_ne, Ht, Hold by lia.
    case_decide; [|by rewrite option_fmap_id].
    destruct (tags s !! q); [|done]. cbn. unfold add_text. by rewrite append_empty.
Qed.

Lemma wp_close s parent s1 s4 e a text e' pc :
  sound s → within s parent → (stack s ≠ [] → ok parent e text) →
  opened s (csXmlTag_new e a) (tag_brk s) s1 → texted s1 text s4 → sound s4 → in_page s4 pc →
  wp (callback (XClose e', pc)) (λ _ s', texted s EmptyString s' ∧ sound s') (after_error s) s4.
Proof.
  intros [Hs _] Hw Hok (_ & Hnew1 & Hst1 & Hb1 & Hc1 & Hbrk1 & [Hs1 _] & Hold1) Htx [Hs4 Ho4] Hpc.
  destruct Htx as (Hst4 & Hb4 & Hc4 & Hbrk4 & Hnew4 & Hold4). rewrite Hst1 in Hst4.
  unfold callback. cbn. apply wp_bind, wp_modify. unfold csXmlElementClose.
  apply wp_bind. unfold stack_back, wp at 1. cbn. rewrite Hst4, last_snoc.
  apply wp_bind, wp_modify. set (s5 := set_stack _ _).
  assert (stack s5 = stack s) as Hst5.
  { unfold s5. cbn. by rewrite Hst4, removelast_last. }
  assert (∀ q, q ∈ stack s5 → is_Some (tags s5 !! q)) as Hst5l.
  { intros q. rewrite Hst5. intros Hq. apply (xo_stack s4 Hs4). rewrite Hst4. set_solver. }
  assert (xml_ok s5) as Hs5.
  { split; [done|apply Hs4|]. rewrite Hst5. apply Hs. }
  assert (owned owner_ok data_ok s5) as Ho5 by owned_frame.
  assert (∀ q, (q < tag_brk s)%Z → fixed <$> tags s5 !! q = fixed <$> tags s !! q) as Hold5.
  { intros q Hq. unfold s5. cbn. rewrite Hold4, Hst1, last_snoc, decide_False, option_fmap_id, Hold1
      by (lia || (intros [= ?]; lia)). done. }
  assert (within s5 parent) as Hw5.
  { apply (within_fixed s); [done| |done]. intros q Hq. exists snd.
    rewrite Hold5 by by apply last_below. destruct (tags s !! q) as [t|]; [|done]. by destruct t. }
  specialize (Hold4 (tag_brk s) ltac:(lia)) as Hown.
  rewrite Hst1, last_snoc, decide_True, Hnew1 in Hown by done. cbn in Hown.
  apply fmap_Some in Hown as (t & Ht & Hft). injection Hft as Hname _ Htext.
  apply wp_bind. eapply wp_mono; [by apply (close_ok s5 (tag_brk s) t)| |].
  2:{ intros x s6 (Hh & Ho6 & Href). pose proof (handled_ok s5 s6 Hh Hs5) as Hs6.
      destruct Hh as (Hst6 & _ & _ & Hc6 & _).
      apply (refused_error s parent e text s5 s6 x (λ u, u = tag_text t)); try done.
      - by rewrite Hname.
      - rewrite Hst5. exact Hok.
      - rewrite Hc6. cbn. by rewrite Hc4, Hc1.
      - by rewrite Hst6. }
  intros [] s6 [Hh Ho6]. pose proof (handled_ok s5 s6 Hh Hs5) as Hs6.
  destruct Hh as (Hst6 & Hbrk6 & Hb6 & Hc6 & Ht6).
  destruct (same_tags_live s5 s6 (tag_brk s) Ht6) as [tg Htg]; [by eexists|].
  unfold wp, tag_delete, tag_get, mbind, M_bind, modify. rewrite Htg. cbn.
  assert (texted s EmptyString (set_tags (delete (tag_brk s) (tags s6)) s6)) as Hdone.
  { apply (texted_deleted s s5); try done.
    - by rewrite Hst6, Hst5.
    - rewrite Hb6. cbn. by rewrite Hb4, Hb1.
    - rewrite Hc6. cbn. by rewrite Hc4, Hc1.
    - rewrite Hbrk6. cbn. lia.
    - intros q Hq. apply Hnew4. lia. }
  split; [done|]. split; [by apply (texted_ok s EmptyString)|]. owned_frame.
  intros q t' [_ Hq]%lookup_delete_Some. eauto.
Qed.

Lemma texted_within s text s' parent :
  xml_ok s → texted s text s' → within s parent → within s' parent.
Proof.
  intros Hs (Hst & _ & _ & _ & _ & Hold). apply within_fixed; [done|]. intros q Hq.
  exists (λ f, String.append f.2 text). rewrite Hold, decide_True by (done || by apply last_below).
  done.
Qed.

Lemma opened_within s e a s' : opened s (csXmlTag_new e a) (tag_brk s) s' → within s' e.
Proof.
  intros (_ & Hnew & Hst & _) q. rewrite Hst, last_snoc. intros [= <-].
  apply fmap_Some in Hnew as (t & -> & Hf). cbn. unfold fixed in Hf. by injection Hf as <-.
Qed.

Lemma opened_stack s tag p s' : opened s tag p s' → stack s' ≠ [].
Proof. intros (_ & _ & -> & _). by destruct (stack s). Qed.

(** The events of well-formed content, inside an element. *)
Lemma wp_content parent l :
  content ok parent l → ∀ s, sound s → stack s ≠ [] → within s parent → pages_ok s l →
  wp (foreach l callback) (λ _ s', texted s (direct 0 l) s' ∧ sound s') (after_error s) s.
Proof.
  induction 1 as [parent|parent t p l _ IH|parent e a p inner e' p' l Hok Hin IHi Hl IH];
    intros s Hs Hne Hw Hp.
  - split; [by apply texted_nil, Hs|done].
  - apply Forall_cons in Hp as [Hp1 Hp]. cbn [foreach]. apply wp_bind.
    eapply wp_conseq; [by apply wp_text|]. intros [] s1 [H1 Hs1].
    pose proof H1 as (Hst1 & Hb1 & Hc1 & _). eapply wp_mono.
    { apply IH; [done|by rewrite Hst1|by apply (texted_within s _ _ _ (proj1 Hs) H1)|].
      by apply (pages_same s). }
    + intros [] s2 [H2 Hs2]. split; [by apply (texted_trans s _ s1)|done].
    + intros x s2. by apply after_error_same.
  - rewrite (direct_elem ok) by done. apply Forall_cons in Hp as [Hp1 Hp].
    apply Forall_app in Hp as [Hpi [Hpc Hpl]%Forall_cons]. cbn [foreach]. apply wp_bind.
    eapply wp_conseq; [by apply (wp_open s parent e a (direct 0 inner))|]. intros [] s1 H1.
    pose proof (opened_stack _ _ _ _ H1) as Hne1. pose proof (opened_within _ _ _ _ H1) as Hw1.
    pose proof H1 as (_ & _ & Hst1 & Hb1 & Hc1 & _ & Hs1 & _).
    apply wp_foreach_app. eapply wp_mono.
    { apply IHi; [done..|]. by apply (pages_same s). }
    2:{ intros x s2. by apply after_error_inner. }
    intros [] s4 [H4 Hs4]. pose proof H4 as (_ & Hb4 & _). cbn [foreach]. apply wp_bind.
    eapply wp_conseq.
    { apply (wp_close s parent s1 s4 e a (direct 0 inner) e' p'); try done.
      unfold in_page in *. cbn in Hpc. by rewrite Hb4, Hb1. }
    intros [] s5 [H5 Hs5]. pose proof H5 as (Hst5 & Hb5 & Hc5 & _). eapply wp_mono.
    { apply IH; [done|by rewrite Hst5|by apply (texted_within s _ _ _ (proj1 Hs) H5)|].
      by apply (pages_same s). }
    + intros [] s6 [H6 Hs6]. split; [by apply (texted_trans s EmptyString s5)|done].
    + intros x s6. by apply after_error_same.
Qed.

(** The element that is open has its name, its attributes and its own text. *)
Definition element_seen s e a text s' : Prop :=
  ∃ p t, stack s' = stack s ++ [p] ∧ tags s' !! p = Some t ∧
    fixed t = (e, param (csXmlTag_new e a), text).

(** A document: one element with its content. *)
Definition document (e : string) (a : list (string * string)) (p : xml_pos)
    (inner : list (xml_event * xml_pos)) (e' : string) (p' : xml_pos) :
    list (xml_event * xml_pos) :=
  ((XOpen e a, p) :: inner) ++ [(XClose e', p')].

Lemma wp_element s e a p inner :
  content ok e inner → sound s → stack s = [] → pages_ok s ((XOpen e a, p) :: inner) →
  wp (foreach ((XOpen e a, p) :: inner) callback)
    (λ _ s', ∃ s1, opened s (csXmlTag_new e a) (tag_brk s) s1 ∧
      texted s1 (direct 0 inner) s' ∧ sound s') (after_error s) s.
Proof.
  intros Hin Hs Hst [Hp1 Hp]%Forall_cons. cbn [foreach]. apply wp_bind.
  eapply wp_conseq.
  { apply (wp_open s EmptyString e a EmptyString); [done..| |by rewrite Hst].
    intros q. by rewrite Hst. }
  intros [] s1 H1. pose proof (opened_stack _ _ _ _ H1) as Hne1.
  pose proof H1 as (_ & _ & Hst1 & Hb1 & Hc1 & _ & Hs1 & _). eapply wp_mono.
  { apply (wp_content e); [done|done|done|by eapply opened_within|by apply (pages_same s)]. }
  - intros [] s4 [H4 Hs4]. by exists s1.
  - intros x s4. by apply after_error_inner.
Qed.

Lemma opened_seen s e a text s1 s' :
  opened s (csXmlTag_new e a) (tag_brk s) s1 → texted s1 text s' →
  element_seen s e a text s'.
Proof.
  intros (_ & Hf & Hst1 & _ & _ & Hbrk1 & _) (Hst & _ & _ & _ & _ & Hold).
  specialize (Hold (tag_brk s) ltac:(lia)).
  rewrite Hst1, last_snoc, decide_True, Hf in Hold by done. cbn in Hold.
  apply fmap_Some in Hold as (t & Ht & Hft).
  exists (tag_brk s), t. split_done. by rewrite Hst.
Qed.

Lemma wp_document s e a p inner e' p' :
  content ok e inner → sound s → stack s = [] → pages_ok s (document e a p inner e' p') →
  wp (foreach (document e a p inner e' p') callback)
    (λ _ s', stack s' = [] ∧ conf s' = conf s ∧
      (∀ q, is_Some (tags s' !! q) → is_Some (tags s !! q)) ∧ sound s') (after_error s) s.
Proof.
  intros Hin Hs Hst Hp. apply Forall_app in Hp as [Hp [Hpc _]%Forall_cons].
  apply wp_foreach_app. eapply wp_conseq; [by apply wp_element|].
  intros [] s4 (s1 & H1 & H4 & Hs4). pose proof H1 as (_ & _ & _ & Hb1 & _).
  pose proof H4 as (_ & Hb4 & _). cbn [foreach]. apply wp_bind. eapply wp_conseq.
  { apply (wp_close s EmptyString s1 s4 e a (direct 0 inner) e' p'); try done.
    - intros q. by rewrite Hst.
    - unfold in_page in *. cbn in Hpc. by rewrite Hb4, Hb1. }
  intros [] s5 [(Hst5 & _ & Hc5 & _ & Hnew & Hold) Hs5]. split_and!; [congruence|done| |done].
  intros q Hq. destruct (decide (tag_brk s ≤ q)%Z) as [Hle|Hle].
  - rewrite Hnew in Hq by done. by destruct Hq.
  - by rewrite <-(fmap_is_Some fixed), Hold, !fmap_is_Some in Hq by lia.
Qed.

(** *** Elements at any depth *)

(** The innermost open element has this name, these attributes and this text. *)
Definition top_seen e a text s' : Prop :=
  ∃ p t, last (stack s') = Some p ∧ tags s' !! p = Some t ∧
    fixed t = (e, param (csXmlTag_new e a), text).

(** An element is opened, and then something runs inside it. *)
Lemma wp_enter s parent e a text p l (Q : unit → xml_state C → Prop) :
  sound s → in_page s p → within s parent → (stack s ≠ [] → ok parent e text) →
  (∀ s1, opened s (csXmlTag_new e a) (tag_brk s) s1 → sound s1 → stack s1 ≠ [] → within s1 e →
    buffer s1 = buffer s → wp (foreach l callback) Q (after_error s1) s1) →
  wp (foreach ((XOpen e a, p) :: l) callback) Q (after_error s) s.
Proof.
  intros Hs Hp Hw Hok Hl. cbn [foreach]. apply wp_bind.
  eapply wp_conseq; [by apply (wp_open s parent e a text)|]. intros [] s1 H1.
  pose proof (opened_stack _ _ _ _ H1) as Hne1.
  pose proof H1 as (_ & _ & Hst1 & Hb1 & Hc1 & _ & Hs1 & _). eapply wp_mono.
  - apply Hl; [done..|by eapply opened_within|done].
  - done.
  - intros x s2. by apply after_error_inner.
Qed.

(** The element that starts with the content of [inner]. *)
Lemma wp_this_element s parent e a p inner :
  content ok e inner → sound s → within s parent → (stack s ≠ [] → ok parent e (direct 0 inner)) →
  pages_ok s ((XOpen e a, p) :: inner) →
  wp (foreach ((XOpen e a, p) :: inner) callback)
    (λ _ s', top_seen e a (direct 0 inner) s') (after_error s) s.
Proof.
  intros Hin Hs Hw Hok [Hp1 Hp]%Forall_cons.
  eapply (wp_enter s parent e a (direct 0 inner)); [done..|]. intros s1 H1 Hs1 Hne1 Hw1 Hb1.
  eapply wp_conseq; [by apply (wp_content e); [..|by apply (pages_same s)]|].
  intros [] s2 [H2 _]. destruct (opened_seen s e a _ s1 s2 H1 H2) as (q & t & Hst & Ht & Hf).
  exists q, t. by rewrite Hst, last_snoc.
Qed.

(** An opening tag in front of a closing tag, or behind it. *)
Lemma open_or_later (l1 l2 pre rest : list (xml_event * xml_pos)) e a p e' p' :
  l1 ++ (XClose e', p') :: l2 = pre ++ (XOpen e a, p) :: rest →
  (∃ k, l1 = pre ++ (XOpen e a, p) :: k ∧ rest = k ++ (XClose e', p') :: l2) ∨
  (∃ k, pre = l1 ++ (XClose e', p') :: k ∧ l2 = k ++ (XOpen e a, p) :: rest).
Proof.
  intros [(k & -> & Hk)|(k & -> & Hk)]%app_eq_inv; (destruct k as [|x k]; [done|]);
    injection Hk as <- ->; [left|right]; by exists k.
Qed.

(** Every opening tag of well-formed content starts an element, and at the end
    of that element's content its tag is complete. *)
Lemma wp_any_element parent l :
  content ok parent l → ∀ pre e a p rest, l = pre ++ (XOpen e a, p) :: rest →
  ∃ inner e' p' rest', rest = inner ++ (XClose e', p') :: rest' ∧ content ok e inner ∧
    ∀ s, sound s → stack s ≠ [] → within s parent → pages_ok s l →
      wp (foreach (pre ++ (XOpen e a, p) :: inner) callback)
        (λ _ s', top_seen e a (direct 0 inner) s') (after_error s) s.
Proof.
  induction 1 as [parent|parent t p0 l _ IH|parent e0 a0 p0 inner0 e0' p0' l Hok Hin IHi Hl IH];
    intros pre e a p rest Heq.
  - by destruct pre.
  - destruct pre as [|x pre]; [done|]. injection Heq as <- Heq.
    destruct (IH pre e a p rest Heq) as (inner & e' & p' & rest' & Hr & Hc & Hwp).
    exists inner, e', p', rest'. split_and!; [done..|]. intros s Hs Hne Hw [Hp1 Hp]%Forall_cons.
    cbn [app foreach]. apply wp_bind. eapply wp_conseq; [by apply wp_text|]. intros [] s1 [H1 Hs1].
    pose proof H1 as (Hst1 & Hb1 & Hc1 & _). eapply wp_mono.
    { apply Hwp; [done|by rewrite Hst1|by apply (texted_within s _ _ _ (proj1 Hs) H1)|].
      by apply (pages_same s). }
    + done.
    + intros x s2. by apply after_error_same.
  - destruct pre as [|x pre].
    { injection Heq as <- <- <- <-. exists inner0, e0', p0', l. split_and!; [done..|].
      intros s Hs Hne Hw Hp. apply (wp_this_element s parent); [done..|].
      change ((XOpen e0 a0, p0) :: inner0 ++ (XClose e0', p0') :: l) with
        (((XOpen e0 a0, p0) :: inner0) ++ (XClose e0', p0') :: l) in Hp.
      by apply Forall_app in Hp as [Hp _]. }
    injection Heq as <- Heq.
    destruct (open_or_later _ _ _ _ _ _ _ _ _ Heq) as [(k & Hk & ->)|(k & -> & Hk)].
    + destruct (IHi pre e a p k Hk) as (inner & e' & p' & rest' & -> & Hc & Hwp).
      exists inner, e', p', (rest' ++ (XClose e0', p0') :: l). split_and!; [by rewrite <-app_assoc|done|].
      intros s Hs Hne Hw [Hp1 [Hpi _]%Forall_app]%Forall_cons.
      eapply (wp_enter s parent e0 a0 (direct 0 inner0)); [done..|]. intros s1 _ Hs1 Hne1 Hw1 Hb1.
      apply Hwp; [done..|]. by apply (pages_same s).
    + destruct (IH k e a p rest Hk) as (inner & e' & p' & rest' & Hr & Hc & Hwp).
      exists inner, e', p', rest'. split_and!; [done..|].
      intros s Hs Hne Hw [Hp1 [Hpi [Hpc Hpl]%Forall_cons]%Forall_app]%Forall_cons.
      cbn [app]. rewrite <-app_assoc. cbn [app].
      eapply (wp_enter s parent e0 a0 (direct 0 inner0)); [done..|]. intros s1 H1 Hs1 Hne1 Hw1 Hb1.
      apply wp_foreach_app. eapply wp_mono.
      { apply (wp_content e0); [done..|]. by apply (pages_same s). }
      2:{ done. }
      intros [] s4 [H4 Hs4]. pose proof H4 as (Hst4 & Hb4 & Hc4 & _). cbn [foreach]. apply wp_bind.
      pose proof H1 as (_ & _ & _ & _ & Hc1 & _).
      assert (∀ x s', after_error s x s' → after_error s1 x s') as Hback.
      { intros x s' (Hx & Hcx & Hax). split_and!; [done|congruence|]. intros Hacc.
        by destruct (Hax Hacc). }
      eapply wp_mono.
      { apply (wp_close s parent s1 s4 e0 a0 (direct 0 inner0) e0' p0'); try done.
        unfold in_page in *. cbn in Hpc. by rewrite Hb4, Hb1. }
      2:{ intros x s5. by apply Hback. }
      intros [] s5 [H5 Hs5]. pose proof H5 as (Hst5 & Hb5 & Hc5 & _). eapply wp_mono.
      { apply Hwp; [done|by rewrite Hst5|by apply (texted_within s _ _ _ (proj1 Hs) H5)|].
        by apply (pages_same s). }
      * done.
      * intros x s6 Hx. apply Hback. by apply (after_error_same s s5).
Qed.

(** C13. For a document that expat accepts (one element, well-formed content,
    inside one page), with any subclass that keeps its promise, the callbacks
    are never stuck and keep the subclass's invariant.  Every opening tag of
    the document, at whatever depth, starts an element; when its closing tag
    arrives, the tag on top of the stack has exactly the element's name, its
    attributes and the printable characters of its own text, without that of
    the elements in it.  At the end of the document the stack is empty again
    and every tag object was deleted; and an exception leaves no element open
    if the subclass accepts the inner elements of the document. *)
Theorem xml_document s e a p inner e' p' :
  content ok e inner → sound s → stack s = [] → pages_ok s (document e a p inner e' p') →
  (∀ pre e1 a1 p1 rest, document e a p inner e' p' = pre ++ (XOpen e1 a1, p1) :: rest →
    ∃ inner1 e1' p1' rest', rest = inner1 ++ (XClose e1', p1') :: rest' ∧ content ok e1 inner1 ∧
      wp (foreach (pre ++ (XOpen e1 a1, p1) :: inner1) callback)
        (λ _ s', top_seen e1 a1 (direct 0 inner1) s') (after_error s) s) ∧
  wp (foreach (document e a p inner e' p') callback)
    (λ _ s', stack s' = [] ∧ (∀ q, is_Some (tags s' !! q) → is_Some (tags s !! q)) ∧ sound s')
    (after_error s) s.
Proof.
  intros Hin Hs Hst Hp. split.
  2:{ eapply wp_conseq; [by apply wp_document|]. by intros [] s' (? & _ & ? & ?). }
  assert (within s EmptyString) as Hw by (intros q; by rewrite Hst).
  pose proof Hp as [Hp0 _]%Forall_app.
  intros pre e1 a1 p1 rest Heq. destruct pre as [|x pre].
  - injection Heq as <- <- <- <-. exists inner, e', p', []. split_and!; [done..|].
    apply (wp_this_element s EmptyString); [done..|by rewrite Hst|done].
  - injection Heq as <- Heq. destruct (open_or_later _ _ _ _ _ _ _ _ _ Heq) as [(k & Hk & ->)|(k & _ & Hk)];
      [|by destruct k].
    destruct (wp_any_element e inner Hin pre e1 a1 p1 k Hk)
      as (inner1 & e1' & p1' & rest' & -> & Hc & Hwp).
    exists inner1, e1', p1', (rest' ++ [(XClose e', p')]). split_and!; [by rewrite <-app_assoc|done|].
    apply Forall_cons in Hp0 as [Hp1 Hpi].
    eapply (wp_enter s EmptyString e a EmptyString); [done..|by rewrite Hst|].
    intros s1 _ Hs1 Hne1 Hw1 Hb1. apply Hwp; [done..|]. by apply (pages_same s).
Qed.

(** ** Reading a file *)

(** A file in whose reading nothing is open when an error comes up: it cannot be
    opened or read, it is no XML from the start, or it is a document with
    acceptable elements; all inside one page. *)
Inductive readable (page_size : nat) : Z + list xml_page → Prop :=
  | readable_absent errno : readable page_size (inl errno)
  | readable_error bytes errno events err :
      readable page_size (inr [XmlPage bytes (Some errno) events err])
  | readable_garbage bytes what p :
      length bytes ≤ page_size → (0 ≤ byte_index p < Z.of_nat page_size)%Z →
      readable page_size (inr [XmlPage bytes None [] (Some (what, p))])
  | readable_document bytes e a p inner e' p' :
      length bytes ≤ page_size → content ok e inner →
      Forall (λ x, 0 ≤ byte_index x.2 < Z.of_nat page_size)%Z (document e a p inner e' p') →
      readable page_size (inr [XmlPage bytes None (document e a p inner e' p') None]).

(** The parser between two files: no element is open. *)
Definition idle s : Prop := sound s ∧ stack s = [].

Lemma Reset_idle page_size s :
  stack s = [] → Reset page_size s = Ok tt (set_buffer (replicate page_size x00) s).
Proof. intros Hst. unfold Reset, mbind, M_bind, modify, gets. cbn. by rewrite Hst. Qed.

Lemma sound_frame s s' :
  sound s → stack s' = stack s → tags s' = tags s → tag_brk s' = tag_brk s →
  owner s' = owner s → sound s'.
Proof.
  intros [[Hst Hf Hn] Ho] Hs Ht Hb Hw. split.
  - split; rewrite ?Hs, ?Ht, ?Hb; done.
  - apply (owned_frame s); [done..|]. rewrite Ht. eauto.
Qed.

Lemma length_page (bytes : list byte) n :
  length bytes ≤ n → length (bytes ++ drop (length bytes) (replicate n x00)) = n.
Proof. intros Hle. rewrite length_app, length_drop, length_replicate. lia. Qed.

(** Reading such a file, whatever it holds, leaves the parser ready for the
    next one, whether or not an exception is thrown. *)
Lemma wp_Parse page_size filename file s :
  (∀ parent e text, ok parent e text → accepts parent e text) →
  readable page_size file → idle s →
  wp (Parse page_size filename file) (λ _ s', idle s' ∧ conf s' = conf s)
    (λ _ s', idle s' ∧ conf s' = conf s) s.
Proof.
  intros Hacc Hfile [Hs Hst]. unfold Parse. apply wp_bind.
  apply (wp_ok _ tt (set_buffer (replicate page_size x00) s)); [by apply Reset_idle|].
  set (s1 := set_buffer _ s). assert (idle s1 ∧ conf s1 = conf s) as Hidle1.
  { split; [split; [by apply (sound_frame s)|done]|done]. }
  apply wp_bind, wp_gets. destruct (conf s1 =? 0)%Z; [done|].
  destruct Hfile as [errno|bytes errno events err|bytes what p Hlen Hp|
      bytes e a p inner e' p' Hlen Hin Hpages]; [done|..];
    apply wp_bind, wp_modify, wp_bind; cbn [parse_pages]; apply wp_bind, wp_modify.
  - apply wp_throw. split; [split; [by apply (sound_frame s)|done]|done].
  - cbn [page_errno page_error page_events page_bytes foreach].
    apply wp_bind, wp_ret, wp_bind, wp_bind, wp_modify, wp_ParseError.
    + unfold in_page. cbn. by rewrite length_page.
    + intros x. split; [split; [by apply (sound_frame s)|done]|done].
  - cbn [page_errno page_error page_events page_bytes].
    apply wp_bind. eapply wp_mono.
    { apply (wp_document _ e a p inner e' p'); [done|by apply (sound_frame s)|done|].
      unfold pages_ok, in_page. cbn. by rewrite length_page. }
    + intros [] s4 (Hst4 & Hc4 & _ & Hs4). apply wp_bind, wp_ret, wp_ret, wp_modify.
      split; [split; [by apply (sound_frame s4)|done]|done].
    + intros x s4 (Hs4 & Hc4 & Hopen). split; [split; [done|by apply Hopen]|done].
Qed.
End handlers.
Arguments HandlersOk C {_}.

(** ** Any events that expat may report *)

(** Events of a document that may be cut off anywhere: no closing tag without
    its opening tag, and no text outside elements. *)
Fixpoint nested (depth : nat) (l : list (xml_event * xml_pos)) : bool :=
  match l with
  | [] => true
  | (XOpen _ _, _) :: l => nested (S depth) l
  | (XClose _, _) :: l => match depth with O => false | S d => nested d l end
  | (XText _, _) :: l => negb (depth =? 0) && nested depth l
  end.

Section nested.
Context `{HandlersOk C}.
Implicit Types s : xml_state C.

Lemma top_within s : xml_ok s → ∃ parent, within s parent.
Proof.
  intros Hs. destruct (last (stack s)) as [q|] eqn:Hq.
  - destruct (xo_stack s Hs q) as [t Ht]; [by apply last_Some_elem_of|].
    exists (tag_name t). intros q'. rewrite Hq. intros [= <-]. by rewrite Ht.
  - exists EmptyString. intros q'. by rewrite Hq.
Qed.

Lemma wp_close_sound s e' pc :
  sound s → stack s ≠ [] → in_page s pc →
  wp (callback (XClose e', pc)) (λ _ s', sound s' ∧ buffer s' = buffer s ∧
      stack s' = removelast (stack s)) (λ _ s', sound s') s.
Proof.
  intros [Hs Ho] Hne Hpc. destruct (exists_last Hne) as (st & q & Hst).
  unfold callback. cbn. apply wp_bind, wp_modify. unfold csXmlElementClose.
  apply wp_bind. unfold stack_back, wp at 1. cbn. rewrite Hst, last_snoc.
  apply wp_bind, wp_modify. set (s5 := set_stack _ _).
  assert (stack s5 = st) as Hst5 by (unfold s5; cbn; by rewrite Hst, removelast_last).
  pose proof (xo_nodup s Hs) as Hnd. rewrite Hst in Hnd.
  apply NoDup_app in Hnd as (Hnd & Hnq & _).
  assert (∀ r, r ∈ stack s5 → is_Some (tags s5 !! r)) as Hl5.
  { intros r. rewrite Hst5. intros Hr. apply (xo_stack s Hs). rewrite Hst. set_solver. }
  assert (xml_ok s5) as Hs5 by (split; [done|apply Hs|by rewrite Hst5]).
  assert (owned owner_ok data_ok s5) as Ho5.
  { apply (owned_frame s); [done|done|]. intros r t' Hr. right. by exists r, t'. }
  destruct (xo_stack s Hs q) as [t Ht]; [rewrite Hst; set_solver|].
  apply wp_bind. eapply wp_mono; [by apply (close_ok s5 q t)| |].
  2:{ intros x s6 (Hh & Ho6 & _). split; [by apply (handled_ok s5)|done]. }
  intros [] s6 [Hh Ho6]. pose proof (handled_ok s5 s6 Hh Hs5) as Hs6.
  destruct Hh as (Hst6 & _ & Hb6 & _ & Ht6).
  destruct (same_tags_live s5 s6 q Ht6) as [tg Htg]; [by eexists|].
  unfold wp, tag_delete, tag_get, mbind, M_bind, modify. rewrite Htg. cbn.
  rewrite removelast_last. split_and!; [|done|by rewrite Hst6]. split.
  - destruct Hs6 as [Hl6 Hf6 Hn6]. split; cbn; [| |done].
    + intros r Hr. rewrite lookup_delete_ne; [by apply Hl6|]. intros <-.
      rewrite Hst6, Hst5 in Hr. specialize (Hnq q Hr). set_solver.
    + intros r Hr. apply lookup_delete_None. right. by apply Hf6.
  - apply (owned_frame s6); [done|done|]. cbn. intros r t' [_ Hr]%lookup_delete_Some. right. by exists r, t'.
Qed.

(** Whatever such events are, and whatever the handlers throw: the callbacks
    are never stuck, and every open tag is live. *)
Lemma wp_nested l : ∀ s,
  sound s → pages_ok s l → nested (length (stack s)) l = true →
  wp (foreach l callback) (λ _ s', sound s' ∧ buffer s' = buffer s) (λ _ s', sound s') s.
Proof.
  induction l as [|[[e a|e|txt] pe] l IH]; intros s Hs Hp Hn; [done|..];
    apply Forall_cons in Hp as [Hp1 Hp]; cbn [foreach nested] in *; apply wp_bind.
  - destruct (top_within s (proj1 Hs)) as [parent Hw]. eapply wp_mono.
    { by apply (wp_open anything s parent e a EmptyString pe). }
    2:{ by intros x s' [Hx _]. }
    intros [] s1 (_ & _ & Hst1 & Hb1 & _ & _ & Hs1 & _). eapply wp_conseq.
    { apply IH; [done|by apply (pages_same s)|]. rewrite Hst1, length_app, Nat.add_comm. exact Hn. }
    intros [] s2 [Hs2 Hb2]. split; [done|congruence].
  - destruct (length (stack s)) as [|d] eqn:Hd; [done|].
    eapply wp_conseq; [apply wp_close_sound; [done| |done]|].
    { by destruct (stack s). }
    intros [] s1 (Hs1 & Hb1 & Hst1). eapply wp_conseq.
    { apply IH; [done|by apply (pages_same s)|]. rewrite Hst1.
      destruct (exists_last (l:=stack s)) as (st & q & Hst); [by destruct (stack s)|].
      rewrite Hst in Hd |- *. rewrite removelast_last. rewrite length_app in Hd. cbn in Hd.
      by replace (length st) with d by lia. }
    intros [] s2 [Hs2 Hb2]. split; [done|congruence].
  - apply andb_true_iff in Hn as [Hd Hn]. eapply wp_mono.
    { apply (wp_text anything); [done|]. intros Hnil. by rewrite Hnil in Hd. }
    2:{ by intros x s' [Hx _]. }
    intros [] s1 [(Hst1 & Hb1 & _) Hs1]. eapply wp_conseq.
    { apply IH; [done|by apply (pages_same s)|by rewrite Hst1]. }
    intros [] s2 [Hs2 Hb2]. split; [done|congruence].
Qed.

(** A file of one page that expat reads to its end or to an error, of whatever
    content. *)
Definition one_page (page_size : nat) (file : Z + list xml_page) : Prop :=
  match file with
  | inl _ => True
  | inr [pg] => length (page_bytes pg) ≤ page_size ∧ nested 0 (page_events pg) = true ∧
      Forall (λ x, 0 ≤ byte_index x.2 < Z.of_nat page_size)%Z (page_events pg) ∧
      match page_error pg with
      | Some (_, p) => (0 ≤ byte_index p < Z.of_nat page_size)%Z
      | None => True
      end
  | inr _ => False
  end.

(** Reading it is never stuck; after an error elements may be open, with live
    tags, so that the parser can be deleted. *)
Lemma wp_Parse_any page_size filename file s :
  one_page page_size file → idle s →
  wp (Parse page_size filename file) (λ _ s', sound s') (λ _ s', sound s') s.
Proof.
  intros Hfile [Hs Hst]. unfold Parse. apply wp_bind.
  apply (wp_ok _ tt (set_buffer (replicate page_size x00) s)); [by apply Reset_idle|].
  set (s1 := set_buffer _ s). assert (sound s1) as Hs1 by by apply (sound_frame s).
  apply wp_bind, wp_gets. destruct (conf s1 =? 0)%Z; [done|].
  destruct file as [errno|[|pg []]]; [done|done| |done].
  destruct Hfile as (Hlen & Hn & Hpages & Herr). apply wp_bind, wp_modify, wp_bind.
  cbn [parse_pages]. apply wp_bind, wp_modify. set (s2 := set_buffer _ _).
  assert (length (buffer s2) = page_size) as Hb2 by (unfold s2; cbn; by rewrite length_page).
  assert (sound s2) as Hs2 by by apply (sound_frame s).
  destruct (page_errno pg); [done|]. apply wp_bind. eapply wp_mono.
  { apply wp_nested; [done| |by unfold s2; cbn; rewrite Hst].
    unfold pages_ok, in_page. by rewrite Hb2. }
  2:{ done. }
  intros [] s3 [Hs3 Hb3]. apply wp_bind. destruct (page_error pg) as [[what p]|].
  - apply wp_bind, wp_modify, wp_ParseError; [|intros x; by apply (sound_frame s3)].
    unfold in_page. cbn. by rewrite Hb3, Hb2.
  - apply wp_ret. cbn. by apply (sound_frame s3).
Qed.

(** One [Reset] of a parser with open elements deletes their tags. *)
Lemma Reset_sound page_size s :
  sound s → ∃ s', Reset page_size s = Ok tt s' ∧ ∀ q, q ∈ stack s → tags s' !! q = None.
Proof.
  intros [[Hl _ Hnd] _]. destruct (foreach_delete (stack s) (set_buffer (replicate page_size x00) s) Hnd Hl)
    as (s' & Hrun & _ & Hdead). by exists s'.
Qed.
End nested.

(** *** A subclass that does nothing, and a parser at the start *)

#[export] Instance quiet : XmlHandlers unit := {|
  ParseElementOpen := λ _, mret tt;
  ParseElementClose := λ _, mret tt;
|}.

#[export] Program Instance quiet_ok : HandlersOk unit := {|
  owner_ok := λ _, True;
  data_ok := λ _ _, True;
  accepts := anything;
|}.
Next Obligation. done. Qed.
Next Obligation. intros s p t _ Ho _ _. split; [apply handled_refl|done]. Qed.
Next Obligation. intros s p t _ Ho _ _. split; [apply handled_refl|done]. Qed.

Definition sample_parser : xml_state unit :=
  XmlState ∅ 1 [] 9 false (replicate 64 x20) (XmlPos 1 0 0) tt.

Lemma sample_parser_ok : xml_ok sample_parser.
Proof.
  split; cbn; [|done|constructor]. intros q Hq. by apply elem_of_nil in Hq.
Qed.

Definition sample_inner : list (xml_event * xml_pos) :=
  [(XText ("a" ++ String (Ascii.ascii_of_N 10) "b"), XmlPos 1 8 8);
   (XOpen "x" [("k", "v")], XmlPos 1 9 9); (XText "no", XmlPos 1 10 10);
   (XClose "x", XmlPos 1 11 11); (XText "c", XmlPos 1 12 12)].

Lemma sample_content : content anything "csconf" sample_inner.
Proof.
  apply content_text, (content_elem _ _ "x" [("k", "v")] (XmlPos 1 9 9)
    [(XText "no", XmlPos 1 10 10)]
    "x" (XmlPos 1 11 11)); [done|apply content_text, content_nil..].
Qed.

Lemma sample_parser_sound : sound sample_parser.
Proof. split; [exact sample_parser_ok|]. by split. Qed.

(** The inner element [x] of the sample, and its text. *)
Lemma xml_document_witness :
  wp (foreach [(XOpen "csconf" [("version", "1")], XmlPos 1 0 0);
      (XText ("a" ++ String (Ascii.ascii_of_N 10) "b"), XmlPos 1 8 8);
      (XOpen "x" [("k", "v")], XmlPos 1 9 9); (XText "no", XmlPos 1 10 10)] callback)
    (λ _ s', top_seen "x" [("k", "v")] "no" s')
    (after_error anything sample_parser) sample_parser.
Proof.
  pose proof (xml_document anything sample_parser "csconf" [("version", "1")] (XmlPos 1 0 0)
    sample_inner "csconf" (XmlPos 1 20 20) sample_content sample_parser_sound eq_refl) as Hdoc.
  destruct Hdoc as [Hseen _].
  { repeat (apply List.Forall_cons; [split; cbn; lia|]). apply List.Forall_nil. }
  destruct (Hseen [(XOpen "csconf" [("version", "1")], XmlPos 1 0 0);
      (XText ("a" ++ String (Ascii.ascii_of_N 10) "b"), XmlPos 1 8 8)] "x" [("k", "v")] (XmlPos 1 9 9)
      [(XText "no", XmlPos 1 10 10); (XClose "x", XmlPos 1 11 11); (XText "c", XmlPos 1 12 12);
       (XClose "csconf", XmlPos 1 20 20)] eq_refl) as (inner & e' & p' & rest & Hr & Hc & Hwp).
  destruct inner as [|x1 [|x2 [|x3 [|x4 inner]]]]; cbn in Hr.
  - discriminate Hr.
  - injection Hr as <- <- <- <-. exact Hwp.
  - injection Hr as <- <- Hr. inversion Hc as [|? ? ? ? Hc'|]; inversion Hc'.
  - injection Hr as <- <- <- Hr. inversion Hc as [|? ? ? ? Hc'|]; inversion Hc'.
  - apply (f_equal length) in Hr. cbn in Hr. rewrite length_app in Hr. cbn in Hr. lia.
Defined.

(** The parser after [<csconf><plugin-dir>] and then a syntax error. *)
Definition sample_broken : xml_state unit :=
  XmlState (<[2%Z := csXmlTag_new "plugin-dir" []]> (<[1%Z := csXmlTag_new "csconf" []]> ∅))
    3 [1; 2]%Z 9 false (replicate 64 x20) (XmlPos 1 20 20) tt.

Example sample_broken_reached :
  parse_pages "f" [XmlPage [] None [(XOpen "csconf" [], XmlPos 1 0 0);
    (XOpen "plugin-dir" [], XmlPos 1 8 8)] (Some ("not well-formed", XmlPos 1 20 20))]
    sample_parser =
  Throw (csXmlParseException_new "not well-formed" (XmlPos 1 20 20) x20) sample_broken.
Proof. reflexivity. Qed.

Lemma sample_broken_ok : xml_ok sample_broken.
Proof.
  split; cbn.
  - intros q. rewrite !elem_of_cons, elem_of_nil. intros [->|[->|[]]]; by eexists.
  - intros q Hq. rewrite !lookup_insert_ne by lia. apply lookup_empty.
  - repeat constructor; set_solver.
Qed.

Lemma error_double_free_witness :
  ∃ s1 p, Reset 64 sample_broken = Ok tt s1 ∧
    (Reset 64;; Parse 64 "g" (inr [])) sample_broken = Stuck (UseAfterFree p).
Proof.
  destruct (error_double_free sample_broken 64 "g" (inr []) sample_broken_ok)
    as (s1 & p & H1 & _ & _ & H2); [done|].
  exists s1, p. exact (conj H1 H2).
Defined.
