(* ===== verification/Main.v ===== *)
(** * The main program (csmain.cpp, csmain.h)

    The handlers of the main configuration file, the scan of the plugin
    directory, the event filters, the main loop, the signal handler, the
    options and the exit code.  Shared libraries, the directory, the children
    of the process and the option parser give their results as arguments. *)

From S2P Require Import Prelude Exception Bytes Event EventInv EventOps Bus Thread Plugin Util.
From S2P Require Import Conf.
From Stdlib Require Import Strings.Ascii.

(** ** Numbers in attributes *)

Definition LONG_MAX : Z := 2 ^ 63 - 1.
Definition LONG_MIN : Z := - 2 ^ 63.

Fixpoint digits_val (acc : Z) (s : list ascii) : Z :=
  match s with
  | c :: s => if (48 <=? code c)%Z && (code c <=? 57)%Z
              then digits_val (10 * acc + (code c - 48)) s else acc
  | [] => acc
  end.

(** [atol]: as [strtol] in base ten, which clamps. *)
Definition atol (s : string) : Z :=
  let v := match skip_space (chars s) with
           | c :: s' => if is_char 45 c then - digits_val 0 s'
                        else if is_char 43 c then digits_val 0 s' else digits_val 0 (c :: s')
           | [] => 0
           end%Z in
  Z.max LONG_MIN (Z.min LONG_MAX v).

(** [atoi]: [(int)strtol(...)] *)
Definition atoi (s : string) : Z := ((atol s + 2 ^ 31) mod 2 ^ 32 - 2 ^ 31)%Z.

Definition _CS_CONF_VERSION : Z := 1.
Definition _CS_THREAD_STACK_SIZE : Z := 32768.
Definition PTHREAD_STACK_MIN : Z := 16384.

(** The [stack-size] attribute, as a [size_t]. *)
Definition stack_size_of (page_size : Z) (attr : string) : Z :=
  let stack_size := (atol attr mod 2 ^ 64)%Z in
  if (stack_size <? PTHREAD_STACK_MIN)%Z then PTHREAD_STACK_MIN
  else if negb (stack_size mod page_size =? 0)%Z
  then ((stack_size + stack_size mod page_size) mod 2 ^ 64)%Z
  else stack_size.

(** ** The state of [csMain] and [csMainConf] *)

(** A plugin object: what the program uses of it. *)
Record plugin_obj := PluginObj {
  po_name : string;
  po_fh : option FILE;
  po_state : gmap string (list byte);
}.

Record main_conf := MainConf {
  version : Z;
  plugin_dir : string;
  filename : string;
  plugin : gmap string csPluginLoader;               (* map<string, csPluginLoader *> *)
  plugin_event_filter : gmap Z (list string);        (* map<csPlugin *, vector<string> > *)
  plugin_objs : gmap Z plugin_obj;                   (* live plugin objects *)
  handles : gmultiset Z;                             (* open libraries *)
  disk : gmap string (list byte);
}.

Definition set_version (v : Z) (m : main_conf) : main_conf :=
  MainConf v (plugin_dir m) (filename m) (plugin m) (plugin_event_filter m) (plugin_objs m)
    (handles m) (disk m).
Definition set_plugin_dir (d : string) (m : main_conf) : main_conf :=
  MainConf (version m) d (filename m) (plugin m) (plugin_event_filter m) (plugin_objs m)
    (handles m) (disk m).
Definition set_filename (f : string) (m : main_conf) : main_conf :=
  MainConf (version m) (plugin_dir m) f (plugin m) (plugin_event_filter m) (plugin_objs m)
    (handles m) (disk m).
Definition set_plugin (p : gmap string csPluginLoader) (m : main_conf) : main_conf :=
  MainConf (version m) (plugin_dir m) (filename m) p (plugin_event_filter m) (plugin_objs m)
    (handles m) (disk m).
Definition set_filter (f : gmap Z (list string)) (m : main_conf) : main_conf :=
  MainConf (version m) (plugin_dir m) (filename m) (plugin m) f (plugin_objs m)
    (handles m) (disk m).
Definition set_objs (o : gmap Z plugin_obj) (m : main_conf) : main_conf :=
  MainConf (version m) (plugin_dir m) (filename m) (plugin m) (plugin_event_filter m) o
    (handles m) (disk m).
Definition set_handles (h : gmultiset Z) (m : main_conf) : main_conf :=
  MainConf (version m) (plugin_dir m) (filename m) (plugin m) (plugin_event_filter m)
    (plugin_objs m) h (disk m).
Definition set_disk (d : gmap string (list byte)) (m : main_conf) : main_conf :=
  MainConf (version m) (plugin_dir m) (filename m) (plugin m) (plugin_event_filter m)
    (plugin_objs m) (handles m) d.

(** [plugin->GetName()] *)
Definition GetName (p : Z) : prog main_conf string := λ m,
  match plugin_objs m !! p with
  | Some o => Ok (po_name o) m
  | None => Stuck (UseAfterFree p)
  end.

(** Run an operation of [Plugin] on the plugin object at [p]. *)
Definition on_plugin {A} (p : Z) (op : prog pstate A) : prog main_conf A := λ m,
  match plugin_objs m !! p with
  | None => Stuck (UseAfterFree p)
  | Some o =>
      zoom (λ m, PState (disk m) (po_name o) (po_fh o) (po_state o))
        (λ s m, set_objs (<[p := PluginObj (pl_name s) (fh_state s) (state s)]> (plugin_objs m))
          (set_disk (files s) m)) op m
  end.

(** [csMain] with the threads of the process, and the state above. *)
Record csMain := CsMain {
  m_threads : thread_state;
  m_conf : main_conf;
}.

Definition set_m_threads (t : thread_state) (m : csMain) : csMain := CsMain t (m_conf m).
Definition set_conf (c : main_conf) (m : csMain) : csMain := CsMain (m_threads m) c.
Definition m_world (m : csMain) : world := t_bus (m_threads m).
Definition set_world (w : world) (m : csMain) : csMain :=
  set_m_threads (set_t_bus w (m_threads m)) m.

#[global] Arguments m_world : simpl never.
#[global] Arguments set_world : simpl never.

Abbreviation on_threads m := (zoom m_threads set_m_threads m).
Abbreviation on_world m := (zoom m_world set_world m).
Abbreviation in_conf m := (zoom m_conf set_conf m).

(** ** Event filters *)

Definition bar : ascii := Ascii.ascii_of_N 124.
#[global] Arguments bar : simpl never.

(** [text.find(c, from)] *)
Fixpoint find_from (c : ascii) (from : nat) (s : list ascii) : option nat :=
  match s with
  | [] => None
  | x :: s' =>
      match from with
      | O => if Ascii.eqb x c then Some 0%nat else S <$> find_from c 0 s'
      | S from => S <$> find_from c from s'
      end
  end.

(** [text.substr(pos, n)] *)
Definition substr (pos n : nat) (s : list ascii) : list ascii := firstn n (skipn pos s).

(** The splitting loop; every round passes a bar, so the length is fuel
    enough. *)
Fixpoint split_loop (fuel : nat) (text : list ascii) (prev : nat) (next : option nat)
    (atoms : list (list ascii)) : nat * list (list ascii) :=
  match fuel, next with
  | S fuel, Some next =>
      split_loop fuel text (S next) (find_from bar (S next) text)
        (atoms ++ [substr prev (next - prev) text])
  | _, _ => (prev, atoms)
  end.

Definition split_filter (text : list ascii) : list (list ascii) :=
  let r := split_loop (length text) text 0 (find_from bar 0 text) [] in
  if (r.1 <? length text)%nat then r.2 ++ [drop r.1 text] else r.2.

(** [find_first_not_of(' ')] and [find_last_not_of(' ')] *)
Fixpoint first_not_space (s : list ascii) : option nat :=
  match s with
  | [] => None
  | c :: s => if Ascii.eqb c space then S <$> first_not_space s else Some 0%nat
  end.
Fixpoint last_not_space (s : list ascii) : option nat :=
  match s with
  | [] => None
  | c :: s =>
      match last_not_space s with
      | Some i => Some (S i)
      | None => if Ascii.eqb c space then None else Some 0%nat
      end
  end.

(** [atom.substr(head, tail + 1 - head)], in [size_t]: [npos + 1] is 0. *)
Definition trim (s : list ascii) : list ascii :=
  let head := default 0%nat (first_not_space s) in
  let tail1 := match last_not_space s with Some i => S i | None => 0%nat end in
  substr head (tail1 - head) s.

(** [plugin_event_filter[plugin].push_back(atom)] *)
Definition filter_push (p : Z) (atom : string) (m : main_conf) : main_conf :=
  set_filter (<[p := default [] (plugin_event_filter m !! p) ++ [atom]]>
    (plugin_event_filter m)) m.

Definition filter_atom (p : Z) (s : list ascii) : prog main_conf unit :=
  if (length s =? 0)%nat then mret tt
  else
    let atom := of_chars (trim s) in
    name ← GetName p;
    if strcaseeq atom name then mret tt
    else modify (filter_push p atom).

Definition ParseEventFilter (p : Z) (text : string) : prog main_conf unit :=
  foreach (split_filter (chars text)) (filter_atom p).

(** The names the warnings of [ValidateConfiguration] list. *)
Definition ValidateConfiguration (m : main_conf) : list string :=
  mjoin ((λ f : Z * list string, filter (λ j, plugin m !! j = None) f.2) <$>
    map_to_list (plugin_event_filter m)).

(** ** The handlers of the configuration file *)

Section handlers.
Context (page_size alloc_max file_max : Z) (openable : string → bool).
(** The address of a new event client; the results of the thread attributes'
    functions. *)
Context (new_client : world → Z) (attr_init : option Z) (attr_setstacksize : Z → option Z).

(** What the function [csPluginInit] of a library does: it gives a null pointer,
    the constructor of its plugin throws after that of [csPlugin], or it returns
    the plugin. *)
Inductive init_result := InitNull | InitThrows (x : csException) | InitDone.

(** [dlopen] and [dlsym], and that function, for a library, a plugin name and a
    stack size; what [SetConfigurationFile] of a plugin throws. *)
Context (load : csMain → string → string → Z → dl_results * init_result).
Context (configure : Z → string → option csException).

(** [~csPlugin] and the destructors of its bases. *)
Definition csPlugin_destruct (p : Z) : prog csMain unit :=
  in_conf (on_plugin p (csPlugin_delete file_max));;
  in_conf (modify (λ m, set_objs (delete p (plugin_objs m)) m));;
  on_threads (csThread_delete p).

(** The constructor of [csPlugin]. *)
Definition csPlugin_construct (p : Z) (name : string) (size : Z) : prog csMain unit :=
  on_threads (csThread_new p size attr_init attr_setstacksize);;
  in_conf (modify (λ m, set_objs (<[p := PluginObj name None ∅]> (plugin_objs m)) m)).

(** The macro [csPluginInit]. *)
Definition csPluginInit (name : string) (size : Z) (r : init_result) : prog csMain Z :=
  match r with
  | InitNull => mret NULL
  | _ =>
      w ← gets m_world;
      let p := new_client w in
      csPlugin_construct p name size;;
      match r with
      | InitThrows x => csPlugin_destruct p;; throw x
      | _ => mret p
      end
  end.

Definition m_handles (m : csMain) : gmultiset Z := handles (m_conf m).
Definition set_m_handles (h : gmultiset Z) (m : csMain) : csMain :=
  set_conf (set_handles h (m_conf m)) m.

Abbreviation xstate := (xml_state csMain).
Definition on_main {A} (m : prog csMain A) : prog xstate A := zoom owner set_owner m.
Definition on_conf {A} (m : prog main_conf A) : prog xstate A := on_main (in_conf m).

Definition get_param (key : string) (t : csXmlTag) : prog xstate string :=
  match GetParamValue key t with inl v => mret v | inr x => throw x end.

Definition unexpected (t : csXmlTag) : prog xstate unit :=
  ParseError ("unexpected tag: " ++ tag_name t).

Definition open_csconf (t : csXmlTag) : prog xstate unit :=
  st ← gets stack;
  when (negb (length st =? 0)%nat) (unexpected t);;
  when (negb (ParamExists "version" t)) (ParseError "version parameter missing");;
  v ← get_param "version" t;
  on_conf (modify (set_version (atoi v)));;
  when (_CS_CONF_VERSION <? atoi v)%Z (ParseError "unsupported version, too new").

(** The first [try] block: a loader with its plugin, or nothing. *)
Definition load_plugin (library name : string) (size : Z) : prog csMain (option csPluginLoader) :=
  try_catch
    (m ← gets (λ m, m);
     let (dl, r) := load m library name size in
     l ← csPluginLoader_new m_handles set_m_handles library dl (csPluginInit name size r);
     mret (Some l))
    (λ _, mret None).

Definition open_plugin (p : Z) (t : csXmlTag) : prog xstate unit :=
  st ← gets stack;
  when (negb (length st =? 0)%nat) (unexpected t);;
  when (negb (ParamExists "name" t)) (ParseError "name parameter missing");;
  when (negb (ParamExists "library" t)) (ParseError "library parameter missing");;
  size ← (if ParamExists "stack-size" t
          then (v ← get_param "stack-size" t; mret (stack_size_of page_size v))
          else mret _CS_THREAD_STACK_SIZE);
  name ← get_param "name" t;
  library ← get_param "library" t;
  m ← gets (λ s, m_conf (owner s));
  when (bool_decide (is_Some (plugin m !! name))) (ParseError ("duplicate plugin: " ++ name));;
  l ← on_main (load_plugin library name size);
  match l with
  | None => mret tt
  | Some l =>
      match configure (Plugin.plugin l) (filename m) with
      | Some _ => on_main (csPluginLoader_delete m_handles set_m_handles l)
      | None =>
          tag_update p (SetData (Plugin.plugin l));;
          on_conf (modify (λ m, set_plugin (<[name := l]> (plugin m)) m))
      end
  end.

Definition main_open (p : Z) : prog xstate unit :=
  t ← tag_get p;
  if tag_is "csconf" t then open_csconf t
  else if tag_is "plugin" t then open_plugin p t
  else mret tt.

(** The element around the one that closes: [!stack.size() || ...] *)
Definition inside (parent : string) (t : csXmlTag) : prog xstate Z :=
  st ← gets stack;
  match last st with
  | None => unexpected t;; mret 0%Z
  | Some q =>
      pt ← tag_get q;
      when (negb (tag_is parent pt)) (unexpected t);;
      mret (tag_data pt)
  end.

Definition missing (t : csXmlTag) : prog xstate unit :=
  when (String.length (tag_text t) =? 0)%nat
    (ParseError ("missing value for tag: " ++ tag_name t)).

Definition main_close (p : Z) : prog xstate unit :=
  t ← tag_get p;
  if tag_is "plugin-dir" t then
    inside "csconf" t;; missing t;;
    on_conf (modify (set_plugin_dir (tag_text t)))
  else if tag_is "state-file" t then
    pl ← inside "plugin" t;
    missing t;;
    when (negb (pl =? NULL)%Z)
      (on_conf (on_plugin pl (SetStateFile alloc_max openable (tag_text t))))
  else if tag_is "event-filter" t then
    pl ← inside "plugin" t;
    missing t;;
    when (negb (pl =? NULL)%Z) (on_conf (ParseEventFilter pl (tag_text t)))
  else mret tt.

Definition main_handlers : XmlHandlers csMain := {|
  ParseElementOpen := main_open;
  ParseElementClose := main_close;
|}.

(** ** Reading the configuration *)

Inductive d_type := DT_DIR | DT_REG | DT_LNK | DT_UNKNOWN | DT_OTHER.

(** The expression [\.conf$], in any case. *)
Definition conf_name (name : string) : bool :=
  let n := String.length name in
  (5 <=? n)%nat && strcaseeq ".conf" (String.substring (n - 5) 5 name).

(** The files: what opening each of them gives. *)
Context (fopen : string → Z + list xml_page).

Definition reset : prog xstate unit := Reset (Z.to_nat page_size).
Definition parse : prog xstate unit :=
  m ← gets (λ s, m_conf (owner s));
  @Parse _ main_handlers (Z.to_nat page_size) (filename m) (fopen (filename m)).

(** One directory entry. *)
Definition scan_entry (entry : string * d_type) : prog xstate unit :=
  match entry.2 with
  | DT_DIR | DT_OTHER => mret tt
  | _ =>
      if negb (conf_name entry.1) then mret tt
      else try_catch
        (on_conf (modify (λ m, set_filename (plugin_dir m ++ "/" ++ entry.1) m));;
         reset;; parse)
        (λ _, mret tt)
  end.

(** [opendir] fails, or the entries up to the end or to an error. *)
Definition ScanPlugins (opendir : string → option (list (string * d_type))) :
    prog xstate unit :=
  m ← gets (λ s, m_conf (owner s));
  match opendir (plugin_dir m) with
  | None => mret tt
  | Some entries => foreach entries scan_entry
  end;;
  on_conf (modify (set_filename (filename m))).

Definition Reload (opendir : string → option (list (string * d_type))) : prog xstate unit :=
  reset;; parse;; ScanPlugins opendir.
End handlers.

(** ** Events in the main program *)

(** [event->SetValue(key, value)] through a [csEventPlugin *]: undefined for
    an event of another class. *)
Definition event_SetValue (p : Z) (key value : string) : prog world unit :=
  e ← ev_load p;
  match ev_class e with
  | EvPlugin kv => ev_store p (set_class (EvPlugin (SetValue key value kv)) e)
  | _ => stuck OutOfBounds
  end.

(** The inner loop of [DispatchPluginEvent], for the filter of the plugin at
    [dst]: the first matching name whose plugin is known ends it. *)
Fixpoint dispatch_filter (this event : Z) (source : string) (dst : Z)
    (names : list string) : prog csMain unit :=
  match names with
  | [] => mret tt
  | j :: names =>
      if negb (strcaseeq source j) then dispatch_filter this event source dst names
      else
        name ← in_conf (GetName dst);
        c ← gets m_conf;
        match plugin c !! name with
        | None => dispatch_filter this event source dst names
        | Some loader =>
            copy ← on_world (Clone event);
            on_world (EventDispatch this copy (Plugin.plugin loader))
        end
  end.

(** [map<csPlugin *, ...>] is in the order of the pointers. *)
Definition filter_le (a b : Z * list string) : Prop := (a.1 ≤ b.1)%Z.
#[export] Instance filter_le_dec a b : Decision (filter_le a b).
Proof. unfold filter_le. apply _. Defined.
Definition filters (m : gmap Z (list string)) : list (Z * list string) :=
  merge_sort filter_le (map_to_list m).

Definition DispatchPluginEvent (this event : Z) : prog csMain unit :=
  e ← on_world (ev_load event);
  name ← in_conf (GetName (GetSource e));
  on_world (event_SetValue event "event_source" name);;
  c ← gets m_conf;
  foreach (filters (plugin_event_filter c))
    (λ f, dispatch_filter this event name f.1 f.2).

(** One round of [Run] for an event that [EventPopWait] returned: whether the
    program ends. *)
Definition run_event (this event : Z) : prog csMain bool :=
  e ← on_world (ev_load event);
  if (GetId e =? csEVENT_QUIT)%Z
  then on_world (EventDestroy event);; mret true
  else
    when (GetId e =? csEVENT_PLUGIN)%Z (DispatchPluginEvent this event);;
    on_world (EventDestroy event);;
    mret false.

(** [Run] while events are queued: [true] when it returned, [false] when it
    waits (or after [fuel] events). *)
Fixpoint Run (fuel : nat) (this : Z) : prog csMain bool :=
  match fuel with
  | O => mret false
  | S fuel =>
      event ← on_world (EventPop this);
      if (event =? CS_EVENT_NONE)%Z then mret false
      else
        quit ← run_event this event;
        if (quit : bool) then mret true else Run fuel this
  end.

(** ** The signal handler *)

Definition SIGHUP : Z := 1.
Definition SIGINT : Z := 2.
Definition SIGTERM : Z := 15.
Definition SIGCHLD : Z := 17.

Inductive wait_status := Exited (code : Z) | Signaled (sig : Z) | Abnormal.

(** [Reaper]: the children it collects, from the results of [waitpid] until
    one that is not positive. *)
Fixpoint Reaper (waitpid : list (Z * wait_status)) : list Z :=
  match waitpid with
  | (pid, _) :: rest => if (0 <? pid)%Z then pid :: Reaper rest else []
  | [] => []
  end.

Definition main_quit : csEvent := csEvent_new csEVENT_QUIT (Z.lor Sticky HighPriority).

(** One round of [Entry] of [csSignalHandler]: whether the thread ends.
    [inl] is [errno] of a failed [sigwaitinfo]. *)
Definition signal_round (this : Z) (r : Z + Z) : prog world bool :=
  match r with
  | inl errno =>
      if (errno =? EINTR)%Z then mret false
      else p ← ev_new main_quit; EventBroadcast this p;; mret true
  | inr sig =>
      if (sig =? SIGINT)%Z || (sig =? SIGTERM)%Z
      then p ← ev_new main_quit; EventBroadcast this p;; mret true
      else if (sig =? SIGHUP)%Z
      then p ← ev_new (csEvent_new csEVENT_RELOAD FlagNone); EventBroadcast this p;; mret false
      else mret false
  end.

Fixpoint signal_entry (this : Z) (results : list (Z + Z)) : prog world bool :=
  match results with
  | [] => mret false
  | r :: results =>
      quit ← signal_round this r;
      if (quit : bool) then mret true else signal_entry this results
  end.

(** The locks libcrypto asks for: its mutexes, or a null array. *)
Definition CRYPTO_LOCK : Z := 1.
Definition cs_crypto_lock (mode : Z) (n : nat) : prog (option (list mutex)) unit := λ s,
  match s with
  | None => Ok tt None
  | Some ms =>
      match ms !! n with
      | None => Stuck OutOfBounds
      | Some m =>
          (if negb (Z.land mode CRYPTO_LOCK =? 0)%Z
           then mutex_lock (λ _, m) (λ m, fmap (<[n := m]>))
           else mutex_unlock (λ _, m) (λ m, fmap (<[n := m]>))) s
      end
  end.

(** ** Dumping a state file *)

Section dump.
Context (alloc_max file_max : Z) (openable : string → bool).

Definition quote : ascii := Ascii.ascii_of_N 34.

(** [csPluginStateLoader::DumpStateFile]: the lines it prints. *)
Definition dump_entry (kv : string * list byte) : list (list ascii) :=
  ([quote] ++ c_str (chars kv.1) ++ [quote; newline]) ::
  csHexDump kv.2 ++ [[newline]].

Definition StateLoader_DumpStateFile (path : string) : prog pstate (list (list ascii)) :=
  SetStateFile alloc_max openable path;;
  LoadState alloc_max;;
  m ← gets state;
  mret (mjoin (dump_entry <$> entries m)).

(** [csMain::DumpStateFile]: a loader object for the time of the call. *)
Definition DumpStateFile (path : string) : prog pstate (list (list ascii)) :=
  csPlugin_new "StateLoader";;
  out ← StateLoader_DumpStateFile path;
  csPlugin_delete file_max;;
  mret out.
End dump.

(** ** Options and the exit code *)

Definition csEXIT_SUCCESS : Z := 0.
Definition csEXIT_INVALID_OPTION : Z := 1.
Definition csEXIT_XML_PARSE_ERROR : Z := 2.
Definition csEXIT_UNHANDLED_EX : Z := 3.

Definition csUsageException_new : csException :=
  CsExc CsUsageException (WhatText "csException") (-1) "csUsageException".
Definition csDumpStateException_new : csException :=
  CsExc CsDumpStateException (WhatText "csException") (-1) "csDumpStateException".
Definition csInvalidOptionException_new : csException :=
  CsExc CsInvalidOptionException (WhatText "csException") (-1) "csInvalidOptionException".

(** What [getopt_long] returns in turn. *)
Inductive option_char :=
  | OptVersion | OptConfig (optarg : string) | OptDebug | OptDump (optarg : string)
  | OptLog (optarg : string) | OptUnknown | OptHelp.

(** [Usage] prints and throws. *)
Definition Usage {S A} : prog S A := throw csUsageException_new.

(** [main]: the exit code for what the constructor or [Run] throws; the
    handlers are tried in order. *)
Definition main_exit (thrown : option csException) : Z :=
  match thrown with
  | None => csEXIT_SUCCESS
  | Some e =>
      match cls e with
      | CsUsageException => csEXIT_SUCCESS
      | CsDumpStateException => csEXIT_SUCCESS
      | CsInvalidOptionException => csEXIT_INVALID_OPTION
      | CsXmlParseException _ _ _ => csEXIT_XML_PARSE_ERROR
      | _ => csEXIT_UNHANDLED_EX
      end
  end.
