(* ===== verification/MainProps.v ===== *)
(** * The main program: properties

    Event filters as they are written and as they are used, the main loop, the
    stack size of a plugin and the dump of a state file. *)

From S2P Require Import Prelude Exception Bytes Event EventInv EventOps Bus EventProps.
From S2P Require Import Thread Plugin PluginProps Util UtilProps Conf Main.
From Stdlib Require Import Strings.Ascii.

Abbreviation take := firstn.

(** ** Splitting and trimming *)

(** The fields between bars. *)
Fixpoint fields (s : list ascii) : list (list ascii) :=
  match s with
  | [] => [[]]
  | c :: s =>
      if Ascii.eqb c bar then [] :: fields s
      else match fields s with
      | f :: fs => (c :: f) :: fs
      | [] => [[c]]
      end
  end.

Lemma fields_nil s : fields s ≠ [].
Proof. destruct s as [|c s]; [done|]. cbn. by destruct (Ascii.eqb c bar), (fields s). Qed.

Lemma fields_plain f : bar ∉ f → fields f = [f].
Proof.
  induction f as [|c f IH]; [done|]. intros [Hc Hf]%not_elem_of_cons. cbn.
  destruct (Ascii.eqb_spec c bar); [done|]. by rewrite IH.
Qed.

Lemma fields_bar f s : bar ∉ f → fields (f ++ bar :: s) = f :: fields s.
Proof.
  induction f as [|c f IH]; intros Hf; cbn; [by rewrite Ascii.eqb_refl|].
  apply not_elem_of_cons in Hf as [Hc Hf].
  destruct (Ascii.eqb_spec c bar); [done|]. by rewrite IH.
Qed.

(** Either there is no bar, or the first one ends the first field. *)
Lemma first_bar s :
  bar ∉ s ∧ find_from bar 0 s = None ∨
  ∃ f s', s = f ++ bar :: s' ∧ bar ∉ f ∧ find_from bar 0 s = Some (length f).
Proof.
  induction s as [|c s IH]; [left; by split; [apply not_elem_of_nil|]|]. cbn.
  destruct (Ascii.eqb_spec c bar) as [->|Hc].
  - right. exists [], s. split_and!; [done|apply not_elem_of_nil|done].
  - destruct IH as [[Hn ->]|(f & s' & -> & Hf & ->)].
    + left. split; [|done]. by apply not_elem_of_cons.
    + right. exists (c :: f), s'. split_and!; [done| |done]. by apply not_elem_of_cons.
Qed.

Lemma find_from_app pre s :
  find_from bar (length pre) (pre ++ s) = Nat.add (length pre) <$> find_from bar 0 s.
Proof.
  induction pre as [|c pre IH]; cbn; [by destruct (find_from bar 0 s)|].
  rewrite IH. by destruct (find_from bar 0 s).
Qed.

Lemma split_loop_run fuel pre s atoms :
  length s ≤ fuel →
  ∃ n, split_loop fuel (pre ++ s) (length pre) (find_from bar (length pre) (pre ++ s)) atoms =
    (n, atoms ++ removelast (fields s)) ∧
    drop n (pre ++ s) = List.last (fields s) [] ∧ n ≤ length (pre ++ s).
Proof.
  revert pre s atoms. induction fuel as [|fuel IH]; intros pre s atoms Hlen.
  { destruct s; [|cbn in Hlen; lia]. exists (length pre). cbn. rewrite !app_nil_r.
    by rewrite drop_all. }
  rewrite find_from_app. destruct (first_bar s) as [[Hs ->]|(f & s' & -> & Hf & ->)]; cbn.
  - exists (length pre). rewrite fields_plain by done. cbn.
    rewrite app_nil_r, drop_app_length, length_app. split_and!; [done|done|lia].
  - rewrite fields_bar by done.
    replace (pre ++ f ++ bar :: s') with ((pre ++ f ++ [bar]) ++ s') by by rewrite <-!app_assoc.
    assert (S (length pre + length f) = length (pre ++ f ++ [bar])) as ->.
    { rewrite !length_app. cbn. lia. }
    rewrite !length_app in Hlen. cbn in Hlen.
    destruct (IH (pre ++ f ++ [bar]) s'
      (atoms ++ [substr (length pre) (length pre + length f - length pre)
        ((pre ++ f ++ [bar]) ++ s')])) as (n & Hrun & Hd & Hn); [lia|].
    exists n. rewrite Hrun. split_and!; [| |done].
    2: { rewrite Hd. destruct (fields s') eqn:E; [by apply fields_nil in E|done]. }
    f_equal. rewrite <-app_assoc. f_equal.
    replace (length pre + length f - length pre) with (length f) by lia.
    unfold substr. rewrite <-!app_assoc.
    rewrite drop_app_length, take_app_length.
    destruct (fields s') eqn:E; [by apply fields_nil in E|done].
Qed.

Lemma removelast_last_app {A} (l : list A) (d : A) :
  l ≠ [] → l = removelast l ++ [List.last l d].
Proof. apply app_removelast_last. Qed.

(** The atoms are the fields; an empty last field is not among them. *)
Lemma split_filter_fields s :
  split_filter s = fields s ∨ fields s = split_filter s ++ [[]].
Proof.
  destruct (split_loop_run (length s) [] s [] ltac:(lia)) as (n & Hrun & Hd & Hn).
  unfold split_filter. cbn in Hrun, Hd, Hn. rewrite Hrun. cbn [fst snd].
  pose proof (removelast_last_app (fields s) [] (fields_nil s)) as Hfs. rewrite <-Hd in Hfs.
  destruct (n <? length s) eqn:Hlt; [by left|right].
  apply Nat.ltb_ge in Hlt. by rewrite drop_ge in Hfs by lia.
Qed.

Lemma last_not_space_spec s :
  match last_not_space s with
  | Some i => ∃ c, s !! i = Some c ∧ c ≠ space ∧ drop (S i) s = replicate (length s - S i) space
  | None => s = replicate (length s) space
  end.
Proof.
  induction s as [|c s IH]; [done|]. cbn [last_not_space].
  destruct (last_not_space s) as [i|].
  - destruct IH as (x & Hx & Hne & Hd). by exists x.
  - destruct (Ascii.eqb_spec c space) as [->|Hc]; cbn; [by rewrite IH at 1|].
    exists c. split_and!; [done|done|]. rewrite Nat.sub_0_r. by rewrite drop_0.
Qed.

Lemma first_not_space_spec s :
  match first_not_space s with
  | Some i => ∃ c, s !! i = Some c ∧ c ≠ space ∧ take i s = replicate i space
  | None => s = replicate (length s) space
  end.
Proof.
  induction s as [|c s IH]; [done|]. cbn [first_not_space].
  destruct (Ascii.eqb_spec c space) as [->|Hc]; [|by exists c].
  destruct (first_not_space s) as [i|]; cbn.
  - destruct IH as (x & Hx & Hne & Hd). exists x. split_and!; [done|done|]. by rewrite Hd.
  - by rewrite IH at 1.
Qed.

(** [t] is [s] without the blanks around it. *)
Definition trimmed (s t : list ascii) : Prop :=
  (∃ a b, s = replicate a space ++ t ++ replicate b space) ∧
  head t ≠ Some space ∧ last t ≠ Some space.

Lemma space_at a i c : replicate a space !! i = Some c → c = space.
Proof. intros Hc. by apply lookup_replicate in Hc as [-> _]. Qed.

Lemma trim_trimmed s : trimmed s (trim s).
Proof.
  unfold trim. pose proof (first_not_space_spec s) as Hf.
  pose proof (last_not_space_spec s) as Hl.
  destruct (first_not_space s) as [i|], (last_not_space s) as [j|];
    cbn [default from_option id].
  - destruct Hf as (c & Hc & Hcs & Hi), Hl as (d & Hd & Hds & Hj).
    assert (i ≤ j) as Hij.
    { destruct (decide (i ≤ j)); [done|]. exfalso. apply Hds.
      apply (space_at i j). rewrite <-Hi. by rewrite lookup_take_lt by lia. }
    assert (substr i (S j - i) s = take (S j - i) (drop i s)) as -> by done.
    split; [|split].
    + exists i, (length s - S j). rewrite <-Hi, <-Hj.
      replace (drop (S j) s) with (drop (S j - i) (drop i s)).
      * by rewrite take_drop, take_drop.
      * rewrite drop_drop. f_equal. lia.
    + rewrite head_lookup, lookup_take_lt, lookup_drop, Nat.add_0_r by lia.
      rewrite Hc. by intros [= ->].
    + apply lookup_lt_Some in Hd as Hlen.
      rewrite last_lookup, length_take, length_drop.
      replace (pred (Nat.min (S j - i) (length s - i))) with (j - i) by lia.
      rewrite lookup_take_lt, lookup_drop by lia. replace (i + (j - i)) with j by lia.
      rewrite Hd. by intros [= ->].
  - exfalso. destruct Hf as (c & Hc & Hcs & _). apply Hcs.
    rewrite Hl in Hc. by apply space_at in Hc.
  - exfalso. destruct Hl as (c & Hc & Hcs & _). apply Hcs.
    rewrite Hf in Hc. by apply space_at in Hc.
  - split; [|done]. exists (length s), 0. cbn. by rewrite app_nil_r.
Qed.

(** ** Event filters as written *)

(** What the text of an [event-filter] element adds for a plugin called
    [name]: every field that is not empty, without the blanks around it, but
    not the plugin's own name. *)
Definition filter_names (name : string) (text : list ascii) : list string :=
  filter (λ a, strcaseeq a name = false)
    ((λ f, of_chars (trim f)) <$> filter (λ f, length f ≠ 0) (fields text)).

Lemma filter_atoms_run p o (l : list (list ascii)) m :
  plugin_objs m !! p = Some o →
  ∃ f, foreach l (filter_atom p) m = Ok tt (set_filter f m) ∧
    default [] (f !! p) = default [] (plugin_event_filter m !! p) ++
      filter (λ a, strcaseeq a (po_name o) = false)
        ((λ f, of_chars (trim f)) <$> filter (λ f, length f ≠ 0) l) ∧
    ∀ q, q ≠ p → f !! q = plugin_event_filter m !! q.
Proof.
  revert m. induction l as [|s l IH]; intros m Ho.
  { exists (plugin_event_filter m). cbn. rewrite app_nil_r. split_and!; [by destruct m|done..]. }
  cbn [foreach]. unfold mbind at 1, M_bind at 1. unfold filter_atom at 1.
  rewrite filter_cons. destruct (length s =? 0) eqn:Hlen.
  - apply Nat.eqb_eq in Hlen. rewrite decide_False by auto. by apply IH.
  - apply Nat.eqb_neq in Hlen. rewrite decide_True by done. cbn [fmap list_fmap].
    rewrite filter_cons. unfold mbind at 1, M_bind at 1, GetName. rewrite Ho.
    destruct (strcaseeq (of_chars (trim s)) (po_name o)) eqn:Hself.
    + rewrite decide_False by done. by apply IH.
    + rewrite decide_True by done. unfold modify.
      destruct (IH (filter_push p (of_chars (trim s)) m)) as (f & Hrun & Hp & Hq); [done|].
      exists f. split_and!.
      * exact Hrun.
      * rewrite Hp. cbn. rewrite lookup_insert_eq. cbn. by rewrite <-app_assoc.
      * intros q Hne. rewrite Hq by done. cbn. by rewrite lookup_insert_ne.
Qed.

(** C37. [ParseEventFilter] of a live plugin returns and appends to the plugin's
    filter exactly the names between the bars of the text, in order: empty
    fields and the plugin's own name (in any case) are left out, the blanks
    around each name are removed, and no other filter or part of the
    configuration changes. *)
Theorem ParseEventFilter_names p o text m :
  plugin_objs m !! p = Some o →
  ∃ f, ParseEventFilter p text m = Ok tt (set_filter f m) ∧
    default [] (f !! p) =
      default [] (plugin_event_filter m !! p) ++ filter_names (po_name o) (chars text) ∧
    (∀ q, q ≠ p → f !! q = plugin_event_filter m !! q) ∧
    Forall (λ s, trimmed s (trim s)) (fields (chars text)).
Proof.
  intros Ho. destruct (filter_atoms_run p o (split_filter (chars text)) m Ho)
    as (f & Hrun & Hp & Hq).
  exists f. split_and!; [done| |done|apply Forall_forall; intros; apply trim_trimmed].
  rewrite Hp. unfold filter_names. f_equal. f_equal. f_equal.
  destruct (split_filter_fields (chars text)) as [->| ->]; [done|].
  by rewrite filter_app, app_nil_r.
Qed.

(** *** A main program with two plugins *)

Definition sample_conf : main_conf :=
  MainConf 1 "/etc/clearsync.d" "/etc/clearsync.conf"
    {[ "Alpha" := PluginLoader "a.so" 1 100; "beta" := PluginLoader "b.so" 2 200 ]}
    ∅ {[ 100%Z := PluginObj "Alpha" None ∅; 200%Z := PluginObj "beta" None ∅ ]} {[+ 1%Z; 2%Z +]} ∅.

Lemma ParseEventFilter_names_witness :
  ∃ f, ParseEventFilter 200 " alpha ||BETA| two words |" sample_conf =
      Ok tt (set_filter f sample_conf) ∧
    default [] (f !! 200%Z) = ["alpha"; "two words"].
Proof.
  destruct (ParseEventFilter_names 200 (PluginObj "beta" None ∅)
    " alpha ||BETA| two words |" sample_conf eq_refl) as (f & Hrun & Hf & _).
  exists f. split; [exact Hrun|]. rewrite Hf. vm_compute. reflexivity.
Defined.

(** ** Event filters as used *)

Lemma set_world_same m : set_world (m_world m) m = m.
Proof. by destruct m as [[] ?]. Qed.

Lemma set_conf_same m : set_conf (m_conf m) m = m.
Proof. by destruct m. Qed.

Lemma world_set w m : m_world (set_world w m) = w.
Proof. done. Qed.

Section dispatch.
Context (this event : Z) (source : string) (H : gset Z).

(** A plugin event that the main program holds. *)
Definition plugin_event (w : world) (e : csEvent) : Prop :=
  wf w H ∧ heap w !! event = Some e ∧ event ∈ H ∧ IsPersistent e = false ∧
  (∃ kv, ev_class e = EvPlugin kv) ∧ is_Some (view w this).

Lemma plugin_event_refs w e : plugin_event w e → refs w event = 0.
Proof. intros ([Hw _] & He & Hin & Hper & _). by apply (own_refs w H event e). Qed.

Lemma clone_plugin e kv : ev_class e = EvPlugin kv → Clone_of e = inl e.
Proof. unfold Clone_of. intros Hc. rewrite Hc. by destruct e; cbn in *; subst. Qed.

(** [EventDispatch(event->Clone(), dst)] *)
Lemma copy_dispatch w e dst :
  plugin_event w e → dst ≠ CS_EVENT_BROADCAST →
  ∃ w', (copy ← Clone event; EventDispatch this copy dst) w = Ok tt w' ∧
    plugin_event w' e ∧
    ∀ c, view w' c = (if decide (c = dst) then deliver (SetSource this (SetTarget dst e))
                      else id) <$> view w c.
Proof.
  intros Hpe Hdst. pose proof (plugin_event_refs w e Hpe) as H0.
  destruct Hpe as (Hwf & He & Hin & Hper & [kv Hkv] & Hthis).
  assert (posted this dst e = Some (SetSource this (SetTarget dst e))) as Hp.
  { unfold posted. by rewrite (proj2 (Z.eqb_neq _ _) Hdst). }
  destruct (post_ok w H this dst e _ Hwf Hthis Hp) as (w' & Hrun & Hw' & _ & _ & Hk & Hv).
  assert (∀ c, view w' c = (if decide (c = dst) then deliver (SetSource this (SetTarget dst e))
                      else id) <$> view w c) as Hv'.
  { intros c. rewrite Hv. unfold reaches, deliver_if. rewrite (proj2 (Z.eqb_neq _ _) Hdst).
    cbn. case_decide as Hc; [by rewrite Hc, Z.eqb_refl|].
    by rewrite (proj2 (Z.eqb_neq _ _)) by congruence. }
  exists w'. split_and!; [| |done].
  - unfold post, mbind, M_bind in Hrun. unfold Clone, ev_load, mbind, M_bind.
    by rewrite He, (clone_plugin e kv Hkv).
  - split_and!; try done; [by apply (Hk event e)|by eexists|].
    by rewrite Hv', fmap_is_Some.
Qed.

(** The main program knows every plugin that has a filter. *)
Definition filter_known (m : main_conf) (d : Z) : Prop :=
  d ≠ CS_EVENT_BROADCAST ∧ ∃ o l, plugin_objs m !! d = Some o ∧
    plugin m !! po_name o = Some l ∧ Plugin.plugin l = d.

Definition hears (names : list string) : bool := existsb (strcaseeq source) names.
Arguments hears : simpl never.

Lemma dispatch_filter_run m e d names :
  plugin_event (m_world m) e → filter_known (m_conf m) d →
  ∃ w', dispatch_filter this event source d names m = Ok tt (set_world w' m) ∧
    plugin_event w' e ∧
    ∀ c, view w' c = (if decide (c = d ∧ hears names = true)
                      then deliver (SetSource this (SetTarget d e)) else id)
                     <$> view (m_world m) c.
Proof.
  intros Hpe (Hd & o & l & Ho & Hl & Hld).
  induction names as [|j names IH].
  { exists (m_world m). split_and!; [by rewrite set_world_same|done|]. intros c.
    rewrite decide_False by (by intros [_ ?]). by rewrite option_fmap_id. }
  cbn [dispatch_filter]. change (hears (j :: names)) with (strcaseeq source j || hears names).
  destruct (strcaseeq source j) eqn:Hj; cbn [negb orb]; [|exact IH].
  destruct (copy_dispatch (m_world m) e d Hpe Hd) as (w' & Hrun & Hpe' & Hv).
  exists w'. split_and!; [|done|].
  - unfold mbind, M_bind, zoom, GetName, gets. cbn. rewrite Ho. cbn. rewrite Hl, Hld. cbn.
    rewrite set_conf_same.
    unfold mbind, M_bind in Hrun. destruct (Clone event (m_world m)) as [p w1| |]; [|done..].
    rewrite world_set. by rewrite Hrun.
  - intros c. rewrite Hv. apply option_fmap_ext. intros v.
    destruct (decide (c = d)) as [Hc|Hc].
    + by rewrite decide_True.
    + by rewrite decide_False by by intros [? _].
Qed.

(** What the client at [c] is offered when the filters [l] were gone through. *)
Definition offered_by (l : list (Z * list string)) (e : csEvent) (c : Z) :
    bool * list csEvent → bool * list csEvent :=
  if existsb (λ f, (f.1 =? c)%Z && hears f.2) l
  then deliver (SetSource this (SetTarget c e)) else id.

Lemma dispatch_filters_run l e m :
  plugin_event (m_world m) e → NoDup l.*1 → Forall (λ f, filter_known (m_conf m) f.1) l →
  ∃ w', foreach l (λ f, dispatch_filter this event source f.1 f.2) m =
      Ok tt (set_world w' m) ∧ plugin_event w' e ∧
    ∀ c, view w' c = offered_by l e c <$> view (m_world m) c.
Proof.
  intros Hpe Hnd Hl. revert m Hpe Hl. induction l as [|[d names] l IH]; intros m Hpe Hl.
  { exists (m_world m). split_and!; [by rewrite set_world_same|done|]. intros c. by rewrite option_fmap_id. }
  apply NoDup_cons in Hnd as [Hd Hnd]. apply Forall_cons in Hl as [Hkn Hl].
  destruct (dispatch_filter_run m e d names Hpe Hkn) as (w1 & Hrun1 & Hpe1 & Hv1).
  destruct (IH Hnd (set_world w1 m) Hpe1 Hl) as (w' & Hrun & Hpe' & Hv).
  exists w'. split_and!; [|done|].
  - cbn [foreach]. unfold mbind, M_bind. cbn [fst snd]. by rewrite Hrun1, Hrun.
  - intros c. rewrite Hv. rewrite world_set. rewrite Hv1, <-option_fmap_compose.
    apply option_fmap_ext. intros v. unfold offered_by. cbn.
    destruct (decide (c = d)) as [->|Hc].
    + rewrite Z.eqb_refl. cbn.
      assert (existsb (λ f, (f.1 =? d)%Z && hears f.2) l = false) as Hnone.
      { apply not_true_is_false. rewrite existsb_exists. intros ([d' n'] & Hin & Hb).
        apply andb_true_iff in Hb as [Hb _]. apply Z.eqb_eq in Hb. cbn in Hb. subst d'.
        apply Hd. apply list_elem_of_fmap. exists (d, n'). split; [done|].
        by apply list_elem_of_In. }
      rewrite Hnone. destruct (hears names); cbn.
      * by rewrite decide_True.
      * by rewrite decide_False by by intros [_ ?].
    + rewrite (decide_False (P:=c = d ∧ hears names = true)) by by intros [? _].
      by rewrite (proj2 (Z.eqb_neq d c)) by congruence.
Qed.
End dispatch.

#[global] Arguments hears : simpl never.

Lemma filters_perm f : filters f ≡ₚ map_to_list f.
Proof. apply merge_sort_Permutation. Qed.

Lemma filters_nodup f : NoDup (filters f).*1.
Proof. rewrite filters_perm. apply NoDup_fst_map_to_list. Qed.

Lemma filters_hear source f c :
  existsb (λ f, (f.1 =? c)%Z && hears source f.2) (filters f) =
    match f !! c with Some names => hears source names | None => false end.
Proof.
  apply eq_true_iff_eq. rewrite existsb_exists. split.
  - intros ([d names] & Hin & [Hd Hn]%andb_true_iff). cbn in *. apply Z.eqb_eq in Hd as ->.
    apply list_elem_of_In in Hin. rewrite filters_perm, elem_of_map_to_list in Hin.
    by rewrite Hin.
  - destruct (f !! c) as [names|] eqn:Hf; [|done]. intros Hn. exists (c, names).
    rewrite <-list_elem_of_In, filters_perm, elem_of_map_to_list. cbn.
    by rewrite Z.eqb_refl, Hn.
Qed.

(** The event after [SetValue("event_source", ...)]. *)
Definition with_source (name : string) (e : csEvent) : csEvent :=
  match ev_class e with
  | EvPlugin kv => set_class (EvPlugin (SetValue "event_source" name kv)) e
  | _ => e
  end.

Lemma event_SetValue_run this event H w e name :
  plugin_event this event H w e →
  ∃ w', event_SetValue event "event_source" name w = Ok tt w' ∧
    plugin_event this event H w' (with_source name e) ∧ ∀ c, view w' c = view w c.
Proof.
  intros Hpe. pose proof (plugin_event_refs this event H w e Hpe) as H0.
  destruct Hpe as (Hwf & He & Hin & Hper & [kv Hkv] & Hthis).
  unfold event_SetValue, ev_load, ev_store, mbind, M_bind, with_source. rewrite He, Hkv.
  cbn. rewrite He. eexists. split; [done|]. destruct Hwf as [Hw Hm].
  set (e' := set_class _ e). assert (IsPersistent e' = IsPersistent e) as Hper' by done.
  assert (∀ c, view (set_heap (<[event := e']> (heap w)) w) c = view w c) as Hv.
  { intros c. by apply (view_store w H). }
  split; [|done]. split_and!; try done.
  - split; [|done]. by apply (core_store w H event e).
  - cbn. by rewrite lookup_insert_eq.
  - cbn. by eexists.
  - by rewrite Hv.
Qed.

(** Who is offered an event of a plugin called [name]. *)
Definition addressed (c : main_conf) (name : string) (dst : Z) : bool :=
  match plugin_event_filter c !! dst with Some names => hears name names | None => false end.

Lemma dispatch_event_run this event H m e o :
  plugin_event this event H (m_world m) e →
  plugin_objs (m_conf m) !! GetSource e = Some o →
  map_Forall (λ d _, filter_known (m_conf m) d) (plugin_event_filter (m_conf m)) →
  ∃ w', DispatchPluginEvent this event m = Ok tt (set_world w' m) ∧
    plugin_event this event H w' (with_source (po_name o) e) ∧
    ∀ c, view w' c =
      (if addressed (m_conf m) (po_name o) c
       then deliver (SetSource this (SetTarget c (with_source (po_name o) e))) else id)
      <$> view (m_world m) c.
Proof.
  intros Hpe Ho Hknown.
  destruct (event_SetValue_run this event H (m_world m) e (po_name o) Hpe)
    as (w1 & Hset & Hpe1 & Hv1).
  destruct (dispatch_filters_run this event (po_name o) H
    (filters (plugin_event_filter (m_conf m))) _ (set_world w1 m) Hpe1)
    as (w' & Hrun & Hpe' & Hv).
  - apply filters_nodup.
  - apply Forall_forall. intros [d names]. rewrite filters_perm, elem_of_map_to_list.
    apply Hknown.
  - exists w'. split_and!; [|done|].
    + destruct Hpe as (_ & He & _).
      unfold DispatchPluginEvent, mbind, M_bind, zoom, ev_load, GetName, gets. cbn.
      rewrite He. cbn. rewrite set_world_same, Ho. cbn. rewrite set_conf_same, Hset. exact Hrun.
    + intros c. rewrite Hv. rewrite world_set. rewrite Hv1. unfold offered_by, addressed.
      by rewrite filters_hear.
Qed.

(** C19. Dispatching a plugin event returns and hands a copy of it, marked with
    the name of the plugin that sent it, to exactly those plugins whose event
    filter lists that name in any case: each gets one copy however often its
    filter lists the name, nobody else's queue changes, and the main program
    still holds the original. *)
Theorem DispatchPluginEvent_reaches this event H m e o :
  plugin_event this event H (m_world m) e →
  plugin_objs (m_conf m) !! GetSource e = Some o →
  map_Forall (λ d _, filter_known (m_conf m) d) (plugin_event_filter (m_conf m)) →
  ∃ w', DispatchPluginEvent this event m = Ok tt (set_world w' m) ∧
    plugin_event this event H w' (with_source (po_name o) e) ∧
    ∀ c, view w' c =
      (if match plugin_event_filter (m_conf m) !! c with
          | Some names => hears (po_name o) names
          | None => false
          end
       then deliver (SetSource this (SetTarget c (with_source (po_name o) e))) else id)
      <$> view (m_world m) c.
Proof. apply dispatch_event_run. Qed.

(** *** The main program (50) with a plugin event from plugin 100 *)

Definition sample_event : csEvent :=
  SetSource 100 (SetTarget 50 (csEventPlugin_new "notice")).
Definition sample_main : csMain :=
  CsMain (ThreadState (allocated (constructed 50 sample0) sample_event) ∅ ∅ ∅)
    (set_filter {[ 200%Z := ["gamma"; "ALPHA"; "alpha"] ]} sample_conf).

Lemma sample_main_world : wf (constructed 50 sample0) ∅.
Proof. apply constructed_ok; [apply sample0_wf|by vm_compute|done|done]. Qed.

Lemma sample_main_event : plugin_event 50 1 {[1%Z]} (m_world sample_main) sample_event.
Proof.
  split_and!; [|reflexivity|set_solver|reflexivity|by eexists|by vm_compute; eexists].
  replace ({[1%Z]} : gset Z) with (EventOps.take 1 sample_event ∅) by by vm_compute.
  apply (wf_allocated (constructed 50 sample0) ∅ sample_event sample_main_world).
Qed.

Lemma DispatchPluginEvent_reaches_witness :
  ∃ w', DispatchPluginEvent 50 1 sample_main = Ok tt (set_world w' sample_main) ∧
    view w' 200%Z = Some (true, [SetSource 50 (SetTarget 200 (with_source "Alpha" sample_event))]) ∧
    view w' 100%Z = Some (true, []).
Proof.
  destruct (DispatchPluginEvent_reaches 50 1 {[1%Z]} sample_main sample_event
    (PluginObj "Alpha" None ∅) sample_main_event eq_refl) as (w' & Hrun & _ & Hv).
  - intros d names. cbn. rewrite lookup_singleton_Some. intros [<- <-].
    split; [done|]. by exists (PluginObj "beta" None ∅), (PluginLoader "b.so" 2 200).
  - exists w'. split; [exact Hrun|]. rewrite !Hv. split; vm_compute; reflexivity.
Defined.

(** ** The main loop *)

(** An event the main program can handle: one that is taken off the queue, and,
    if it is a plugin event, sent by a plugin that is alive. *)
Definition manageable (c : main_conf) (e : csEvent) : Prop :=
  IsSticky e = false ∧
  (GetId e = csEVENT_PLUGIN → IsPersistent e = false ∧ (∃ kv, ev_class e = EvPlugin kv) ∧
    is_Some (plugin_objs c !! GetSource e)).

(** The main program is no plugin, and it knows the plugins that have filters. *)
Definition filters_ok (this : Z) (c : main_conf) : Prop :=
  plugin_event_filter c !! this = None ∧
  map_Forall (λ d _, filter_known c d) (plugin_event_filter c).

Lemma with_source_flags name e :
  IsPersistent (with_source name e) = IsPersistent e.
Proof. unfold with_source. by destruct (ev_class e). Qed.

(** A copy of a plugin event that the main program handed on. *)
Definition passed_on (e : csEvent) : Prop :=
  GetId e = csEVENT_PLUGIN ∧ IsSticky e = false ∧ IsPersistent e = false.

Lemma passed_copy name this c e :
  GetId e = csEVENT_PLUGIN → IsSticky e = false → IsPersistent e = false →
  passed_on (SetSource this (SetTarget c (with_source name e))).
Proof. unfold with_source. destruct e as [? ? ? ? ? []]; cbn; by intros. Qed.

(** What the main program's handling of [e] does to the queue of the client at
    [c]: a plugin event is copied there if the client's filter names the plugin
    that sent it, anything else goes to nobody. *)
Definition handed (this : Z) (cf : main_conf) (c : Z) (v : bool * list csEvent) (e : csEvent) :
    bool * list csEvent :=
  if (GetId e =? csEVENT_PLUGIN)%Z then
    match plugin_objs cf !! GetSource e with
    | Some o => deliver_if (addressed cf (po_name o) c)
        (SetSource this (SetTarget c (with_source (po_name o) e))) v
    | None => v
    end
  else v.

(** Whatever is handed on is a copy of a plugin event. *)
Lemma handed_passed this cf c e :
  manageable cf e →
  ∃ b e', (∀ v, handed this cf c v e = deliver_if b e' v) ∧ (b = true → passed_on e').
Proof.
  intros [Hst Hplug]. unfold handed. destruct (GetId e =? csEVENT_PLUGIN)%Z eqn:Hp.
  - apply Z.eqb_eq in Hp. destruct (Hplug Hp) as (Hper & _ & o & Ho). rewrite Ho.
    eexists _, _. split; [done|]. intros _. by apply passed_copy.
  - by exists false, e.
Qed.

Lemma run_event_other this event H m e :
  wf (m_world m) (EventOps.take event e H) → heap (m_world m) !! event = Some e → event ∉ H →
  is_Some (view (m_world m) this) → manageable (m_conf m) e → filters_ok this (m_conf m) →
  GetId e ≠ csEVENT_QUIT →
  ∃ w', run_event this event m = Ok false (set_world w' m) ∧ wf w' H ∧
    view w' this = view (m_world m) this ∧
    ∀ c, view w' c = (λ v, handed this (m_conf m) c v e) <$> view (m_world m) c.
Proof.
  intros Hwf He Hnin Hthis [Hst Hplug] [Hnf Hknown] Hid.
  assert (∃ w1 e1, when (GetId e =? csEVENT_PLUGIN)%Z (DispatchPluginEvent this event) m =
      Ok tt (set_world w1 m) ∧ wf w1 (EventOps.take event e H) ∧ heap w1 !! event = Some e1 ∧
      IsPersistent e1 = IsPersistent e ∧ view w1 this = view (m_world m) this ∧
      ∀ c, view w1 c = (λ v, handed this (m_conf m) c v e) <$> view (m_world m) c)
    as (w1 & e1 & Hrun & Hwf1 & He1 & Hper1 & Hv1 & Hd1).
  { unfold when, handed. destruct (GetId e =? csEVENT_PLUGIN)%Z eqn:Hp.
    2: { exists (m_world m), e. split_and!; try done; [by rewrite set_world_same|].
         intros c. by rewrite option_fmap_id. }
    apply Z.eqb_eq in Hp. destruct (Hplug Hp) as (Hper & Hkv & o & Ho).
    destruct (dispatch_event_run this event (EventOps.take event e H) m e o)
      as (w' & Hrun & Hpe' & Hv); try done.
    { split_and!; try done. unfold EventOps.take. rewrite Hper. set_solver. }
    exists w', (with_source (po_name o) e). split_and!; [done|apply Hpe'..| | |].
    - apply with_source_flags.
    - rewrite Hv. unfold addressed. rewrite Hnf. by rewrite option_fmap_id.
    - intros c. rewrite Ho. apply Hv. }
  destruct (destroy_ok w1 (EventOps.take event e H) event e1 (proj1 Hwf1) He1) as [Hc2 Hv2].
  { rewrite Hper1. unfold EventOps.take. intros ->. set_solver. }
  exists (set_heap (destroyed (heap w1) event e1) w1). split_and!.
  - unfold run_event, mbind, M_bind, zoom, ev_load. cbn. rewrite He. cbn.
    rewrite (proj2 (Z.eqb_neq _ _)) by done. rewrite set_world_same, Hrun. cbn.
    rewrite world_set. by rewrite (EventDestroy_run w1 event e1).
  - replace H with (EventOps.take event e H ∖ {[event]}); [split; [done|apply Hwf1]|].
    unfold EventOps.take. apply leibniz_equiv. destruct (IsPersistent e); set_solver.
  - by rewrite Hv2.
  - intros c. by rewrite Hv2.
Qed.

(** C20. The main loop ends: with a quit event in its queue behind [q1] events
    that it can handle, it handles these in order, takes the quit event and
    returns.  Every other client then has, behind what it had queued, exactly
    what the events before the quit event hand to it, in their order: a copy of
    each plugin event whose sender its filter names.  Nothing behind the quit
    event is handled. *)
Theorem Run_ends this m H b q1 e q2 fuel :
  wf (m_world m) H → view (m_world m) this = Some (b, q1 ++ e :: q2) →
  GetId e = csEVENT_QUIT → receivable e →
  Forall (λ x, manageable (m_conf m) x ∧ GetId x ≠ csEVENT_QUIT) q1 →
  filters_ok this (m_conf m) → length q1 < fuel →
  ∃ w', Run fuel this m = Ok true (set_world w' m) ∧ wf w' H ∧
    view w' this = Some (b, if IsSticky e then e :: q2 else q2) ∧
    ∀ c, c ≠ this → view w' c = (λ v, foldl (handed this (m_conf m) c) v q1) <$> view (m_world m) c.
Proof.
  intros Hwf Hv Hid He Hq1 Hf Hfuel. revert m fuel Hwf Hv Hq1 Hf Hfuel.
  induction q1 as [|x q1 IH]; intros m fuel Hwf Hv Hq1 Hf Hfuel;
    (destruct fuel as [|fuel]; [lia|]).
  - destruct (pop_destroy_run (m_world m) H this b e q2 Hwf Hv He)
      as (r & w1 & e1 & w2 & Hpop & Hr & He1 & Hid1 & _ & _ & Hdel & Hwf2 & Hv2).
    exists w2. split_and!; [|done|by rewrite Hv2, decide_True|].
    2:{ intros c Hc. by rewrite Hv2, decide_False, option_fmap_id. }
    cbn [Run]. unfold mbind, M_bind, zoom. rewrite Hpop. cbn.
    rewrite (proj2 (Z.eqb_neq _ _)) by done.
    unfold run_event, mbind, M_bind, zoom, ev_load. cbn. rewrite !world_set, He1. cbn.
    rewrite Hid1, Hid. cbn. by rewrite world_set, Hdel.
  - apply Forall_cons in Hq1 as [[Hx Hxid] Hq1]. cbn in Hv, Hfuel. pose proof Hx as [Hst _].
    destruct (pop_take_run (m_world m) H this b x _ Hwf Hv Hst)
      as (r & w1 & Hpop & Hr & Hx1 & Hnin & Hwf1 & Hv1).
    pose proof (Hv1 this) as Hvt. rewrite decide_True in Hvt by done.
    destruct (run_event_other this r H (set_world w1 m) x Hwf1 Hx1 Hnin)
      as (w2 & Hrun & Hwf2 & Hv2 & Hd2); try done.
    destruct (IH (set_world w2 m) fuel) as (w' & Hend & Hwf' & Hv' & Hd'); try done.
    + by rewrite world_set, Hv2, world_set.
    + lia.
    + exists w'. split_and!; [|done|done|].
      2:{ intros c Hc. rewrite Hd' by done. rewrite world_set, Hd2. cbn [set_world m_conf].
          rewrite world_set, Hv1, decide_False by done. by rewrite <-option_fmap_compose. }
      cbn [Run]. unfold mbind, M_bind, zoom. rewrite Hpop. cbn.
      rewrite (proj2 (Z.eqb_neq _ _)) by done. rewrite Hrun. exact Hend.
Qed.

(** The main program with a plugin event of high priority and the quit event in
    its queue. *)
Definition sample_urgent : csEvent :=
  CsEvent csEVENT_PLUGIN HighPriority NULL 50 NULL (ev_class (csEventPlugin_new "notice")).
Definition sample_run : csMain :=
  match (post 100 50 main_quit;; post 100 50 sample_urgent) (constructed 50 sample0) with
  | Ok _ w => CsMain (ThreadState w ∅ ∅ ∅) (m_conf sample_main)
  | _ => sample_main
  end.

Lemma sample_run_wf : wf (m_world sample_run) ∅.
Proof.
  destruct (post_spec _ ∅ 100 50 main_quit _
    sample_main_world ltac:(by vm_compute; eexists) eq_refl)
    as (w1 & Hrun1 & Hw1 & _ & _ & Hv1).
  destruct (post_spec w1 ∅ 100 50 sample_urgent _
    Hw1 ltac:(rewrite Hv1; by vm_compute; eexists) eq_refl) as (w2 & Hrun2 & Hw2 & _).
  unfold sample_run, mbind, M_bind. by rewrite Hrun1, Hrun2.
Qed.

Lemma sample_run_conf : m_conf sample_run = m_conf sample_main.
Proof. unfold sample_run. by case_match. Qed.

Lemma Run_ends_witness :
  ∃ w', Run 5 50 sample_run = Ok true (set_world w' sample_run) ∧
    view w' 50%Z = Some (true, [SetSource 100 (SetTarget 50 main_quit)]) ∧
    view w' 200%Z = Some (true, [SetSource 50 (SetTarget 200 (with_source "Alpha" sample_urgent))]).
Proof.
  destruct (Run_ends 50 sample_run ∅ true [SetSource 100 (SetTarget 50 sample_urgent)]
    (SetSource 100 (SetTarget 50 main_quit)) [] 5) as (w' & Hrun & _ & Hv & Hd).
  - apply sample_run_wf.
  - vm_compute. reflexivity.
  - reflexivity.
  - intros _. by eexists.
  - rewrite sample_run_conf. apply List.Forall_cons; [|apply List.Forall_nil].
    split; [|discriminate]. split; [reflexivity|]. intros _. split; [reflexivity|].
    split; [by eexists|by vm_compute; eexists].
  - rewrite sample_run_conf. split; [reflexivity|]. intros d names. cbn.
    rewrite lookup_singleton_Some. intros [<- <-].
    split; [done|]. by exists (PluginObj "beta" None ∅), (PluginLoader "b.so" 2 200).
  - cbn; lia.
  - exists w'. split; [exact Hrun|]. split; [rewrite Hv; reflexivity|].
    rewrite (Hd 200%Z) by discriminate. vm_compute. reflexivity.
Defined.

(** The stack size of a plugin is at least the system's minimum and is the
    attribute when that is a multiple of the page size; but another value is
    not rounded to a multiple of the page size: the remainder is added, so the
    result is one only if twice the remainder is. *)
Theorem stack_size_rounding page_size attr :
  (0 < page_size)%Z → (PTHREAD_STACK_MIN ≤ atol attr)%Z →
  (PTHREAD_STACK_MIN ≤ stack_size_of page_size attr < 2 ^ 64)%Z ∧
  (atol attr `mod` page_size = 0 → stack_size_of page_size attr = atol attr)%Z ∧
  (page_size < 2 ^ 63 → stack_size_of page_size attr `mod` page_size = 0 ↔
    (2 * (atol attr `mod` page_size)) `mod` page_size = 0)%Z.
Proof.
  intros Hp Hmin.
  assert (atol attr ≤ LONG_MAX)%Z as Hmax by (unfold atol, LONG_MAX, LONG_MIN; lia).
  unfold LONG_MAX, PTHREAD_STACK_MIN in *. unfold stack_size_of, PTHREAD_STACK_MIN.
  set (n := atol attr) in *. rewrite (Z.mod_small n (2 ^ 64)) by lia.
  rewrite (proj2 (Z.ltb_ge n _)) by lia.
  pose proof (Z.mod_pos_bound n page_size Hp) as Hr.
  pose proof (Z.mod_le n page_size ltac:(lia) Hp) as Hle.
  destruct (n mod page_size =? 0)%Z eqn:H0; cbn [negb].
  - apply Z.eqb_eq in H0. rewrite H0. split; [lia|]. split; [done|]. intros _. split; [|done].
    intros _. by rewrite Z.mul_0_r, Z.mod_0_l by lia.
  - apply Z.eqb_neq in H0. rewrite Z.mod_small by lia. split; [lia|]. split; [done|]. intros _.
    rewrite <-(Z.add_mod_idemp_l n) by lia. by rewrite Z.add_diag.
Qed.

Lemma stack_size_rounding_witness :
  (stack_size_of 4096 "65537" `mod` 4096 ≠ 0)%Z ∧ stack_size_of 4096 "65536" = 65536%Z.
Proof.
  split.
  - destruct (stack_size_rounding 4096 "65537") as (_ & _ & H); [lia|vm_compute; discriminate|].
    intros Hm. apply H in Hm; [|lia]. vm_compute in Hm. discriminate.
  - destruct (stack_size_rounding 4096 "65536") as (_ & H & _); [lia|vm_compute; discriminate|].
    rewrite H; vm_compute; reflexivity.
Defined.

(** ** Dumping a state file *)

(** [--dump-state] of a state file that holds the variables [m] prints
    exactly these, in order of their names, and although the loader object
    saves its state when it is destroyed, the file (with whatever follows the
    records) and every other file are as before. *)
Theorem DumpStateFile_prints alloc_max file_max openable path (s : pstate) m tail :
  files s !! path = Some (encode m ++ tail) → openable path = true →
  state_fits alloc_max file_max m → no_empty_key m →
  ∃ s', DumpStateFile alloc_max file_max openable path s =
      Ok (mjoin (dump_entry <$> entries m)) s' ∧ files s' = files s.
Proof.
  intros Hf Ho Hfits Hne. pose proof Hfits as (_ & _ & Hmax & _).
  set (s1 := PState (files s) "StateLoader" (Some (Stream path 0)) ∅).
  assert (contents path s1 = encode m ++ tail) as Hc1.
  { unfold contents, s1. cbn. by rewrite Hf. }
  set (s2 := loaded s1 (length (encode m)) m).
  assert (contents path s2 = encode m ++ tail) as Hc2 by done.
  set (s3 := loaded s2 (length (encode m)) m).
  assert (contents path s3 = encode m ++ tail) as Hc3 by done.
  assert (SetStateFile alloc_max openable path (PState (files s) "StateLoader" None ∅) =
    Ok tt s2) as Hset.
  { unfold SetStateFile, when, mbind, M_bind, gets, modify. cbn.
    rewrite bool_decide_eq_false_2 by by rewrite Hf. rewrite Ho. cbn.
    exact (load_saved alloc_max file_max s1 (Stream path 0) tail m eq_refl Hc1 Hfits Hne). }
  pose proof (load_saved alloc_max file_max s2 (Stream path (0 + length (encode m))) tail m
    eq_refl Hc2 Hfits Hne) as Hload.
  pose proof (SaveState_run file_max s3 (Stream path (0 + length (encode m))) eq_refl Hmax)
    as Hsave.
  unfold DumpStateFile, StateLoader_DumpStateFile, csPlugin_new, csPlugin_delete,
    mbind, M_bind, modify, gets.
  fold s3 in Hload. cbn [files pl_name]. rewrite Hset. rewrite Hload.
  unfold mret, M_ret. rewrite Hsave. eexists. split; [done|]. cbn.
  change (contents path s3) with (contents path s1). rewrite Hc1, drop_app_length.
  by apply insert_id.
Qed.

Lemma DumpStateFile_prints_witness :
  ∃ s', DumpStateFile 4096 4096 (λ _, true) "/var/p"
      (PState {[ "/var/p" := encode {[ "k" := [x41]; "a" := [] ]} ++ [x00] ]} "x" None ∅) =
    Ok [[quote] ++ chars "a" ++ [quote; newline]; [newline];
        [quote] ++ chars "k" ++ [quote; newline];
        dump_line (chars "00000") (chars "41 ") (chars "A"); [newline]] s' ∧
    files s' = {[ "/var/p" := encode {[ "k" := [x41]; "a" := [] ]} ++ [x00] ]}.
Proof.
  destruct (DumpStateFile_prints 4096 4096 (λ _, true) "/var/p"
    (PState {[ "/var/p" := encode {[ "k" := [x41]; "a" := [] ]} ++ [x00] ]} "x" None ∅)
    {[ "k" := [x41]; "a" := [] ]} [x00]) as (s' & Hrun & Hf).
  - vm_compute. reflexivity.
  - reflexivity.
  - fits.
  - vm_compute. reflexivity.
  - exists s'. split; [|exact Hf]. rewrite Hrun. vm_compute. reflexivity.
Defined.
