(* ===== verification/MainConf.v ===== *)
(** * What the configuration of the program promises (csmain.cpp)

    The handlers of the main configuration file keep the parser's contract, with
    the invariant that every pointer of the configuration is a live plugin; so
    does reading the configuration, which uses threads, event clients, plugins,
    state files and the parser. *)

From S2P Require Import Prelude Exception Bytes Event EventInv EventOps Bus EventProps Thread.
From S2P Require Import ThreadProps.
From S2P Require Import Plugin PluginProps Util Conf ConfProps Main MainProps.

(** ** The invariant *)

(** A plugin object that the program has under its name. *)
Definition registered (c : main_conf) (d : Z) : Prop :=
  ∃ o l, plugin_objs c !! d = Some o ∧ plugin c !! po_name o = Some l ∧ Plugin.plugin l = d.

(** The handles of the libraries of a map of loaders. *)
Definition handles_of (P : gmap string csPluginLoader) : gmultiset Z :=
  list_to_set_disj (so_handle ∘ snd <$> map_to_list P).

Lemma handles_of_insert name l P :
  P !! name = None → handles_of (<[name := l]> P) = {[+ so_handle l +]} ⊎ handles_of P.
Proof.
  intros Hn. unfold handles_of. rewrite (list_to_set_disj_perm _
    (so_handle ∘ snd <$> (name, l) :: map_to_list P)); [done|].
  by rewrite map_to_list_insert.
Qed.

Section invariant.
(** The program, and the threads that are no plugins. *)
Context (alloc_max this : Z) (others : list Z).

Record main_ok (m : csMain) : Prop := MainOk {
  mo_threads : threads_ok (m_threads m);
  mo_idle : ∀ p t, threads (m_threads m) !! p = Some t → th_id t = None;
  mo_objects : ∀ p, is_Some (threads (m_threads m) !! p) ↔
    p ∈ others ∨ is_Some (plugin_objs (m_conf m) !! p);
  mo_clients : ∀ p, is_Some (clients (m_world m) !! p) ↔
    p = this ∨ is_Some (threads (m_threads m) !! p);
  mo_apart : ∀ p, p ∈ this :: others → plugin_objs (m_conf m) !! p = None;
  mo_plugin : ∀ name l, plugin (m_conf m) !! name = Some l →
    ∃ o, plugin_objs (m_conf m) !! Plugin.plugin l = Some o ∧ po_name o = name;
  mo_handles : handles_of (plugin (m_conf m)) ⊆ handles (m_conf m);
  mo_filter : map_Forall (λ d _, registered (m_conf m) d) (plugin_event_filter (m_conf m));
  mo_disk : disk_loadable alloc_max (disk (m_conf m));
  mo_unposted : unposted (m_world m);
}.

(** The data of a tag. *)
Definition main_data (m : csMain) (d : Z) : Prop := d = NULL ∨ registered (m_conf m) d.

(** A step of the configuration: plugins stay known, and an object that is new
    is of a known plugin or [new]. *)
Definition kept (new : Z → Prop) (m m' : csMain) : Prop :=
  main_ok m' ∧ (∀ d, registered (m_conf m) d → registered (m_conf m') d) ∧
  ∀ d, is_Some (plugin_objs (m_conf m') !! d) →
    is_Some (plugin_objs (m_conf m) !! d) ∨ registered (m_conf m') d ∨ new d.

Definition nobody (d : Z) : Prop := False.

Lemma kept_refl new m : main_ok m → kept new m m.
Proof. intros Hm. split_and!; [done..|by left]. Qed.

Lemma kept_mono (new new' : Z → Prop) m m' :
  (∀ d, new d → new' d) → kept new m m' → kept new' m m'.
Proof. intros Hn (Hm & Hr & Ho). split_and!; [done..|]. intros d Hd. destruct (Ho d Hd); naive_solver. Qed.

Lemma kept_trans new m1 m2 m3 : kept new m1 m2 → kept new m2 m3 → kept new m1 m3.
Proof.
  intros (_ & Hr1 & Ho1) (Hm & Hr2 & Ho2). split_and!; [done|auto|]. intros d Hd.
  destruct (Ho2 d Hd) as [Hd2|?]; [|auto]. destruct (Ho1 d Hd2) as [?|[?|?]]; auto.
Qed.

Lemma handles_of_elem name l P : P !! name = Some l → so_handle l ∈ handles_of P.
Proof.
  intros Hl. unfold handles_of. rewrite elem_of_list_to_set_disj, list_elem_of_fmap.
  exists (name, l). split; [done|]. by apply elem_of_map_to_list.
Qed.

Lemma mo_handle m name l :
  main_ok m → plugin (m_conf m) !! name = Some l → so_handle l ∈ handles (m_conf m).
Proof.
  intros Hm Hl. eapply gmultiset_elem_of_subseteq; [by eapply handles_of_elem|by apply mo_handles].
Qed.

(** Changes of the parts that the invariant does not mention. *)
Lemma kept_conf m c :
  plugin c = plugin (m_conf m) → plugin_event_filter c = plugin_event_filter (m_conf m) →
  plugin_objs c = plugin_objs (m_conf m) → handles c = handles (m_conf m) →
  disk c = disk (m_conf m) → main_ok m → kept nobody m (set_conf c m).
Proof.
  intros Hp Hf Ho Hh Hd [? ? Hob ? Hap Hpl Hhs Hfl Hdk ?].
  assert (∀ d, registered (m_conf m) d → registered c d) as Hreg.
  { intros d. unfold registered. by rewrite Ho, Hp. }
  split; [|split; [exact Hreg|cbn; rewrite Ho; by left]].
  split; cbn; rewrite ?Ho, ?Hp, ?Hh, ?Hd, ?Hf; try done.
  intros d names Hd'. apply Hreg. by apply (Hfl d names).
Qed.

(** Another set of open libraries. *)
Lemma kept_handles m h :
  main_ok m → handles_of (plugin (m_conf m)) ⊆ h → kept nobody m (set_m_handles h m).
Proof. intros [] Hh. split; [by split|]. split; [done|by left]. Qed.

(** Other events in the queues. *)
Lemma kept_world m w :
  main_ok m → world_ok w → unposted w →
  (∀ q, is_Some (clients w !! q) ↔ is_Some (clients (m_world m) !! q)) →
  kept nobody m (set_world w m).
Proof.
  intros [Ht Hi Ho Hc Ha Hp Hh Hf Hd Hq] Hw Hquiet Hdom. split; [|split; [done|by left]]. split; try done.
  - apply set_bus_ok; [done|done|]. intros q _. by apply Hdom.
  - intros p. rewrite world_set, Hdom. apply Hc.
Qed.

Lemma registered_client m d :
  main_ok m → registered (m_conf m) d → is_Some (threads (m_threads m) !! d) ∧
    is_Some (clients (m_world m) !! d).
Proof.
  intros Hm (o & l & Ho & _). assert (is_Some (threads (m_threads m) !! d)) as Ht.
  { apply (mo_objects m Hm). right. by eexists. }
  split; [done|]. apply (mo_clients m Hm). by right.
Qed.

(** The invariant gives the main loop what it relies on. *)
Lemma main_ok_filters m : main_ok m → filters_ok this (m_conf m).
Proof.
  intros Hm. split.
  - destruct (plugin_event_filter (m_conf m) !! this) as [names|] eqn:Hf; [|done].
    destruct (mo_filter m Hm this names Hf) as (o & _ & Ho & _).
    by rewrite (mo_apart m Hm) in Ho by by left.
  - intros d names Hf. pose proof (mo_filter m Hm d names Hf) as Hreg. split; [|done].
    destruct (registered_client m d Hm Hreg) as [_ Hc].
    destruct (tk_bus _ (mo_threads m Hm)) as [H [Hw _]].
    apply (core_dom _ _ Hw), (core_addr _ _ Hw) in Hc. by destruct Hc.
Qed.

Lemma no_null_plugin m o : main_ok m → plugin_objs (m_conf m) !! NULL ≠ Some o.
Proof.
  intros Hm Ho. assert (is_Some (clients (m_world m) !! NULL)) as Hc.
  { apply (mo_clients m Hm). right. apply (mo_objects m Hm). right. by eexists. }
  destruct (tk_bus _ (mo_threads m Hm)) as [H [Hw _]].
  apply (core_dom _ _ Hw), (core_addr _ _ Hw) in Hc. by destruct Hc.
Qed.

(** ** Making plugins *)

Section load.
Context (file_max : Z) (new_client : world → Z).
Context (attr_init : option Z) (attr_setstacksize : Z → option Z).
(** [new] gives memory that is not in use. *)
Context (new_fresh : ∀ w, world_ok w → fresh_client w (new_client w)).

Abbreviation construct := (csPlugin_construct attr_init attr_setstacksize).

Lemma fresh_plugin m :
  main_ok m → fresh_client (m_world m) (new_client (m_world m)) ∧
    plugin_objs (m_conf m) !! new_client (m_world m) = None ∧
    new_client (m_world m) ∉ this :: others.
Proof.
  intros Hm. pose proof (new_fresh _ (tk_bus _ (mo_threads m Hm))) as Hf. fold (m_world m) in Hf.
  split; [done|]. destruct Hf as (Hn & _). split.
  - apply eq_None_not_Some. intros Ho.
    assert (is_Some (clients (m_world m) !! new_client (m_world m))) as Hc.
    { apply (mo_clients m Hm). right. apply (mo_objects m Hm). by right. }
    rewrite Hn in Hc. by destruct Hc.
  - intros Hin. assert (is_Some (clients (m_world m) !! new_client (m_world m))) as Hc.
    { apply (mo_clients m Hm). apply elem_of_cons in Hin as [->|Hin]; [by left|].
      right. apply (mo_objects m Hm). by left. }
    rewrite Hn in Hc. by destruct Hc.
Qed.

(** The program with one more plugin object. *)
Definition built (m : csMain) (p : Z) (name : string) (w : world) : csMain :=
  CsMain (born w p (m_threads m))
    (set_objs (<[p := PluginObj name None ∅]> (plugin_objs (m_conf m))) (m_conf m)).

(** More objects, and nothing else of the configuration. *)
Definition grown (new : Z → Prop) (m m' : csMain) : Prop :=
  main_ok m' ∧ plugin (m_conf m') = plugin (m_conf m) ∧ handles (m_conf m') = handles (m_conf m) ∧
  plugin_objs (m_conf m) ⊆ plugin_objs (m_conf m') ∧
  ∀ d, is_Some (plugin_objs (m_conf m') !! d) → is_Some (plugin_objs (m_conf m) !! d) ∨ new d.

Lemma grown_kept new m m' : grown new m m' → kept new m m'.
Proof.
  intros (Hm & Hp & _ & Ho & Hn). split; [done|]. split.
  - intros d (o & l & Hd & Hl & Hld).
    exists o, l. rewrite Hp. split_and!; [by eapply lookup_weaken|done..].
  - intros d Hd. destruct (Hn d Hd); auto.
Qed.

Lemma built_ok m name w :
  main_ok m → world_ok w → let p := new_client (m_world m) in
  clients w = <[p := EventClient true [] MFree 0]> (clients (m_world m)) →
  grown (eq p) m (built m p name w).
Proof.
  intros Hm Hw p Hcl. destruct (fresh_plugin m Hm) as (Hf & Hno & Hnot). fold p in Hf, Hno, Hnot.
  pose proof Hm as [Ht Hi Ho Hc Ha Hp Hh Hfl Hd Hun].
  assert (plugin_objs (m_conf m) ⊆ <[p := PluginObj name None ∅]> (plugin_objs (m_conf m))) as Hsub
    by by apply insert_subseteq.
  split_and!; [|done..|].
  2:{ intros d. cbn. rewrite lookup_insert_is_Some'. intros [->|Hd']; auto. }
  split; cbn; try done.
  - by apply born_ok.
  - intros q t [[_ <-]|[_ Hq]]%lookup_insert_Some; [done|by apply (Hi q)].
  - intros q. rewrite !lookup_insert_is_Some', Ho. naive_solver.
  - intros q. unfold m_world. cbn. rewrite Hcl, !lookup_insert_is_Some'. fold (m_world m).
    rewrite Hc. naive_solver.
  - intros q Hq. rewrite lookup_insert_ne by (by intros ->). by apply Ha.
  - intros n l Hl. destruct (Hp n l Hl) as (o & Hol & Hn). exists o.
    split; [|done]. by eapply lookup_weaken.
  - intros d names Hd'. destruct (Hfl d names Hd') as (o & l & Hol & Hl & Hld). exists o, l.
    cbn. split_and!; [by eapply lookup_weaken|done..].
  - by eapply unposted_fresh.
Qed.

(** The attributes of its thread can be set. *)
Definition makeable (size : Z) : Prop := attr_init = None ∧ attr_setstacksize size = None.

Lemma construct_cases m name size :
  main_ok m → let p := new_client (m_world m) in
  (∃ w, construct p name size m = Ok tt (built m p name w) ∧ world_ok w ∧
    clients w = <[p := EventClient true [] MFree 0]> (clients (m_world m))) ∨
  ∃ x m', construct p name size m = Throw x m' ∧ grown nobody m m' ∧ ¬ makeable size.
Proof.
  intros Hm p. destruct (fresh_plugin m Hm) as (Hf & _).
  destruct (csThread_new_run (m_threads m) p size attr_init attr_setstacksize
    (mo_threads m Hm) Hf) as (w & Hw & Hcase).
  unfold makeable, csPlugin_construct. set (rest := zoom m_conf set_conf _).
  assert ((∃ x, csThread_new p size attr_init attr_setstacksize (m_threads m) =
      Throw x (set_t_bus w (m_threads m))) ∧ unmade w (m_threads m) →
    ∃ x m', (zoom m_threads set_m_threads (csThread_new p size attr_init attr_setstacksize);; rest) m
      = Throw x m' ∧ grown nobody m m') as Hbad.
  { intros ([x Hx] & _ & Hdom & Hq). exists x, (set_world w m). split.
    - unfold mbind, M_bind, zoom. by rewrite Hx.
    - split_and!; [by apply kept_world; [..|apply Hq, Hm|]|done..|by left]. }
  destruct attr_init; [right; destruct (Hbad Hcase) as (x & m' & ? & ?); exists x, m'; naive_solver|].
  destruct (attr_setstacksize size);
    [right; destruct (Hbad Hcase) as (x & m' & ? & ?); exists x, m'; naive_solver|].
  left. destruct Hcase as (Hrun & _ & Hcl). exists w. split_and!; [|done..].
  unfold mbind, M_bind, zoom. by rewrite Hrun.
Qed.

(** Destroying it again leaves no trace. *)
Lemma destruct_built m name w :
  main_ok m → let p := new_client (m_world m) in
  world_ok w → clients w = <[p := EventClient true [] MFree 0]> (clients (m_world m)) →
  ∃ m', csPlugin_destruct file_max p (built m p name w) = Ok tt m' ∧ grown nobody m m'.
Proof.
  intros Hm p Hw Hcl. destruct (fresh_plugin m Hm) as (Hf & Hno & _). fold p in Hf, Hno.
  pose proof (fresh_thread _ p (mo_threads m Hm) Hf) as Hnt.
  destruct (client_delete_run w p Hw) as (w1 & Hdel & Hw1 & _ & Hdom).
  { rewrite Hcl, lookup_insert_eq. by eexists. }
  exists (set_world w1 m). split.
  - assert (csPlugin_delete file_max (PState (disk (m_conf m)) name None ∅) =
      Ok tt (PState (disk (m_conf m)) name None ∅)) as Hsave by done.
    unfold csPlugin_destruct, mbind, M_bind, zoom, on_plugin, zoom. cbn.
    rewrite lookup_insert_eq. cbn [po_name po_fh po_state]. rewrite Hsave. cbn.
    unfold csThread_delete, thread_get, mbind, M_bind, modify, zoom.
    cbn. rewrite lookup_insert_eq. cbn. rewrite Hdel. cbn.
    unfold set_world, set_m_threads, set_t_bus. cbn. f_equal. f_equal.
    + by rewrite delete_insert_id.
    + rewrite insert_insert_eq, delete_insert_id by done. by destruct m as [? []].
  - split_and!; [|done..|by left]. apply kept_world; [done|done| |].
    { eapply (unposted_deleted w p); [done| |done|by eapply unposted_fresh; [|apply Hm]].
      rewrite Hcl, lookup_insert_eq. by eexists. }
    intros q. rewrite Hdom, Hcl, lookup_insert_is_Some'. destruct Hf as [Hf _].
    destruct (decide (q = p)) as [->|Hq]; [|naive_solver].
    rewrite Hf. split; [by intros []|by intros []].
Qed.

(** [csPluginInit]: a plugin object of the given name, or none. *)
Lemma wp_csPluginInit m name size r :
  main_ok m →
  wp (csPluginInit file_max new_client attr_init attr_setstacksize name size r)
    (λ p m', (p = NULL ∧ grown nobody m m') ∨ (grown (eq p) m m' ∧
       ∃ o, plugin_objs (m_conf m') !! p = Some o ∧ po_name o = name))
    (λ _ m', grown nobody m m') m.
Proof.
  intros Hm. assert (grown nobody m m) as Hsame by (split_and!; try done; by left).
  unfold csPluginInit. destruct r as [|x|]; [by left|..]; apply wp_bind, wp_gets, wp_bind;
    (destruct (construct_cases m name size Hm) as [(w & Hrun & Hw & Hcl)|(y & m' & Hrun & Hg & _)];
     [|unfold wp; by rewrite Hrun]); eapply wp_ok; try exact Hrun.
  - destruct (destruct_built m name w Hm Hw Hcl) as (m' & Hdel & Hg).
    apply wp_bind. eapply wp_ok; [exact Hdel|]. by apply wp_throw.
  - apply wp_ret. right. split; [by apply built_ok|]. exists (PluginObj name None ∅).
    split; [apply lookup_insert_eq|done].
Qed.

Context (load : csMain → string → string → Z → dl_results * init_result).

Abbreviation load_plugin := (load_plugin file_max new_client attr_init attr_setstacksize load).

(** A loader with its plugin, which is not registered yet. *)
Definition loaded_as (m : csMain) (name : string) (l : csPluginLoader) (m' : csMain) : Prop :=
  kept (eq (Plugin.plugin l)) m m' ∧ plugin (m_conf m') = plugin (m_conf m) ∧
  (∃ o, plugin_objs (m_conf m') !! Plugin.plugin l = Some o ∧ po_name o = name) ∧
  {[+ so_handle l +]} ⊎ handles_of (plugin (m_conf m)) ⊆ handles (m_conf m').

Lemma load_plugin_run m library name size :
  main_ok m →
  ∃ r m', load_plugin library name size m = Ok r m' ∧
    match r with None => kept nobody m m' | Some l => loaded_as m name l m' end.
Proof.
  intros Hm. apply wp_inv. unfold Main.load_plugin. apply wp_try_catch, wp_bind, wp_gets.
  destruct (load m library name size) as [dl r]. apply wp_bind. unfold csPluginLoader_new.
  pose proof (mo_handles m Hm) as Hh.
  destruct (dlopen dl) as [err|h]; [by apply wp_ret, kept_refl|]. apply wp_bind, wp_modify.
  set (m1 := set_m_handles _ m). assert (kept nobody m m1) as Hk1.
  { apply kept_handles; [done|]. unfold m_handles. multiset_solver. }
  assert (∀ B (Q : B → csMain → Prop) m2 x, grown nobody m1 m2 →
    wp (dlclose m_handles set_m_handles h;; throw x) Q (λ _ m3, kept nobody m m3) m2) as Hclose.
  { intros B Q m2 x Hg. pose proof Hg as (Hm2 & Hp2 & Hh2 & _).
    apply wp_bind, wp_modify, wp_throw. apply (kept_trans _ _ m2).
    - by apply (kept_trans _ _ m1), grown_kept.
    - apply kept_handles; [done|]. rewrite Hp2. unfold m_handles. rewrite Hh2.
      change (handles (m_conf m1)) with ({[+ h +]} ⊎ handles (m_conf m)).
      by rewrite opened_again. }
  destruct (dlsym dl) as [err|].
  { apply Hclose. split_and!; [apply Hk1|done..|by left]. }
  apply wp_bind. eapply wp_mono; [apply (wp_csPluginInit m1), Hk1| |].
  2:{ intros x m2 Hg. apply wp_ret. by apply (kept_trans _ _ m1), grown_kept. }
  intros p m2 Hp. cbn beta. destruct Hp as [[-> Hg]|[Hg Hp]]; [by apply Hclose|].
  assert (p ≠ NULL) as H0.
  { intros ->. destruct Hp as (o & Ho & _). exact (no_null_plugin m2 o (proj1 Hg) Ho). }
  rewrite (proj2 (Z.eqb_neq _ _)) by done.
  apply wp_ret, wp_ret. pose proof Hg as (Hm2 & Hp2 & Hh2 & _).
  split_and!; [|done|done|].
  { apply (kept_trans _ _ m1); [by apply (kept_mono nobody)|by apply grown_kept]. }
  rewrite Hh2. by apply gmultiset_disj_union_mono_l.
Qed.
(** ** The handlers *)

Context (page_size : Z) (openable : string → bool).
Context (configure : Z → string → option csException).
(** The plugins whose configuration may fail. *)
Context (stray : Z → Prop) (configure_stray : ∀ d f x, configure d f = Some x → stray d).

(** Every plugin object is one the program knows, or one whose configuration
    failed. *)
Definition known (m : csMain) : Prop :=
  ∀ d, is_Some (plugin_objs (m_conf m) !! d) → registered (m_conf m) d ∨ stray d.
Definition main_inv (m : csMain) : Prop := main_ok m ∧ known m.

Lemma main_inv_kept m m' : main_inv m → kept stray m m' → main_inv m'.
Proof.
  intros [_ Hn] (Hm & Hr & Ho). split; [done|]. intros d Hd.
  destruct (Ho d Hd) as [Hold|?]; [|done]. destruct (Hn d Hold); auto.
Qed.

Lemma kept_stray m m' : kept nobody m m' → kept stray m m'.
Proof. by apply kept_mono. Qed.

Abbreviation handlers := (main_handlers page_size alloc_max file_max openable new_client
  attr_init attr_setstacksize load configure).
Abbreviation state := (xml_state csMain).
Implicit Types s : state.

(** The elements inside a document that the handlers accept. *)
Definition main_accepts (parent e text : string) : Prop :=
  strcaseeq "csconf" e = false ∧ strcaseeq "plugin" e = false ∧
  (strcaseeq "plugin-dir" e = true → strcaseeq "csconf" parent = true ∧ text ≠ EmptyString) ∧
  (strcaseeq "state-file" e = true ∨ strcaseeq "event-filter" e = true →
    strcaseeq "plugin" parent = true ∧ text ≠ EmptyString).

Definition fine s s' : Prop := handled s s' ∧ owned main_inv main_data s'.
Definition refusal s (name : string) (is_text : string → Prop) :
    csException → state → Prop :=
  λ _ s', handled s s' ∧ owned main_inv main_data s' ∧ refused main_accepts s name is_text.

Lemma fine_refl s : owned main_inv main_data s → fine s s.
Proof. split; [apply handled_refl|done]. Qed.

Lemma refused_outermost s name is_text : stack s = [] → refused main_accepts s name is_text.
Proof. intros Hst q tq text. by rewrite Hst. Qed.

(** The owner takes a step, and the data of a tag may be set. *)
Lemma owned_kept s m' :
  owned main_inv main_data s → kept stray (owner s) m' → fine s (set_owner m' s).
Proof.
  intros [Hm Hd] Hk. split; [by repeat split|]. split; [by apply (main_inv_kept (owner s))|].
  destruct Hk as (_ & Hreg & _). intros p t Hp. destruct (Hd p t Hp) as [->|Hr]; [by left|right; by apply Hreg].
Qed.

Lemma owned_data s m' p t d :
  owned main_inv main_data s → tags s !! p = Some t → kept stray (owner s) m' → main_data m' d →
  fine s (set_owner m' (set_tags (<[p := SetData d t]> (tags s)) s)).
Proof.
  intros Ho Hp Hk Hd. destruct (owned_kept s m' Ho Hk) as [_ [Hm' Hd']]. split.
  - repeat split. intros q. cbn. destruct (decide (q = p)) as [->|Hq].
    + by rewrite lookup_insert_eq, Hp.
    + by rewrite lookup_insert_ne.
  - split; [done|]. intros q u. cbn.
    intros [[_ <-]|[_ Hq]]%lookup_insert_Some; [done|by apply (Hd' q u)].
Qed.

(** A test that ends in [ParseError]. *)
Lemma wp_check {A} b what (rest : prog state A) s s1 name is_text Q :
  fine s s1 → in_page s1 (pos s1) → (b = true → refused main_accepts s name is_text) →
  (b = false → wp rest Q (refusal s name is_text) s1) →
  wp (when b (ParseError what);; rest) Q (refusal s name is_text) s1.
Proof.
  intros [Hh Ho] Hp Href Hrest. apply wp_bind. unfold when. destruct b; [|by apply wp_ret, Hrest].
  apply wp_ParseError; [done|]. intros x. split_and!; [done|done|by apply Href].
Qed.

Lemma wp_check_last b what s s1 name is_text :
  fine s s1 → in_page s1 (pos s1) → (b = true → refused main_accepts s name is_text) →
  wp (when b (ParseError what)) (λ _ s', fine s s') (refusal s name is_text) s1.
Proof.
  intros Hf Hp Href. unfold when. destruct b; [|done].
  apply wp_ParseError; [done|]. intros x. split_and!; [apply Hf..|by apply Href].
Qed.

Lemma wp_get_param key t s (Q : string → state → Prop) X :
  ParamExists key t = true → (∀ v, Q v s) → wp (get_param key t) Q X s.
Proof.
  unfold ParamExists, get_param, GetParamValue. rewrite bool_decide_eq_true.
  intros [v Hv] HQ. rewrite Hv. apply wp_ret, HQ.
Qed.

Lemma wp_on_main {A} (op : prog csMain A) s Q X :
  wp op (λ a m', Q a (set_owner m' s)) (λ e m', X e (set_owner m' s)) (owner s) →
  wp (on_main op) Q X s.
Proof. apply wp_zoom. Qed.

Section open.
Context (s : state) (p : Z) (t : csXmlTag).
Context (Hp : tags s !! p = Some t) (Ho : owned main_inv main_data s) (Hpage : in_page s (pos s)).
Context (any_text := λ _ : string, True).

(** Both elements must be outermost. *)
Lemma outermost what (rest : prog state unit) Q :
  strcaseeq "csconf" (tag_name t) = true ∨ strcaseeq "plugin" (tag_name t) = true →
  (stack s = [] → wp rest Q (refusal s (tag_name t) any_text) s) →
  wp (when (negb (length (stack s) =? 0)%nat) (ParseError what);; rest) Q
    (refusal s (tag_name t) any_text) s.
Proof.
  intros Hname Hrest. apply wp_check; [by apply fine_refl|done| |].
  - intros _ q tq text _ _ _ (Hc & Hpl & _). destruct Hname; congruence.
  - intros Hlen%negb_false_iff%Nat.eqb_eq%nil_length_inv. by apply Hrest.
Qed.

Lemma wp_open_csconf :
  strcaseeq "csconf" (tag_name t) = true →
  wp (open_csconf t) (λ _ s', fine s s') (refusal s (tag_name t) any_text) s.
Proof.
  intros Hname. unfold open_csconf. apply wp_bind, wp_gets.
  apply outermost; [by left|]. intros Hst. pose proof (λ b (_ : b = true), refused_outermost s (tag_name t) any_text Hst) as Href.
  apply wp_check; [by apply fine_refl|done|apply Href|]. intros Hv%negb_false_iff.
  apply wp_bind, wp_get_param; [done|]. intros v.
  apply wp_bind, wp_on_main, wp_zoom, wp_modify.
  assert (kept stray (owner s) (set_conf (set_version (atoi v) (m_conf (owner s))) (owner s))) as Hk.
  { apply kept_stray, kept_conf; [done..|apply Ho]. }
  apply wp_check_last; [by apply owned_kept|done|apply Href].
Qed.

(** The plugin becomes known under its name. *)
Lemma kept_register m name l :
  main_ok m → plugin (m_conf m) !! name = None →
  (∃ o, plugin_objs (m_conf m) !! Plugin.plugin l = Some o ∧ po_name o = name) →
  {[+ so_handle l +]} ⊎ handles_of (plugin (m_conf m)) ⊆ handles (m_conf m) →
  kept nobody m (set_conf (set_plugin (<[name := l]> (plugin (m_conf m))) (m_conf m)) m) ∧
  main_data (set_conf (set_plugin (<[name := l]> (plugin (m_conf m))) (m_conf m)) m)
    (Plugin.plugin l).
Proof.
  intros Hm Hnew (o & Hol & Hn) Hh. set (c := set_plugin _ _).
  assert (∀ d, registered (m_conf m) d → registered c d) as Hreg.
  { intros d (o' & l' & Hd & Hl' & Hld). exists o', l'. split_and!; [done| |done].
    cbn. rewrite lookup_insert_ne; [done|]. intros ->. by rewrite Hnew in Hl'. }
  split; [split; [|split; [exact Hreg|by left]]|].
  - destruct Hm as [Ht Hi Hob Hc Ha Hpl Hhs Hf Hd]. split; cbn; try done.
    + intros n l' [[<- <-]|[_ Hl']]%lookup_insert_Some; [by exists o|by apply Hpl].
    + by rewrite handles_of_insert.
    + intros d names Hd'. apply Hreg. by apply (Hf d names).
  - right. exists o, l. split_and!; [done| |done]. cbn. rewrite Hn. apply lookup_insert_eq.
Qed.

Lemma wp_loaded name library size :
  plugin (m_conf (owner s)) !! name = None →
  wp (l ← on_main (load_plugin library name size);
      match l with
      | None => mret tt
      | Some l =>
          match configure (Plugin.plugin l) (filename (m_conf (owner s))) with
          | Some _ => on_main (csPluginLoader_delete m_handles set_m_handles l)
          | None =>
              tag_update p (SetData (Plugin.plugin l));;
              on_conf (modify (λ m, set_plugin (<[name := l]> (plugin m)) m))
          end
      end) (λ _ s', fine s s') (refusal s (tag_name t) any_text) s.
Proof.
  intros Hnew. apply wp_bind, wp_on_main.
  destruct (load_plugin_run (owner s) library name size (proj1 (proj1 Ho))) as (r & m1 & Hrun & Hr).
  eapply wp_ok; [exact Hrun|]. destruct r as [l|]; [|by apply wp_ret, owned_kept, kept_stray].
  destruct Hr as (Hk & Hpl & Hobj & Hh). pose proof Hk as [Hm1 _].
  destruct (configure _ _) as [x|] eqn:Hcfg.
  - apply wp_on_main, wp_modify. apply (owned_kept s); [done|]. apply (kept_trans _ _ m1).
    { apply (kept_mono (eq (Plugin.plugin l))); [|done]. intros d <-. by eapply configure_stray. }
    apply kept_stray, (kept_handles m1); [done|]. rewrite Hpl. unfold m_handles. cbn [owner set_owner].
    multiset_solver.
  - destruct (kept_register m1 name l Hm1) as [Hk2 Hd2]; [by rewrite Hpl|done|by rewrite Hpl|].
    apply wp_bind. unfold tag_update. apply wp_bind, (wp_tag_get _ p t); [done|].
    apply wp_modify, wp_on_main, wp_zoom, wp_modify.
    apply (owned_data s _ p t (Plugin.plugin l)); [done|done| |done].
    destruct Hk as (_ & Hr1 & Ho1), Hk2 as (Hm2 & Hr2 & Ho2). split_and!; [done|auto|].
    intros d Hd. destruct (Ho1 d Hd) as [?|[?|<-]]; [auto..|]. destruct Hd2 as [Hd0|?]; [|auto].
    destruct Hobj as (o & Hobj & _). right. left. destruct (no_null_plugin m1 o Hm1). by rewrite <-Hd0.
Qed.

Lemma wp_open_plugin :
  strcaseeq "plugin" (tag_name t) = true →
  wp (open_plugin page_size file_max new_client attr_init attr_setstacksize load configure p t)
    (λ _ s', fine s s') (refusal s (tag_name t) any_text) s.
Proof.
  intros Hname. unfold open_plugin. apply wp_bind, wp_gets.
  apply outermost; [by right|]. intros Hst. pose proof (λ b (_ : b = true), refused_outermost s (tag_name t) any_text Hst) as Href.
  pose proof (fine_refl s Ho) as Hs.
  apply wp_check; [done..|apply Href|]. intros Hn%negb_false_iff.
  apply wp_check; [done..|apply Href|]. intros Hl%negb_false_iff.
  apply wp_bind. assert (∀ Q : Z → state → Prop, (∀ size, Q size s) →
    wp (if ParamExists "stack-size" t
        then (v ← get_param "stack-size" t; mret (stack_size_of page_size v))
        else mret _CS_THREAD_STACK_SIZE) Q (refusal s (tag_name t) any_text) s) as Hsize.
  { intros Q HQ. destruct (ParamExists "stack-size" t) eqn:Hz; [|by apply wp_ret].
    apply wp_bind, wp_get_param; [done|]. intros v. by apply wp_ret. }
  apply Hsize. intros size. apply wp_bind, wp_get_param; [done|]. intros name.
  apply wp_bind, wp_get_param; [done|]. intros library. apply wp_bind, wp_gets.
  apply wp_check; [done..|apply Href|]. rewrite bool_decide_eq_false, <-eq_None_not_Some.
  intros Hnew. by apply wp_loaded.
Qed.
End open.
(** A plugin opens its state file. *)
Lemma SetStateFile_kept m d path :
  main_ok m → registered (m_conf m) d →
  ∃ m', (zoom m_conf set_conf (on_plugin d (SetStateFile alloc_max openable path))) m = Ok tt m' ∧
    kept stray m m'.
Proof.
  intros Hm (o & l & Ho & Hl & Hld).
  destruct (SetStateFile_run alloc_max openable path
    (PState (disk (m_conf m)) (po_name o) (po_fh o) (po_state o)) (mo_disk m Hm))
    as (st & Hrun & Hname & Hd). cbn in Hname.
  eexists. split; [by unfold zoom at 1, on_plugin; rewrite Ho; unfold zoom; rewrite Hrun|].
  set (o' := PluginObj _ _ _). assert (po_name o' = po_name o) as Hn by done.
  clearbody o'. clear Hrun Hname.
  assert (∀ q, is_Some (<[d := o']> (plugin_objs (m_conf m)) !! q) ↔
    is_Some (plugin_objs (m_conf m) !! q)) as Hdom.
  { intros q. rewrite lookup_insert_is_Some'. split; [|by right].
    intros [<-|Hq]; [by eexists|done]. }
  assert (∀ q u, plugin_objs (m_conf m) !! q = Some u →
    ∃ u', <[d := o']> (plugin_objs (m_conf m)) !! q = Some u' ∧ po_name u' = po_name u) as Hobj.
  { intros q u Hq. destruct (decide (q = d)) as [->|Hne].
    - exists o'. rewrite lookup_insert_eq. split; [done|]. congruence.
    - exists u. by rewrite lookup_insert_ne. }
  assert (∀ q, registered (m_conf m) q → registered (set_objs (<[d := o']> (plugin_objs (m_conf m)))
    (set_disk (files st) (m_conf m))) q) as Hreg.
  { intros q (u & l' & Hq & Hl' & Hlq). destruct (Hobj q u Hq) as (u' & Hu' & Hnu).
    exists u', l'. cbn. by rewrite Hnu. }
  split; [|split; [exact Hreg|intros q; cbn; rewrite Hdom; by left]].
  destruct Hm as [Ht Hi Hob Hc Ha Hpl Hhs Hf Hdk]. split; cbn; try done.
  - intros q. by rewrite Hdom.
  - intros q Hq. apply eq_None_not_Some. rewrite Hdom. by rewrite Ha by done; intros [].
  - intros n l' Hl'. destruct (Hpl n l' Hl') as (u & Hu & Hnu).
    destruct (Hobj _ u Hu) as (u' & Hu' & Hnu'). exists u'. split; [done|congruence].
  - intros q names Hq. apply Hreg. by apply (Hf q names).
Qed.

Lemma ParseEventFilter_kept m d text :
  main_ok m → registered (m_conf m) d →
  ∃ m', (zoom m_conf set_conf (ParseEventFilter d text)) m = Ok tt m' ∧ kept stray m m'.
Proof.
  intros Hm Hd. pose proof Hd as (o & l & Ho & Hl & Hld).
  destruct (filter_atoms_run d o (split_filter (chars text)) (m_conf m) Ho)
    as (f & Hrun & _ & Hq).
  exists (set_conf (set_filter f (m_conf m)) m). split.
  { unfold ParseEventFilter, zoom. by rewrite Hrun. }
  split; [|split; [done|by left]].
  destruct Hm as [Ht Hi Hob Hc Ha Hpl Hhs Hf Hdk]. split; cbn; try done.
  intros q names Hfq. destruct (decide (q = d)) as [->|Hne]; [done|].
  rewrite Hq in Hfq by done. by apply (Hf q names).
Qed.

Section close.
Context (s : state) (p : Z) (t : csXmlTag).
Context (Hp : tags s !! p = Some t) (Ho : owned main_inv main_data s) (Hpage : in_page s (pos s)).
Context (Hst : ∀ q, q ∈ stack s → is_Some (tags s !! q)).
Context (own_text := λ text : string, text = tag_text t).

(** The element stands inside one called [parent] and has a text. *)
Lemma wp_inside (parent : string) (Q : Z → state → Prop) :
  (∀ par text, main_accepts par (tag_name t) text → strcaseeq parent par = true) →
  (∀ d, main_data (owner s) d → Q d s) →
  wp (inside parent t) Q (refusal s (tag_name t) own_text) s.
Proof.
  intros Hacc HQ. unfold inside. apply wp_bind, wp_gets.
  destruct (last (stack s)) as [q|] eqn:Hlast.
  2:{ apply wp_bind, wp_ParseError; [done|]. intros x. split_and!; [apply handled_refl|done|].
      apply refused_outermost. by apply last_None. }
  destruct (Hst q) as [pt Hpt]; [by apply last_Some_elem_of|].
  apply wp_bind, (wp_tag_get _ q pt); [done|]. apply wp_check; [by apply fine_refl|done| |].
  - intros Hb%negb_true_iff q' tq text Hq' Htq _ Haccepts. simplify_eq.
    apply Hacc in Haccepts. unfold tag_is in Hb. congruence.
  - intros _. apply wp_ret, HQ. by apply (proj2 Ho q).
Qed.

Lemma wp_missing Q :
  (∀ par text, main_accepts par (tag_name t) text → text ≠ EmptyString) →
  Q tt s → wp (missing t) Q (refusal s (tag_name t) own_text) s.
Proof.
  intros Hacc HQ. unfold missing, when. destruct (String.length (tag_text t) =? 0)%nat eqn:Hlen.
  - apply wp_ParseError; [done|]. intros x. split_and!; [apply handled_refl|done|].
    intros q tq text _ _ -> Haccepts. apply Hacc in Haccepts. apply Nat.eqb_eq in Hlen.
    by destruct (tag_text t).
  - by apply wp_ret.
Qed.

(** What a plugin element's child does to the plugin, if it was loaded. *)
Lemma wp_for_plugin (op : Z → prog main_conf unit) X :
  (∀ d, registered (m_conf (owner s)) d →
    ∃ m', (zoom m_conf set_conf (op d)) (owner s) = Ok tt m' ∧ kept stray (owner s) m') →
  ∀ d, main_data (owner s) d →
  wp (when (negb (d =? NULL)%Z) (on_conf (op d))) (λ _ s', fine s s') X s.
Proof.
  intros Hop d Hd. unfold when. destruct (d =? NULL)%Z eqn:H0; cbn [negb].
  { by apply wp_ret, fine_refl. }
  apply Z.eqb_neq in H0. destruct Hd as [->|Hd]; [done|].
  destruct (Hop d Hd) as (m' & Hrun & Hk). apply wp_on_main. eapply wp_ok; [exact Hrun|].
  by apply owned_kept.
Qed.

Lemma wp_main_close :
  wp (main_close alloc_max openable p) (λ _ s', fine s s') (refusal s (tag_name t) own_text) s.
Proof.
  unfold main_close. apply wp_bind, (wp_tag_get _ p t); [done|]. unfold tag_is.
  destruct (strcaseeq "plugin-dir" (tag_name t)) eqn:Hdir.
  { apply wp_bind, wp_inside; [by intros par text (_ & _ & Hok & _); apply Hok|].
    intros _ _. apply wp_bind, wp_missing; [by intros par text (_ & _ & Hok & _); apply Hok|].
    apply wp_on_main, wp_zoom, wp_modify, owned_kept; [done|]. apply kept_stray, kept_conf; [done..|apply Ho]. }
  destruct (strcaseeq "state-file" (tag_name t)) eqn:Hfile.
  { assert (∀ par text, main_accepts par (tag_name t) text →
      strcaseeq "plugin" par = true ∧ text ≠ EmptyString) as Hacc.
    { intros par text (_ & _ & _ & Hok). apply Hok. by left. }
    apply wp_bind, wp_inside; [by intros par text [? _]%Hacc|]. intros d Hd.
    apply wp_bind, wp_missing; [by intros par text [_ ?]%Hacc|].
    apply (wp_for_plugin (λ d, on_plugin d (SetStateFile alloc_max openable (tag_text t))));
      [|done]. intros d' Hd'. apply SetStateFile_kept; [apply Ho|done]. }
  destruct (strcaseeq "event-filter" (tag_name t)) eqn:Hfilter; [|by apply wp_ret, fine_refl].
  assert (∀ par text, main_accepts par (tag_name t) text →
    strcaseeq "plugin" par = true ∧ text ≠ EmptyString) as Hacc.
  { intros par text (_ & _ & _ & Hok). apply Hok. by right. }
  apply wp_bind, wp_inside; [by intros par text [? _]%Hacc|]. intros d Hd.
  apply wp_bind, wp_missing; [by intros par text [_ ?]%Hacc|].
  apply (wp_for_plugin (λ d, ParseEventFilter d (tag_text t))); [|done].
  intros d' Hd'. apply ParseEventFilter_kept; [apply Ho|done].
Qed.
End close.

(** The contract of the parser. *)
#[export] Program Instance main_handlers_ok : @HandlersOk csMain handlers := {|
  owner_ok := main_inv;
  data_ok := main_data;
  accepts := main_accepts;
|}.
Next Obligation. by left. Qed.
Next Obligation.
  intros s p t Hp Ho _ Hpage. cbn. unfold main_open.
  apply wp_bind, (wp_tag_get _ p t); [done|]. unfold tag_is.
  destruct (strcaseeq "csconf" (tag_name t)) eqn:Hc; [by apply wp_open_csconf|].
  destruct (strcaseeq "plugin" (tag_name t)) eqn:Hpl; [by apply wp_open_plugin|].
  by apply wp_ret, fine_refl.
Qed.
Next Obligation. intros s p t Hp Ho Hst Hpage. by apply wp_main_close. Qed.
(** ** Reading the configuration *)

(** Every file is one after which nothing is left open; which files there are
    and what they say is not restricted. *)
Context (fopen : string → Z + list xml_page).
Context (files_readable : ∀ path, readable main_accepts (Z.to_nat page_size) (fopen path)).

Abbreviation idle := (@idle csMain handlers main_handlers_ok).
Abbreviation parse := (parse page_size alloc_max file_max openable new_client attr_init
  attr_setstacksize load configure fopen).
Abbreviation scan_entry := (scan_entry page_size alloc_max file_max openable new_client attr_init
  attr_setstacksize load configure fopen).
Abbreviation ScanPlugins := (ScanPlugins page_size alloc_max file_max openable new_client attr_init
  attr_setstacksize load configure fopen).
Abbreviation Reload := (Reload page_size alloc_max file_max openable new_client attr_init
  attr_setstacksize load configure fopen).

Lemma idle_kept s m' : idle s → kept stray (owner s) m' → idle (set_owner m' s).
Proof.
  intros [[[Hst Hf Hn] Ho] Hnil] Hk. split; [split|done].
  - by split.
  - by apply (owned_kept s).
Qed.

Lemma wp_parse s :
  idle s → wp parse (λ _ s', idle s' ∧ conf s' = conf s) (λ _ s', idle s' ∧ conf s' = conf s) s.
Proof.
  intros Hs. unfold Main.parse. apply wp_bind, wp_gets.
  apply (wp_Parse main_accepts); [done|apply files_readable|done].
Qed.

Lemma wp_reset (m : prog state unit) Q X s :
  idle s →
  (∀ s1, idle s1 → conf s1 = conf s → wp m Q X s1) → wp (reset page_size;; m) Q X s.
Proof.
  intros [Hs Hst] Hm. apply wp_bind. unfold reset.
  eapply wp_ok; [by apply Reset_idle|]. apply Hm; [|done]. split; [by apply (sound_frame s)|done].
Qed.

Lemma kept_filename s path :
  idle s → idle (set_owner (set_conf (set_filename path (m_conf (owner s))) (owner s)) s).
Proof. intros Hs. apply idle_kept; [done|]. apply kept_stray, kept_conf; [done..|apply Hs]. Qed.

Lemma wp_scan_entry entry s :
  idle s → wp (scan_entry entry) (λ _ s', idle s' ∧ conf s' = conf s) nothrow s.
Proof.
  intros Hs. destruct entry as [name type]. unfold Main.scan_entry. cbn.
  assert (wp (if negb (conf_name name) then mret tt
     else try_catch
       (on_conf (modify (λ m, set_filename (plugin_dir m ++ "/" ++ name) m));; reset page_size;; parse)
       (λ _, mret tt)) (λ _ s', idle s' ∧ conf s' = conf s) nothrow s) as Hfile.
  { destruct (negb _); [done|]. apply wp_try_catch, wp_bind, wp_on_main, wp_zoom, wp_modify.
    set (s1 := set_owner _ s). assert (idle s1) as Hs1 by by apply kept_filename.
    apply wp_reset; [done|]. intros s2 Hs2 Hc2. eapply wp_mono; [by apply wp_parse| |].
    - intros [] s3 [Hs3 Hc3]. split; [done|by rewrite Hc3, Hc2].
    - intros x s3 [Hs3 Hc3]. apply wp_ret. split; [done|by rewrite Hc3, Hc2]. }
  by destruct type.
Qed.

Lemma wp_ScanPlugins opendir s :
  idle s → wp (ScanPlugins opendir) (λ _ s', idle s' ∧ conf s' = conf s) nothrow s.
Proof.
  intros Hs. unfold Main.ScanPlugins. apply wp_bind, wp_gets, wp_bind.
  assert (wp (match opendir (plugin_dir (m_conf (owner s))) with
      | Some entries => foreach entries scan_entry
      | None => mret tt end) (λ _ s', idle s' ∧ conf s' = conf s) nothrow s) as Hscan.
  { destruct (opendir _) as [entries|]; [|done].
    apply (wp_foreach (λ _ s', idle s' ∧ conf s' = conf s)); [done|].
    intros done e rest s' _ [Hs' Hc']. eapply wp_conseq; [by apply wp_scan_entry|].
    intros [] s2 [Hs2 Hc2]. split; [done|congruence]. }
  eapply wp_conseq; [exact Hscan|]. intros [] s' [Hs' Hc'].
  apply wp_on_main, wp_zoom, wp_modify. split; [by apply kept_filename|done].
Qed.

Lemma wp_Reload opendir s :
  idle s → wp (Reload opendir) (λ _ s', idle s' ∧ conf s' = conf s)
    (λ _ s', idle s' ∧ conf s' = conf s) s.
Proof.
  intros Hs. unfold Main.Reload. apply wp_reset; [done|]. intros s1 Hs1 Hc1.
  apply wp_bind. eapply wp_mono; [by apply wp_parse| |].
  - intros [] s2 [Hs2 Hc2]. eapply wp_mono; [by apply wp_ScanPlugins| |done].
    intros [] s3 [Hs3 Hc3]. split; [done|congruence].
  - intros x s2 [Hs2 Hc2]. split; [done|congruence].
Qed.

(** C11. Reading the configuration, whatever plugins its files name, whichever of
    their libraries fail to load and at what point, whatever the names of their
    state files and their event filters are.  Each file is [readable]: missing,
    unreadable, no XML from the start, or a document of one page whose inner
    elements the program accepts (an error inside an element makes a later
    [Reset] delete its tag twice, and one beyond the first page is reported from
    outside the page); and no state file on the disk makes an allocation fail
    ([disk_loadable] in [main_ok]: nothing catches [bad_alloc]).  Then the
    reader is never stuck, and it returns or passes on the error of the main
    file with a configuration in which every pointer is good: each plugin is a live, idle thread object and event client under
    its own name and its library is open; each event filter belongs to a
    plugin the program knows, which is what dispatching plugin events and the
    main loop rely on; and no element is left open. *)
Theorem configuration_read opendir s :
  idle s →
  ∃ s', (Reload opendir s = Ok tt s' ∨ ∃ x, Reload opendir s = Throw x s') ∧
    stack s' = [] ∧ main_inv (owner s') ∧ filters_ok this (m_conf (owner s')) ∧
    ∀ name l, plugin (m_conf (owner s')) !! name = Some l →
      ∃ o t, plugin_objs (m_conf (owner s')) !! Plugin.plugin l = Some o ∧ po_name o = name ∧
        threads (m_threads (owner s')) !! Plugin.plugin l = Some t ∧ th_id t = None ∧
        is_Some (clients (m_world (owner s')) !! Plugin.plugin l) ∧
        so_handle l ∈ handles (m_conf (owner s')).
Proof.
  intros Hs. pose proof (wp_Reload opendir s Hs) as Hrun. unfold wp in Hrun.
  assert (∀ s' : state, idle s' → stack s' = [] ∧ main_inv (owner s') ∧
    filters_ok this (m_conf (owner s')) ∧ ∀ name l, plugin (m_conf (owner s')) !! name = Some l →
      ∃ o t, plugin_objs (m_conf (owner s')) !! Plugin.plugin l = Some o ∧ po_name o = name ∧
        threads (m_threads (owner s')) !! Plugin.plugin l = Some t ∧ th_id t = None ∧
        is_Some (clients (m_world (owner s')) !! Plugin.plugin l) ∧
        so_handle l ∈ handles (m_conf (owner s'))) as Hgood.
  { intros s' [[_ [[Hm Hk] _]] Hst]. split_and!; [done|done|by apply main_ok_filters|].
    intros name l Hl. destruct (mo_plugin _ Hm name l Hl) as (o & Ho & Hn).
    assert (registered (m_conf (owner s')) (Plugin.plugin l)) as Hreg.
    { exists o, l. by rewrite Hn. }
    destruct (registered_client _ _ Hm Hreg) as [[t Ht] Hc]. exists o, t.
    split_and!; [done..|by apply (mo_idle _ Hm (Plugin.plugin l))|done|by eapply mo_handle]. }
  destruct (Reload opendir s) as [[] s'|x s'|]; [| |done]; exists s';
    (split; [eauto|]); apply Hgood, Hrun.
Qed.
End load.
End invariant.

(** *** A program with two configuration files *)

(** The first address above all that are in use. *)
Definition next_client (w : world) : Z :=
  let n := (1 + foldr Z.max 0 (map_to_list (clients w)).*1)%Z in
  if (n =? CS_EVENT_BROADCAST)%Z then (n + 1)%Z else n.

Lemma foldr_max_le (l : list Z) : (0 ≤ foldr Z.max 0 l)%Z ∧ ∀ x, x ∈ l → (x ≤ foldr Z.max 0 l)%Z.
Proof.
  induction l as [|y l [Hd IH]]; cbn; [split; [lia|set_solver]|].
  split; [lia|]. intros x [->|Hx]%elem_of_cons; [lia|]. specialize (IH x Hx). lia.
Qed.

Lemma next_client_fresh w : fresh_client w (next_client w).
Proof.
  destruct (foldr_max_le (map_to_list (clients w)).*1) as [Hd Hx].
  unfold fresh_client, next_client. set (n := foldr _ _ _) in *.
  assert (∀ p, (n < p)%Z → clients w !! p = None) as Hnew.
  { intros p Hp. apply eq_None_not_Some. intros [cl Hcl].
    enough (p ≤ n)%Z by lia. apply Hx, list_elem_of_fmap. exists (p, cl). split; [done|].
    by apply elem_of_map_to_list. }
  destruct (_ =? CS_EVENT_BROADCAST)%Z eqn:Hb.
  - apply Z.eqb_eq in Hb. split_and!; [apply Hnew; lia|unfold NULL; lia|lia].
  - apply Z.eqb_neq in Hb. split_and!; [apply Hnew; lia|unfold NULL; lia|done].
Qed.

Definition at_byte (n : Z) : xml_pos := XmlPos 1 n n.
Definition sample_main_xml : list (xml_event * xml_pos) :=
  document "csconf" [("version", "1")] (at_byte 0)
    [(XOpen "plugin-dir" [], at_byte 8); (XText "/etc/clearsync.d", at_byte 12);
     (XClose "plugin-dir", at_byte 20)] "csconf" (at_byte 30).
Definition sample_plugin_xml : list (xml_event * xml_pos) :=
  document "plugin" [("name", "Alpha"); ("library", "a.so")] (at_byte 0)
    [(XOpen "state-file" [], at_byte 8); (XText "/var/a", at_byte 12);
     (XClose "state-file", at_byte 20); (XOpen "event-filter" [], at_byte 24);
     (XText "beta | gamma", at_byte 28); (XClose "event-filter", at_byte 32)] "plugin" (at_byte 40).

Definition sample_files (path : string) : Z + list xml_page :=
  if bool_decide (path = "/etc/clearsync.conf") then inr [XmlPage [] None sample_main_xml None]
  else if bool_decide (path = "/etc/clearsync.d/a.conf")
  then inr [XmlPage [] None sample_plugin_xml None]
  else inl 2%Z.

Lemma sample_files_readable path : readable main_accepts 64 (sample_files path).
Proof.
  unfold sample_files. case_bool_decide; [|case_bool_decide; [|apply readable_absent]].
  - apply readable_document; [cbn; lia| |repeat (apply List.Forall_cons; [cbn; lia|]);
      apply List.Forall_nil].
    apply (content_elem _ _ "plugin-dir" [] _ [(XText "/etc/clearsync.d", at_byte 12)]);
      [|apply content_text, content_nil|apply content_nil].
    split_and!; [done|done|done|]. intros [|]; discriminate.
  - apply readable_document; [cbn; lia| |repeat (apply List.Forall_cons; [cbn; lia|]);
      apply List.Forall_nil].
    apply (content_elem _ _ "state-file" [] _ [(XText "/var/a", at_byte 12)]);
      [|apply content_text, content_nil|].
    { split_and!; [done|done|discriminate|done]. }
    apply (content_elem _ _ "event-filter" [] _ [(XText "beta | gamma", at_byte 28)]);
      [|apply content_text, content_nil|apply content_nil].
    split_and!; [done|done|discriminate|done].
Qed.

Definition sample_load (m : csMain) (library name : string) (size : Z) : dl_results * init_result :=
  (DlResults (inr 7%Z) None, InitDone).
Definition sample_opendir (dir : string) : option (list (string * d_type)) :=
  Some [("..", DT_DIR); ("a.conf", DT_REG); ("b.conf", DT_LNK)].

(** The program at 100 before it reads its configuration. *)
Definition sample_start : xml_state csMain :=
  XmlState ∅ 1 [] 9 false [] (XmlPos 1 0 0)
    (CsMain (ThreadState (constructed 100 world0) ∅ ∅ ∅)
      (MainConf (-1) "/etc/clearsync.d" "/etc/clearsync.conf" ∅ ∅ ∅ ∅ ∅)).

Lemma sample_start_ok : main_ok 4096 100 [] (owner sample_start).
Proof.
  split; cbn; try done.
  - split; cbn; try done.
    + exists ∅. by apply (constructed_ok world0 ∅ 100 world0_wf).
    + intros p [t Ht]. by rewrite lookup_empty in Ht.
    + intros tid. rewrite elem_of_empty. split; [done|]. by intros (p & t & ? & _).
  - intros p. rewrite !lookup_empty, elem_of_nil. split; [by right|by intros [[]|]].
  - intros p. unfold m_world. cbn.
    rewrite lookup_insert_is_Some', !lookup_empty. split; (intros [->|[]]; [by left|done]).
  - by eapply (unposted_fresh world0); [|apply map_Forall_empty].
Qed.

Lemma sample_start_inv : main_inv 4096 100 [] nobody (owner sample_start).
Proof. split; [exact sample_start_ok|]. intros d. cbn. rewrite lookup_empty. by intros []. Qed.

Abbreviation sample_reload := (Reload 64 4096 4096 (λ _, true) next_client None (λ _, None)
  sample_load (λ _ _, None) sample_files sample_opendir sample_start).

Lemma configuration_read_witness :
  ∃ s', sample_reload = Ok tt s' ∧ filters_ok 100 (m_conf (owner s')) ∧
    plugin_event_filter (m_conf (owner s')) = {[ 101%Z := ["beta"; "gamma"] ]} ∧
    is_Some (threads (m_threads (owner s')) !! 101%Z).
Proof.
  destruct (configuration_read 4096 100 [] 4096 next_client None (λ _, None)
    (λ w _, next_client_fresh w) sample_load 64 (λ _, true) (λ _ _, None) nobody
    ltac:(done) sample_files
    sample_files_readable sample_opendir sample_start) as (s' & Hrun & _ & Hok & Hf & Hpl).
  - split; [|reflexivity]. split; [|split; [exact sample_start_inv|done]].
    split; [intros q Hq; by apply elem_of_nil in Hq|done|constructor].
  - assert (∃ s, sample_reload = Ok tt s ∧
      plugin (m_conf (owner s)) = {[ "Alpha" := PluginLoader "a.so" 7 101 ]} ∧
      plugin_event_filter (m_conf (owner s)) = {[ 101%Z := ["beta"; "gamma"] ]})
      as (s & Hs & Hp & Hfl).
    { eexists. split; [vm_compute; reflexivity|]. split; vm_compute; reflexivity. }
    assert (s' = s) as ->.
    { destruct Hrun as [Hrun|[x Hrun]]; rewrite Hs in Hrun; congruence. }
    exists s. split_and!; [exact Hs|exact Hf|exact Hfl|].
    destruct (Hpl "Alpha" (PluginLoader "a.so" 7 101)) as (o & t & _ & _ & Ht & _).
    { rewrite Hp. apply lookup_singleton_eq. }
    exists t. exact Ht.
Defined.
