(* ===== verification/PluginFile.v ===== *)
(** * What the configuration file of a plugin does (csmain.cpp, csconf.cpp)

    Reading the file of a plugin, through the callbacks of the parser and the
    handlers of the main program, against a reference: load the plugin, register
    it under its name and apply the settings of the file to it, in order. *)

From S2P Require Import Prelude Exception Bytes Event EventInv EventOps Bus EventProps Thread.
From S2P Require Import ThreadProps Plugin PluginProps Conf ConfProps Main MainProps MainConf.

(** ** The file *)

Inductive setting := StateFile (path : string) | EventFilter (text : string).

Definition setting_tag (x : setting) : string :=
  match x with StateFile _ => "state-file" | EventFilter _ => "event-filter" end.
Definition setting_text (x : setting) : string :=
  match x with StateFile path => path | EventFilter text => text end.

(** The callbacks for the file; the white space between the elements is text
    of the element around them. *)
Definition setting_events (at_ : xml_pos) (x : setting) : list (xml_event * xml_pos) :=
  [(XOpen (setting_tag x) [], at_); (XText (setting_text x), at_); (XClose (setting_tag x), at_);
   (XText "  ", at_)].

Definition plugin_attributes (name library : string) (size : option string) :
    list (string * string) :=
  [("name", name); ("library", library)] ++
  match size with Some v => [("stack-size", v)] | None => [] end.

Definition plugin_events (at_ : xml_pos) (name library : string) (size : option string)
    (settings : list setting) : list (xml_event * xml_pos) :=
  (XOpen "plugin" (plugin_attributes name library size), at_) ::
  mjoin (setting_events at_ <$> settings) ++ [(XClose "plugin", at_)].

(** A text expat hands over as it is. *)
Definition plain (x : setting) : Prop :=
  printable (setting_text x) = setting_text x ∧ setting_text x ≠ EmptyString.

Section file.
Context (page_size alloc_max this : Z) (others : list Z) (file_max : Z) (openable : string → bool).
Context (new_client : world → Z) (attr_init : option Z) (attr_setstacksize : Z → option Z).
Context (new_fresh : ∀ w, world_ok w → fresh_client w (new_client w)).
Context (load : csMain → string → string → Z → dl_results * init_result).
Context (configure : Z → string → option csException).

Abbreviation ok := (main_ok alloc_max this others).
Abbreviation kept_by := (kept alloc_max this others).
Abbreviation handlers := (main_handlers page_size alloc_max file_max openable new_client
  attr_init attr_setstacksize load configure).
Abbreviation load_plugin := (load_plugin file_max new_client attr_init attr_setstacksize load).
Abbreviation state := (xml_state csMain).
Abbreviation call := (@callback csMain handlers).
Implicit Types s : state.

(** ** The reference *)

Definition apply_setting (d : Z) (x : setting) : prog csMain unit :=
  match x with
  | StateFile path => zoom m_conf set_conf (on_plugin d (SetStateFile alloc_max openable path))
  | EventFilter text => zoom m_conf set_conf (ParseEventFilter d text)
  end.

Definition configure_plugin (name library : string) (size : Z) (settings : list setting) :
    prog csMain unit :=
  file ← gets (λ m, filename (m_conf m));
  l ← load_plugin library name size;
  match l with
  | None => mret tt
  | Some l =>
      match configure (Plugin.plugin l) file with
      | Some _ => csPluginLoader_delete m_handles set_m_handles l
      | None =>
          modify (λ m, set_conf (set_plugin (<[name := l]> (plugin (m_conf m))) (m_conf m)) m);;
          foreach settings (apply_setting (Plugin.plugin l))
      end
  end.

Definition size_of (size : option string) : Z :=
  match size with Some v => stack_size_of page_size v | None => _CS_THREAD_STACK_SIZE end.

(** ** One setting *)

Lemma apply_setting_run m d x :
  ok m → registered (m_conf m) d → ∃ m', apply_setting d x m = Ok tt m' ∧ kept_by nobody m m'.
Proof.
  intros Hm Hd. destruct x; [by apply SetStateFile_kept|by apply ParseEventFilter_kept].
Qed.

(** The state between two settings: the plugin's tag is on the stack, with the
    plugin or nothing as its data. *)
Record between (q : Z) (d : Z) (T : gmap Z csXmlTag) (s : state) : Prop := Between {
  bt_stack : stack s = [q];
  bt_tag : ∃ qt, tags s = <[q := qt]> T ∧ tag_name qt = "plugin" ∧ tag_data qt = d;
  bt_fresh : ∀ p, (tag_brk s ≤ p)%Z → tags s !! p = None;
  bt_conf : conf s ≠ 0%Z;
}.

(** *** The callbacks *)

Lemma open_run at_ e s :
  strcaseeq "csconf" e = false → strcaseeq "plugin" e = false →
  call (XOpen e [], at_) s = Ok tt (XmlState (<[tag_brk s := csXmlTag_new e []]> (tags s))
    (tag_brk s + 1) (stack s ++ [tag_brk s]) (conf s) (fh s) (buffer s) at_ (owner s)).
Proof.
  intros Hc Hp. unfold callback, csXmlElementOpen, tag_new, mbind, M_bind, modify. cbn.
  unfold main_open, tag_get, mbind, M_bind. cbn. rewrite lookup_insert_eq.
  unfold tag_is. cbn. by rewrite Hc, Hp.
Qed.

Lemma text_run at_ txt p t s :
  last (stack s) = Some p → tags s !! p = Some t → txt ≠ EmptyString →
  call (XText txt, at_) s = Ok tt
    (set_tags (<[p := SetText (tag_text t ++ printable txt) t]> (tags s)) (set_pos at_ s)).
Proof.
  intros Hst Hp Hne. unfold callback, csXmlText, mbind, M_bind, modify. cbn.
  destruct txt as [|c txt]; [done|]. cbn [String.length Nat.eqb]. unfold stack_back. cbn. rewrite Hst.
  unfold tag_update, tag_get, mbind, M_bind, modify. cbn. rewrite Hp. cbn. by rewrite Hp.
Qed.

(** The end of a setting inside the plugin's element. *)
Lemma close_run at_ q p qt t d x s m' :
  stack s = [q; p] → tags s !! q = Some qt → tags s !! p = Some t →
  tag_name qt = "plugin" → tag_data qt = d →
  tag_name t = setting_tag x → tag_text t = setting_text x → setting_text x ≠ EmptyString →
  (if (d =? NULL)%Z then m' = owner s else apply_setting d x (owner s) = Ok tt m') →
  call (XClose (setting_tag x), at_) s = Ok tt
    (XmlState (delete p (tags s)) (tag_brk s) [q] (conf s) (fh s) (buffer s) at_ m').
Proof.
  intros Hst Hq Hp Hqt Hd Hname Htext Hne Hm. unfold callback. cbn [fst snd].
  rewrite (bind_ok _ _ _ tt (set_pos at_ s)) by done. unfold csXmlElementClose.
  rewrite (bind_ok _ _ _ p (set_pos at_ s)) by (unfold stack_back; cbn; by rewrite Hst).
  set (s1 := set_stack [q] (set_pos at_ s)).
  rewrite (bind_ok _ _ _ tt s1) by (unfold modify, s1; cbn; by rewrite Hst).
  set (s2 := set_owner m' s1). rewrite (bind_ok _ _ _ tt s2).
  { unfold tag_delete, tag_get, mbind, M_bind, modify. cbn. by rewrite Hp. }
  assert (inside "plugin" t s1 = Ok d s1) as Hin.
  { unfold inside, tag_get, mbind, M_bind, gets, when. cbn. rewrite Hq.
    unfold tag_is. rewrite Hqt. cbn. by rewrite Hd. }
  assert (missing t s1 = Ok tt s1) as Hmiss.
  { unfold missing, when. rewrite Htext. by destruct (setting_text x). }
  cbn [ParseElementClose handlers main_handlers]. unfold main_close.
  rewrite (bind_ok _ _ _ t s1) by (unfold tag_get; cbn; by rewrite Hp).
  unfold tag_is. rewrite Hname. destruct x as [path|text]; cbn [setting_tag setting_text] in *.
  all: change (strcaseeq "plugin-dir" _) with false; cbn iota.
  all: try change (strcaseeq "state-file" "state-file") with true; cbn iota.
  all: try change (strcaseeq "state-file" "event-filter") with false; cbn iota.
  all: try change (strcaseeq "event-filter" "event-filter") with true; cbn iota.
  all: rewrite (bind_ok _ _ _ _ _ Hin), (bind_ok _ _ _ _ _ Hmiss), Htext; unfold when.
  all: destruct (d =? NULL)%Z; cbn [negb]; [by unfold s2; rewrite Hm|].
  all: unfold on_conf, on_main; by apply zoom_ok.
Qed.

Lemma setting_run at_ q d T s x m' :
  between q d T s → plain x →
  (if (d =? NULL)%Z then m' = owner s else apply_setting d x (owner s) = Ok tt m') →
  ∃ s', foreach (setting_events at_ x) call s = Ok tt s' ∧ between q d T s' ∧ owner s' = m' ∧
    fh s' = fh s.
Proof.
  intros [Hst (qt & HT & Hqt & Hd) Hf Hc] [Hpr Hne] Hm.
  set (p := tag_brk s). assert (tags s !! q = Some qt) as Hq by by rewrite HT; apply lookup_insert_eq.
  assert (tags s !! p = None) as Hp by (apply Hf; lia).
  assert (q ≠ p) as Hqp by congruence.
  set (s1 := XmlState (<[p := csXmlTag_new (setting_tag x) []]> (tags s)) (p + 1) (stack s ++ [p])
    (conf s) (fh s) (buffer s) at_ (owner s)).
  set (t := SetText (setting_text x) (csXmlTag_new (setting_tag x) [])).
  set (s2 := set_tags (<[p := t]> (tags s1)) (set_pos at_ s1)).
  set (s3 := XmlState (delete p (tags s2)) (p + 1) [q] (conf s) (fh s) (buffer s) at_ m').
  set (qt' := SetText (tag_text qt ++ printable "  ") qt).
  set (s4 := set_tags (<[q := qt']> (tags s3)) (set_pos at_ s3)).
  assert (tags s3 = tags s) as Ht3.
  { cbn. rewrite insert_insert_eq. by apply delete_insert_id. }
  exists s4. split_and!; [| |done|done].
  - unfold setting_events. cbn [foreach]. rewrite (bind_ok _ _ _ tt s1).
    2:{ by destruct x; apply open_run. }
    rewrite (bind_ok _ _ _ tt s2).
    2:{ rewrite (text_run at_ _ p (csXmlTag_new (setting_tag x) []) s1); [|cbn; by rewrite last_snoc| |done].
        - cbn. by rewrite Hpr.
        - cbn. apply lookup_insert_eq. }
    rewrite (bind_ok _ _ _ tt s3).
    2:{ apply (close_run at_ q p qt t d x s2 m'); try done; cbn.
        - by rewrite Hst.
        - by rewrite !lookup_insert_ne.
        - apply lookup_insert_eq. }
    rewrite (bind_ok _ _ _ tt s4); [done|].
    apply (text_run at_ "  " q qt s3); [done|by rewrite Ht3|done].
  - split; [done| | |done].
    + exists qt'. split; [|done]. change (tags s4) with (<[q := qt']> (tags s3)).
      by rewrite Ht3, HT, insert_insert_eq.
    + intros z Hz. change (tag_brk s4) with (p + 1)%Z in Hz.
      change (tags s4) with (<[q := qt']> (tags s3)). rewrite Ht3.
      rewrite lookup_insert_ne; [apply Hf; lia|]. intros ->. rewrite Hf in Hq; [done|lia].
Qed.

Lemma settings_run at_ q d T settings s m' :
  between q d T s → Forall plain settings →
  (if (d =? NULL)%Z then m' = owner s
   else foreach settings (apply_setting d) (owner s) = Ok tt m') →
  ∃ s', foreach (mjoin (setting_events at_ <$> settings)) call s = Ok tt s' ∧ between q d T s' ∧
    owner s' = m' ∧ fh s' = fh s.
Proof.
  intros Hs Hall. revert s Hs m'. induction Hall as [|x settings Hx _ IH]; intros s Hs m' Hm.
  { exists s. split_and!; [done|done| |done]. destruct (d =? NULL)%Z; [done|]. by injection Hm as <-. }
  assert (∃ m1, (if (d =? NULL)%Z then m1 = owner s else apply_setting d x (owner s) = Ok tt m1) ∧
    if (d =? NULL)%Z then m' = m1 else foreach settings (apply_setting d) m1 = Ok tt m')
    as (m1 & H1 & H2).
  { destruct (d =? NULL)%Z; [by exists (owner s)|].
    apply bind_inv in Hm as ([] & m1 & ? & ?). by exists m1. }
  destruct (setting_run at_ q d T s x m1 Hs Hx H1) as (s1 & Hrun & Hs1 & Ho & Hfh).
  destruct (IH s1 Hs1 m') as (s' & Hrest & Hs' & Ho' & Hfh'); [by rewrite Ho|].
  exists s'. split_and!; [|done|done|congruence].
  cbn [fmap list_fmap mjoin list_join]. by rewrite (foreach_app_ok _ _ _ _ s1).
Qed.

Lemma settings_total d settings m :
  ok m → registered (m_conf m) d → ∃ m', foreach settings (apply_setting d) m = Ok tt m'.
Proof.
  revert m. induction settings as [|x settings IH]; intros m Hm Hd; [by exists m|].
  destruct (apply_setting_run m d x Hm Hd) as (m1 & Hrun & Hm1 & Hr & _).
  destruct (IH m1 Hm1 (Hr d Hd)) as [m' Hrest]. exists m'. cbn [foreach]. by rewrite (bind_ok _ _ _ _ _ Hrun).
Qed.

(** ** The plugin's element *)

(** What [main_open] makes of the plugin's tag. *)
Definition plugin_tag (name library : string) (size : option string) : csXmlTag :=
  csXmlTag_new "plugin" (plugin_attributes name library size).

Lemma plugin_tag_params name library size :
  param (plugin_tag name library size) !! "name" = Some name ∧
  param (plugin_tag name library size) !! "library" = Some library ∧
  param (plugin_tag name library size) !! "stack-size" = size.
Proof. by destruct size. Qed.

(** Loading, and where the settings then go: to the plugin at [d], if it was
    loaded and accepted its configuration file. *)
Definition load_and_register (name library : string) (size : Z) (m : csMain) (d : Z) (m1 : csMain) : Prop :=
  (∀ settings, configure_plugin name library size settings m =
    if (d =? NULL)%Z then Ok tt m1 else foreach settings (apply_setting d) m1) ∧
  (d ≠ NULL → ok m1 ∧ registered (m_conf m1) d).

(** [open_plugin] behind its checks. *)
Lemma open_plugin_loads name library size p s :
  stack s = [] → plugin (m_conf (owner s)) !! name = None →
  open_plugin page_size file_max new_client attr_init attr_setstacksize load configure p
    (plugin_tag name library size) s =
  (l ← on_main (load_plugin library name (size_of size));
   match l with
   | None => mret tt
   | Some l =>
       match configure (Plugin.plugin l) (filename (m_conf (owner s))) with
       | Some _ => on_main (csPluginLoader_delete m_handles set_m_handles l)
       | None =>
           tag_update p (SetData (Plugin.plugin l));;
           on_conf (modify (λ m, set_plugin (<[name := l]> (plugin m)) m))
       end
   end) s.
Proof.
  intros Hst Hnew. destruct (plugin_tag_params name library size) as (Hn & Hl & Hz).
  unfold open_plugin. rewrite (bind_ok (gets stack) _ s [] s) by (unfold gets; by rewrite Hst).
  unfold ParamExists, get_param, GetParamValue. rewrite Hn, Hl, Hz.
  rewrite !(bool_decide_eq_true_2 (is_Some (Some _))) by by eexists.
  cbn [length Nat.eqb negb when].
  rewrite !(bind_ok (mret tt) _ s tt s) by done.
  destruct size as [v|]; cbn [size_of].
  - rewrite (bool_decide_eq_true_2 (is_Some (Some v))) by by eexists.
    rewrite (bind_ok _ _ s (stack_size_of page_size v) s) by done.
    rewrite (bind_ok (mret name) _ s name s), (bind_ok (mret library) _ s library s) by done.
    rewrite (bind_ok (gets _) _ s (m_conf (owner s)) s) by done.
    rewrite Hnew. by rewrite (bind_ok _ _ s tt s).
  - rewrite (bind_ok _ _ s _CS_THREAD_STACK_SIZE s) by done.
    rewrite (bind_ok (mret name) _ s name s), (bind_ok (mret library) _ s library s) by done.
    rewrite (bind_ok (gets _) _ s (m_conf (owner s)) s) by done.
    rewrite Hnew. by rewrite (bind_ok _ _ s tt s).
Qed.

Lemma open_plugin_run name library size p s :
  ok (owner s) → stack s = [] → tags s !! p = Some (plugin_tag name library size) →
  plugin (m_conf (owner s)) !! name = None →
  ∃ d m1, open_plugin page_size file_max new_client attr_init attr_setstacksize load configure p
      (plugin_tag name library size) s =
      Ok tt (set_owner m1 (set_tags (<[p := SetData d (plugin_tag name library size)]> (tags s)) s)) ∧
    load_and_register name library (size_of size) (owner s) d m1.
Proof.
  intros Hm Hst Hp Hnew. rewrite open_plugin_loads by done.
  set (t := plugin_tag name library size) in *.
  destruct (load_plugin_run alloc_max this others file_max new_client attr_init attr_setstacksize
    new_fresh load (owner s) library name (size_of size) Hm) as (r & m1 & Hrun & Hr).
  assert (∀ m, set_owner m (set_tags (<[p := SetData NULL t]> (tags s)) s) = set_owner m s) as Hsame.
  { intros m. change (SetData NULL t) with t. rewrite insert_id by done. by destruct s. }
  assert (∀ settings, configure_plugin name library (size_of size) settings (owner s) =
    match r with
    | None => mret tt
    | Some l =>
        match configure (Plugin.plugin l) (filename (m_conf (owner s))) with
        | Some _ => csPluginLoader_delete m_handles set_m_handles l
        | None => modify (λ m, set_conf (set_plugin (<[name := l]> (plugin (m_conf m))) (m_conf m)) m);;
            foreach settings (apply_setting (Plugin.plugin l))
        end
    end m1) as Hconf.
  { intros settings. unfold configure_plugin. rewrite (bind_ok (gets _) _ _ _ (owner s) eq_refl).
    by rewrite (bind_ok _ _ _ _ _ Hrun). }
  rewrite (bind_ok _ _ s r (set_owner m1 s)) by by apply zoom_ok.
  destruct r as [l|]; [destruct (configure _ _) as [x|] eqn:Hx|].
  - exists NULL, (set_m_handles (m_handles m1 ∖ {[+ so_handle l +]}) m1).
    rewrite Hsame. split; [done|]. split; [intros settings; by rewrite Hconf|done].
  - destruct Hr as (Hk & Hpl & Hobj & Hh).
    destruct (kept_register alloc_max this others m1 name l (proj1 Hk)) as [Hk2 Hd];
      [by rewrite Hpl|done|by rewrite Hpl|].
    eexists (Plugin.plugin l), _. split; [|split].
    + rewrite (bind_ok _ _ _ tt (set_tags (<[p := SetData (Plugin.plugin l) t]> (tags s)) (set_owner m1 s))).
      2:{ unfold tag_update, tag_get, mbind, M_bind, modify. cbn. by rewrite Hp. }
      reflexivity.
    + intros settings. rewrite Hconf.
      destruct (Plugin.plugin l =? NULL)%Z eqn:H0; [|done]. apply Z.eqb_eq in H0.
      destruct Hobj as (o & Ho & _). rewrite H0 in Ho. by destruct (no_null_plugin _ _ _ m1 o (proj1 Hk)).
    + intros Hne. destruct Hd as [?|Hreg]; [done|]. split; [apply Hk2|exact Hreg].
  - exists NULL, m1. rewrite Hsame. split; [done|]. split; [intros settings; by rewrite Hconf|done].
Qed.

Lemma element_run at_ name library size s :
  ok (owner s) → stack s = [] → (∀ p, (tag_brk s ≤ p)%Z → tags s !! p = None) → conf s ≠ 0%Z →
  plugin (m_conf (owner s)) !! name = None →
  ∃ d m1 s1, call (XOpen "plugin" (plugin_attributes name library size), at_) s = Ok tt s1 ∧
    between (tag_brk s) d (tags s) s1 ∧ owner s1 = m1 ∧ fh s1 = fh s ∧
    load_and_register name library (size_of size) (owner s) d m1.
Proof.
  intros Hm Hst Hf Hc Hnew. set (p := tag_brk s). set (t := plugin_tag name library size).
  set (s0 := XmlState (<[p := t]> (tags s)) (p + 1) (stack s) (conf s) (fh s) (buffer s) at_ (owner s)).
  destruct (open_plugin_run name library size p s0) as (d & m1 & Hrun & Hload);
    [done|done|apply lookup_insert_eq|done|].
  set (s2 := set_owner m1 (set_tags (<[p := SetData d t]> (tags s0)) s0)).
  exists d, m1, (set_stack (stack s2 ++ [p]) s2). split_and!; [| |done|done|exact Hload].
  - unfold callback. cbn [fst snd]. rewrite (bind_ok _ _ _ tt (set_pos at_ s)) by done.
    unfold csXmlElementOpen. rewrite (bind_ok _ _ _ p s0) by done.
    cbn [ParseElementOpen handlers main_handlers]. rewrite (bind_ok _ _ s0 tt s2); [done|].
    unfold main_open. rewrite (bind_ok _ _ s0 t s0).
    2:{ unfold tag_get. cbn. by rewrite lookup_insert_eq. }
    exact Hrun.
  - split; cbn; [by rewrite Hst| | |done].
    + exists (SetData d t). split; [by rewrite insert_insert_eq|done].
    + intros q Hq. rewrite !lookup_insert_ne by lia. apply Hf. lia.
Qed.

(** The end of the plugin's element. *)
Lemma end_run at_ q d T s :
  between q d T s → T !! q = None →
  ∃ s', call (XClose "plugin", at_) s = Ok tt s' ∧ owner s' = owner s ∧ stack s' = [] ∧
    tags s' = T ∧ fh s' = fh s.
Proof.
  intros [Hst (qt & HT & Hqt & Hd) Hf Hc] Hq.
  assert (tags s !! q = Some qt) as Hqs by by rewrite HT; apply lookup_insert_eq.
  exists (XmlState (delete q (tags s)) (tag_brk s) [] (conf s) (fh s) (buffer s) at_ (owner s)).
  split_and!; try done.
  - unfold callback. cbn [fst snd].
    rewrite (bind_ok _ _ _ tt (set_pos at_ s)) by done. unfold csXmlElementClose.
    rewrite (bind_ok _ _ _ q (set_pos at_ s)) by (unfold stack_back; cbn; by rewrite Hst).
    set (s1 := set_stack [] (set_pos at_ s)).
    rewrite (bind_ok _ _ _ tt s1) by (unfold modify, s1; cbn; by rewrite Hst).
    rewrite (bind_ok _ _ _ tt s1).
    { unfold tag_delete, tag_get, mbind, M_bind, modify. cbn. by rewrite Hqs. }
    cbn [ParseElementClose handlers main_handlers]. unfold main_close.
    rewrite (bind_ok _ _ _ qt s1) by (unfold tag_get; cbn; by rewrite Hqs).
    unfold tag_is. by rewrite Hqt.
  - cbn. rewrite HT. by apply delete_insert_id.
Qed.

Lemma plugin_events_run at_ name library size settings s :
  ok (owner s) → stack s = [] → (∀ p, (tag_brk s ≤ p)%Z → tags s !! p = None) → conf s ≠ 0%Z →
  plugin (m_conf (owner s)) !! name = None → Forall plain settings →
  ∃ m' s', configure_plugin name library (size_of size) settings (owner s) = Ok tt m' ∧
    foreach (plugin_events at_ name library size settings) call s = Ok tt s' ∧
    owner s' = m' ∧ stack s' = [] ∧ tags s' = tags s ∧ fh s' = fh s.
Proof.
  intros Hm Hst Hf Hc Hnew Hplain.
  destruct (element_run at_ name library size s Hm Hst Hf Hc Hnew)
    as (d & m1 & s1 & Hopen & Hs1 & Ho1 & Hfh1 & Hconf & Hd).
  assert (∃ m', configure_plugin name library (size_of size) settings (owner s) = Ok tt m' ∧
    if (d =? NULL)%Z then m' = owner s1 else foreach settings (apply_setting d) (owner s1) = Ok tt m')
    as (m' & Href & Hm').
  { rewrite Hconf, Ho1. destruct (d =? NULL)%Z eqn:H0; [by exists m1|]. apply Z.eqb_neq in H0.
    destruct (settings_total d settings m1) as [m' Hrun]; [apply Hd, H0..|]. by exists m'. }
  destruct (settings_run at_ _ d _ settings s1 m' Hs1 Hplain Hm') as (s2 & Hrun & Hs2 & Ho2 & Hfh2).
  destruct (end_run at_ _ d _ s2 Hs2) as (s' & Hend & Ho & Hst' & HT & Hfh); [apply Hf; lia|].
  exists m', s'. split_and!; [done| |congruence|done|done|congruence].
  unfold plugin_events. cbn [foreach]. rewrite (bind_ok _ _ _ _ _ Hopen).
  rewrite (foreach_app_ok _ _ _ _ _ Hrun). cbn [foreach]. by rewrite (bind_ok _ _ _ _ _ Hend).
Qed.

(** C12. Parsing the configuration file of a plugin does what the reference does:
    it loads the library with the stack size of the file, and if that works and
    the plugin accepts the file, registers the plugin under its name and then
    applies the settings in the order of the file, opening the state file and
    adding to the event filter; otherwise it skips them.  The parser is left
    with no open element and no new tag, and the file is closed. *)
Theorem plugin_file_configures at_ name library size settings bytes file s :
  ok (owner s) → stack s = [] → (∀ p, (tag_brk s ≤ p)%Z → tags s !! p = None) → conf s ≠ 0%Z →
  plugin (m_conf (owner s)) !! name = None → Forall plain settings →
  ∃ m' s', configure_plugin name library (size_of size) settings (owner s) = Ok tt m' ∧
    @Parse csMain handlers (Z.to_nat page_size) file
      (inr [XmlPage bytes None (plugin_events at_ name library size settings) None]) s = Ok tt s' ∧
    owner s' = m' ∧ stack s' = [] ∧ tags s' = tags s ∧ fh s' = false.
Proof.
  intros Hm Hst Hf Hc Hnew Hplain.
  set (s0 := set_fh true (set_buffer (replicate (Z.to_nat page_size) x00) s)).
  set (s1 := set_buffer (bytes ++ drop (length bytes) (buffer s0)) s0).
  destruct (plugin_events_run at_ name library size settings s1 Hm Hst Hf Hc Hnew Hplain)
    as (m' & s2 & Href & Hrun & Ho & Hst2 & HT & _).
  exists m', (set_fh false s2). split_and!; try done.
  unfold Parse. rewrite (bind_ok _ _ _ _ _ (Reset_idle _ _ Hst)).
  set (s00 := set_buffer _ s). rewrite (bind_ok (gets conf) _ s00 (conf s) s00) by done.
  rewrite (proj2 (Z.eqb_neq _ _)) by done. rewrite (bind_ok _ _ s00 tt s0) by done.
  rewrite (bind_ok _ _ s0 tt s2); [done|]. cbn [parse_pages page_bytes page_errno page_events page_error].
  rewrite (bind_ok _ _ s0 tt s1) by done. by rewrite (bind_ok _ _ _ _ _ Hrun).
Qed.
End file.

(** *** A plugin with a state file and a filter *)

Definition sample_settings : list setting := [EventFilter "beta | gamma"; StateFile "/var/a"].

Lemma plugin_file_configures_witness :
  ∃ s', @Parse csMain (main_handlers 64 4096 4096 (λ _, true) next_client None (λ _, None)
      sample_load (λ _ _, None)) (Z.to_nat 64) "/etc/clearsync.d/a.conf"
      (inr [XmlPage [] None (plugin_events (at_byte 0) "Alpha" "a.so" (Some "65536") sample_settings) None])
      sample_start = Ok tt s' ∧
    plugin (m_conf (owner s')) = {[ "Alpha" := PluginLoader "a.so" 7 101 ]} ∧
    plugin_event_filter (m_conf (owner s')) = {[ 101%Z := ["beta"; "gamma"] ]} ∧
    stack s' = [].
Proof.
  destruct (plugin_file_configures 64 4096 100 [] 4096 (λ _, true) next_client None (λ _, None)
    (λ w _, next_client_fresh w) sample_load (λ _ _, None) (at_byte 0) "Alpha" "a.so" (Some "65536")
    sample_settings [] "/etc/clearsync.d/a.conf" sample_start)
    as (m' & s' & Href & Hrun & Ho & Hst & _).
  - exact sample_start_ok.
  - reflexivity.
  - intros p _. apply lookup_empty.
  - discriminate.
  - reflexivity.
  - repeat (apply List.Forall_cons; [split; [reflexivity|discriminate]|]). apply List.Forall_nil.
  - exists s'. split; [exact Hrun|]. rewrite Ho.
    assert (∃ m, configure_plugin 4096 4096 (λ _, true) next_client None (λ _, None) sample_load
        (λ _ _, None) "Alpha" "a.so" 65536 sample_settings (owner sample_start) = Ok tt m ∧
      plugin (m_conf m) = {[ "Alpha" := PluginLoader "a.so" 7 101 ]} ∧
      plugin_event_filter (m_conf m) = {[ 101%Z := ["beta"; "gamma"] ]}) as (m & Hm & Hp & Hf).
    { eexists. split; [vm_compute; reflexivity|]. split; vm_compute; reflexivity. }
    assert (size_of 64 (Some "65536") = 65536%Z) as Hsize by (vm_compute; reflexivity).
    rewrite Hsize, Hm in Href. injection Href as <-. split; [exact Hp|]. split; [exact Hf|exact Hst].
Defined.
