(* ===== verification/Socket.v ===== *)
(** * Sockets (cssocket.cpp, cssocket.h)

    Stream sockets: the base class with its transfers, the accepting and the
    connecting socket.  The system's calls give their results as arguments;
    of the kernel the state keeps which descriptors are open and which were
    shut down. *)

From S2P Require Import Prelude Exception Bytes.

(** ** Socket objects *)

Inductive State := Init | Accepting | Accepted | Connecting | Connected.
#[export] Instance State_eq_dec : EqDecision State.
Proof. solve_decision. Defined.

Definition WaitAll : Z := 0x1.
Definition AF_INET : Z := 2.
Definition INADDR_ANY : Z := 0.

Record sockaddr_in := SockAddr { sin_family : Z; sin_port : Z; sin_addr : Z }.

(** [tv_active] is in seconds: its other field is never used. *)
Record csSocket := CsSocket {
  sd : Z;
  sa : sockaddr_in;
  state : State;
  flags : Z;
  timeout : Z;
  tv_active : Z;
  bytes_read : Z;
  bytes_wrote : Z;
}.

(** What the memory of a new object holds where no constructor writes. *)
Record garbage := Garbage { g_active : Z; g_read : Z; g_wrote : Z }.

Definition set_sd (d : Z) (s : csSocket) : csSocket :=
  CsSocket d (sa s) (state s) (flags s) (timeout s) (tv_active s) (bytes_read s)
    (bytes_wrote s).
Definition set_sa (a : sockaddr_in) (s : csSocket) : csSocket :=
  CsSocket (sd s) a (state s) (flags s) (timeout s) (tv_active s) (bytes_read s)
    (bytes_wrote s).
Definition set_state (st : State) (s : csSocket) : csSocket :=
  CsSocket (sd s) (sa s) st (flags s) (timeout s) (tv_active s) (bytes_read s)
    (bytes_wrote s).
Definition set_active (t : Z) (s : csSocket) : csSocket :=
  CsSocket (sd s) (sa s) (state s) (flags s) (timeout s) t (bytes_read s)
    (bytes_wrote s).
Definition SetTimeout (t : Z) (s : csSocket) : csSocket :=
  CsSocket (sd s) (sa s) (state s) (flags s) t (tv_active s) (bytes_read s)
    (bytes_wrote s).
Definition SetWaitAll (enable : bool) (s : csSocket) : csSocket :=
  CsSocket (sd s) (sa s) (state s) (if enable then WaitAll else 0) (timeout s)
    (tv_active s) (bytes_read s) (bytes_wrote s).
(** The counters are [size_t]. *)
Definition add_read (n : Z) (s : csSocket) : csSocket :=
  CsSocket (sd s) (sa s) (state s) (flags s) (timeout s) (tv_active s)
    ((bytes_read s + n) mod 2 ^ 64) (bytes_wrote s).
Definition add_wrote (n : Z) (s : csSocket) : csSocket :=
  CsSocket (sd s) (sa s) (state s) (flags s) (timeout s) (tv_active s)
    (bytes_read s) ((bytes_wrote s + n) mod 2 ^ 64).

Definition csSocketTimeout_new : csException :=
  CsExc CsSocketTimeout (WhatText "csException") (-1) "csSocketTimeout".
Definition csSocketHangup_new : csException :=
  CsExc CsSocketHangup (WhatText "csException") (-1) "csSocketHangup".

(** ** Descriptors *)

Record sock_state := SockState {
  this : csSocket;
  fds : gset Z;                (* open descriptors of the process *)
  shut : list Z;               (* calls of shutdown *)
}.

Definition on_this (f : csSocket → csSocket) (s : sock_state) : sock_state :=
  SockState (f (this s)) (fds s) (shut s).
Definition fd_open (d : Z) (s : sock_state) : sock_state :=
  SockState (this s) ({[d]} ∪ fds s) (shut s).
Definition fd_close (d : Z) (s : sock_state) : sock_state :=
  SockState (this s) (fds s ∖ {[d]}) (shut s).
Definition fd_shutdown (d : Z) (s : sock_state) : sock_state :=
  SockState (this s) (fds s) (shut s ++ [d]).

(** [socket] gives [errno] or a descriptor. *)
Definition Create (socket : Z + Z) : prog sock_state unit :=
  match socket with
  | inl errno =>
      modify (on_this (set_sd (-1)));; throw (csException_int_str errno "socket")
  | inr d => modify (fd_open d);; modify (on_this (set_sd d))
  end.

(** [csSocket::Close] *)
Definition Close : prog sock_state unit :=
  s ← gets this;
  when (0 <=? sd s)%Z
    (when (bool_decide (state s = Connected)) (modify (fd_shutdown (sd s)));;
     modify (fd_close (sd s));;
     modify (on_this (set_sd (-1))));;
  modify (on_this (set_state Init)).

(** The constructors of the base class and the destructor, which calls the
    [Close] of the base class whatever the class of the object is. *)
Definition csSocket_new (g : garbage) (socket : Z + Z) : prog sock_state unit :=
  modify (on_this (λ _, CsSocket (-1) (SockAddr 0 0 0) Init 0 0 (g_active g)
    (g_read g) (g_wrote g)));;
  Create socket.

Definition csSocket_accepted (g : garbage) (d : Z) (a : sockaddr_in) : csSocket :=
  CsSocket d a Connected 0 0 (g_active g) (g_read g) (g_wrote g).

Definition csSocket_delete : prog sock_state unit := Close.

(** ** Transfers *)

(** The socket, the caller's [length] and [buffer], and the bytes the peer was
    sent. *)
Record xfer := Xfer {
  x_sock : csSocket;
  x_length : Z;
  x_buffer : list byte;
  x_sent : list byte;
}.

Definition on_sock (f : csSocket → csSocket) (x : xfer) : xfer :=
  Xfer (f (x_sock x)) (x_length x) (x_buffer x) (x_sent x).
Definition set_length (n : Z) (x : xfer) : xfer :=
  Xfer (x_sock x) n (x_buffer x) (x_sent x).

Inductive io_result (A : Type) := IoDone (a : A) | IoFailed (errno : Z).
Arguments IoDone {A}.
Arguments IoFailed {A}.

(** [size_t] to [ssize_t] *)
Definition to_ssize (n : Z) : Z := if (n <? 2 ^ 63)%Z then n else (n - 2 ^ 64)%Z.

Section transfer.
(** [recv] and [send]: how much a result moves, and what the call does with
    the memory at [ptr]. *)
Context {A : Type} (call : string) (amount : A → nat).
Context (move : nat → A → prog xfer unit) (count : Z → csSocket → csSocket).

(** The loop that [Read] and [Write] share, on what the successive calls give
    and what the clock shows after each: [true] when it returned, [false] when
    it would call again. *)
Fixpoint transfer_loop (bytes_left : Z) (ptr : nat)
    (calls : list (io_result A * Z)) : prog xfer bool :=
  if (bytes_left <=? 0)%Z then mret true
  else match calls with
  | [] => mret false
  | (IoFailed errno, now) :: calls =>
      if (errno =? EAGAIN)%Z then
        s ← gets x_sock;
        if (Z.land (flags s) WaitAll =? 0)%Z then mret true
        else
          idle ← add_time now (- tv_active s);
          if (idle <=? timeout s)%Z then transfer_loop bytes_left ptr calls
          else throw csSocketTimeout_new
      else throw (csException_int_str errno call)
  | (IoDone a, now) :: calls =>
      if (amount a =? 0)%nat then throw csSocketHangup_new
      else
        move ptr a;;
        let n := Z.of_nat (amount a) in
        modify (on_sock (count n));;
        modify (λ x, set_length ((x_length x + n) mod 2 ^ 64) x);;
        modify (on_sock (set_active now));;
        transfer_loop (bytes_left - n) (ptr + amount a) calls
  end.

Definition transfer (length : Z) (calls : list (io_result A * Z)) : prog xfer bool :=
  modify (set_length 0);;
  transfer_loop (to_ssize length) 0 calls.
End transfer.

Definition store (ptr : nat) (bs : list byte) : prog xfer unit :=
  b ← gets x_buffer;
  if (List.length b <? ptr + List.length bs)%nat then stuck OutOfBounds
  else modify (λ x, Xfer (x_sock x) (x_length x) (overwrite ptr bs b) (x_sent x)).

Definition emit (ptr : nat) (n : nat) : prog xfer unit :=
  b ← gets x_buffer;
  if (List.length b <? ptr + n)%nat then stuck OutOfBounds
  else modify (λ x, Xfer (x_sock x) (x_length x) b (x_sent x ++ take n (drop ptr b))).

Definition Read (calls : list (io_result (list byte) * Z)) : prog xfer bool :=
  n ← gets x_length;
  transfer "recv" (@List.length byte) store add_read n calls.

Definition Write (calls : list (io_result nat * Z)) : prog xfer bool :=
  n ← gets x_length;
  transfer "send" id emit add_wrote n calls.

(** ** The accepting socket *)

(** [htons] *)
Definition htons (port : Z) : Z := (port mod 256 * 256 + port / 256)%Z.

Record accept_env := AcceptEnv {
  ae_socket : Z + Z;                  (* socket(..., SOCK_STREAM) *)
  ae_socket_ifr : Z + Z;              (* socket(..., SOCK_DGRAM) *)
  ae_SIOCGIFADDR : string → option Z; (* the address of an interface *)
  ae_getaddrinfo : string → Z + Z;    (* rc, or the first address *)
  ae_setsockopt : option Z;           (* errno *)
  ae_bind : option Z;
  ae_listen : option Z;
}.

Definition set_addr (a : Z) (s : csSocket) : csSocket :=
  set_sa (SockAddr (sin_family (sa s)) (sin_port (sa s)) a) s.

(** [IFNAMSIZ] *)
Definition IFNAMSIZ : nat := 16.

Definition accept_address (env : accept_env) (addr : string) : prog sock_state unit :=
  if bool_decide (addr = "all" ∨ addr = "any") then modify (on_this (set_addr INADDR_ANY))
  else match ae_socket_ifr env with
  | inl errno => throw (csException_int_str errno "socket")
  | inr sd_ifr =>
      modify (fd_open sd_ifr);;
      match ae_SIOCGIFADDR env (String.substring 0 IFNAMSIZ addr) with
      | Some a => modify (on_this (set_addr a));; modify (fd_close sd_ifr)
      | None =>
          modify (fd_close sd_ifr);;
          match ae_getaddrinfo env addr with
          | inl rc => throw (csException_int_str rc "getaddrinfo")
          | inr a => modify (on_this (set_addr a))
          end
      end
  end.

(** A call that fails with an error number. *)
Definition must (r : option Z) (what : string) : prog sock_state unit :=
  match r with
  | Some errno => throw (csException_int_str errno what)
  | None => mret tt
  end.

(** An exception in the body of a derived constructor destroys the base. *)
Definition derived (body : prog sock_state unit) : prog sock_state unit :=
  try_catch body (λ x, csSocket_delete;; throw x).

#[global] Arguments derived : simpl never.

Definition csSocketAccept_new (g : garbage) (env : accept_env) (addr : string) (port : Z) :
    prog sock_state unit :=
  csSocket_new g (ae_socket env);;
  derived
    (modify (on_this (set_sa (SockAddr AF_INET (htons port) 0)));;
     accept_address env addr;;
     must (ae_setsockopt env) "setsockopt: SO_REUSEADDR";;
     must (ae_bind env) "bind";;
     must (ae_listen env) "listen";;
     modify (on_this (set_state Accepting))).

(** [accept] gives [errno], or a descriptor and the peer's address. *)
Definition Accept (g : garbage) (accept : Z + Z * sockaddr_in) :
    prog sock_state (option csSocket) :=
  s ← gets this;
  if bool_decide (state s = Accepting) then
    match accept with
    | inl errno => throw (csException_int_str errno "accept")
    | inr (sd_client, sa_client) =>
        modify (fd_open sd_client);;
        mret (Some (csSocket_accepted g sd_client sa_client))
    end
  else mret None.

(** ** The connecting socket *)

Definition csSocketConnect_new (g : garbage) (socket : Z + Z)
    (getaddrinfo : string → Z + Z) (host : string) (port : Z) : prog sock_state unit :=
  csSocket_new g socket;;
  derived
    (match getaddrinfo host with
     | inl rc => throw (csException_int_str rc "getaddrinfo")
     | inr a => modify (on_this (set_sa (SockAddr AF_INET (htons port) a)))
     end).

Definition csSocketConnect_Close : prog sock_state unit :=
  modify (on_this (set_state Init));; Close.

(** The loop of [Connect]: the clock before each call of [connect], and its
    [errno] if it fails; [false] when it would go round again. *)
Fixpoint connect_loop (calls : list (Z * option Z)) : prog sock_state bool :=
  s ← gets this;
  if negb (bool_decide (state s = Connecting)) then mret true
  else match calls with
  | [] => mret false
  | (now, r) :: calls =>
      idle ← add_time now (- tv_active s);
      if (timeout s <? idle)%Z then throw csSocketTimeout_new
      else match r with
      | None => modify (on_this (set_state Connected));; connect_loop calls
      | Some errno =>
          if (errno =? EISCONN)%Z
          then modify (on_this (set_state Connected));; connect_loop calls
          else if negb (errno =? EALREADY)%Z && negb (errno =? EINPROGRESS)%Z
          then throw (csException_int_str errno "connect")
          else connect_loop calls
      end
  end.

Definition Connect (now : Z) (calls : list (Z * option Z)) : prog sock_state bool :=
  s ← gets this;
  when (bool_decide (state s = Init))
    (modify (on_this (set_active now));; modify (on_this (set_state Connecting)));;
  connect_loop calls.
