(* ===== verification/SocketProps.v ===== *)
(** * Sockets: transfers, connecting, descriptors

    What the loops of [Read], [Write] and [Connect] do on every sequence of
    results of the system's calls, and who closes which descriptor. *)

From S2P Require Import Prelude Exception Bytes Socket.

(** ** Transfers *)

Definition waits (s : csSocket) : bool := negb (Z.land (flags s) WaitAll =? 0)%Z.

(** Clocks do not reach half of the range of [time_t], and are not negative. *)
Definition clock (t : Z) : Prop := (0 ≤ t ≤ INT64_MAX)%Z.

Section loop.
Context {A : Type} (call : string) (amount : A → nat).
Abbreviation calls_t := (list (io_result A * Z)).

(** The bytes that a sequence of results moved. *)
Fixpoint moved (l : calls_t) : nat :=
  match l with
  | [] => 0
  | (IoDone a, _) :: l => amount a + moved l
  | (IoFailed _, _) :: l => moved l
  end.

(** The clock when something was last moved; before, [t]. *)
Fixpoint last_active (t : Z) (l : calls_t) : Z :=
  match l with
  | [] => t
  | (IoDone _, now) :: l => last_active now l
  | (IoFailed _, _) :: l => last_active t l
  end.

(** Results after which the loop goes on: progress, or for a socket that waits
    for everything nothing to do for at most [limit] seconds. *)
Fixpoint steady (wait : bool) (limit t : Z) (l : calls_t) : Prop :=
  match l with
  | [] => True
  | (IoDone a, now) :: l => 0 < amount a ∧ steady wait limit now l
  | (IoFailed errno, now) :: l =>
      errno = EAGAIN ∧ wait = true ∧ (now - t ≤ limit)%Z ∧ steady wait limit t l
  end.

(** The kernel moves no more than it is asked to. *)
Fixpoint within (n : nat) (l : calls_t) : Prop :=
  match l with
  | [] => True
  | (IoDone a, _) :: l => amount a ≤ n ∧ within (n - amount a) l
  | (IoFailed _, _) :: l => within n l
  end.

(** The exception a result is answered with. *)
Definition raised (wait : bool) (limit t : Z) (r : io_result A) (now : Z) (e : csException) :
    Prop :=
  match r with
  | IoDone a => amount a = 0 ∧ e = csSocketHangup_new
  | IoFailed errno =>
      if decide (errno = EAGAIN)
      then wait = true ∧ (limit < now - t)%Z ∧ e = csSocketTimeout_new
      else e = csException_int_str errno call
  end.

(** The outcome of a transfer of [n] bytes over [calls]: after the results
    [body] the state is [st body], and the loop ended because everything was
    moved, because of the next result, or not yet. *)
Definition explained (n : nat) (wait : bool) (limit t : Z) (calls : calls_t)
    (st : calls_t → xfer → Prop) (o : outcome csException xfer bool) : Prop :=
  ∃ body rest, steady wait limit t body ∧ moved body ≤ n ∧
    match o with
    | Ok true x => st body x ∧
        ((calls = body ++ rest ∧ moved body = n) ∨
         (∃ now, calls = body ++ (IoFailed EAGAIN, now) :: rest ∧ wait = false ∧ moved body < n))
    | Ok false x => st body x ∧ calls = body ∧ moved body < n
    | Throw e x => st body x ∧ moved body < n ∧ ∃ r now,
        calls = body ++ (r, now) :: rest ∧ raised wait limit (last_active t body) r now e
    | Stuck _ => False
    end.

Lemma explained_mono n wait limit t calls (st st' : calls_t → xfer → Prop) o :
  (∀ body x, moved body ≤ n → st body x → st' body x) →
  explained n wait limit t calls st o → explained n wait limit t calls st' o.
Proof.
  intros Hst (body & rest & Hs & Hle & Ho). exists body, rest. split_done.
  destruct o as [[] x|e x|f]; [| | |done]; destruct Ho as [? Ho]; split; auto.
Qed.

(** A result after which the loop goes on, in front of what the rest does. *)
Lemma explained_cons n n' wait limit t t' c calls (st st' : calls_t → xfer → Prop) o :
  n = moved [c] + n' → t' = last_active t [c] →
  (∀ l, steady wait limit t' l → steady wait limit t (c :: l)) →
  (∀ body x, st body x → st' (c :: body) x) →
  explained n' wait limit t' calls st o → explained n wait limit t (c :: calls) st' o.
Proof.
  intros -> -> Hsteady Hst (body & rest & Hs & Hle & Ho). exists (c :: body), rest.
  assert (moved (c :: body) = moved [c] + moved body) as Hm by (destruct c as [[]]; cbn; lia).
  assert (last_active t (c :: body) = last_active (last_active t [c]) body) as Hl
    by by destruct c as [[]].
  rewrite Hm, Hl. split; [by apply Hsteady|]. split; [lia|].
  destruct o as [[] x|e x|f]; [| | |done].
  - destruct Ho as [Hx Ho]. split; [by apply Hst|].
    destruct Ho as [[-> Hk]|(now' & -> & Hw & Hk)]; [left|right; exists now']; split_done; lia.
  - destruct Ho as (Hx & -> & Hk). split_done; [by apply Hst|lia].
  - destruct Ho as (Hx & Hk & r & now' & -> & Hr). split_done; [by apply Hst|lia|].
    by exists r, now'.
Qed.

Context (move : nat → A → prog xfer unit) (count : Z → csSocket → csSocket).
Context (eff : nat → A → xfer → xfer).

(** One result that moved something. *)
Definition advance (ptr : nat) (a : A) (now : Z) (x : xfer) : xfer :=
  let n := Z.of_nat (amount a) in
  let x1 := on_sock (count n) (eff ptr a x) in
  on_sock (set_active now) (set_length ((x_length x1 + n) mod 2 ^ 64) x1).

Fixpoint after (ptr : nat) (l : calls_t) (x : xfer) : xfer :=
  match l with
  | [] => x
  | (IoDone a, now) :: l => after (ptr + amount a) l (advance ptr a now x)
  | (IoFailed _, _) :: l => after ptr l x
  end.

(** What [move] and [count] are: [move] returns while it stays in the buffer,
    and neither touches the socket's mode or the size of the buffer. *)
Definition moves : Prop :=
  (∀ ptr a x, ptr + amount a ≤ length (x_buffer x) → move ptr a x = Ok tt (eff ptr a x)) ∧
  (∀ ptr a x, ptr + amount a ≤ length (x_buffer x) →
    length (x_buffer (eff ptr a x)) = length (x_buffer x)) ∧
  (∀ ptr a x, x_sock (eff ptr a x) = x_sock x) ∧
  (∀ n s, flags (count n s) = flags s ∧ timeout (count n s) = timeout s).

Lemma transfer_loop_explained (Hm : moves) calls n ptr x :
  ptr + n ≤ length (x_buffer x) → within n calls →
  clock (tv_active (x_sock x)) → Forall (λ c, clock c.2) calls →
  explained n (waits (x_sock x)) (timeout (x_sock x)) (tv_active (x_sock x)) calls
    (λ body x', x' = after ptr body x)
    (transfer_loop call amount move count (Z.of_nat n) ptr calls x).
Proof.
  destruct Hm as (Hmove & Hlen & Hsock & Hcount).
  revert n ptr x. induction calls as [|[r now] calls IH]; intros n ptr x Hbuf Hin Ht Hcl.
  { exists [], []. cbn. destruct (Z.leb_spec (Z.of_nat n) 0); cbn; split_done; try lia.
    left. split; [done|lia]. }
  assert (n = 0 ∨ 0 < n) as [->|Hn] by lia.
  { exists [], ((r, now) :: calls). cbn [transfer_loop].
    rewrite (proj2 (Z.leb_le _ _)) by lia. cbn. split_done. by left. }
  apply Forall_cons in Hcl as [Hnow Hcl]. cbn in Hnow.
  cbn [transfer_loop]. rewrite (proj2 (Z.leb_gt _ _)) by lia.
  destruct r as [a|errno].
  - destruct (Nat.eqb_spec (amount a) 0) as [Ha|Ha].
    + exists [], calls. cbn. split_done; [lia|]. by exists (IoDone a), now.
    + cbn in Hin. destruct Hin as [Ha2 Hin].
      unfold mbind, M_bind, modify. rewrite Hmove by lia.
      specialize (IH (n - amount a) (ptr + amount a) (advance ptr a now x)).
      assert (length (x_buffer (advance ptr a now x)) = length (x_buffer x)) as Hl2
        by (cbn; apply Hlen; lia).
      assert (flags (x_sock (advance ptr a now x)) = flags (x_sock x) ∧
        timeout (x_sock (advance ptr a now x)) = timeout (x_sock x)) as [Hf Hto].
      { cbn. destruct (Hcount (Z.of_nat (amount a)) (x_sock (eff ptr a x))) as [-> ->].
        by rewrite Hsock. }
      unfold waits in IH. rewrite Hf, Hto in IH.
      replace (Z.of_nat n - Z.of_nat (amount a))%Z with (Z.of_nat (n - amount a)) by lia.
      apply (explained_cons n (n - amount a) _ _ _ now _ _
        (λ body x', x' = after (ptr + amount a) body (advance ptr a now x)));
        [cbn; lia|done| | |apply IH; [rewrite Hl2; lia|done..]].
      { intros l Hl. cbn. split_done. lia. }
      by intros body x' ->.
  - cbn in Hin. destruct (Z.eqb_spec errno EAGAIN) as [->|He].
    + unfold mbind, M_bind, gets.
      destruct (Z.land (flags (x_sock x)) WaitAll =? 0)%Z eqn:Hw.
      { exists [], calls. cbn. split_done; [lia|]. right. exists now. unfold waits. by rewrite Hw. }
      rewrite add_time_ok by (unfold clock, INT64_MIN, INT64_MAX in *; lia).
      destruct (Z.leb_spec (now + - tv_active (x_sock x)) (timeout (x_sock x))) as [Hi|Hi].
      * apply (explained_cons n n _ _ _ (tv_active (x_sock x)) _ _
          (λ body x', x' = after ptr body x)); [done..| | |by apply IH].
        { intros l Hl. cbn. split_done. unfold waits. by rewrite Hw. }
        by intros body x' ->.
      * exists [], calls. cbn. split_done; [lia|]. exists (IoFailed EAGAIN), now. cbn.
        split_done. unfold waits. by rewrite Hw.
    + exists [], calls. cbn. split_done; [lia|]. exists (IoFailed errno), now. cbn.
      by rewrite decide_False.
Qed.
End loop.

(** ** [Read] and [Write] *)

Definition store_eff (ptr : nat) (bs : list byte) (x : xfer) : xfer :=
  Xfer (x_sock x) (x_length x) (overwrite ptr bs (x_buffer x)) (x_sent x).
Definition emit_eff (ptr : nat) (n : nat) (x : xfer) : xfer :=
  Xfer (x_sock x) (x_length x) (x_buffer x) (x_sent x ++ take n (drop ptr (x_buffer x))).

Lemma store_moves : moves (@length byte) store add_read store_eff.
Proof.
  unfold moves. split_done; intros ptr bs x Hp; [|by apply length_overwrite].
  unfold store, mbind, M_bind, gets. by rewrite (proj2 (Nat.ltb_ge _ _) Hp).
Qed.

Lemma emit_moves : moves id emit add_wrote emit_eff.
Proof.
  unfold moves. split_done. intros ptr n x Hp. unfold id in Hp.
  unfold emit, mbind, M_bind, gets. by rewrite (proj2 (Nat.ltb_ge _ _) Hp).
Qed.

(** What the results delivered, in order. *)
Fixpoint delivered (l : list (io_result (list byte) * Z)) : list byte :=
  match l with
  | [] => []
  | (IoDone bs, _) :: l => bs ++ delivered l
  | (IoFailed _, _) :: l => delivered l
  end.

Lemma length_delivered l : length (delivered l) = moved (@length byte) l.
Proof. induction l as [|[[bs|e] t] l IH]; cbn; [done| |done]. by rewrite length_app, IH. Qed.

Definition size_t (z : Z) : Prop := (0 ≤ z < 2 ^ 64)%Z.

Lemma add_read_add a b s : add_read b (add_read a s) = add_read (a + b) s.
Proof. unfold add_read; cbn. by rewrite Zplus_mod_idemp_l, Z.add_assoc. Qed.
Lemma add_wrote_add a b s : add_wrote b (add_wrote a s) = add_wrote (a + b) s.
Proof. unfold add_wrote; cbn. by rewrite Zplus_mod_idemp_l, Z.add_assoc. Qed.

Lemma read_after l ptr x :
  ptr + moved (@length byte) l ≤ length (x_buffer x) →
  size_t (x_length x) → size_t (bytes_read (x_sock x)) →
  after (@length byte) add_read store_eff ptr l x =
    Xfer (set_active (last_active (tv_active (x_sock x)) l)
        (add_read (Z.of_nat (moved (@length byte) l)) (x_sock x)))
      ((x_length x + Z.of_nat (moved (@length byte) l)) `mod` 2 ^ 64)
      (overwrite ptr (delivered l) (x_buffer x)) (x_sent x).
Proof.
  revert ptr x. induction l as [|[[bs|e] t] l IH]; intros ptr x Hp Hl Hr; cbn [after moved delivered last_active].
  - destruct x as [[] len b sent]. unfold set_active, add_read; cbn in *.
    by rewrite !Z.add_0_r, !Z.mod_small, overwrite_nil.
  - cbn in Hp. rewrite IH.
    + cbn. rewrite Nat2Z.inj_add, Zplus_mod_idemp_l, Z.add_assoc.
      rewrite overwrite_app by lia. f_equal.
      unfold set_active, add_read; cbn. by rewrite Zplus_mod_idemp_l, Z.add_assoc.
    + cbn. rewrite length_overwrite; lia.
    + cbn. apply Z.mod_pos_bound. done.
    + cbn. apply Z.mod_pos_bound. done.
  - by apply IH.
Qed.

Lemma write_after l ptr x :
  ptr + moved id l ≤ length (x_buffer x) →
  size_t (x_length x) → size_t (bytes_wrote (x_sock x)) →
  after id add_wrote emit_eff ptr l x =
    Xfer (set_active (last_active (tv_active (x_sock x)) l)
        (add_wrote (Z.of_nat (moved id l)) (x_sock x)))
      ((x_length x + Z.of_nat (moved id l)) `mod` 2 ^ 64)
      (x_buffer x) (x_sent x ++ take (moved id l) (drop ptr (x_buffer x))).
Proof.
  revert ptr x. induction l as [|[[n|e] t] l IH]; intros ptr x Hp Hl Hr; cbn [after moved last_active].
  - destruct x as [[] len b sent]. unfold set_active, add_wrote; cbn in *.
    by rewrite !Z.add_0_r, !Z.mod_small, app_nil_r.
  - cbn in Hp. rewrite IH.
    + cbn. rewrite Nat2Z.inj_add, Zplus_mod_idemp_l, Z.add_assoc.
      rewrite <-app_assoc, <-drop_drop, take_take_drop. f_equal.
      unfold set_active, add_wrote; cbn. by rewrite Zplus_mod_idemp_l, Z.add_assoc.
    + cbn. unfold id in *. lia.
    + cbn. apply Z.mod_pos_bound. done.
    + cbn. apply Z.mod_pos_bound. done.
  - by apply IH.
Qed.

(** C16. [Read] and [Write] lose and invent nothing, whatever the system's calls
    return.  On every exit, by return or by exception, [length] is the number
    of bytes moved, the buffer starts with exactly the bytes received, in
    order, and is unchanged behind them (the peer was sent exactly that much of
    the buffer), and the socket's counter and clock are up to date.  The calls
    return when everything was moved or, without [WaitAll], when nothing more
    can be moved now; they throw for a closed connection, an error, or a wait
    of more than [timeout] seconds; and else nothing has kept them waiting
    longer than that. *)
Theorem transfers_exact n sock buf sent :
  n ≤ length buf → (Z.of_nat n < 2 ^ 63)%Z → clock (tv_active sock) →
  size_t (bytes_read sock) → size_t (bytes_wrote sock) →
  (∀ calls, within (@length byte) n calls → Forall (λ c, clock c.2) calls →
    explained "recv" (@length byte) n (waits sock) (timeout sock) (tv_active sock) calls
      (λ body x', let k := moved (@length byte) body in
        x' = Xfer (set_active (last_active (tv_active sock) body)
            (add_read (Z.of_nat k) sock))
          (Z.of_nat k) (delivered body ++ drop k buf) sent)
      (Read calls (Xfer sock (Z.of_nat n) buf sent))) ∧
  (∀ calls, within id n calls → Forall (λ c, clock c.2) calls →
    explained "send" id n (waits sock) (timeout sock) (tv_active sock) calls
      (λ body x', let k := moved id body in
        x' = Xfer (set_active (last_active (tv_active sock) body)
            (add_wrote (Z.of_nat k) sock))
          (Z.of_nat k) buf (sent ++ take k buf))
      (Write calls (Xfer sock (Z.of_nat n) buf sent))).
Proof.
  intros Hn Hs Ht Hr Hw.
  assert (to_ssize (Z.of_nat n) = Z.of_nat n) as Hto.
  { unfold to_ssize. by rewrite (proj2 (Z.ltb_lt _ _) Hs). }
  split; intros calls Hin Hcl; unfold Read, Write, transfer, mbind, M_bind, gets, modify;
    cbn [x_length]; rewrite Hto.
  - eapply explained_mono; [|apply (transfer_loop_explained "recv" _ _ _ _ store_moves calls n 0
      (Xfer sock 0 buf sent)); [cbn; lia|done..]].
    intros body x' Hle ->. rewrite read_after by (cbn; unfold size_t in *; (lia || done)).
    cbn. rewrite Z.mod_small by (unfold size_t; lia).
    unfold overwrite. cbn. by rewrite length_delivered.
  - eapply explained_mono; [|apply (transfer_loop_explained "send" _ _ _ _ emit_moves calls n 0
      (Xfer sock 0 buf sent)); [cbn; lia|done..]].
    intros body x' Hle ->. rewrite write_after by (cbn; unfold size_t in *; (lia || done)).
    cbn. by rewrite Z.mod_small by lia.
Qed.

Definition sample_socket : csSocket :=
  CsSocket 7 (SockAddr AF_INET (htons 80) 0) Connected WaitAll 5 100 0 0.

Lemma transfers_exact_witness :
  explained "recv" (@length byte) 3 true 5 100
    [(IoFailed EAGAIN, 103); (IoDone [x61; x62], 104); (IoFailed EAGAIN, 110)]%Z
    (λ body x', let k := moved (@length byte) body in
      x' = Xfer (set_active (last_active 100 body) (add_read (Z.of_nat k) sample_socket))
        (Z.of_nat k) (delivered body ++ drop k [x00; x00; x00; x00]) [])
    (Read [(IoFailed EAGAIN, 103); (IoDone [x61; x62], 104); (IoFailed EAGAIN, 110)]%Z
      (Xfer sample_socket 3 [x00; x00; x00; x00] [])).
Proof.
  apply (transfers_exact 3 sample_socket [x00; x00; x00; x00] []).
  - cbn. lia.
  - cbn. lia.
  - unfold clock, INT64_MAX. cbn. lia.
  - unfold size_t. cbn. lia.
  - unfold size_t. cbn. lia.
  - cbn. lia.
  - unfold clock, INT64_MAX. repeat constructor; cbn; lia.
Defined.

(** A socket made by [Accept] that waits for everything times out when the
    memory it was built in says so: nothing sets [tv_active] before the first
    byte has moved. *)
Lemma accepted_timeout_is_garbage g d a limit now n buf sent :
  clock now → clock (g_active g) → 0 < n → (Z.of_nat n < 2 ^ 63)%Z →
  let s := SetWaitAll true (SetTimeout limit (csSocket_accepted g d a)) in
  Read [(IoFailed EAGAIN, now)] (Xfer s (Z.of_nat n) buf sent) =
    if decide (limit < now - g_active g)%Z
    then Throw csSocketTimeout_new (Xfer s 0 buf sent)
    else Ok false (Xfer s 0 buf sent).
Proof.
  intros Hnow Hg Hn Hs s. unfold Read, transfer, to_ssize, mbind, M_bind, gets, modify.
  cbn [x_length transfer_loop]. rewrite (proj2 (Z.ltb_lt _ _) Hs).
  rewrite (proj2 (Z.leb_gt _ _)) by lia. cbn. unfold mbind, M_bind, gets. cbn.
  change (Z.land WaitAll WaitAll =? 0)%Z with false. cbn.
  rewrite add_time_ok by (unfold clock, INT64_MIN, INT64_MAX in *; lia).
  rewrite Z.add_opp_r. destruct (Z.leb_spec (now - g_active g) limit); case_decide;
    first [lia | by rewrite (proj2 (Z.leb_gt _ _)) by lia | done].
Qed.

(** ** Connecting *)

(** The connection is still being made. *)
Definition pending (r : option Z) : Prop := r = Some EALREADY ∨ r = Some EINPROGRESS.
Definition connected (r : option Z) : Prop := r = None ∨ r = Some EISCONN.

(** Results in time after which the loop goes on. *)
Definition trying (limit t0 : Z) (c : Z * option Z) : Prop :=
  (c.1 - t0 ≤ limit)%Z ∧ pending c.2.

(** How a run of [Connect] that began at [t0] from [s], already in the state
    [Connecting], ends over [calls]. *)
Definition connect_explained (limit t0 : Z) (calls : list (Z * option Z)) (s : sock_state)
    (o : outcome csException sock_state bool) : Prop :=
  ∃ body, Forall (trying limit t0) body ∧
    match o with
    | Ok true s' => s' = on_this (set_state Connected) s ∧ ∃ t r rest,
        calls = body ++ (t, r) :: rest ∧ (t - t0 ≤ limit)%Z ∧ connected r
    | Ok false s' => s' = s ∧ calls = body
    | Throw e s' => s' = s ∧ ∃ t r rest, calls = body ++ (t, r) :: rest ∧
        if decide (limit < t - t0)%Z then e = csSocketTimeout_new
        else ∃ errno, r = Some errno ∧ ¬ pending r ∧ ¬ connected r ∧
          e = csException_int_str errno "connect"
    | Stuck _ => False
    end.

Lemma connected_done calls s :
  state (this s) = Connected → connect_loop calls s = Ok true s.
Proof. intros Hs. destruct calls; cbn; unfold mbind, M_bind, gets; by rewrite Hs. Qed.

Lemma connect_loop_explained calls s :
  state (this s) = Connecting → clock (tv_active (this s)) →
  Forall (λ c, clock c.1) calls →
  connect_explained (timeout (this s)) (tv_active (this s)) calls s (connect_loop calls s).
Proof.
  intros Hst Ht. induction calls as [|[t r] calls IH]; intros Hcl; cbn [connect_loop].
  { exists []. cbn. unfold mbind, M_bind, gets. by rewrite Hst. }
  apply Forall_cons in Hcl as [Hc Hcl]. cbn in Hc.
  unfold mbind, M_bind, gets. rewrite Hst, (bool_decide_eq_true_2 (Connecting = _)) by done. cbn.
  rewrite add_time_ok by (unfold clock, INT64_MIN, INT64_MAX in *; lia).
  rewrite Z.add_opp_r. destruct (Z.ltb_spec (timeout (this s)) (t - tv_active (this s))) as [Hl|Hl].
  { exists []. cbn. split_done. exists t, r, calls. by rewrite decide_True. }
  assert (∀ r', connected r' → connect_explained (timeout (this s)) (tv_active (this s))
    ((t, r') :: calls) s (connect_loop calls (on_this (set_state Connected) s))) as Hconn.
  { intros r' Hr. exists []. rewrite connected_done by done. cbn. split_done. by exists t, r', calls. }
  destruct r as [errno|]; cbn; [|apply Hconn; by left].
  destruct (Z.eqb_spec errno EISCONN) as [->|He1]; [apply Hconn; by right|].
  destruct (negb (errno =? EALREADY)%Z && negb (errno =? EINPROGRESS)%Z) eqn:Hp.
  { exists []. cbn. split_done. exists t, (Some errno), calls. rewrite decide_False by lia.
    split_done. exists errno. apply andb_prop in Hp as [H1%negb_true_iff H2%negb_true_iff].
    apply Z.eqb_neq in H1, H2. unfold pending, connected. split_done; naive_solver. }
  assert (trying (timeout (this s)) (tv_active (this s)) (t, Some errno)) as Htr.
  { split; [done|]. unfold pending; cbn.
    apply andb_false_iff in Hp as [H1%negb_false_iff|H1%negb_false_iff];
      apply Z.eqb_eq in H1 as ->; [by left|by right]. }
  destruct (IH Hcl) as (body & Hb & Ho). exists ((t, Some errno) :: body).
  split; [by constructor|].
  destruct (connect_loop calls s) as [[] s'|e s'|f]; [| | |done].
  - destruct Ho as (-> & t' & r' & rest & -> & Ho'). split_done. by exists t', r', rest.
  - by destruct Ho as (-> & ->).
  - destruct Ho as (-> & t' & r' & rest & -> & Ho'). split_done. by exists t', r', rest.
Qed.

(** C38. [Connect] of a fresh socket: it returns exactly when the connection was
    made in time, and is connected then; it throws when the system refuses or
    [timeout] seconds are over, and keeps trying else.  The state stays
    [Connecting] after an exception and with it the time of the first attempt,
    so once the time is over every later call throws at its first look at the
    clock, without trying to connect. *)
Theorem connect_outcomes now calls s :
  state (this s) = Init → clock now → Forall (λ c, clock c.1) calls →
  let s1 := on_this (set_state Connecting ∘ set_active now) s in
  connect_explained (timeout (this s)) now calls s1 (Connect now calls s) ∧
  ∀ now2 t r calls2, clock t → (timeout (this s) < t - now)%Z →
    Connect now2 ((t, r) :: calls2) s1 = Throw csSocketTimeout_new s1.
Proof.
  intros Hst Hn Hcl s1. split.
  - unfold Connect, mbind, M_bind, gets. rewrite Hst. cbn.
    by apply (connect_loop_explained calls s1).
  - intros now2 t r calls2 Ht Hl.
    change (connect_loop ((t, r) :: calls2) s1 = Throw csSocketTimeout_new s1).
    cbn [connect_loop]. unfold mbind, M_bind, gets.
    rewrite (bool_decide_eq_true_2 (state (this s1) = _)) by done. cbn.
    rewrite add_time_ok by (unfold clock, INT64_MIN, INT64_MAX in *; lia).
    rewrite Z.add_opp_r. by rewrite (proj2 (Z.ltb_lt _ _) Hl).
Qed.

Definition sample_connect : sock_state :=
  SockState (SetTimeout 5 (CsSocket 7 (SockAddr AF_INET (htons 80) 0) Init 0 0 0 0 0)) {[7%Z]} [].

Lemma connect_outcomes_witness :
  let s1 := on_this (set_state Connecting ∘ set_active 100) sample_connect in
  connect_explained 5 100 [(101, Some EINPROGRESS); (102, None)]%Z s1
    (Connect 100 [(101, Some EINPROGRESS); (102, None)]%Z sample_connect) ∧
  ∀ now2 t r calls2, clock t → (5 < t - 100)%Z →
    Connect now2 ((t, r) :: calls2) s1 = Throw csSocketTimeout_new s1.
Proof.
  apply (connect_outcomes 100 [(101, Some EINPROGRESS); (102, None)]%Z sample_connect).
  - done.
  - unfold clock, INT64_MAX. lia.
  - unfold clock, INT64_MAX. repeat constructor; cbn; lia.
Defined.

(** ** Descriptors *)

(** The system hands out a descriptor that is not open. *)
Definition fresh_fd (r : Z + Z) (open : gset Z) : Prop :=
  match r with inr d => (0 ≤ d)%Z ∧ d ∉ open | inl _ => True end.

(** After a constructor: an object in state [st] that owns exactly one more
    descriptor, which its destructor closes, or an exception and no more
    descriptors than before. *)
Definition owns_one (st : State) (s : sock_state) (o : outcome csException sock_state unit) : Prop :=
  match o with
  | Ok _ s' => state (this s') = st ∧ (0 ≤ sd (this s'))%Z ∧ sd (this s') ∉ fds s ∧
      fds s' = {[sd (this s')]} ∪ fds s ∧ shut s' = shut s ∧
      ∃ s2, csSocket_delete s' = Ok tt s2 ∧ fds s2 = fds s
  | Throw _ s' => fds s' = fds s ∧ shut s' = shut s
  | Stuck _ => False
  end.

Lemma open_close d (open : gset Z) : d ∉ open → ({[d]} ∪ open) ∖ {[d]} = open.
Proof. intros Hd. apply leibniz_equiv. set_solver. Qed.

(** [Close] of an object with an open descriptor. *)
Lemma Close_open s :
  (0 ≤ sd (this s))%Z →
  Close s = Ok tt (SockState (set_state Init (set_sd (-1) (this s)))
    (fds s ∖ {[sd (this s)]})
    (if decide (state (this s) = Connected) then shut s ++ [sd (this s)] else shut s)).
Proof.
  intros Hd. destruct s as [t f sh]. unfold Close, mbind, M_bind, gets. cbn in *.
  rewrite (proj2 (Z.leb_le _ _) Hd). cbn. case_decide as Hs.
  - by rewrite bool_decide_eq_true_2.
  - by rewrite bool_decide_eq_false_2.
Qed.

(** The base class with a new descriptor. *)
Definition fresh_socket (g : garbage) (d : Z) (s : sock_state) : sock_state :=
  SockState (CsSocket d (SockAddr 0 0 0) Init 0 0 (g_active g) (g_read g) (g_wrote g))
    ({[d]} ∪ fds s) (shut s).

Lemma csSocket_new_ok g d s : csSocket_new g (inr d) s = Ok tt (fresh_socket g d s).
Proof. by destruct s. Qed.

(** What the body of a derived constructor may change. *)
Definition keeps (s : sock_state) (st : State) (s' : sock_state) : Prop :=
  state (this s') = st ∧ sd (this s') = sd (this s) ∧ fds s' = fds s ∧ shut s' = shut s.

Lemma constructed st body g d s :
  (0 ≤ d)%Z → d ∉ fds s → st ≠ Connected →
  wp body (λ _, keeps (fresh_socket g d s) st) (λ _, keeps (fresh_socket g d s) Init)
    (fresh_socket g d s) →
  owns_one st s (derived body (fresh_socket g d s)).
Proof.
  intros Hd Hnin Hst Hb. unfold owns_one, derived, try_catch. unfold wp in Hb.
  destruct (body _) as [[] s'|e s'|f]; [| |done]; destruct Hb as (Hst' & Hsd & Hf & Hsh);
    cbn in Hsd, Hf, Hsh.
  - rewrite Hsd, Hf. split_done. unfold csSocket_delete.
    rewrite Close_open by (rewrite Hsd; done). eexists. split; [done|]. cbn.
    by rewrite Hsd, Hf, open_close.
  - unfold mbind, M_bind, csSocket_delete. rewrite Close_open by (rewrite Hsd; done). cbn.
    rewrite Hst', decide_False by done. by rewrite Hsd, Hf, Hsh, open_close.
Qed.

Lemma accept_address_wp env addr s :
  fresh_fd (ae_socket_ifr env) (fds s) →
  wp (accept_address env addr)
    (λ _, keeps s (state (this s))) (λ _, keeps s (state (this s))) s.
Proof.
  intros Hf. unfold accept_address, keeps. case_match; [by wp_steps|].
  destruct (ae_socket_ifr env) as [e|d]; [by wp_steps|]. destruct Hf as [_ Hd].
  wp_steps. destruct (ae_SIOCGIFADDR env _); wp_steps.
  - cbn. by rewrite open_close.
  - destruct (ae_getaddrinfo env addr); wp_steps; cbn; by rewrite open_close.
Qed.

(** C39. Descriptors are balanced: the constructors of the accepting and of the
    connecting socket either make an object that owns exactly one new
    descriptor, which its destructor closes, or throw and leave no descriptor
    open, whichever of the system's calls fails; and [Close] works once: a
    second one does nothing.  Only the base class shuts a connection down:
    [csSocketConnect::Close] forgets the state first, so closing a connected
    socket by that call never does what destroying it does. *)
Theorem descriptors_balanced g s :
  (∀ env addr port, fresh_fd (ae_socket env) (fds s) →
    (∀ d, ae_socket env = inr d → fresh_fd (ae_socket_ifr env) ({[d]} ∪ fds s)) →
    owns_one Accepting s (csSocketAccept_new g env addr port s)) ∧
  (∀ socket gai host port, fresh_fd socket (fds s) →
    owns_one Init s (csSocketConnect_new g socket gai host port s)) ∧
  ((0 ≤ sd (this s))%Z → state (this s) = Connected → ∃ s1 s2,
    csSocketConnect_Close s = Ok tt s1 ∧ csSocket_delete s = Ok tt s2 ∧
    fds s1 = fds s ∖ {[sd (this s)]} ∧ fds s2 = fds s1 ∧
    shut s1 = shut s ∧ shut s2 = shut s ++ [sd (this s)] ∧
    Close s1 = Ok tt s1 ∧ Close s2 = Ok tt s2).
Proof.
  split_and!.
  - intros env addr port Hso Hifr. unfold csSocketAccept_new.
    destruct (ae_socket env) as [e|d]; [by destruct s|]. destruct Hso as [Hd Hnin].
    erewrite bind_ok by apply csSocket_new_ok. apply (constructed Accepting); [done..|].
    wp_steps. eapply wp_mono.
    + apply accept_address_wp. by apply Hifr.
    + cbn. intros _ s' (Hs & Hsd & Hf & Hsh). unfold must.
      destruct (ae_setsockopt env), (ae_bind env), (ae_listen env); wp_steps; cbn; split_done;
        by rewrite Hs.
    + cbn. intros _ s' (Hs & Hsd & Hf & Hsh). split_done.
  - intros so gai host port Hso. unfold csSocketConnect_new.
    destruct so as [e|d]; [by destruct s|]. destruct Hso as [Hd Hnin].
    erewrite bind_ok by apply csSocket_new_ok. apply (constructed Init); [done..|].
    destruct (gai host); by wp_steps.
  - intros Hd Hc. unfold csSocketConnect_Close, csSocket_delete, mbind, M_bind, modify.
    rewrite !Close_open by done. cbn. rewrite Hc. cbn. eexists _, _. split_done.
Qed.

Lemma descriptors_balanced_witness :
  let env := AcceptEnv (inr 7%Z) (inr 8%Z) (λ _, None) (λ _, inr 1%Z) None None (Some 98%Z) in
  let s := SockState (set_state Connected (set_sd 3 (csSocket_accepted (Garbage 0 0 0) 3
    (SockAddr AF_INET 1 1)))) {[3%Z]} [] in
  fds s = {[3%Z]} ∧
  owns_one Accepting s (csSocketAccept_new (Garbage 0 0 0) env "eth0" 80 s) ∧
  ∃ s1 s2, csSocketConnect_Close s = Ok tt s1 ∧ csSocket_delete s = Ok tt s2 ∧
    fds s1 = fds s ∖ {[3%Z]} ∧ fds s2 = fds s1 ∧ shut s1 = [] ∧ shut s2 = [3%Z] ∧
    Close s1 = Ok tt s1 ∧ Close s2 = Ok tt s2.
Proof.
  intros env s. split; [done|split].
  - apply (descriptors_balanced (Garbage 0 0 0) s).
    + split; [lia|]. set_solver.
    + intros d [= <-]. split; [lia|]. set_solver.
  - by apply (descriptors_balanced (Garbage 0 0 0) s).
Defined.
