(* ===== verification/Netlink.v ===== *)
(** * Netlink (csnetlink.cpp, csnetlink.h)

    Netlink events collect copies of the kernel's messages; the netlink thread
    keeps the events that clients registered with it and hands each message of
    a datagram to the events that wait for it.  Message headers are read from
    the bytes of the receive buffer. *)

From S2P Require Import Prelude Exception Bytes Event.

(** ** Messages in a buffer (linux/netlink.h, linux/rtnetlink.h) *)

Record nlmsghdr := NlMsgHdr {
  nlmsg_len : Z;      (* __u32 *)
  nlmsg_type : Z;     (* __u16 *)
  nlmsg_flags : Z;    (* __u16 *)
  nlmsg_seq : Z;      (* __u32 *)
  nlmsg_pid : Z;      (* __u32 *)
}.

(** [sizeof(struct nlmsghdr)] *)
Definition NLMSG_HDRLEN : nat := 16.

Definition field (off n : nat) (buf : list byte) : Z := le_val (take n (drop off buf)).

Definition header (off : nat) (buf : list byte) : nlmsghdr :=
  NlMsgHdr (field off 4 buf) (field (off + 4) 2 buf) (field (off + 6) 2 buf)
    (field (off + 8) 4 buf) (field (off + 12) 4 buf).

(** Unsigned 32-bit arithmetic. *)
Definition NLMSG_LENGTH (len : Z) : Z := ((len + Z.of_nat NLMSG_HDRLEN) mod 2 ^ 32)%Z.
Definition NLMSG_ALIGN (len : Z) : Z := Z.land ((len + 3) mod 2 ^ 32) (2 ^ 32 - 4).

Definition NLMSG_NOOP : Z := 1.
Definition NLMSG_ERROR : Z := 2.
Definition NLMSG_DONE : Z := 3.
Definition NLMSG_OVERRUN : Z := 4.
Definition RTM_GETLINK : Z := 18.
Definition RTM_GETADDR : Z := 22.
Definition RTM_NEWROUTE : Z := 24.
Definition RTM_DELROUTE : Z := 25.
Definition RTM_GETROUTE : Z := 26.
Definition RTM_GETNEIGH : Z := 30.
Definition RTM_GETRULE : Z := 34.
Definition RTM_GETQDISC : Z := 38.
Definition RTM_GETTCLASS : Z := 42.
Definition RTM_GETTFILTER : Z := 46.
Definition NLM_F_REQUEST : Z := 1.
Definition NLM_F_MULTI : Z := 2.
Definition NLM_F_DUMP : Z := 0x300.

(** ** The thread's state *)

Record nl_request := NlRequest {
  req_type : Z;
  req_flags : Z;
  req_seq : Z;
}.

Record netlink_state := NetlinkState {
  nl_world : world;
  nl_clients : list Z;           (* its vector event_client *)
  nl_seq : Z;                    (* uint32_t *)
  nl_buffer : list byte;
  nl_sent : list nl_request;     (* requests given to sendmsg *)
}.

Definition set_nl_world (w : world) (s : netlink_state) : netlink_state :=
  NetlinkState w (nl_clients s) (nl_seq s) (nl_buffer s) (nl_sent s).
Definition set_nl_clients (l : list Z) (s : netlink_state) : netlink_state :=
  NetlinkState (nl_world s) l (nl_seq s) (nl_buffer s) (nl_sent s).
Definition set_nl_seq (n : Z) (s : netlink_state) : netlink_state :=
  NetlinkState (nl_world s) (nl_clients s) n (nl_buffer s) (nl_sent s).
Definition set_nl_buffer (b : list byte) (s : netlink_state) : netlink_state :=
  NetlinkState (nl_world s) (nl_clients s) (nl_seq s) b (nl_sent s).
Definition set_nl_sent (l : list nl_request) (s : netlink_state) : netlink_state :=
  NetlinkState (nl_world s) (nl_clients s) (nl_seq s) (nl_buffer s) l.

Abbreviation on_net m := (zoom nl_world set_nl_world m).

(** ** Netlink events *)

Record nl_event := NlEvent {
  e_type : NetlinkType;
  e_query : Z;
  e_seq : Z;
  e_reply : list (list byte);
}.

(** Access through a [csEventNetlink *]. *)
Definition nl_load (p : Z) : prog world nl_event :=
  e ← ev_load p;
  match ev_class e with
  | EvNetlink t q s r => mret (NlEvent t q s r)
  | _ => stuck OutOfBounds
  end.

Definition nl_store (p : Z) (n : nl_event) : prog world unit :=
  e ← ev_load p;
  ev_store p (set_class (EvNetlink (e_type n) (e_query n) (e_seq n) (e_reply n)) e).

Definition SetSequence (p seq : Z) : prog world unit :=
  n ← nl_load p; nl_store p (NlEvent (e_type n) (e_query n) seq (e_reply n)).

(** The replies' own mutex is free between the operations, which lock and
    unlock it in pairs. *)
Definition push_reply (p : Z) (copy : list byte) : prog world unit :=
  n ← nl_load p;
  nl_store p (NlEvent (e_type n) (e_query n) (e_seq n) (e_reply n ++ [copy])).

Definition GetReply (p : Z) : prog world (option (list byte)) :=
  n ← nl_load p;
  match e_reply n with
  | [] => mret None
  | nh :: rest => nl_store p (NlEvent (e_type n) (e_query n) (e_seq n) rest);; mret (Some nh)
  end.

(** [memcpy(_nh, nh, NLMSG_LENGTH(nh->nlmsg_len))] from the buffer. *)
Definition nlmsg_copy (off : nat) : prog netlink_state (list byte) :=
  buf ← gets nl_buffer;
  let length := Z.to_nat (NLMSG_LENGTH (nlmsg_len (header off buf))) in
  if (List.length buf <? off + length)%nat then stuck OutOfBounds
  else mret (take length (drop off buf)).

Definition AddReply (p : Z) (nh : nat) : prog netlink_state unit :=
  copy ← nlmsg_copy nh; on_net (push_reply p copy).

(** ** Routing one message *)

(** The dispatch of a registered event to its own target. *)
Definition dispatch_back (this p : Z) : prog netlink_state unit :=
  on_net (e ← ev_load p; EventDispatch this p (GetTarget e)).

Definition is_query (t : NetlinkType) : bool :=
  match t with NL_Query => true | NL_RouteWatch => false end.

Definition watch_reply (this : Z) (nh : nat) (p : Z) : prog netlink_state unit :=
  n ← on_net (nl_load p);
  if is_query (e_type n) then mret tt
  else AddReply p nh;; dispatch_back this p.

(** Whether the reply to a query is its last. *)
Definition final (h : nlmsghdr) : bool :=
  if (nlmsg_type h =? NLMSG_DONE)%Z || (nlmsg_type h =? NLMSG_ERROR)%Z ||
     (nlmsg_type h =? NLMSG_OVERRUN)%Z
  then true else (Z.land (nlmsg_flags h) NLM_F_MULTI =? 0)%Z.

(** The second loop: [i] is the index of the first of [l]. *)
Fixpoint query_reply (this : Z) (nh : nat) (h : nlmsghdr) (i : nat) (l : list Z) :
    prog netlink_state unit :=
  match l with
  | [] => mret tt
  | p :: l =>
      n ← on_net (nl_load p);
      if negb (is_query (e_type n)) then query_reply this nh h (S i) l
      else if negb (e_seq n =? nlmsg_seq h)%Z then query_reply this nh h (S i) l
      else
        AddReply p nh;;
        dispatch_back this p;;
        when (final h) (modify (λ s, set_nl_clients (delete i (nl_clients s)) s))
  end.

Definition SendNetlinkReply (this : Z) (nh : nat) : prog netlink_state unit :=
  buf ← gets nl_buffer;
  let h := header nh buf in
  l ← gets nl_clients;
  if (nlmsg_type h =? RTM_NEWROUTE)%Z || (nlmsg_type h =? RTM_DELROUTE)%Z
  then foreach l (watch_reply this nh)
  else if (nlmsg_type h =? NLMSG_NOOP)%Z then mret tt
  else query_reply this nh h 0 l.

(** [NLMSG_OK] *)
Definition nlmsg_ok (h : nlmsghdr) (length : Z) : bool :=
  (16 <=? length)%Z && (16 <=? nlmsg_len h)%Z && (nlmsg_len h <=? length)%Z.

(** The loop of [ProcessNetlinkMessage]: every message takes sixteen bytes or
    more, so a fuel of the datagram's length is enough. *)
Fixpoint process_loop (fuel : nat) (this : Z) (nh : nat) (length : Z) :
    prog netlink_state unit :=
  buf ← gets nl_buffer;
  let h := header nh buf in
  if negb (nlmsg_ok h length) then mret tt
  else match fuel with
  | O => stuck OutOfFuel
  | S fuel =>
      SendNetlinkReply this nh;;
      process_loop fuel this (nh + Z.to_nat (NLMSG_ALIGN (nlmsg_len h)))
        (length - NLMSG_ALIGN (nlmsg_len h))
  end.

Definition ProcessNetlinkMessage (this : Z) (length : nat) : prog netlink_state unit :=
  process_loop length this 0 (Z.of_nat length).

(** ** Requests *)

Definition valid_query (q : Z) : bool :=
  bool_decide (q ∈ [RTM_GETLINK; RTM_GETADDR; RTM_GETROUTE; RTM_GETNEIGH; RTM_GETRULE;
    RTM_GETQDISC; RTM_GETTCLASS; RTM_GETTFILTER]).

(** [time] is what the clock shows; the result of [sendmsg] is only logged. *)
Definition SendNetlinkQuery (time p : Z) : prog netlink_state unit :=
  n ← on_net (nl_load p);
  if negb (valid_query (e_query n)) then mret tt
  else
    modify (λ s, set_nl_seq ((nl_seq s + 1) mod 2 ^ 32) s);;
    s ← gets nl_seq;
    when (time - 3600 * 24 <=? s)%Z (modify (set_nl_seq 1));;
    s ← gets nl_seq;
    on_net (SetSequence p s);;
    modify (λ st, set_nl_sent (nl_sent st ++
      [NlRequest (e_query n) (Z.lor NLM_F_REQUEST NLM_F_DUMP) s]) st).

Definition ProcessEvent (time p : Z) : prog netlink_state unit :=
  n ← on_net (nl_load p);
  match e_type n with
  | NL_Query => SendNetlinkQuery time p
  | NL_RouteWatch => mret tt
  end;;
  e ← on_net (ev_load p);
  on_net (ev_store p (SetTarget (GetSource e) (SetSource (GetTarget e) e)));;
  modify (λ s, set_nl_clients (nl_clients s ++ [p]) s).

(** ** The thread *)

(** What [recvmsg] gives: [errno], or a datagram. *)
Inductive recv_result := RecvFailed (errno : Z) | Datagram (bytes : list byte).

(** One round of [Entry]; whether the thread ends.  [EventPopWait] is taken to
    time out when its queue is empty. *)
Definition netlink_round (this time : Z) (r : recv_result) : prog netlink_state bool :=
  match r with
  | RecvFailed errno =>
      if negb (errno =? EAGAIN)%Z then mret true
      else
        event ← on_net (EventPop this);
        if (event =? CS_EVENT_NONE)%Z then mret false
        else
          e ← on_net (ev_load event);
          if (GetId e =? csEVENT_QUIT)%Z then on_net (EventDestroy event);; mret true
          else if (GetId e =? csEVENT_NETLINK)%Z then ProcessEvent time event;; mret false
          else on_net (EventDestroy event);; mret false
  | Datagram bytes =>
      modify (λ s, set_nl_buffer (overwrite 0 bytes (nl_buffer s)) s);;
      ProcessNetlinkMessage this (List.length bytes);;
      mret false
  end.

(** [Entry] on the results of its calls of [recvmsg] and of the clock. *)
Fixpoint netlink_entry (this : Z) (results : list (recv_result * Z)) : prog netlink_state bool :=
  match results with
  | [] => mret false
  | (r, time) :: results =>
      quit ← netlink_round this time r;
      if (quit : bool) then mret true else netlink_entry this results
  end.

(** ** Construction and destruction *)

(** The members the constructor sets, the static instance, and the open
    descriptors of the process. *)
Record netlink_object := NetlinkObject {
  fd_netlink : Z;
  nl_pages : option nat;         (* nl_buffer and its size, or NULL *)
}.

Record netlink_static := NetlinkStatic {
  nl_instance : Z;               (* static csThreadNetlink * *)
  nl_objects : gmap Z netlink_object;
  nl_fds : gset Z;
}.

Definition set_nl_instance (i : Z) (s : netlink_static) : netlink_static :=
  NetlinkStatic i (nl_objects s) (nl_fds s).
Definition set_nl_objects (o : gmap Z netlink_object) (s : netlink_static) : netlink_static :=
  NetlinkStatic (nl_instance s) o (nl_fds s).
Definition set_nl_fds (f : gset Z) (s : netlink_static) : netlink_static :=
  NetlinkStatic (nl_instance s) (nl_objects s) f.

(** The constructor, after [csThread()]: [socket] is the descriptor or -1,
    [bind] 0 or -1; both errors are logged only. *)
Definition csThreadNetlink_new (this socket bind : Z) (page_size : nat) :
    prog netlink_static unit :=
  i ← gets nl_instance;
  if negb (i =? NULL)%Z then throw (csException_int_str EEXIST "csThreadNetlink")
  else
    let put o := modify (λ s, set_nl_objects (<[this := o]> (nl_objects s)) s) in
    modify (set_nl_instance this);;
    if (socket =? -1)%Z then put (NetlinkObject (-1) None)
    else
      modify (λ s, set_nl_fds ({[socket]} ∪ nl_fds s) s);;
      if (bind =? -1)%Z then put (NetlinkObject socket None)
      else put (NetlinkObject socket (Some page_size)).

(** The destructor, after [Join()]. *)
Definition csThreadNetlink_delete (this : Z) : prog netlink_static unit := λ s,
  match nl_objects s !! this with
  | None => Stuck (UseAfterFree this)
  | Some o =>
      let s' := set_nl_objects (delete this (nl_objects s)) s in
      if negb (nl_instance s =? this)%Z then Ok tt s'
      else if negb (fd_netlink o =? -1)%Z
      then Ok tt (set_nl_fds (nl_fds s ∖ {[fd_netlink o]}) s')
      else Ok tt s'
  end.
