(* ===== verification/NetlinkProps.v ===== *)
(** * Netlink: routing of replies

    Which registered events a message reaches, what they collect, what happens
    to events that their receiver destroys, and the end of the thread. *)

From S2P Require Import Prelude Exception Bytes Event EventInv EventOps EventProps Bus Netlink.

(** ** Dispatching an event that persists *)

(** The parts of an event that dispatching it leaves alone. *)
Definition payload (e : csEvent) : Z * Z * Z * csEventClass :=
  (ev_id e, ev_flags e, ev_user_data e, ev_class e).

(** Every event that persists lives on with its payload, and its target except
    for the event that is dispatched. *)
Definition persists (w w' : world) (p dst : Z) : Prop :=
  ∀ x ex, heap w !! x = Some ex → IsPersistent ex = true →
    ∃ ex', heap w' !! x = Some ex' ∧ payload ex' = payload ex ∧
      GetTarget ex' = if decide (x = p) then dst else GetTarget ex.

Definition keeps_queued (w w' : world) : Prop :=
  ∀ c x, x ∈ queue_of w c → x ∈ queue_of w' c.

Lemma push_persistent w H this cl p src e :
  core w H → clients w !! this = Some cl → heap w !! p = Some e → IsPersistent e = true →
  ∃ w', EventPush this p src w = Ok tt w' ∧ push_post w H this p src e w' ∧
    persists w w' p (GetTarget e) ∧ (event_enable cl = true → p ∈ queue_of w' this) ∧
    (IsExclusive e = false → keeps_queued w w').
Proof.
  intros Hw Hcl Hp Hper.
  destruct (EventPush_ok w H this cl p src e) as (w' & Hrun & Hpost); [done..|congruence|].
  exists w'. do 2 (split; [done|]). destruct (event_enable cl) eqn:Hen.
  - destruct (EventPush_run w this cl p src e) as (q' & h' & Hsc & Hrun'); try done.
    { by apply (core_qmutex _ _ Hw this). }
    { intros x Hx. destruct (core_live w H this cl x) as [ex Hex]; eauto. }
    { congruence. }
    rewrite Hrun in Hrun'. simplify_eq. split_and!.
    + intros x e1 Hx Hpx. cbn. case_decide as Hxp.
      { subst x. rewrite lookup_insert_eq. simplify_eq. by eexists. }
      rewrite lookup_insert_ne by done. exists e1. split_done.
      destruct (scanned_if_cnt _ _ _ _ _ _ Hsc) as [[_ ->]|(v & ev & Hv & _ & -> & _)]; [done|].
      unfold destroyed. destruct (IsPersistent ev) eqn:Hpv; [done|].
      rewrite lookup_delete_ne; [done|]. intros ->. congruence.
    + intros _. unfold queue_of. cbn. rewrite lookup_insert_eq. cbn.
      unfold insert_event. case_match; set_solver.
    + intros Hex c x. unfold scanned_if in Hsc. rewrite Hex in Hsc. destruct Hsc as [-> ->].
      unfold queue_of. cbn. destruct (decide (c = this)) as [->|Hne].
      * rewrite Hcl, lookup_insert_eq. cbn. unfold insert_event. case_match; set_solver.
      * by rewrite lookup_insert_ne.
  - unfold EventPush, mbind, M_bind, client_get in Hrun. rewrite Hcl, Hen in Hrun.
    simpl in Hrun. rewrite (EventDestroy_run w p e) in Hrun by done. simplify_eq.
    split_and!; [|done|by intros _ c x]. intros x e1 Hx Hpx. exists e1. cbn. unfold destroyed. rewrite Hper.
    split_done. case_decide; congruence.
Qed.

Lemma dispatch_persistent w H this p dst e :
  wf w H → event_client w ≠ [] → dst ≠ CS_EVENT_BROADCAST →
  heap w !! p = Some e → IsPersistent e = true →
  ∃ w', EventDispatch this p dst w = Ok tt w' ∧ wf w' H ∧ frame w w' ∧
    persists w w' p dst ∧ (IsExclusive e = false → keeps_queued w w') ∧
    ∀ cl, clients w !! dst = Some cl → event_enable cl = true → p ∈ queue_of w' dst.
Proof.
  intros Hwf Hne Hdst Hp Hper.
  destruct (wp_inv _ _ _ (wp_EventDispatch w H this p dst e Hwf Hne Hdst Hp ltac:(congruence)))
    as ([] & w' & Hrun & Hpost).
  assert (H ∖ {[p]} = H) as HH.
  { pose proof (core_own _ _ (proj1 Hwf) p) as Ho. rewrite Hp in Ho. cbn in Ho.
    rewrite Hper in Ho. unfold held in Ho. case_decide; [lia|].
    apply leibniz_equiv. set_solver. }
  exists w'. split; [done|]. split; [rewrite <-HH; apply Hpost|]. split; [apply Hpost|].
  pose proof (wf_lock w H Hwf Hne) as Hfree.
  set (w1 := set_heap (<[p := SetTarget dst e]> (heap w)) (set_client_mutex MHeld w)).
  assert (core w1 H) as Hw1.
  { apply (core_store (set_client_mutex MHeld w) H p e (SetTarget dst e)); try done.
    by apply core_set_client_mutex, Hwf. }
  assert (heap w1 !! p = Some (SetTarget dst e)) as Hp1 by apply lookup_insert_eq.
  assert (∀ w2, persists w1 w2 p dst → persists w (set_client_mutex MFree w2) p dst) as Hstep.
  { intros w2 Hper2 x ex Hx Hpx. destruct (decide (x = p)) as [->|Hne'].
    - simplify_eq. destruct (Hper2 p (SetTarget dst e)) as (e' & ? & ? & ?); [done..|].
      rewrite decide_True in * by done. by exists e'.
    - destruct (Hper2 x ex) as (e' & ? & ? & Ht); [by cbn; rewrite lookup_insert_ne|done|].
      rewrite decide_False in * by done. by exists e'. }
  unfold EventDispatch, lock_clients, unlock_clients, mutex_lock, ev_load, ev_store, gets,
    mbind, M_bind in Hrun.
  rewrite Hfree in Hrun. cbn in Hrun. rewrite Hp in Hrun. cbn in Hrun. rewrite Hp in Hrun.
  cbn in Hrun. rewrite lookup_insert_eq in Hrun. cbn in Hrun.
  rewrite (proj2 (Z.eqb_neq _ _) Hdst) in Hrun. fold w1 in Hrun.
  case_bool_decide as Hin.
  - destruct (proj1 (core_dom _ _ (proj1 Hwf) dst) Hin) as [cl Hcl].
    destruct (push_persistent w1 H dst cl p this (SetTarget dst e))
      as (w2 & Hrun2 & Hpost2 & Hk & Hq & Hkq); [done..|].
    rewrite Hrun2 in Hrun. unfold mutex_unlock in Hrun.
    rewrite (frame_mutex _ _ (push_frame _ _ _ _ _ _ _ Hpost2)) in Hrun. cbn in Hrun. simplify_eq.
    split; [by apply Hstep|]. split; [done|]. intros cl' Hcl' Hen. simplify_eq. by apply Hq.
  - rewrite (EventDestroy_run w1 p (SetTarget dst e)) in Hrun by done. cbn in Hrun. simplify_eq.
    split_and!.
    + apply Hstep. intros x ex Hx Hpx. exists ex. unfold destroyed. cbn.
      change (IsPersistent (SetTarget dst e)) with (IsPersistent e). rewrite Hper.
      split_done. case_decide as Hxp; [subst x|done]. rewrite Hp1 in Hx. by simplify_eq.
    + by intros _ c x.
    + intros cl Hcl. destruct Hin. apply (proj1 Hwf). eauto.
Qed.

(** ** What handing out replies does to the events *)

Definition add_replies (l : list (list byte)) (c : csEventClass) : csEventClass :=
  match c with
  | EvNetlink t q s r => EvNetlink t q s (r ++ l)
  | c => c
  end.

Lemma add_replies_app l1 l2 c : add_replies l2 (add_replies l1 c) = add_replies (l1 ++ l2) c.
Proof. destruct c; cbn; [done..|]. by rewrite <-app_assoc. Qed.

(** An event after the replies [l] were added to it and it was dispatched to
    its target any number of times. *)
Definition grown_event (l : list (list byte)) (e e' : csEvent) : Prop :=
  payload e' = payload (set_class (add_replies l (ev_class e)) e) ∧ GetTarget e' = GetTarget e.

Definition accepts (w : world) (c : Z) : Prop :=
  ∃ cl, clients w !! c = Some cl ∧ event_enable cl = true.

(** From [w] to [w'] the persistent event at each [x] got the replies [f x]
    and, if there are any, is in the queue of its target. *)
Record answered (H : gset Z) (f : Z → list (list byte)) (w w' : world) : Prop := Answered {
  an_wf : wf w' H;
  an_frame : frame w w';
  an_keeps : keeps_queued w w';
  an_grown : ∀ x e, heap w !! x = Some e → IsPersistent e = true →
    ∃ e', heap w' !! x = Some e' ∧ grown_event (f x) e e';
  an_queued : ∀ x e, heap w !! x = Some e → IsPersistent e = true → f x ≠ [] →
    accepts w (GetTarget e) → x ∈ queue_of w' (GetTarget e);
}.

Lemma payload_flags e e' : payload e' = payload e → ev_flags e' = ev_flags e.
Proof. unfold payload. congruence. Qed.

Lemma grown_persistent l e e' : grown_event l e e' → IsPersistent e' = IsPersistent e.
Proof. intros [Hp%payload_flags _]. unfold IsPersistent. by rewrite Hp. Qed.

Lemma grown_trans l1 l2 e e1 e2 :
  grown_event l1 e e1 → grown_event l2 e1 e2 → grown_event (l1 ++ l2) e e2.
Proof.
  intros [Hp1 Ht1] [Hp2 Ht2]. split; [|by rewrite Ht2].
  rewrite Hp2. unfold payload in *. cbn in *. simplify_eq. f_equal; [congruence|].
  match goal with Hc : ev_class e1 = _ |- _ => rewrite Hc end. apply add_replies_app.
Qed.

Lemma accepts_frame w w' c : frame w w' → accepts w c → accepts w' c.
Proof.
  intros Hf (cl & Hcl & Hen). destruct (frame_client w w' c cl Hf Hcl) as (cl' & Hcl' & Hen' & _).
  exists cl'. by rewrite Hen'.
Qed.

Lemma answered_refl H w : wf w H → answered H (λ _, []) w w.
Proof.
  intros Hw. split; [done|reflexivity|by intros c x| |done].
  intros x e Hx _. exists e. split; [done|]. split; [|done]. unfold payload. cbn.
  destruct (ev_class e); cbn; by rewrite ?app_nil_r.
Qed.

Lemma answered_ext H f g w w' : (∀ x, f x = g x) → answered H f w w' → answered H g w w'.
Proof.
  intros Hfg [Hw Hf Hk Hg Hq]. split; [done..| |].
  - intros x e Hx Hp. rewrite <-Hfg. by apply Hg.
  - intros x e Hx Hp. rewrite <-Hfg. by apply Hq.
Qed.

Lemma answered_trans H f g w w1 w2 :
  answered H f w w1 → answered H g w1 w2 → answered H (λ x, f x ++ g x) w w2.
Proof.
  intros [Hw1 Hf1 Hk1 Hg1 Hq1] [Hw2 Hf2 Hk2 Hg2 Hq2]. split; [done|by etrans| | |].
  - intros c x Hx. by apply Hk2, Hk1.
  - intros x e Hx Hp. destruct (Hg1 x e Hx Hp) as (e1 & Hx1 & He1).
    destruct (Hg2 x e1 Hx1) as (e2 & Hx2 & He2); [by rewrite (grown_persistent _ _ _ He1)|].
    exists e2. split; [done|]. by eapply grown_trans.
  - intros x e Hx Hp Hne Hacc. destruct (Hg1 x e Hx Hp) as (e1 & Hx1 & He1).
    destruct (decide (f x = [])) as [Hf|Hf]; [|by apply Hk2, Hq1].
    pose proof (proj2 He1) as Ht1. rewrite <-Ht1. apply Hq2; [done| | |].
    + by rewrite (grown_persistent (f x) e e1).
    + rewrite Hf in Hne. done.
    + rewrite Ht1. by eapply accepts_frame.
Qed.

(** An event the netlink thread may keep: it persists, and it goes back to one
    client. *)
Definition keepable (w : world) (p : Z) (n : nl_event) : Prop :=
  ∃ e, heap w !! p = Some e ∧ IsPersistent e = true ∧ IsExclusive e = false ∧
    GetTarget e ≠ CS_EVENT_BROADCAST ∧
    ev_class e = EvNetlink (e_type n) (e_query n) (e_seq n) (e_reply n).

Lemma keepable_load w p n : keepable w p n → nl_load p w = Ok n w.
Proof.
  intros (e & Hp & _ & _ & _ & Hc). unfold nl_load, mbind, M_bind, ev_load.
  rewrite Hp, Hc. by destruct n.
Qed.

Definition with_replies (l : list (list byte)) (n : nl_event) : nl_event :=
  NlEvent (e_type n) (e_query n) (e_seq n) (e_reply n ++ l).

Lemma keepable_answered H f w w' p n :
  answered H f w w' → keepable w p n → keepable w' p (with_replies (f p) n).
Proof.
  intros Han (e & Hp & Hper & Hex & Ht & Hc).
  destruct (an_grown _ _ _ _ Han p e Hp Hper) as (e' & Hp' & Hpay & Ht').
  exists e'. split; [done|]. unfold payload in Hpay. cbn in Hpay. rewrite Hc in Hpay. cbn in Hpay.
  injection Hpay as _ Hfl _ Hcl. unfold IsPersistent, IsExclusive in *.
  rewrite Hfl, Ht', Hcl. by split_done.
Qed.

Lemma push_reply_run w p n copy e :
  heap w !! p = Some e →
  ev_class e = EvNetlink (e_type n) (e_query n) (e_seq n) (e_reply n) →
  push_reply p copy w =
    Ok tt (set_heap (<[p := set_class (add_replies [copy] (ev_class e)) e]> (heap w)) w).
Proof.
  intros Hp Hc. unfold push_reply, nl_load, nl_store, mbind, M_bind, ev_load, ev_store.
  rewrite Hp, Hc. cbn. rewrite Hp. by rewrite Hp.
Qed.

(** Adding a reply to an event and dispatching it back. *)
Lemma answer_world H this w p n copy :
  wf w H → event_client w ≠ [] → keepable w p n →
  ∃ w', (push_reply p copy;; e ← ev_load p; EventDispatch this p (GetTarget e)) w = Ok tt w' ∧
    answered H (λ x, if decide (x = p) then [copy] else []) w w'.
Proof.
  intros Hw Hne (e & Hp & Hper & Hex & Ht & Hc).
  set (e1 := set_class (add_replies [copy] (ev_class e)) e).
  set (w1 := set_heap (<[p := e1]> (heap w)) w).
  assert (wf w1 H) as Hw1 by (split; [by apply (core_store w H p e e1); [apply Hw|..]|apply Hw]).
  assert (heap w1 !! p = Some e1) as Hp1 by apply lookup_insert_eq.
  destruct (dispatch_persistent w1 H this p (GetTarget e) e1)
    as (w2 & Hrun & Hw2 & Hf & Hk & Hkq & Hq); [done..|].
  exists w2. split.
  { erewrite bind_ok by by eapply push_reply_run. fold e1 w1.
    unfold mbind, M_bind, ev_load. by rewrite Hp1. }
  split; [done| | | |].
  - destruct Hf; by split.
  - intros c x. apply (Hkq Hex c x).
  - intros x ex Hx Hpx. case_decide as Hxp.
    + subst x. assert (ex = e) as -> by congruence.
      destruct (Hk p e1) as (e' & ? & ? & Ht'); [done..|]. rewrite decide_True in Ht' by done.
      exists e'. by split.
    + destruct (Hk x ex) as (e' & ? & Hpay & Ht'); [by cbn; rewrite lookup_insert_ne|done|].
      rewrite decide_False in Ht' by done. exists e'. split; [done|]. split; [|done].
      rewrite Hpay. unfold payload. cbn. destruct (ev_class ex); cbn; by rewrite ?app_nil_r.
  - intros x ex Hx Hpx. case_decide as Hxp; [|done]. subst x.
    assert (ex = e) as -> by congruence. intros _ (cl & Hcl & Hen). by apply (Hq cl).
Qed.

(** ** Routing one message *)

Section routing.
(** The event at each address, as far as routing looks at it. *)
Context (k : Z → nl_event).

Definition watches (p : Z) : Prop := is_query (e_type (k p)) = false.
Definition asked (h : nlmsghdr) (p : Z) : Prop :=
  is_query (e_type (k p)) = true ∧ e_seq (k p) = nlmsg_seq h.

#[export] Instance watches_dec p : Decision (watches p).
Proof. unfold watches. apply _. Defined.
#[export] Instance asked_dec h p : Decision (asked h p).
Proof. unfold asked. apply _. Defined.

Definition about_routes (h : nlmsghdr) : bool :=
  (nlmsg_type h =? RTM_NEWROUTE)%Z || (nlmsg_type h =? RTM_DELROUTE)%Z.

(** The registered events a message goes to, and those that stay registered:
    news about routes go to every watcher, other messages to the first query
    with their sequence number, which the last reply unregisters. *)
Definition recipients (l : list Z) (h : nlmsghdr) : list Z :=
  if about_routes h then filter watches l
  else if (nlmsg_type h =? NLMSG_NOOP)%Z then []
  else match list_find (asked h) l with Some (_, p) => [p] | None => [] end.

Definition remaining (l : list Z) (h : nlmsghdr) : list Z :=
  if about_routes h || (nlmsg_type h =? NLMSG_NOOP)%Z then l
  else match list_find (asked h) l with
  | Some (j, _) => if final h then delete j l else l
  | None => l
  end.
End routing.

Section reply.
Context (H : gset Z) (this : Z) (nh : nat) (copy : list byte).

Definition copies (s : netlink_state) : Prop :=
  ∀ w, nlmsg_copy nh (set_nl_world w s) = Ok copy (set_nl_world w s).

(** Every event of [l] is one that may be kept. *)
Definition kept (k : Z → nl_event) (w : world) (l : list Z) : Prop :=
  ∀ p, p ∈ l → keepable w p (k p).

Lemma kept_answered f k w w' l :
  answered H f w w' → kept k w l → kept (λ x, with_replies (f x) (k x)) w' l.
Proof. intros Ha Hk p Hp. eapply keepable_answered; [done|]. by apply Hk. Qed.

Lemma answer_ok s p n :
  wf (nl_world s) H → event_client (nl_world s) ≠ [] → keepable (nl_world s) p n → copies s →
  ∃ w', (AddReply p nh;; dispatch_back this p) s = Ok tt (set_nl_world w' s) ∧
    answered H (λ x, if decide (x = p) then [copy] else []) (nl_world s) w'.
Proof.
  intros Hw Hne Hk Hc.
  destruct (answer_world H this (nl_world s) p n copy Hw Hne Hk) as (w' & Hrun & Han).
  exists w'. split; [|done]. apply bind_inv in Hrun as ([] & w1 & Hpush & Hd).
  assert (AddReply p nh s = Ok tt (set_nl_world w1 s)) as Hadd.
  { unfold AddReply. specialize (Hc (nl_world s)). destruct s. cbn in Hc.
    erewrite bind_ok by done. by apply (zoom_ok _ _ (push_reply p copy)). }
  rewrite (bind_ok _ _ _ _ _ Hadd). unfold dispatch_back. by erewrite zoom_ok.
Qed.

Lemma on_net_load s p n {B} (f : nl_event → prog netlink_state B) :
  keepable (nl_world s) p n → (on_net (nl_load p) ≫= f) s = f n s.
Proof.
  intros Hk. erewrite bind_ok by by apply zoom_ok, keepable_load. by destruct s.
Qed.

Lemma watch_loop l : ∀ k s,
  NoDup l → wf (nl_world s) H → event_client (nl_world s) ≠ [] → kept k (nl_world s) l →
  copies s → ∃ w', foreach l (watch_reply this nh) s = Ok tt (set_nl_world w' s) ∧
    answered H (λ x, if decide (x ∈ filter (watches k) l) then [copy] else []) (nl_world s) w'.
Proof.
  induction l as [|p l IH]; intros k s Hnd Hw Hne Hk Hc.
  { exists (nl_world s). split; [by destruct s|]. eapply answered_ext; [|by apply answered_refl].
    intros x. by rewrite decide_False by set_solver. }
  apply NoDup_cons in Hnd as [Hp Hnd]. cbn [foreach].
  assert (keepable (nl_world s) p (k p)) as Hkp by (apply Hk; set_solver).
  destruct (is_query (e_type (k p))) eqn:Hq.
  - destruct (IH k s) as (w' & Hrun & Han); [done..|intros x Hx; apply Hk; set_solver|done|].
    exists w'. split.
    + erewrite bind_ok; [done|]. unfold watch_reply.
      rewrite (on_net_load s p (k p)) by done. by rewrite Hq.
    + eapply answered_ext; [|done]. intros x.
      rewrite filter_cons_False by (unfold watches; by rewrite Hq). done.
  - destruct (answer_ok s p (k p)) as (w1 & Hrun1 & Han1); [done..|].
    set (k1 := λ x, with_replies (if decide (x = p) then [copy] else []) (k x)).
    assert (kept k1 w1 l) as Hk1.
    { eapply kept_answered; [done|]. intros x Hx. apply Hk. set_solver. }
    destruct (IH k1 (set_nl_world w1 s) Hnd (an_wf _ _ _ _ Han1)) as (w' & Hrun & Han).
    { cbn. by rewrite (frame_reg _ _ (an_frame _ _ _ _ Han1)). }
    { done. } { done. }
    exists w'. split.
    + erewrite bind_ok; [done|]. unfold watch_reply.
      rewrite (on_net_load s p (k p)) by done. by rewrite Hq.
    + eapply answered_ext; [|by eapply answered_trans]. intros x.
      rewrite filter_cons_True by done.
      change (filter (watches k1) l) with (filter (watches k) l).
      destruct (decide (x = p)) as [->|Hxp].
      * rewrite (decide_False (P := p ∈ filter _ l)), decide_True by
          (rewrite ?list_elem_of_filter; set_solver). done.
      * destruct (decide (x ∈ filter (watches k) l)).
        -- by rewrite decide_True by set_solver.
        -- by rewrite decide_False by set_solver.
Qed.

(** The reply to a query leaves the vector as [gone] says. *)
Definition unregister (h : nlmsghdr) (i : nat) (found : option (nat * Z)) (l : list Z) : list Z :=
  match found with
  | Some (j, _) => if final h then delete (i + j) l else l
  | None => l
  end.

Lemma query_loop h l : ∀ i k s,
  wf (nl_world s) H → event_client (nl_world s) ≠ [] → kept k (nl_world s) l → copies s →
  ∃ w', query_reply this nh h i l s =
      Ok tt (set_nl_clients (unregister h i (list_find (asked k h) l) (nl_clients s))
        (set_nl_world w' s)) ∧
    answered H (λ x, if decide (x ∈ match list_find (asked k h) l with
      Some (_, p) => [p] | None => [] end) then [copy] else []) (nl_world s) w'.
Proof.
  induction l as [|p l IH]; intros i k s Hw Hne Hk Hc.
  { exists (nl_world s). split; [by destruct s|]. eapply answered_ext; [|by apply answered_refl].
    intros x. cbn. by rewrite decide_False by set_solver. }
  assert (keepable (nl_world s) p (k p)) as Hkp by (apply Hk; set_solver).
  cbn [query_reply list_find]. rewrite (on_net_load s p (k p)) by done.
  case_decide as Ha.
  - destruct Ha as [-> ->]. rewrite Z.eqb_refl. cbn [negb].
    destruct (answer_ok s p (k p)) as (w1 & Hrun & Han); [done..|]. exists w1. split.
    + apply bind_inv in Hrun as ([] & s1 & Hadd & Hd).
      rewrite (bind_ok _ _ _ _ _ Hadd), (bind_ok _ _ _ _ _ Hd). unfold when, unregister.
      rewrite Nat.add_0_r. by destruct (final h), s.
    + eapply answered_ext; [|done]. intros x. cbn. repeat case_decide; set_solver.
  - destruct (IH (S i) k s) as (w' & Hrun & Han); [done..|intros x Hx; apply Hk; set_solver|done|].
    assert ((if negb (is_query (e_type (k p))) then query_reply this nh h (S i) l
      else if negb (e_seq (k p) =? nlmsg_seq h)%Z then query_reply this nh h (S i) l
      else AddReply p nh;; dispatch_back this p;;
        when (final h) (modify (λ s, set_nl_clients (delete i (nl_clients s)) s))) =
      query_reply this nh h (S i) l) as ->.
    { destruct (is_query (e_type (k p))) eqn:Hq; [|done]. cbn.
      destruct (Z.eqb_spec (e_seq (k p)) (nlmsg_seq h)); [|done]. by destruct Ha. }
    exists w'. destruct (list_find (asked k h) l) as [[j q]|]; cbn in *; [|done].
    by rewrite Nat.add_succ_r.
Qed.
End reply.

(** The state of the thread: a registered client, and the events it keeps. *)
Record net_ok (H : gset Z) (k : Z → nl_event) (s : netlink_state) : Prop := NetOk {
  net_wf : wf (nl_world s) H;
  net_reg : event_client (nl_world s) ≠ [];
  net_nodup : NoDup (nl_clients s);
  net_kept : kept k (nl_world s) (nl_clients s);
}.

Lemma remaining_sublist k l h : sublist (remaining k l h) l.
Proof.
  unfold remaining. repeat case_match; try done. apply sublist_delete.
Qed.

Lemma answered_net_ok H k f s w' l' :
  net_ok H k s → answered H f (nl_world s) w' → sublist l' (nl_clients s) →
  net_ok H (λ x, with_replies (f x) (k x)) (set_nl_clients l' (set_nl_world w' s)).
Proof.
  intros [Hw Hr Hnd Hk] Ha Hl. split; cbn.
  - apply Ha.
  - by rewrite (frame_reg _ _ (an_frame _ _ _ _ Ha)).
  - by eapply sublist_NoDup.
  - eapply kept_answered; [done|]. intros p Hp. apply Hk. by eapply elem_of_sublist.
Qed.

(** One message: its copy goes to its recipients. *)
Lemma SendNetlinkReply_ok H k this nh copy s :
  net_ok H k s → copies nh copy s →
  let h := header nh (nl_buffer s) in
  ∃ w', SendNetlinkReply this nh s =
      Ok tt (set_nl_clients (remaining k (nl_clients s) h) (set_nl_world w' s)) ∧
    answered H (λ x, if decide (x ∈ recipients k (nl_clients s) h) then [copy] else [])
      (nl_world s) w'.
Proof.
  intros [Hw Hr Hnd Hk] Hc h. unfold SendNetlinkReply, mbind, M_bind, gets.
  fold h. unfold recipients, remaining. change ((nlmsg_type h =? RTM_NEWROUTE)%Z ||
    (nlmsg_type h =? RTM_DELROUTE)%Z) with (about_routes h).
  destruct (about_routes h); cbn [orb].
  - destruct (watch_loop H this nh copy (nl_clients s) k s) as (w' & -> & Han); [done..|].
    exists w'. split; [by destruct s|done].
  - destruct (nlmsg_type h =? NLMSG_NOOP)%Z.
    + exists (nl_world s). split; [by destruct s|]. eapply answered_ext; [|by apply answered_refl].
      intros x. by rewrite decide_False by set_solver.
    + destruct (query_loop H this nh copy h (nl_clients s) 0 k s) as (w' & -> & Han); [done..|].
      exists w'. split; [|done]. unfold unregister. by destruct (list_find _ _) as [[j p]|].
Qed.

(** ** A datagram of messages *)

(** A message and the padding behind it. *)
Definition message_ok (mp : list byte * list byte) : Prop :=
  NLMSG_HDRLEN ≤ length mp.1 ∧ nlmsg_len (header 0 mp.1) = Z.of_nat (length mp.1) ∧
  NLMSG_ALIGN (Z.of_nat (length mp.1)) = Z.of_nat (length mp.1 + length mp.2).

Definition datagram (msgs : list (list byte * list byte)) : list byte :=
  mjoin ((λ mp, mp.1 ++ mp.2) <$> msgs).

(** What [AddReply] stores for [m]: the message, and sixteen bytes of what is
    behind it in the buffer. *)
Definition copy_of (c m : list byte) : Prop :=
  ∃ extra, c = m ++ extra ∧ length extra = NLMSG_HDRLEN.

(** The messages of a datagram that the event at [p] gets, and the events that
    are registered in the end. *)
Fixpoint routed (k : Z → nl_event) (p : Z) (l : list Z) (msgs : list (list byte * list byte)) :
    list (list byte) :=
  match msgs with
  | [] => []
  | (m, _) :: msgs =>
      (if decide (p ∈ recipients k l (header 0 m)) then [m] else []) ++
      routed k p (remaining k l (header 0 m)) msgs
  end.

Fixpoint registered (k : Z → nl_event) (l : list Z) (msgs : list (list byte * list byte)) :
    list Z :=
  match msgs with
  | [] => l
  | (m, _) :: msgs => registered k (remaining k l (header 0 m)) msgs
  end.

(** Routing does not look at the replies that were collected. *)
Lemma registered_replies f k msgs : ∀ l,
  registered (λ x, with_replies (f x) (k x)) l msgs = registered k l msgs.
Proof. induction msgs as [|[m pad] msgs IH]; intros l; [done|]. apply IH. Qed.

Lemma routed_replies f k p msgs : ∀ l,
  routed (λ x, with_replies (f x) (k x)) p l msgs = routed k p l msgs.
Proof.
  induction msgs as [|[m pad] msgs IH]; intros l; [done|]. cbn [routed]. by rewrite IH.
Qed.

Lemma field_app pre m post i n :
  i + n ≤ length m → field (length pre + i) n (pre ++ m ++ post) = field i n m.
Proof.
  intros Hin. unfold field. f_equal.
  rewrite <-drop_drop, drop_app_length, drop_app_le by lia.
  by rewrite take_app_le by (rewrite length_drop; lia).
Qed.

Lemma header_app pre m post :
  NLMSG_HDRLEN ≤ length m → header (length pre) (pre ++ m ++ post) = header 0 m.
Proof.
  unfold NLMSG_HDRLEN. intros Hm. unfold header.
  rewrite !(field_app pre m post) by lia.
  rewrite <-(Nat.add_0_r (length pre)), (field_app pre m post) by lia. done.
Qed.

Lemma copies_message s pre m post :
  nl_buffer s = pre ++ m ++ post →
  (NLMSG_HDRLEN ≤ length m)%nat → nlmsg_len (header 0 m) = Z.of_nat (length m) →
  (NLMSG_HDRLEN ≤ length post)%nat → (Z.of_nat (length (nl_buffer s)) < 2 ^ 31)%Z →
  copies (length pre) (m ++ firstn NLMSG_HDRLEN post) s.
Proof.
  intros Hb Hm Hlen Hpost Hsmall w. unfold nlmsg_copy, mbind, M_bind, gets. cbn [nl_buffer set_nl_world].
  rewrite Hb, header_app, Hlen by done.
  assert (NLMSG_LENGTH (Z.of_nat (length m)) = Z.of_nat (length m + NLMSG_HDRLEN)) as ->.
  { unfold NLMSG_LENGTH. rewrite Z.mod_small; [lia|].
    rewrite Hb, !length_app in Hsmall. unfold NLMSG_HDRLEN in *. lia. }
  rewrite Nat2Z.id. rewrite (proj2 (Nat.ltb_ge _ _)) by (rewrite !length_app; lia).
  f_equal. rewrite drop_app_length, take_app_add. done.
Qed.

Lemma process_ok H this rest msgs : ∀ fuel pre k s,
  net_ok H k s → nl_buffer s = pre ++ datagram msgs ++ rest → Forall message_ok msgs →
  NLMSG_HDRLEN ≤ length rest → (Z.of_nat (length (nl_buffer s)) < 2 ^ 31)%Z →
  length msgs ≤ fuel →
  ∃ w' f, process_loop fuel this (length pre) (Z.of_nat (length (datagram msgs))) s =
      Ok tt (set_nl_clients (registered k (nl_clients s) msgs) (set_nl_world w' s)) ∧
    answered H f (nl_world s) w' ∧
    ∀ p, Forall2 copy_of (f p) (routed k p (nl_clients s) msgs).
Proof.
  induction msgs as [|[m pad] msgs IH]; intros fuel pre k s Hok Hb Hms Hrest Hsmall Hfuel.
  { exists (nl_world s), (λ _, []). split_done.
    - by destruct fuel, s.
    - apply answered_refl, Hok. }
  apply Forall_cons in Hms as [(Hm & Hlen & Hal) Hms]. cbn [fst snd] in *.
  destruct fuel as [|fuel]; [cbn in Hfuel; lia|]. cbn in Hfuel.
  change (datagram ((m, pad) :: msgs)) with ((m ++ pad) ++ datagram msgs) in *.
  set (post := pad ++ datagram msgs ++ rest).
  assert (nl_buffer s = pre ++ m ++ post) as Hb2.
  { rewrite Hb. unfold post. by rewrite !app_assoc. }
  assert (NLMSG_HDRLEN ≤ length post) as Hpost by (unfold post; rewrite !length_app; lia).
  cbn [process_loop]. unfold mbind at 1, M_bind at 1, gets at 1.
  rewrite Hb2, header_app, Hlen, Hal by done.
  assert (nlmsg_ok (header 0 m) (Z.of_nat (length ((m ++ pad) ++ datagram msgs))) = true) as ->.
  { unfold nlmsg_ok, NLMSG_HDRLEN in *. rewrite Hlen, !length_app.
    rewrite !andb_true_iff, !Z.leb_le. lia. }
  cbn [negb].
  destruct (SendNetlinkReply_ok H k this (length pre) (m ++ firstn NLMSG_HDRLEN post) s Hok)
    as (w1 & Hrun & Han); [by apply copies_message|].
  rewrite Hb2, header_app in Hrun, Han by done.
  rewrite (bind_ok _ _ _ _ _ Hrun).
  pose proof (answered_net_ok H k _ s w1 _ Hok Han (remaining_sublist k _ (header 0 m))) as Hok1.
  destruct (IH fuel (pre ++ m ++ pad) _ _ Hok1) as (w2 & g & Hrun2 & Han2 & Hg); [|done..|lia|].
  { cbn. by rewrite Hb, !app_assoc. }
  rewrite registered_replies in Hrun2.
  exists w2, (λ x, (if decide (x ∈ recipients k (nl_clients s) (header 0 m))
    then [m ++ firstn NLMSG_HDRLEN post] else []) ++ g x). split_and!.
  - rewrite Nat2Z.id. rewrite length_app, length_app in Hrun2.
    replace (Z.of_nat (length ((m ++ pad) ++ datagram msgs)) - Z.of_nat (length m + length pad))%Z
      with (Z.of_nat (length (datagram msgs))) by (rewrite !length_app; lia).
    exact Hrun2.
  - by eapply answered_trans.
  - intros p. specialize (Hg p). rewrite routed_replies in Hg. cbn [routed]. apply Forall2_app; [|done].
    case_decide; constructor; [|done]. exists (firstn NLMSG_HDRLEN post). split; [done|].
    rewrite length_take. lia.
Qed.

Lemma message_size mp : message_ok mp → 1 ≤ length (mp.1 ++ mp.2).
Proof. intros (Hm & _). rewrite length_app. unfold NLMSG_HDRLEN in *. lia. Qed.

Lemma datagram_fuel msgs : Forall message_ok msgs → length msgs ≤ length (datagram msgs).
Proof.
  induction 1 as [|mp msgs Hm _ IH]; [done|]. pose proof (message_size mp Hm).
  change (datagram (mp :: msgs)) with ((mp.1 ++ mp.2) ++ datagram msgs).
  rewrite length_app. cbn [length]. lia.
Qed.

(** C14. A datagram is taken apart and handed out exactly: whatever events are
    registered (persistent, each bound for one client), the loop of
    [ProcessNetlinkMessage] ends at the end of the datagram after it visited
    every message once, in order; every registered event got, behind the
    replies it had, a copy of each message routed to it and of no other, and
    lies in the queue of its client if that accepts events; the queries whose
    last reply came are no longer registered, and the thread's state is in
    order again.  (A copy holds sixteen bytes more than the message, which is
    why the buffer has to be longer than the datagram.) *)
Theorem netlink_routes H k this s msgs rest :
  net_ok H k s → nl_buffer s = datagram msgs ++ rest → Forall message_ok msgs →
  NLMSG_HDRLEN ≤ length rest → (Z.of_nat (length (nl_buffer s)) < 2 ^ 31)%Z →
  ∃ w' f,
    let s' := set_nl_clients (registered k (nl_clients s) msgs) (set_nl_world w' s) in
    ProcessNetlinkMessage this (length (datagram msgs)) s = Ok tt s' ∧
    net_ok H (λ p, with_replies (f p) (k p)) s' ∧
    (∀ p, p ∈ nl_clients s →
      keepable w' p (with_replies (f p) (k p)) ∧
      Forall2 copy_of (f p) (routed k p (nl_clients s) msgs)) ∧
    (∀ p e, p ∈ nl_clients s → heap (nl_world s) !! p = Some e →
      routed k p (nl_clients s) msgs ≠ [] → accepts (nl_world s) (GetTarget e) →
      p ∈ queue_of w' (GetTarget e)).
Proof.
  intros Hok Hb Hms Hrest Hsmall.
  destruct (process_ok H this rest msgs (length (datagram msgs)) [] k s)
    as (w' & f & Hrun & Han & Hf); [done..|by apply datagram_fuel|].
  exists w', f. split_and!.
  - exact Hrun.
  - apply answered_net_ok; [done..|]. clear. generalize (nl_clients s) as l.
    induction msgs as [|[m pad] msgs IH]; intros l; cbn; [done|].
    etrans; [apply IH|apply remaining_sublist].
  - intros p Hp. split; [|apply Hf]. eapply keepable_answered; [done|]. by apply Hok.
  - intros p e Hp He Hne Hacc. destruct (net_kept _ _ _ Hok p Hp) as (e0 & He0 & Hper & _).
    assert (e0 = e) as -> by congruence. apply (an_queued _ _ _ _ Han); [done..| |done].
    intros Hnil. specialize (Hf p). rewrite Hnil in Hf. by inversion Hf.
Qed.

(** Two clients, and in the thread's vector a watcher and a query with the
    sequence number 7, both bound for client 200. *)
Definition sample_watch : csEvent :=
  CsEvent csEVENT_NETLINK Persistent 100 200 NULL (EvNetlink NL_RouteWatch 0 0 []).
Definition sample_query : csEvent :=
  CsEvent csEVENT_NETLINK Persistent 100 200 NULL (EvNetlink NL_Query RTM_GETROUTE 7 []).
Definition sample_kind (p : Z) : nl_event :=
  if (p =? 1)%Z then NlEvent NL_RouteWatch 0 0 [] else NlEvent NL_Query RTM_GETROUTE 7 [].

(** A message that is only a header. *)
Definition bare_message (type flags seq : Z) : list byte :=
  le_bytes 4 16 ++ le_bytes 2 type ++ le_bytes 2 flags ++ le_bytes 4 seq ++ le_bytes 4 0.

Definition sample_routes : list (list byte * list byte) :=
  [(bare_message RTM_NEWROUTE NLM_F_MULTI 7, []); (bare_message RTM_NEWROUTE NLM_F_MULTI 7, [])].
Definition sample_done : list byte * list byte := (bare_message NLMSG_DONE NLM_F_MULTI 7, []).

Definition sample_net : netlink_state :=
  NetlinkState (allocated (allocated sample0 sample_watch) sample_query) [1; 2]%Z 7
    (datagram (sample_routes ++ [sample_done]) ++ replicate 16 x00) [].

Lemma sample_net_ok : net_ok ∅ sample_kind sample_net.
Proof.
  split.
  - apply (wf_allocated _ ∅ sample_query), (wf_allocated _ ∅ sample_watch), sample0_wf.
  - done.
  - repeat constructor; set_solver.
  - intros p [->|[->|[]%elem_of_nil]%elem_of_cons]%elem_of_cons.
    + by exists sample_watch.
    + by exists sample_query.
Qed.

Lemma sample_registered :
  1%Z ∈ nl_clients sample_net ∧ 2%Z ∈ nl_clients sample_net ∧ accepts (nl_world sample_net) 200.
Proof.
  change (1%Z ∈ [1; 2]%Z ∧ 2%Z ∈ [1; 2]%Z ∧ accepts (nl_world sample_net) 200).
  split; [set_solver|]. split; [set_solver|]. eexists. split; [vm_compute; reflexivity|done].
Qed.

Lemma sample_messages_ok : Forall message_ok (sample_routes ++ [sample_done]).
Proof. repeat constructor; vm_compute; lia. Qed.

Lemma netlink_routes_witness :
  ∃ w' f,
    let s' := set_nl_clients [1%Z] (set_nl_world w' sample_net) in
    ProcessNetlinkMessage 100 48 sample_net = Ok tt s' ∧
    Forall2 copy_of (f 1%Z) [bare_message RTM_NEWROUTE NLM_F_MULTI 7;
      bare_message RTM_NEWROUTE NLM_F_MULTI 7] ∧
    Forall2 copy_of (f 2%Z) [bare_message NLMSG_DONE NLM_F_MULTI 7] ∧
    1%Z ∈ queue_of w' 200 ∧ 2%Z ∈ queue_of w' 200.
Proof.
  destruct (netlink_routes ∅ sample_kind 100 sample_net (sample_routes ++ [sample_done])
    (replicate 16 x00)) as (w' & f & Hrun & _ & Hf & Hq).
  - apply sample_net_ok.
  - reflexivity.
  - apply sample_messages_ok.
  - vm_compute. lia.
  - reflexivity.
  - destruct sample_registered as (H1 & H2 & Hacc).
    exists w', f. split; [exact Hrun|]. split; [exact (proj2 (Hf 1%Z H1))|].
    split; [exact (proj2 (Hf 2%Z H2))|]. split.
    + apply (Hq 1%Z sample_watch); [done|reflexivity|vm_compute; done|done].
    + apply (Hq 2%Z sample_query); [done|reflexivity|vm_compute; done|done].
Defined.

(** ** Queries for routes *)

Lemma routes_skip_queries k p l msgs m :
  is_query (e_type (k p)) = true →
  Forall (λ mp, about_routes (header 0 mp.1) = true) msgs →
  routed k p l (msgs ++ [m]) = routed k p l [m] ∧ registered k l (msgs ++ [m]) = registered k l [m].
Proof.
  intros Hq. induction 1 as [|[m1 pad] msgs Hm _ IH]; [done|]. cbn [app routed registered].
  cbn in Hm. unfold recipients, remaining. rewrite Hm. cbn [orb].
  rewrite decide_False by (rewrite list_elem_of_filter; unfold watches; rewrite Hq; by intros [? _]).
  done.
Qed.

Lemma routes_to_watchers k p l msgs m :
  watches k p → p ∈ l → Forall (λ mp, about_routes (header 0 mp.1) = true) msgs →
  about_routes (header 0 m.1) = false → routed k p l (msgs ++ [m]) = msgs.*1.
Proof.
  intros Hq Hp Hms Hm. induction Hms as [|[m1 pad] msgs Hm1 _ IH].
  - destruct m as [m pad]. cbn [app routed fst] in *. unfold recipients. rewrite Hm.
    rewrite app_nil_r, decide_False; [done|]. case_match; [set_solver|].
    destruct (list_find _ _) as [[j q]|] eqn:Hfind; [|set_solver].
    apply list_find_Some in Hfind as (_ & [Hask _] & _).
    intros ->%list_elem_of_singleton. unfold watches in Hq. congruence.
  - cbn [app routed fst] in *. unfold recipients, remaining. rewrite Hm1. cbn [orb].
    rewrite decide_True by by apply list_elem_of_filter. cbn. f_equal. apply IH.
Qed.

(** A query for routes never sees a route: when the kernel answers one with
    any number of routes and the closing message, all with the query's
    sequence number, the routes go to every watcher instead, the query gets
    the closing message only, and is unregistered. *)
Theorem route_query_unanswered H k this s routes m rest p j :
  net_ok H k s → nl_buffer s = datagram (routes ++ [m]) ++ rest →
  Forall message_ok (routes ++ [m]) → NLMSG_HDRLEN ≤ length rest →
  (Z.of_nat (length (nl_buffer s)) < 2 ^ 31)%Z →
  Forall (λ mp, about_routes (header 0 mp.1) = true) routes →
  nlmsg_type (header 0 m.1) = NLMSG_DONE →
  list_find (asked k (header 0 m.1)) (nl_clients s) = Some (j, p) →
  ∃ s' c, ProcessNetlinkMessage this (length (datagram (routes ++ [m]))) s = Ok tt s' ∧
    nl_clients s' = delete j (nl_clients s) ∧
    keepable (nl_world s') p (with_replies [c] (k p)) ∧ copy_of c m.1 ∧
    ∀ q, q ∈ nl_clients s → watches k q → ∃ new,
      keepable (nl_world s') q (with_replies new (k q)) ∧ Forall2 copy_of new routes.*1.
Proof.
  intros Hok Hb Hms Hrest Hsmall Hr Hm Hfind.
  destruct (process_ok H this rest (routes ++ [m]) (length (datagram (routes ++ [m]))) [] k s)
    as (w' & f & Hrun & Han & Hf); [done..|by apply datagram_fuel|].
  assert (about_routes (header 0 m.1) = false) as Hnr by (unfold about_routes; by rewrite Hm).
  pose proof Hfind as (Hj & [Hq _] & _)%list_find_Some.
  assert (p ∈ nl_clients s) as Hp by by eapply list_elem_of_lookup_2.
  destruct (routes_skip_queries k p (nl_clients s) routes m Hq Hr) as [Hrouted Hreg].
  assert (routed k p (nl_clients s) [m] = [m.1] ∧
    registered k (nl_clients s) [m] = delete j (nl_clients s)) as [Hone Hgone].
  { destruct m as [m pad]. cbn [routed registered fst] in *.
    unfold recipients, remaining. rewrite Hnr, Hfind, Hm. cbn [orb].
    unfold final. rewrite Hm. split; [|done]. by rewrite decide_True by set_solver. }
  rewrite Hreg, Hgone in Hrun. pose proof (Hf p) as Hfp. rewrite Hrouted, Hone in Hfp.
  apply Forall2_cons_inv_r in Hfp as (c & l & Hc & Hl & Hfp).
  apply Forall2_nil_inv_r in Hl as ->.
  eexists _, c. split; [exact Hrun|]. split_done.
  - cbn. rewrite <-Hfp. eapply keepable_answered; [done|]. by apply Hok.
  - intros q Hqin Hw. exists (f q). split.
    + eapply keepable_answered; [done|]. by apply Hok.
    + specialize (Hf q). by rewrite (routes_to_watchers k q (nl_clients s) routes m) in Hf.
Qed.

Lemma route_query_unanswered_witness :
  ∃ s' c, ProcessNetlinkMessage 100 48 sample_net = Ok tt s' ∧
    nl_clients s' = [1%Z] ∧
    keepable (nl_world s') 2 (with_replies [c] (sample_kind 2)) ∧ copy_of c sample_done.1 ∧
    ∀ q, q ∈ nl_clients sample_net → watches sample_kind q → ∃ new,
      keepable (nl_world s') q (with_replies new (sample_kind q)) ∧
      Forall2 copy_of new sample_routes.*1.
Proof.
  apply (route_query_unanswered ∅ sample_kind 100 sample_net sample_routes sample_done
    (replicate 16 x00) 2 1).
  - apply sample_net_ok.
  - reflexivity.
  - apply sample_messages_ok.
  - vm_compute. lia.
  - reflexivity.
  - repeat constructor.
  - reflexivity.
  - reflexivity.
Defined.

(** ** Registering events *)

(** The number the next request gets. *)
Definition next_seq (time seq : Z) : Z :=
  let n := ((seq + 1) mod 2 ^ 32)%Z in if (time - 3600 * 24 <=? n)%Z then 1 else n.

(** The event that is registered for [e]: bound for its sender, and for a
    request with the request's number. *)
Definition answerable (e : csEvent) (c : csEventClass) : csEvent :=
  SetTarget (GetSource e) (SetSource (GetTarget e) (set_class c e)).

Lemma on_net_ev_load s p t q old r e :
  heap (nl_world s) !! p = Some e → ev_class e = EvNetlink t q old r →
  on_net (nl_load p) s = Ok (NlEvent t q old r) s.
Proof.
  intros Hp Hc. unfold zoom, nl_load, mbind, M_bind, ev_load. rewrite Hp, Hc. by destruct s.
Qed.

(** A request goes out for a query the kernel knows. *)
Lemma SendNetlinkQuery_run time p w l n b sent e q old r :
  heap w !! p = Some e → ev_class e = EvNetlink NL_Query q old r →
  let seq := next_seq time n in
  SendNetlinkQuery time p (NetlinkState w l n b sent) = Ok tt
    (if valid_query q
     then NetlinkState (set_heap (<[p := set_class (EvNetlink NL_Query q seq r) e]> (heap w)) w) l
       seq b (sent ++ [NlRequest q (Z.lor NLM_F_REQUEST NLM_F_DUMP) seq])
     else NetlinkState w l n b sent).
Proof.
  intros Hp Hc seq. unfold SendNetlinkQuery.
  rewrite (bind_ok _ _ _ _ _ (on_net_ev_load (NetlinkState w l n b sent) p _ _ _ _ e Hp Hc)).
  cbn [e_query]. destruct (valid_query q); [|done]. cbn [negb].
  rewrite (bind_ok _ _ _ tt (NetlinkState w l ((n + 1) `mod` 2 ^ 32) b sent)) by done.
  rewrite (bind_ok _ _ _ ((n + 1) `mod` 2 ^ 32)%Z
    (NetlinkState w l ((n + 1) `mod` 2 ^ 32) b sent)) by done.
  rewrite (bind_ok _ _ _ tt (NetlinkState w l seq b sent)).
  2:{ unfold seq, next_seq, when. by case_match. }
  rewrite (bind_ok _ _ _ seq (NetlinkState w l seq b sent)) by done.
  unfold zoom, SetSequence, nl_load, nl_store, mbind, M_bind, ev_load, ev_store. cbn.
  rewrite Hp, Hc. cbn. rewrite Hp. cbn. by rewrite Hp.
Qed.

(** The end of [ProcessEvent]: source and target change places. *)
Lemma register_run p w l n b sent e :
  heap w !! p = Some e →
  (e ← on_net (ev_load p);
   on_net (ev_store p (SetTarget (GetSource e) (SetSource (GetTarget e) e)));;
   modify (λ s, set_nl_clients (nl_clients s ++ [p]) s)) (NetlinkState w l n b sent) =
  Ok tt (NetlinkState (set_heap (<[p := answerable e (ev_class e)]> (heap w)) w) (l ++ [p]) n b sent).
Proof.
  intros Hp. unfold zoom, mbind, M_bind, ev_load, ev_store. cbn. rewrite Hp. cbn. by rewrite Hp.
Qed.

Lemma ProcessEvent_run time p s e t q old r :
  heap (nl_world s) !! p = Some e → ev_class e = EvNetlink t q old r →
  let seq := next_seq time (nl_seq s) in
  let asks := is_query t && valid_query q in
  let c := EvNetlink t q (if asks then seq else old) r in
  ProcessEvent time p s = Ok tt (NetlinkState
    (set_heap (<[p := answerable e c]> (heap (nl_world s))) (nl_world s))
    (nl_clients s ++ [p]) (if asks then seq else nl_seq s) (nl_buffer s)
    (nl_sent s ++ if asks then [NlRequest q (Z.lor NLM_F_REQUEST NLM_F_DUMP) seq] else [])).
Proof.
  intros Hp Hc seq asks c.
  unfold ProcessEvent. destruct s as [w l n b sent]. cbn [nl_world nl_seq nl_sent] in *.
  rewrite (bind_ok _ _ _ _ _ (on_net_ev_load (NetlinkState w l n b sent) p _ _ _ _ e Hp Hc)).
  cbn [e_type]. destruct t.
  + rewrite (bind_ok _ _ _ _ _ (SendNetlinkQuery_run time p w l n b sent e q old r Hp Hc)).
    unfold c, asks. cbn [is_query andb]. fold seq. destruct (valid_query q).
    * rewrite (register_run p _ _ _ _ _ (set_class (EvNetlink NL_Query q seq r) e))
        by apply lookup_insert_eq. cbn. by rewrite insert_insert_eq.
    * rewrite (register_run p _ _ _ _ _ e) by done. by rewrite Hc, app_nil_r.
  + rewrite (bind_ok _ _ _ tt (NetlinkState w l n b sent)) by done.
    rewrite (register_run p _ _ _ _ _ e) by done. by rewrite Hc, app_nil_r.
Qed.

(** [ProcessEvent] registers every netlink event, bound for the client it
    came from.  For a query the kernel knows, exactly one request goes out; it
    carries the event's query and a number that differs from the one before
    and is not zero, and the event remembers it, so that the replies find it.
    A query the kernel does not know is registered all the same, though no
    request goes out that could ever be answered, and nobody is told. *)
Theorem ProcessEvent_registers time p s e t q old r :
  heap (nl_world s) !! p = Some e → ev_class e = EvNetlink t q old r →
  (0 ≤ nl_seq s < 2 ^ 32 - 1)%Z →
  let seq := next_seq time (nl_seq s) in
  let asks := is_query t && valid_query q in
  let c := EvNetlink t q (if asks then seq else old) r in
  ProcessEvent time p s = Ok tt (NetlinkState
    (set_heap (<[p := answerable e c]> (heap (nl_world s))) (nl_world s))
    (nl_clients s ++ [p]) (if asks then seq else nl_seq s) (nl_buffer s)
    (nl_sent s ++ if asks then [NlRequest q (Z.lor NLM_F_REQUEST NLM_F_DUMP) seq] else [])) ∧
  (1 ≤ seq < 2 ^ 32)%Z ∧ (nl_seq s = 1 ∨ seq ≠ nl_seq s)%Z.
Proof.
  intros Hp Hc Hseq seq asks c. split.
  - by apply ProcessEvent_run.
  - unfold seq, next_seq. rewrite Z.mod_small by lia. case_match; lia.
Qed.

Lemma ProcessEvent_registers_witness :
  let seq := next_seq 2000000 7 in
  (1 ≤ seq < 2 ^ 32)%Z ∧ (7 = 1 ∨ seq ≠ 7)%Z ∧
  ProcessEvent 2000000 2 sample_net = Ok tt (NetlinkState
    (set_heap (<[2%Z := answerable sample_query (EvNetlink NL_Query RTM_GETROUTE seq [])]>
      (heap (nl_world sample_net))) (nl_world sample_net))
    [1; 2; 2]%Z seq (nl_buffer sample_net)
    [NlRequest RTM_GETROUTE (Z.lor NLM_F_REQUEST NLM_F_DUMP) seq]).
Proof.
  intros seq.
  destruct (ProcessEvent_registers 2000000 2 sample_net sample_query NL_Query RTM_GETROUTE 7 [])
    as (Hrun & Hr & Hd).
  - reflexivity.
  - reflexivity.
  - split; reflexivity || discriminate.
  - split; [exact Hr|]. split; [exact Hd|exact Hrun].
Defined.

(** ** Events that do not persist *)

(** A dispatch to a client that accepts events and has nothing queued. *)
Lemma dispatch_to_empty H w this p dst cl e :
  wf w H → event_client w ≠ [] → dst ≠ CS_EVENT_BROADCAST → heap w !! p = Some e →
  IsExclusive e = false → clients w !! dst = Some cl → event_enable cl = true →
  event_queue cl = [] →
  EventDispatch this p dst w = Ok tt
    (client_put dst (EventClient true [p] MFree (S (event_condition cl)))
      (set_heap (<[p := SetSource this (SetTarget dst e)]> (heap w)) w)).
Proof.
  intros Hwf Hne Hdst Hp Hex Hcl Hen Hq. pose proof (wf_lock w H Hwf Hne) as Hfree.
  set (e1 := SetTarget dst e).
  set (w1 := set_heap (<[p := e1]> (heap w)) (set_client_mutex MHeld w)).
  destruct (EventPush_run w1 dst cl p this e1) as (q' & h' & Hsc & Hrun).
  { done. } { done. } { by apply (core_qmutex _ _ (proj1 Hwf) dst). }
  { apply lookup_insert_eq. } { rewrite Hq. by intros x ?%elem_of_nil. } { intros _ _. rewrite Hq. by intros ?%elem_of_nil. }
  unfold scanned_if in Hsc. change (IsExclusive e1) with (IsExclusive e) in Hsc.
  rewrite Hex in Hsc. destruct Hsc as [-> ->].
  assert (dst ∈ event_client w) as Hin by (apply (proj1 Hwf); eauto).
  unfold EventDispatch, lock_clients, unlock_clients, mutex_lock, ev_load, ev_store, gets.
  unfold mbind at 1, M_bind at 1. rewrite Hfree. unfold mbind, M_bind. cbn.
  rewrite Hp. cbn. rewrite Hp. cbn. rewrite lookup_insert_eq. cbn.
  rewrite (proj2 (Z.eqb_neq _ _) Hdst), bool_decide_eq_true_2 by done. fold e1. fold w1.
  rewrite Hrun. unfold pushed, insert_event, mutex_unlock. cbn. rewrite insert_insert_eq, Hq, Hen.
  destruct w as [hp bk cs ec mx cr]. cbn in *. subst mx.
  by destruct (IsHighPriority _).
Qed.

(** A query whose event does not persist leaves a dangling pointer: its
    receiver takes the first of several replies from its queue and destroys
    the event, as the clients do with every event they receive, but the thread
    still has it registered, and the next message of any kind but no-ops makes
    it read freed memory. *)
Theorem query_dangles H this nh copy s p l e q seq r c cl :
  wf (nl_world s) H → heap (nl_world s) !! p = Some e → IsPersistent e = false →
  IsExclusive e = false → IsSticky e = false → ev_class e = EvNetlink NL_Query q seq r →
  nl_clients s = p :: l → GetTarget e = c → c ≠ CS_EVENT_BROADCAST →
  clients (nl_world s) !! c = Some cl → event_enable cl = true → event_queue cl = [] →
  copies nh copy s →
  let h := header nh (nl_buffer s) in
  about_routes h = false → nlmsg_type h ≠ NLMSG_NOOP → nlmsg_seq h = seq → final h = false →
  ∃ w1 w2 w3,
    SendNetlinkReply this nh s = Ok tt (set_nl_world w1 s) ∧
    EventPop c w1 = Ok p w2 ∧ EventDestroy p w2 = Ok tt w3 ∧
    ∀ nh', nlmsg_type (header nh' (nl_buffer s)) ≠ NLMSG_NOOP →
      SendNetlinkReply this nh' (set_nl_world w3 s) = Stuck (UseAfterFree p).
Proof.
  intros Hwf Hp Hper Hex Hst Hc Hl Ht Hdst Hcl Hen Hq Hcopy h Hr Hn Hseq Hf.
  set (n := NlEvent NL_Query q seq r).
  set (e1 := set_class (add_replies [copy] (ev_class e)) e).
  set (w := nl_world s) in *. set (w0 := set_heap (<[p := e1]> (heap w)) w).
  assert (wf w0 H) as Hwf0.
  { split; [by apply (core_store w H p e e1); [apply Hwf|..]|apply Hwf]. }
  assert (event_client w ≠ []) as Hne.
  { intros Hnil. assert (c ∈ event_client w) as Hin by (apply (proj1 Hwf); eauto).
    rewrite Hnil in Hin. by apply elem_of_nil in Hin. }
  set (e2 := SetSource this (SetTarget c e1)).
  set (w1 := client_put c (EventClient true [p] MFree (S (event_condition cl)))
    (set_heap (<[p := e2]> (heap w0)) w0)).
  assert (heap w1 !! p = Some e2) as Hp1 by apply lookup_insert_eq.
  set (w2 := client_put c (set_queue [] (EventClient true [p] MFree (S (event_condition cl)))) w1).
  exists w1, w2, (set_heap (destroyed (heap w2) p e2) w2). split_and!.
  - unfold SendNetlinkReply, mbind at 1, M_bind at 1, gets at 1. fold h.
    unfold mbind at 1, M_bind at 1, gets at 1.
    change ((nlmsg_type h =? RTM_NEWROUTE)%Z || (nlmsg_type h =? RTM_DELROUTE)%Z)
      with (about_routes h). rewrite Hr, (proj2 (Z.eqb_neq _ _) Hn), Hl.
    cbn [query_reply].
    rewrite (bind_ok _ _ _ _ _ (on_net_ev_load s p _ _ _ _ e Hp Hc)). cbn [e_type e_seq is_query].
    rewrite Hseq, Z.eqb_refl. cbn [negb].
    rewrite (bind_ok _ _ _ tt (set_nl_world w0 s)).
    2:{ unfold AddReply. specialize (Hcopy w). destruct s. cbn in Hcopy, w.
      erewrite bind_ok by done. apply (zoom_ok _ _ (push_reply p copy)).
      by apply (push_reply_run w p n copy e). }
    rewrite (bind_ok _ _ _ tt (set_nl_world w1 s)); [by rewrite Hf|].
    unfold dispatch_back. erewrite zoom_ok; [done|]. cbn [nl_world set_nl_world].
    rewrite (bind_ok _ _ _ e1 w0) by (unfold ev_load; cbn; by rewrite lookup_insert_eq).
    change (GetTarget e1) with (GetTarget e). rewrite Ht.
    by apply (dispatch_to_empty H w0 this p c cl e1); try done; apply lookup_insert_eq.
  - apply (EventPop_take w1 c (EventClient true [p] MFree (S (event_condition cl)))) with e2;
      try done; by apply lookup_insert_eq.
  - by apply EventDestroy_run.
  - intros nh' Hn'. unfold SendNetlinkReply, mbind at 1, M_bind at 1, gets at 1.
    unfold mbind at 1, M_bind at 1, gets at 1. cbn [nl_buffer nl_clients set_nl_world].
    rewrite Hl, (proj2 (Z.eqb_neq _ _) Hn').
    assert (on_net (nl_load p) (set_nl_world (set_heap (destroyed (heap w2) p e2) w2) s) =
      Stuck (UseAfterFree p)) as Hdead.
    { unfold zoom, nl_load, mbind, M_bind, ev_load, destroyed. cbn [nl_world set_nl_world heap set_heap].
      change (IsPersistent e2) with (IsPersistent e). by rewrite Hper, lookup_delete_eq. }
    destruct (_ || _); cbn [foreach query_reply].
    + unfold watch_reply, mbind, M_bind. by rewrite Hdead.
    + unfold mbind, M_bind. by rewrite Hdead.
Qed.

Definition sample_mortal : csEvent :=
  CsEvent csEVENT_NETLINK FlagNone 100 200 NULL (EvNetlink NL_Query RTM_GETLINK 7 []).
Definition sample_mortal_net : netlink_state :=
  NetlinkState (allocated sample0 sample_mortal) [1]%Z 7
    (bare_message 16 NLM_F_MULTI 7 ++ replicate 16 x00) [].

Lemma query_dangles_witness :
  ∃ w1 w2 w3,
    SendNetlinkReply 100 0 sample_mortal_net = Ok tt (set_nl_world w1 sample_mortal_net) ∧
    EventPop 200 w1 = Ok 1%Z w2 ∧ EventDestroy 1 w2 = Ok tt w3 ∧
    ∀ nh', nlmsg_type (header nh' (nl_buffer sample_mortal_net)) ≠ NLMSG_NOOP →
      SendNetlinkReply 100 nh' (set_nl_world w3 sample_mortal_net) = Stuck (UseAfterFree 1).
Proof.
  apply (query_dangles (take 1 sample_mortal ∅) 100 0 (nl_buffer sample_mortal_net) sample_mortal_net 1 []
    sample_mortal RTM_GETLINK 7 [] 200 (EventClient true [] MFree 0)).
  - apply (wf_allocated sample0 ∅ sample_mortal), sample0_wf.
  - reflexivity.
  - reflexivity.
  - reflexivity.
  - reflexivity.
  - reflexivity.
  - reflexivity.
  - reflexivity.
  - discriminate.
  - vm_compute. reflexivity.
  - reflexivity.
  - reflexivity.
  - intros w. vm_compute. reflexivity.
  - reflexivity.
  - discriminate.
  - reflexivity.
  - reflexivity.
Defined.

(** The copy that [AddReply] makes runs over the end of the buffer when less
    than sixteen bytes follow the message, as in a datagram that fills it. *)
Lemma reply_overreads p nh s :
  let len := Z.to_nat (NLMSG_LENGTH (nlmsg_len (header nh (nl_buffer s)))) in
  length (nl_buffer s) < nh + len → AddReply p nh s = Stuck OutOfBounds.
Proof.
  intros len Hlen. unfold AddReply, nlmsg_copy, mbind, M_bind, gets. fold len.
  by rewrite (proj2 (Nat.ltb_lt _ _)).
Qed.

(** ** The thread ends *)

(** The events the main loop of the thread handles before it goes on: netlink
    events that do not persist, which it registers, and events it destroys. *)
Definition serviceable (e : csEvent) : Prop :=
  IsSticky e = false ∧ GetId e ≠ csEVENT_QUIT ∧
  (GetId e = csEVENT_NETLINK → IsPersistent e = false ∧
    ∃ t q s r, ev_class e = EvNetlink t q s r).

Lemma netlink_round_service this time s H b e q :
  wf (nl_world s) H → view (nl_world s) this = Some (b, e :: q) → serviceable e →
  ∃ s' H', netlink_round this time (RecvFailed EAGAIN) s = Ok false s' ∧ wf (nl_world s') H' ∧
    view (nl_world s') this = Some (b, q).
Proof.
  intros Hwf Hv (Hst & Hnq & Hnl).
  destruct (pop_take_run _ H this b e q Hwf Hv Hst) as (r & w1 & Hpop & Hr & He & Hnin & Hwf1 & Hv1).
  specialize (Hv1 this). rewrite decide_True in Hv1 by done.
  assert (∀ (f : Z → csEvent → prog netlink_state bool), (event ← on_net (EventPop this);
    if (event =? CS_EVENT_NONE)%Z then mret false
    else (e ← on_net (ev_load event); f event e)) s = f r e (set_nl_world w1 s)) as Hgo.
  { intros f. unfold mbind, M_bind, zoom, ev_load. rewrite Hpop.
    rewrite (proj2 (Z.eqb_neq _ _)) by done. cbn. by rewrite He. }
  unfold netlink_round. rewrite Z.eqb_refl. cbn [negb]. rewrite Hgo.
  rewrite (proj2 (Z.eqb_neq _ _)) by done.
  destruct (GetId e =? csEVENT_NETLINK)%Z eqn:Hid.
  - apply Z.eqb_eq in Hid. destruct (Hnl Hid) as (Hper & t & qy & old & rp & Hc).
    pose proof (ProcessEvent_run time r (set_nl_world w1 s) e t qy old rp He Hc) as Hrun. cbn in Hrun.
    rewrite (bind_ok _ _ _ _ _ Hrun). eexists _, (EventOps.take r e H). split; [done|]. cbn.
    destruct Hwf1 as [Hw1 Hm1].
    assert (refs w1 r = 0) as H0.
    { pose proof (core_own _ _ Hw1 r) as Ho. rewrite He in Ho. cbn in Ho. rewrite Hper in Ho.
      unfold EventOps.take in Ho. rewrite Hper in Ho. rewrite held_union_eq in Ho. lia. }
    split.
    + split; [|done]. by apply (core_store w1 _ r e).
    + rewrite <-Hv1. by apply (view_store w1 (EventOps.take r e H)).
  - destruct (destroy_ok w1 (EventOps.take r e H) r e (proj1 Hwf1) He) as [Hc2 Hv2].
    { unfold EventOps.take. intros ->. set_solver. }
    exists (set_nl_world (set_heap (destroyed (heap w1) r e) w1) s), (EventOps.take r e H ∖ {[r]}).
    split.
    + unfold mbind, M_bind, zoom. cbn. by rewrite (EventDestroy_run w1 r e).
    + split; [split; [done|apply Hwf1]|]. cbn. by rewrite Hv2.
Qed.

(** With a quit event queued behind events it can serve, and a kernel with
    nothing to say, the thread serves these and returns. *)
Theorem netlink_entry_ends this s H b q1 e q2 results :
  wf (nl_world s) H → view (nl_world s) this = Some (b, q1 ++ e :: q2) →
  GetId e = csEVENT_QUIT → receivable e → Forall serviceable q1 →
  Forall (λ r, r.1 = RecvFailed EAGAIN) results → length q1 < length results →
  ∃ s', netlink_entry this results s = Ok true s'.
Proof.
  intros Hwf Hv Hid Hre Hq1 Hres. revert s H q1 Hwf Hv Hq1.
  induction Hres as [|[r time] results Hr Hres IH]; intros s H q1 Hwf Hv Hq1 Hlen; [cbn in Hlen; lia|].
  cbn in Hr. subst r. cbn [netlink_entry]. destruct q1 as [|x q1].
  - destruct (pop_destroy_run _ H this b e q2 Hwf Hv Hre)
      as (r & w1 & e1 & w2 & Hpop & Hr & Hr1 & Hid1 & _ & _ & Hdel & _).
    exists (set_nl_world w2 s). unfold netlink_round. rewrite Z.eqb_refl. cbn [negb].
    unfold mbind, M_bind, zoom, ev_load. rewrite Hpop.
    rewrite (proj2 (Z.eqb_neq _ _)) by done. cbn. rewrite Hr1. cbn. rewrite Hid1, Hid. cbn.
    by rewrite Hdel.
  - apply Forall_cons in Hq1 as [Hx Hq1].
    destruct (netlink_round_service this time s H b x _ Hwf Hv Hx) as (s1 & H1 & Hrun & Hwf1 & Hv1).
    rewrite (bind_ok _ _ _ _ _ Hrun). apply (IH s1 H1 q1); try done. cbn in Hlen. lia.
Qed.

(** A receive error ends the thread at once, without a word to anyone: the
    requests it holds and those it still gets are never answered. *)
Lemma netlink_entry_error this s errno time results :
  errno ≠ EAGAIN → netlink_entry this ((RecvFailed errno, time) :: results) s = Ok true s.
Proof. intros He. cbn. by rewrite (proj2 (Z.eqb_neq _ _)). Qed.

(** ** One netlink thread *)

(** Whatever the system's answers, the constructor returns and the destructor
    gives back what it took, except for the static instance: it is never reset,
    so that no other netlink thread can ever be made. *)
Theorem netlink_thread_once (s : netlink_static) this socket bind page_size :
  nl_instance s = NULL → this ≠ NULL → nl_objects s !! this = None →
  socket ∉ nl_fds s →
  ∃ s1 o, csThreadNetlink_new this socket bind page_size s = Ok tt s1 ∧
    nl_objects s1 = <[this := o]> (nl_objects s) ∧
    (is_Some (nl_pages o) ↔ socket ≠ (-1)%Z ∧ bind ≠ (-1)%Z) ∧
    ∃ s2, csThreadNetlink_delete this s1 = Ok tt s2 ∧
      nl_objects s2 = nl_objects s ∧ nl_fds s2 = nl_fds s ∧
      ∀ this2 socket2 bind2, csThreadNetlink_new this2 socket2 bind2 page_size s2 =
        Throw (csException_int_str EEXIST "csThreadNetlink") s2.
Proof.
  destruct s as [i os fs]. cbn. intros -> Hthis Hnew Hfd.
  assert (({[socket]} ∪ fs) ∖ {[socket]} = fs) as Hback by (apply leibniz_equiv; set_solver).
  assert (∀ s2 : netlink_static, nl_instance s2 = this → ∀ this2 socket2 bind2,
    csThreadNetlink_new this2 socket2 bind2 page_size s2 =
      Throw (csException_int_str EEXIST "csThreadNetlink") s2) as Hagain.
  { intros s2 Hi this2 socket2 bind2. unfold csThreadNetlink_new, mbind, M_bind, gets.
    by rewrite Hi, (proj2 (Z.eqb_neq _ _)). }
  assert (∀ o fs', csThreadNetlink_delete this (NetlinkStatic this (<[this := o]> os) fs') =
    Ok tt (NetlinkStatic this os (if (fd_netlink o =? -1)%Z then fs' else fs' ∖ {[fd_netlink o]})))
    as Hdel.
  { intros o fs'. unfold csThreadNetlink_delete. cbn. rewrite lookup_insert_eq, Z.eqb_refl. cbn.
    destruct (fd_netlink o =? -1)%Z; unfold set_nl_objects, set_nl_fds; cbn;
      by rewrite delete_insert_id. }
  assert (∃ o fs', csThreadNetlink_new this socket bind page_size (NetlinkStatic NULL os fs) =
      Ok tt (NetlinkStatic this (<[this := o]> os) fs') ∧
    (is_Some (nl_pages o) ↔ socket ≠ (-1)%Z ∧ bind ≠ (-1)%Z) ∧
    (if (fd_netlink o =? -1)%Z then fs' else fs' ∖ {[fd_netlink o]}) = fs)
    as (o & fs' & Hrun & Hpages & Hfs).
  { unfold csThreadNetlink_new, mbind, M_bind, gets, modify. cbn.
    destruct (socket =? -1)%Z eqn:Hs; [|destruct (bind =? -1)%Z eqn:Hb].
    - apply Z.eqb_eq in Hs as ->. exists (NetlinkObject (-1) None), fs.
      split; [done|]. split; [|done]. split; [by intros []|by intros []].
    - exists (NetlinkObject socket None), ({[socket]} ∪ fs). apply Z.eqb_eq in Hb as ->.
      split; [done|]. cbn. rewrite Hs, Hback. split; [|done]. split; [by intros []|by intros []].
    - exists (NetlinkObject socket (Some page_size)), ({[socket]} ∪ fs). split; [done|]. cbn.
      rewrite Hs, Hback. apply Z.eqb_neq in Hs, Hb. split; [|done]. split; [done|by eexists]. }
  exists (NetlinkStatic this (<[this := o]> os) fs'), o. split; [done|]. split; [done|].
  split; [done|]. exists (NetlinkStatic this os fs). rewrite Hdel, Hfs.
  split_and!; try done. by apply Hagain.
Qed.
