(* ===== verification/NetlinkRun.v ===== *)
(** * A netlink query from end to end

    A client dispatches a query, the netlink thread registers it and sends the
    request, the kernel's answers come in as a datagram, and the client takes
    them from its event: the parts of [Event] and [Netlink] in the order in
    which the threads run them. *)

From S2P Require Import Prelude Exception Bytes Event EventInv EventOps EventProps Bus.
From S2P Require Import Netlink NetlinkProps.

(** ** The client's side *)

(** [while ((nh = event->GetReply()) != NULL)], the way a client empties its
    event; the replies are structurally fewer after each. *)
Fixpoint collect (fuel : nat) (p : Z) : prog world (list (list byte)) :=
  r ← GetReply p;
  match r, fuel with
  | None, _ => mret []
  | Some _, O => stuck OutOfFuel
  | Some nh, S fuel => rest ← collect fuel p; mret (nh :: rest)
  end.

Lemma collect_run p n : ∀ w fuel,
  keepable w p n → length (e_reply n) ≤ fuel →
  ∃ w', collect fuel p w = Ok (e_reply n) w' ∧
    keepable w' p (NlEvent (e_type n) (e_query n) (e_seq n) []).
Proof.
  destruct n as [t q sq r]. cbn. induction r as [|nh r IH]; intros w fuel Hk Hfuel.
  - exists w. split; [|done]. destruct fuel; cbn; unfold GetReply, mbind, M_bind;
      by rewrite (keepable_load w p _ Hk).
  - destruct fuel as [|fuel]; [cbn in Hfuel; lia|].
    destruct Hk as (e & Hp & Hper & Hex & Ht & Hc).
    set (e1 := set_class (EvNetlink t q sq r) e).
    set (w1 := set_heap (<[p := e1]> (heap w)) w).
    destruct (IH w1 fuel) as (w2 & Hrun & Hk2); [|cbn in Hfuel; lia|].
    { exists e1. split; [apply lookup_insert_eq|]. by split_and!. }
    exists w2. split; [|done]. cbn [collect].
    assert (GetReply p w = Ok (Some nh) w1) as Hget.
    { unfold GetReply, nl_load, nl_store, mbind, M_bind, ev_load, ev_store. rewrite Hp, Hc. cbn.
      rewrite Hp. cbn. by rewrite Hp. }
    rewrite (bind_ok _ _ _ _ _ Hget). by rewrite (bind_ok _ _ _ _ _ Hrun).
Qed.

(** ** The thread takes the query and sends the request *)

(** The thread's client after it took its only event. *)
Definition emptied (this : Z) (cl : csEventClient) (w : world) : world :=
  client_put this (EventClient true [] MFree (S (event_condition cl))) w.

Section query.
Context (H : gset Z) (k : Z → nl_event) (s : netlink_state) (Hs : net_ok H k s).
Context (this c p time q : Z) (e : csEvent) (cl : csEventClient).
(** The query: a persistent event of the client at [c], with nothing in it. *)
Context (He : heap (nl_world s) !! p = Some e) (Hid : GetId e = csEVENT_NETLINK).
Context (Hper : IsPersistent e = true) (Hex : IsExclusive e = false) (Hst : IsSticky e = false).
Context (Hclass : ev_class e = EvNetlink NL_Query q 0 []) (Hq : valid_query q = true).
Context (Hp : p ∉ nl_clients s).
(** The thread waits with an empty queue. *)
Context (Hcl : clients (nl_world s) !! this = Some cl).
Context (Hen : event_enable cl = true) (Hempty : event_queue cl = []).
Context (Hthis : this ≠ CS_EVENT_BROADCAST) (Hc : c ≠ CS_EVENT_BROADCAST).

Abbreviation w0 := (nl_world s).
Abbreviation seq := (next_seq time (nl_seq s)).

Definition posted_query : csEvent := SetSource c (SetTarget this e).
Definition dispatched_world : world :=
  client_put this (EventClient true [p] MFree (S (event_condition cl)))
    (set_heap (<[p := posted_query]> (heap w0)) w0).
Definition registered_query : csEvent :=
  answerable posted_query (EvNetlink NL_Query q seq []).
Definition asked_state : netlink_state :=
  NetlinkState (emptied this cl (set_heap (<[p := registered_query]> (heap w0)) w0))
    (nl_clients s ++ [p]) seq (nl_buffer s)
    (nl_sent s ++ [NlRequest q (Z.lor NLM_F_REQUEST NLM_F_DUMP) seq]).

Lemma query_dispatched : EventDispatch c p this w0 = Ok tt dispatched_world ∧ wf dispatched_world H.
Proof.
  destruct Hs as [Hw Hreg _ _].
  pose proof (dispatch_to_empty H w0 c p this cl e Hw Hreg Hthis He Hex Hcl Hen Hempty) as Hrun.
  split; [exact Hrun|].
  destruct (dispatch_persistent w0 H c p this e Hw Hreg Hthis He Hper) as (w1 & Hrun1 & Hw1 & _).
  rewrite Hrun in Hrun1. by injection Hrun1 as <-.
Qed.

Lemma query_registered :
  netlink_round this time (RecvFailed EAGAIN) (set_nl_world dispatched_world s) = Ok false asked_state.
Proof.
  assert (heap dispatched_world !! p = Some posted_query) as Hp1 by apply lookup_insert_eq.
  set (cl1 := EventClient true [p] MFree (S (event_condition cl))).
  assert (EventPop this dispatched_world = Ok p (emptied this cl dispatched_world)) as Hpop.
  { apply (EventPop_take dispatched_world this cl1 (lookup_insert_eq _ _ _) eq_refl p [] posted_query);
      done. }
  assert (p ≠ CS_EVENT_NONE) as Hnn.
  { intros ->. by apply (heap_null w0 H e (proj1 (net_wf _ _ _ Hs))). }
  unfold netlink_round. rewrite Z.eqb_refl. cbn [negb].
  rewrite (bind_ok _ _ _ _ _ (zoom_ok _ _ (EventPop this) (set_nl_world dispatched_world s) p _ Hpop)).
  rewrite (proj2 (Z.eqb_neq _ _)) by done.
  set (s1 := set_nl_world (emptied this cl dispatched_world) (set_nl_world dispatched_world s)).
  assert (on_net (ev_load p) s1 = Ok posted_query s1) as Hload.
  { unfold zoom, ev_load. cbn. by rewrite lookup_insert_eq. }
  rewrite (bind_ok _ _ _ _ _ Hload).
  change (GetId posted_query) with (GetId e). rewrite Hid. cbn [Z.eqb].
  change (csEVENT_NETLINK =? csEVENT_QUIT)%Z with false. rewrite Z.eqb_refl. cbn iota.
  pose proof (ProcessEvent_run time p s1 posted_query NL_Query q 0 [] Hp1 Hclass) as Hrun.
  cbn zeta in Hrun. rewrite Hq in Hrun. cbn [is_query andb] in Hrun.
  rewrite (bind_ok _ _ _ _ _ Hrun). unfold asked_state, registered_query, s1, emptied, client_put.
  cbn. unfold set_clients, set_heap. cbn. by rewrite !insert_insert_eq.
Qed.

(** ** The thread with the query registered *)

Definition with_query (x : Z) : nl_event :=
  if decide (x = p) then NlEvent NL_Query q seq [] else k x.

Lemma asked_world_wf : wf (nl_world asked_state) H.
Proof.
  destruct query_dispatched as [_ [Hw1 Hm1]].
  assert (heap dispatched_world !! p = Some posted_query) as Hp1 by apply lookup_insert_eq.
  set (cl1 := EventClient true [p] MFree (S (event_condition cl))).
  pose proof (core_take dispatched_world H this cl1 p [] posted_query Hw1
    (lookup_insert_eq _ _ _) eq_refl Hp1) as Hw2.
  unfold take in Hw2. change (IsPersistent posted_query) with (IsPersistent e) in Hw2.
  rewrite Hper in Hw2.
  pose proof (core_store _ H p posted_query registered_query Hw2 Hp1) as Hw3.
  split; [|exact Hm1].
  unfold asked_state, emptied, client_put, set_heap, set_clients in *. cbn in Hw3 |- *.
  rewrite !insert_insert_eq in Hw3. by apply Hw3.
Qed.

Lemma asked_net_ok : net_ok H with_query asked_state.
Proof.
  destruct Hs as [_ Hreg Hnd Hk]. split; [apply asked_world_wf|done| |].
  - cbn. apply NoDup_app. split_and!; [done|by intros x Hx ->%list_elem_of_singleton|].
    apply NoDup_singleton.
  - intros x Hx. unfold with_query. cbn in Hx. case_decide as Hxp.
    + subst x. exists registered_query. cbn. rewrite lookup_insert_eq. by split_and!.
    + assert (x ∈ nl_clients s) as Hxl by (apply elem_of_app in Hx; set_solver).
      destruct (Hk x Hxl) as (ex & Hex' & Hrest). exists ex. split; [|done]. cbn.
      by rewrite lookup_insert_ne.
Qed.

Lemma asked_accepts : accepts w0 c → accepts (nl_world asked_state) c.
Proof.
  intros (cc & Hcc & Hcen). destruct (decide (c = this)) as [->|Hne].
  - eexists. cbn. rewrite lookup_insert_eq. by split.
  - exists cc. cbn. by rewrite lookup_insert_ne.
Qed.

(** ** The answers *)

(** Messages that answer the request: its number, and neither routes nor
    no-ops. *)
Definition answers (h : nlmsghdr) : Prop :=
  nlmsg_seq h = seq ∧ about_routes h = false ∧ nlmsg_type h ≠ NLMSG_NOOP.

(** No event that is registered waits for this number. *)
Context (Hfresh : ∀ x, x ∈ nl_clients s → is_query (e_type (k x)) = true → e_seq (k x) ≠ seq).

Lemma query_found h :
  answers h → list_find (asked with_query h) (nl_clients s ++ [p]) = Some (length (nl_clients s), p).
Proof.
  intros (Hseq & _ & _). apply list_find_Some. split_and!.
  - by rewrite lookup_app_r, Nat.sub_diag by lia.
  - unfold asked, with_query. rewrite decide_True by done. by split.
  - intros j x Hx Hj [Hqx Hsx]. rewrite lookup_app_l in Hx by done.
    apply list_elem_of_lookup_2 in Hx. unfold with_query in Hqx, Hsx.
    rewrite decide_False in Hqx, Hsx by by intros ->.
    by apply (Hfresh x Hx Hqx); rewrite Hsx.
Qed.

Lemma answer_routes h :
  answers h → recipients with_query (nl_clients s ++ [p]) h = [p] ∧
    remaining with_query (nl_clients s ++ [p]) h =
      if final h then nl_clients s else nl_clients s ++ [p].
Proof.
  intros Ha. pose proof (query_found h Ha) as Hf. destruct Ha as (_ & Hr & Hn).
  unfold recipients, remaining. rewrite Hr, (proj2 (Z.eqb_neq _ _) Hn), Hf. cbn [orb].
  split; [done|]. destruct (final h); [|done].
  rewrite delete_middle. by rewrite app_nil_r.
Qed.

(** All answers go to the query and to nobody else, and the last one
    unregisters it. *)
Lemma answers_routed msgs last x :
  Forall (λ mp, answers (header 0 mp.1) ∧ final (header 0 mp.1) = false) msgs →
  answers (header 0 last.1) → final (header 0 last.1) = true →
  routed with_query x (nl_clients s ++ [p]) (msgs ++ [last]) =
    (if decide (x = p) then (msgs ++ [last]).*1 else []) ∧
  registered with_query (nl_clients s ++ [p]) (msgs ++ [last]) = nl_clients s.
Proof.
  intros Hms Hl Hfin. induction Hms as [|[m pad] msgs [Ha Hnf] _ IH].
  - destruct last as [m pad]. cbn in *. destruct (answer_routes _ Hl) as [-> ->]. rewrite Hfin.
    split; [|done]. repeat case_decide; set_solver.
  - cbn in Ha, Hnf |- *. destruct (answer_routes _ Ha) as [-> ->]. rewrite Hnf.
    destruct IH as [-> ->]. split; [|done]. repeat case_decide; set_solver.
Qed.
End query.

(** ** From end to end *)

Lemma keepable_heap w w' p n : heap w' = heap w → keepable w p n → keepable w' p n.
Proof. unfold keepable. by intros ->. Qed.

(** C15. A query is answered from end to end.  A client dispatches a persistent
    event with a query the kernel knows to the netlink thread, which waits: the
    thread's next round registers the event and sends exactly one request with
    a fresh number.  When the answers come in, any number of messages with that
    number of which the last is marked so (and which are not about routes), the
    round that receives them puts the event into the client's queue, forgets it
    and leaves all other registered events as they were; and whenever the
    client then asks its event for replies, it gets exactly the messages, in
    order, each once, and then null. *)
Theorem query_answered H k s this c p time time' q e cl msgs last :
  net_ok H k s → p ∉ nl_clients s →
  heap (nl_world s) !! p = Some e → GetId e = csEVENT_NETLINK → IsPersistent e = true →
  IsExclusive e = false → IsSticky e = false →
  ev_class e = EvNetlink NL_Query q 0 [] → valid_query q = true →
  clients (nl_world s) !! this = Some cl → event_enable cl = true → event_queue cl = [] →
  this ≠ CS_EVENT_BROADCAST → c ≠ CS_EVENT_BROADCAST → accepts (nl_world s) c →
  let seq := next_seq time (nl_seq s) in
  let bytes := datagram (msgs ++ [last]) in
  (∀ x, x ∈ nl_clients s → is_query (e_type (k x)) = true → e_seq (k x) ≠ seq) →
  Forall message_ok (msgs ++ [last]) →
  Forall (λ mp, answers s time (header 0 mp.1) ∧ final (header 0 mp.1) = false) msgs →
  answers s time (header 0 last.1) → final (header 0 last.1) = true →
  length bytes + NLMSG_HDRLEN ≤ length (nl_buffer s) → (Z.of_nat (length (nl_buffer s)) < 2 ^ 31)%Z →
  ∃ w1 s2 s3 replies,
    EventDispatch c p this (nl_world s) = Ok tt w1 ∧
    netlink_round this time (RecvFailed EAGAIN) (set_nl_world w1 s) = Ok false s2 ∧
    nl_sent s2 = nl_sent s ++ [NlRequest q (Z.lor NLM_F_REQUEST NLM_F_DUMP) seq] ∧
    netlink_round this time' (Datagram bytes) s2 = Ok false s3 ∧
    wf (nl_world s3) H ∧ nl_clients s3 = nl_clients s ∧
    (∀ x, x ∈ nl_clients s → keepable (nl_world s3) x (k x)) ∧
    p ∈ queue_of (nl_world s3) c ∧
    Forall2 copy_of replies (msgs ++ [last]).*1 ∧
    ∀ w, heap w = heap (nl_world s3) → ∃ w', collect (S (length msgs)) p w = Ok replies w'.
Proof.
  intros Hs Hp He Hid Hper Hex Hst Hclass Hq Hcl Hen Hempty Hthis Hc Hacc seq bytes Hfresh
    Hms Hans Hlast Hfin Hbuf Hsmall.
  set (s2 := asked_state s this c p time q e cl).
  assert (net_ok H (with_query k s p time q) s2) as Hok2 by by eapply asked_net_ok.
  set (b := overwrite 0 bytes (nl_buffer s)).
  assert (b = bytes ++ drop (length bytes) (nl_buffer s)) as Hb by done.
  assert (length b = length (nl_buffer s)) as Hlb.
  { apply length_overwrite. unfold NLMSG_HDRLEN in *. lia. }
  assert (net_ok H (with_query k s p time q) (set_nl_buffer b s2)) as Hok3 by (destruct Hok2; by split).
  destruct (process_ok H this (drop (length bytes) (nl_buffer s)) (msgs ++ [last]) (length bytes) []
    _ (set_nl_buffer b s2) Hok3) as (w3 & f & Hrun & Han & Hf); [done..| | | |].
  { rewrite length_drop. lia. }
  { change (nl_buffer (set_nl_buffer b s2)) with b. by rewrite Hlb. }
  { by apply datagram_fuel. }
  change (nl_clients (set_nl_buffer b s2)) with (nl_clients s ++ [p]) in *.
  assert (∀ x, routed (with_query k s p time q) x (nl_clients s ++ [p]) (msgs ++ [last]) =
      (if decide (x = p) then (msgs ++ [last]).*1 else []) ∧
    registered (with_query k s p time q) (nl_clients s ++ [p]) (msgs ++ [last]) = nl_clients s) as Hr
    by (intros x; eapply answers_routed; eassumption).
  rewrite (proj2 (Hr p)) in Hrun.
  assert (∀ x, x ∈ nl_clients s ++ [p] → keepable w3 x (with_replies (f x) (with_query k s p time q x)))
    as Hk3.
  { intros x Hx. eapply keepable_answered; [done|]. by apply (net_kept _ _ _ Hok3). }
  assert (Forall2 copy_of (f p) (msgs ++ [last]).*1) as Hfp.
  { specialize (Hf p). rewrite (proj1 (Hr p)), decide_True in Hf by done. exact Hf. }
  eexists _, s2, _, (f p). split_and!.
  - by eapply query_dispatched.
  - by eapply query_registered.
  - done.
  - unfold netlink_round. fold b. cbn [mbind]. unfold ProcessNetlinkMessage.
    rewrite (bind_ok _ _ _ tt (set_nl_buffer b s2)) by done.
    by rewrite (bind_ok _ _ _ _ _ Hrun).
  - apply Han.
  - done.
  - intros x Hx. assert (x ≠ p) as Hxp by by intros ->.
    specialize (Hk3 x ltac:(set_solver)). specialize (Hf x).
    rewrite (proj1 (Hr x)), decide_False in Hf by done. apply Forall2_nil_inv_r in Hf.
    rewrite Hf in Hk3. unfold with_query, with_replies in Hk3.
    rewrite decide_False, app_nil_r in Hk3 by done. by destruct (k x).
  - apply (an_queued _ _ _ _ Han p (registered_query s this c time q e)).
    + apply lookup_insert_eq.
    + exact Hper.
    + intros Hnil. rewrite Hnil in Hfp. apply Forall2_nil_inv_l in Hfp.
      by rewrite fmap_app in Hfp; destruct (msgs.*1).
    + by eapply asked_accepts.
  - exact Hfp.
  - intros w Hw. pose proof (keepable_heap w3 w p _ Hw (Hk3 p ltac:(set_solver))) as Hkw.
    unfold with_query in Hkw. rewrite decide_True in Hkw by done.
    destruct (collect_run p _ w (S (length msgs)) Hkw) as (w' & Hcol & _); [|by exists w'].
    cbn. apply Forall2_length in Hfp. rewrite Hfp, length_fmap, length_app. cbn. lia.
Qed.

(** *** A watcher that is registered, and a client that asks for the links *)

Definition sample_ask : csEvent :=
  CsEvent csEVENT_NETLINK Persistent NULL NULL NULL (EvNetlink NL_Query RTM_GETLINK 0 []).
Definition sample_watched (p : Z) : nl_event := NlEvent NL_RouteWatch 0 0 [].
Definition sample_waiting : netlink_state :=
  NetlinkState (allocated (allocated sample0 sample_watch) sample_ask) [1]%Z 7
    (replicate 64 x00) [].

(** A link, and the end of the list. *)
Definition sample_link : list byte * list byte := (bare_message 16 NLM_F_MULTI 8, []).
Definition sample_end : list byte * list byte := (bare_message NLMSG_DONE NLM_F_MULTI 8, []).

Lemma sample_waiting_ok : net_ok ∅ sample_watched sample_waiting.
Proof.
  split.
  - apply (wf_allocated _ ∅ sample_ask), (wf_allocated _ ∅ sample_watch), sample0_wf.
  - done.
  - repeat constructor; set_solver.
  - intros p ->%list_elem_of_singleton. by exists sample_watch.
Qed.

Lemma query_answered_witness :
  ∃ w1 s2 s3 replies w',
    EventDispatch 200 2 100 (nl_world sample_waiting) = Ok tt w1 ∧
    netlink_round 100 2000000 (RecvFailed EAGAIN) (set_nl_world w1 sample_waiting) = Ok false s2 ∧
    nl_sent s2 = [NlRequest RTM_GETLINK 0x301 8] ∧
    netlink_round 100 2000001 (Datagram (datagram [sample_link; sample_end])) s2 = Ok false s3 ∧
    nl_clients s3 = [1%Z] ∧ 2%Z ∈ queue_of (nl_world s3) 200 ∧
    Forall2 copy_of replies [sample_link.1; sample_end.1] ∧
    collect 2 2 (nl_world s3) = Ok replies w'.
Proof.
  destruct (query_answered ∅ sample_watched sample_waiting 100 200 2 2000000 2000001 RTM_GETLINK
    sample_ask (EventClient true [] MFree 0) [sample_link] sample_end)
    as (w1 & s2 & s3 & replies & Hd & Hr & Hsent & Hr2 & _ & Hl & _ & Hin & Hcop & Hcol).
  - exact sample_waiting_ok.
  - cbn. by intros ?%list_elem_of_singleton.
  - reflexivity.
  - reflexivity.
  - reflexivity.
  - reflexivity.
  - reflexivity.
  - reflexivity.
  - reflexivity.
  - vm_compute. reflexivity.
  - reflexivity.
  - reflexivity.
  - discriminate.
  - discriminate.
  - eexists. split; [vm_compute; reflexivity|reflexivity].
  - intros x _ Hx. discriminate Hx.
  - repeat constructor; vm_compute; lia.
  - repeat constructor; vm_compute; congruence.
  - split; [reflexivity|]. split; [reflexivity|]. vm_compute. discriminate.
  - reflexivity.
  - vm_compute. lia.
  - reflexivity.
  - destruct (Hcol (nl_world s3) eq_refl) as [w' Hw'].
    exists w1, s2, s3, replies, w'. split; [exact Hd|]. split; [exact Hr|]. split; [exact Hsent|].
    split; [exact Hr2|]. split; [exact Hl|]. split; [exact Hin|]. split; [exact Hcop|exact Hw'].
Defined.
