(* ===== verification/NetlinkLive.v ===== *)
(** * The netlink thread among other threads

    A round of the netlink thread is safe for any datagram the buffer has room
    for, whatever events are registered, as long as they are persistent
    netlink events: it returns, everything it registers it may keep, and the
    queues of the other clients get at most such events. *)

From S2P Require Import Prelude Exception Bytes Event EventInv EventOps EventProps EventKeep Bus.
From S2P Require Import Netlink NetlinkProps.

(** ** Netlink events that may be registered *)

Definition net_query (e : csEvent) : Prop :=
  IsPersistent e = true ∧ IsExclusive e = false ∧ IsSticky e = false ∧
  GetId e = csEVENT_NETLINK ∧ GetSource e ≠ CS_EVENT_BROADCAST ∧ GetTarget e ≠ CS_EVENT_BROADCAST ∧
  ∃ t q s r, ev_class e = EvNetlink t q s r.

Definition net_at (w : world) (p : Z) : Prop := ∃ e, heap w !! p = Some e ∧ net_query e.

(** The events the netlink thread can take from its queue. *)
Definition net_event (e : csEvent) : Prop :=
  (GetId e ≠ csEVENT_NETLINK ∧ receivable e) ∨ net_query e.

(** ** What the thread does to the event clients *)

(** Only netlink events that may be registered change, or join a queue. *)
Record netted (H : gset Z) (w w' : world) : Prop := Netted {
  nt_wf : wf w' H;
  nt_reg : event_client w' = event_client w;
  nt_heap : ∀ x, heap w' !! x = heap w !! x ∨ (net_at w x ∧ net_at w' x);
  nt_queue : ∀ c x, x ∈ queue_of w' c → x ∈ queue_of w c ∨ net_at w' x;
}.

Lemma netted_refl H w : wf w H → netted H w w.
Proof. intros Hw. split; [done|done|by left|by left]. Qed.

Lemma netted_at H w w' x : netted H w w' → net_at w x → net_at w' x.
Proof.
  intros Hn Hx. destruct (nt_heap _ _ _ Hn x) as [Heq|[_ ?]]; [|done].
  destruct Hx as (e & He & Hq). exists e. by rewrite Heq.
Qed.

Lemma netted_trans H w w1 w2 : netted H w w1 → netted H w1 w2 → netted H w w2.
Proof.
  intros H1 H2. split; [apply H2|by rewrite (nt_reg _ _ _ H2), (nt_reg _ _ _ H1)| |].
  - intros x. destruct (nt_heap _ _ _ H1 x) as [Heq|[Ha _]].
    + destruct (nt_heap _ _ _ H2 x) as [Heq2|[Hb ?]]; [left; congruence|right].
      split; [|done]. destruct Hb as (e & He & Hq). exists e. by rewrite <-Heq.
    + right. split; [done|]. by eapply netted_at; [exact H2|eapply netted_at; [exact H1|]].
  - intros c x Hx. destruct (nt_queue _ _ _ H2 c x Hx) as [Hx1|?]; [|by right].
    destruct (nt_queue _ _ _ H1 c x Hx1) as [?|Hx2]; [by left|right]. by eapply netted_at.
Qed.

(** Who is registered, and what is in whose queue. *)
Definition queue_all (P : csEvent → Prop) (w : world) (c : Z) : Prop :=
  ∃ b q, view w c = Some (b, q) ∧ Forall P q.

Lemma events_Forall (P : csEvent → Prop) h q :
  Forall P (events h q) ↔ ∀ x e, x ∈ q → h !! x = Some e → P e.
Proof.
  unfold events. rewrite Forall_forall. setoid_rewrite list_elem_of_omap. naive_solver.
Qed.

Lemma netted_clients H w w' c :
  wf w H → netted H w w' → is_Some (view w' c) ↔ is_Some (view w c).
Proof.
  intros Hw Hn. assert (∀ w0 H0, wf w0 H0 → is_Some (view w0 c) ↔ c ∈ event_client w0) as Hreg.
  { intros w0 H0 [Hc _]. rewrite (core_dom _ _ Hc). unfold view.
    destruct (clients w0 !! c); cbn; [by split; eexists|done]. }
  rewrite (Hreg w' H), (Hreg w H), (nt_reg _ _ _ Hn); [done..|apply Hn].
Qed.

Lemma netted_queue (P : csEvent → Prop) H w w' c :
  wf w H → netted H w w' → (∀ e, net_query e → P e) → queue_all P w c → queue_all P w' c.
Proof.
  intros Hw Hn HP (b & q & Hv & Hq).
  destruct (proj2 (netted_clients H w w' c Hw Hn)) as [[b' q'] Hv']; [by eexists|].
  exists b', q'. split; [done|]. unfold view in Hv, Hv'.
  destruct (clients w !! c) as [cl|] eqn:Hcl; [|done].
  destruct (clients w' !! c) as [cl'|] eqn:Hcl'; [|done]. cbn in Hv, Hv'. simplify_eq.
  rewrite events_Forall in Hq |- *. intros x e Hx He.
  destruct (nt_heap _ _ _ Hn x) as [Heq|[_ (e1 & He1 & He1q)]]; [|simplify_eq; auto].
  destruct (nt_queue _ _ _ Hn c x) as [Hx0|(e1 & He1 & He1q)]; [by unfold queue_of; rewrite Hcl'| |].
  - apply (Hq x); [|by rewrite <-Heq]. unfold queue_of in Hx0. by rewrite Hcl in Hx0.
  - simplify_eq. auto.
Qed.

(** A write to such an event. *)
Lemma netted_store H w p e e' :
  wf w H → heap w !! p = Some e → net_query e → net_query e' →
  netted H w (set_heap (<[p := e']> (heap w)) w).
Proof.
  intros Hw Hp He He'. split; [|done| |by left].
  - split; [|apply Hw]. apply (core_store w H p e e'); [apply Hw|done|].
    by rewrite (proj1 He), (proj1 He').
  - intros x. cbn. destruct (decide (x = p)) as [->|Hne].
    + right. split; [by exists e|]. exists e'. cbn. by rewrite lookup_insert_eq.
    + left. by rewrite lookup_insert_ne.
Qed.

(** Its dispatch to one client. *)
Lemma netted_dispatch H w this p dst e :
  wf w H → event_client w ≠ [] → heap w !! p = Some e → net_query e →
  this ≠ CS_EVENT_BROADCAST → dst ≠ CS_EVENT_BROADCAST →
  ∃ w', EventDispatch this p dst w = Ok tt w' ∧ netted H w w'.
Proof.
  intros Hw Hne Hp He Hthis Hdst. pose proof He as (Hper & Hex & Hst & Hid & Hsrc & _ & Hcls).
  destruct (dispatch_persistent w H this p dst e Hw Hne Hdst Hp Hper)
    as (w' & Hrun & Hw' & Hf & _).
  exists w'. split; [done|].
  pose proof (wf_lock w H Hw Hne) as Hfree.
  set (e1 := SetTarget dst e). set (w1 := set_heap (<[p := e1]> (heap w)) (set_client_mutex MHeld w)).
  assert (heap w1 !! p = Some e1) as Hp1 by apply lookup_insert_eq.
  assert (∃ e2, net_query e2 ∧ heap w' = <[p := e2]> (heap w) ∧
    ∀ c x, x ∈ queue_of w' c → x ∈ queue_of w c ∨ x = p) as (e2 & He2 & Hh & Hq).
  { unfold EventDispatch, lock_clients, unlock_clients, mutex_lock, mutex_unlock, ev_load, ev_store,
      gets, mbind, M_bind in Hrun.
    rewrite Hfree in Hrun. cbn in Hrun. rewrite Hp in Hrun. cbn in Hrun. rewrite Hp in Hrun.
    cbn in Hrun. rewrite lookup_insert_eq in Hrun. cbn in Hrun.
    rewrite (proj2 (Z.eqb_neq _ _) Hdst) in Hrun. fold e1 w1 in Hrun.
    assert (EventDestroy p w1 = Ok tt w1) as Hnop.
    { unfold EventDestroy, mbind, M_bind, ev_load. rewrite Hp1. cbn.
      change (IsPersistent e1) with (IsPersistent e). by rewrite Hper. }
    case_bool_decide as Hin.
    - destruct (proj1 (core_dom _ _ (proj1 Hw) dst) Hin) as [cl Hcl].
      destruct (event_enable cl) eqn:Hen.
      + destruct (EventPush_run w1 dst cl p this e1) as (q' & h' & Hsc & Hpush); try done.
        { by apply (core_qmutex _ _ (proj1 Hw) dst). }
        { intros x Hx. cbn. destruct (core_live w H dst cl x) as [ex Hx']; [apply Hw|done..|].
          apply lookup_insert_is_Some'. right. by eexists. }
        { change (IsExclusive e1) with (IsExclusive e). congruence. }
        unfold scanned_if in Hsc. change (IsExclusive e1) with (IsExclusive e) in Hsc.
        rewrite Hex in Hsc. destruct Hsc as [-> ->]. rewrite Hpush in Hrun. cbn in Hrun. simplify_eq.
        exists (SetSource this e1). split_and!.
        * by repeat split.
        * cbn. by rewrite insert_insert_eq.
        * intros c x. unfold queue_of. cbn. destruct (decide (c = dst)) as [->|Hcd].
          -- rewrite lookup_insert_eq, Hcl. cbn. unfold insert_event. case_match; set_solver.
          -- rewrite lookup_insert_ne by done. by left.
      + assert (EventPush dst p this w1 = Ok tt w1) as Hpush.
        { unfold EventPush, mbind, M_bind, client_get. cbn. rewrite Hcl, Hen. exact Hnop. }
        rewrite Hpush in Hrun. cbn in Hrun. simplify_eq. exists e1.
        split_and!; [by repeat split|done|by left].
    - rewrite Hnop in Hrun. cbn in Hrun. simplify_eq. exists e1.
      split_and!; [by repeat split|done|by left]. }
  split; [done|apply Hf| |].
  - intros x. rewrite Hh. destruct (decide (x = p)) as [->|Hx].
    + right. split; [by exists e|]. exists e2. by rewrite Hh, lookup_insert_eq.
    + left. by rewrite lookup_insert_ne.
  - intros c x Hx. destruct (Hq c x Hx) as [?| ->]; [by left|right].
    exists e2. by rewrite Hh, lookup_insert_eq.
Qed.

(** ** The thread *)

(** Its state between two rounds. *)
Record net_safe (H : gset Z) (s : netlink_state) : Prop := NetSafe {
  ns_wf : wf (nl_world s) H;
  ns_reg : event_client (nl_world s) ≠ [];
  ns_clients : ∀ p, p ∈ nl_clients s → net_at (nl_world s) p;
}.

Lemma net_safe_world H s w' l :
  net_safe H s → netted H (nl_world s) w' → sublist l (nl_clients s) →
  net_safe H (set_nl_clients l (set_nl_world w' s)).
Proof.
  intros [Hw Hr Hc] Hn Hl. split; cbn; [apply Hn|by rewrite (nt_reg _ _ _ Hn)|].
  intros p Hp. eapply netted_at; [done|]. apply Hc. by eapply elem_of_sublist.
Qed.

Section thread.
Context (H : gset Z) (this : Z) (Hthis : this ≠ CS_EVENT_BROADCAST).

Lemma net_at_load w p :
  net_at w p → ∃ e t q s r, heap w !! p = Some e ∧ net_query e ∧ ev_class e = EvNetlink t q s r ∧
    nl_load p w = Ok (NlEvent t q s r) w.
Proof.
  intros (e & Hp & He). pose proof He as (_ & _ & _ & _ & _ & _ & t & q & s & r & Hc).
  exists e, t, q, s, r. split_and!; [done..|].
  unfold nl_load, mbind, M_bind, ev_load. by rewrite Hp, Hc.
Qed.

(** A message with sixteen bytes behind it in the buffer. *)
Definition copyable (nh : nat) (b : list byte) : Prop :=
  nh + Z.to_nat (NLMSG_LENGTH (nlmsg_len (header nh b))) ≤ length b.

(** A reply is added to an event, which is dispatched back. *)
Lemma answer_safe s nh p :
  wf (nl_world s) H → event_client (nl_world s) ≠ [] → net_at (nl_world s) p →
  copyable nh (nl_buffer s) →
  ∃ w', (AddReply p nh;; dispatch_back this p) s = Ok tt (set_nl_world w' s) ∧
    netted H (nl_world s) w'.
Proof.
  intros Hw Hr Hp Hcopy.
  destruct (net_at_load _ _ Hp) as (e & t & q & sq & r & He & Hq & Hc & _).
  set (copy := firstn (Z.to_nat (NLMSG_LENGTH (nlmsg_len (header nh (nl_buffer s)))))
    (drop nh (nl_buffer s))).
  assert (nlmsg_copy nh s = Ok copy s) as Hnl.
  { unfold nlmsg_copy, mbind, M_bind, gets. by rewrite (proj2 (Nat.ltb_ge _ _)) by exact Hcopy. }
  set (e1 := set_class (add_replies [copy] (ev_class e)) e).
  set (w1 := set_heap (<[p := e1]> (heap (nl_world s))) (nl_world s)).
  assert (net_query e1) as Hq1.
  { unfold e1. rewrite Hc. destruct Hq as (? & ? & ? & ? & ? & ? & _). repeat split; try done.
    by do 4 eexists. }
  assert (netted H (nl_world s) w1) as Hn1 by by eapply netted_store.
  assert (AddReply p nh s = Ok tt (set_nl_world w1 s)) as Hadd.
  { unfold AddReply. rewrite (bind_ok _ _ _ _ _ Hnl).
    apply (zoom_ok _ _ (push_reply p copy)).
    by apply (push_reply_run (nl_world s) p (NlEvent t q sq r) copy e). }
  rewrite (bind_ok _ _ _ _ _ Hadd).
  destruct (netted_dispatch H w1 this p (GetTarget e1) e1) as (w2 & Hrun & Hn2); [apply Hn1|done| |done|done| |].
  { apply lookup_insert_eq. }
  { apply Hq1. }
  exists w2. split; [|by eapply netted_trans].
  apply (zoom_ok nl_world set_nl_world _ (set_nl_world w1 s)). change (nl_world (set_nl_world w1 s)) with w1.
  assert (ev_load p w1 = Ok e1 w1) as Hload.
  { unfold ev_load, w1. cbn. by rewrite lookup_insert_eq. }
  by rewrite (bind_ok _ _ _ _ _ Hload).
Qed.

Lemma watch_safe nh l : ∀ s,
  wf (nl_world s) H → event_client (nl_world s) ≠ [] → (∀ p, p ∈ l → net_at (nl_world s) p) →
  copyable nh (nl_buffer s) →
  ∃ w', foreach l (watch_reply this nh) s = Ok tt (set_nl_world w' s) ∧ netted H (nl_world s) w'.
Proof.
  induction l as [|p l IH]; intros s Hw Hr Hl Hc.
  { exists (nl_world s). split; [by destruct s|by apply netted_refl]. }
  destruct (net_at_load _ _ (Hl p ltac:(left))) as (e & t & q & sq & r & _ & _ & _ & Hload).
  assert (∃ w1, watch_reply this nh p s = Ok tt (set_nl_world w1 s) ∧ netted H (nl_world s) w1)
    as (w1 & Hrun & Hn1).
  { unfold watch_reply.
    rewrite (bind_ok _ _ _ _ _ (zoom_ok nl_world set_nl_world (nl_load p) s _ _ Hload)). cbn [e_type].
    assert (set_nl_world (nl_world s) s = s) as -> by by destruct s.
    destruct (is_query t).
    - exists (nl_world s). split; [by destruct s|by apply netted_refl].
    - apply answer_safe; [done|done| |done]. apply Hl. left. }
  destruct (IH (set_nl_world w1 s)) as (w2 & Hrun2 & Hn2).
  - apply Hn1.
  - cbn. by rewrite (nt_reg _ _ _ Hn1).
  - intros x Hx. eapply netted_at; [exact Hn1|]. apply Hl. by right.
  - exact Hc.
  - exists w2. split; [|by eapply netted_trans]. cbn [foreach]. by rewrite (bind_ok _ _ _ _ _ Hrun).
Qed.

Lemma query_safe nh h l : ∀ i s,
  wf (nl_world s) H → event_client (nl_world s) ≠ [] → (∀ p, p ∈ l → net_at (nl_world s) p) →
  copyable nh (nl_buffer s) →
  ∃ w' l', query_reply this nh h i l s = Ok tt (set_nl_clients l' (set_nl_world w' s)) ∧
    netted H (nl_world s) w' ∧ sublist l' (nl_clients s).
Proof.
  induction l as [|p l IH]; intros i s Hw Hr Hl Hc.
  { exists (nl_world s), (nl_clients s). split_and!; [by destruct s|by apply netted_refl|done]. }
  destruct (net_at_load _ _ (Hl p ltac:(left))) as (e & t & q & sq & r & _ & _ & _ & Hload).
  cbn [query_reply].
  rewrite (bind_ok _ _ _ _ _ (zoom_ok nl_world set_nl_world (nl_load p) s _ _ Hload)).
  assert (set_nl_world (nl_world s) s = s) as -> by by destruct s.
  cbn [e_type e_seq]. destruct (negb (is_query t)); [apply IH; [done..| |done]; intros x Hx; apply Hl; by right|].
  destruct (negb (sq =? nlmsg_seq h)%Z); [apply IH; [done..| |done]; intros x Hx; apply Hl; by right|].
  destruct (answer_safe s nh p Hw Hr (Hl p ltac:(left)) Hc) as (w1 & Hrun & Hn1).
  assert (∀ A (f : prog netlink_state A), (AddReply p nh;; dispatch_back this p;; f) s =
    ((AddReply p nh;; dispatch_back this p);; f) s) as Hassoc.
  { intros A f. unfold mbind, M_bind. by destruct (AddReply p nh s). }
  rewrite Hassoc, (bind_ok _ _ _ _ _ Hrun). unfold when. destruct (final h).
  - exists w1, (delete i (nl_clients s)). split_and!; [done|done|apply sublist_delete].
  - exists w1, (nl_clients s). split_and!; [by destruct s|done|done].
Qed.

Lemma SendNetlinkReply_safe nh s :
  net_safe H s → copyable nh (nl_buffer s) →
  ∃ w' l', SendNetlinkReply this nh s = Ok tt (set_nl_clients l' (set_nl_world w' s)) ∧
    netted H (nl_world s) w' ∧ sublist l' (nl_clients s).
Proof.
  intros [Hw Hr Hc] Hcopy. unfold SendNetlinkReply, mbind, M_bind, gets.
  destruct (_ || _).
  - destruct (watch_safe nh (nl_clients s) s) as (w' & -> & Hn); [done..|].
    exists w', (nl_clients s). split_and!; [by destruct s|done|done].
  - destruct (_ =? NLMSG_NOOP)%Z; [|by apply query_safe].
    exists (nl_world s), (nl_clients s). split_and!; [by destruct s|by apply netted_refl|done].
Qed.

Lemma align_above n : (0 ≤ n < 2 ^ 31)%Z → (n ≤ NLMSG_ALIGN n)%Z.
Proof.
  intros Hn. unfold NLMSG_ALIGN. rewrite Z.mod_small by lia.
  set (x := (n + 3)%Z). set (m := (2 ^ 32 - 4)%Z).
  assert (Z.land (Z.land x m) (Z.land x 3) = 0)%Z as Hdis.
  { rewrite (Z.land_comm x m), <-Z.land_assoc, (Z.land_assoc x x 3), Z.land_diag,
      (Z.land_comm x 3), Z.land_assoc. by change (Z.land m 3) with 0%Z; rewrite Z.land_0_l. }
  assert (Z.land x m + Z.land x 3 = x)%Z as Hsum.
  { rewrite (Z.add_nocarry_lxor _ _ Hdis), (Z.lxor_lor _ _ Hdis), <-Z.land_lor_distr_r.
    change (Z.lor m 3) with (Z.ones 32). rewrite Z.land_ones, Z.mod_small; unfold x; lia. }
  assert (Z.land x 3 = x mod 4)%Z as Hlow by by apply (Z.land_ones x 2).
  pose proof (Z.mod_pos_bound x 4 ltac:(lia)). unfold x in *. lia.
Qed.

(** The walk over whatever lies in the buffer, of which the first
    [nh + length] bytes are the datagram's. *)
Lemma process_safe fuel : ∀ nh (len : Z) s,
  net_safe H s → (len ≤ Z.of_nat fuel)%Z → (Z.of_nat nh + len + 16 ≤ Z.of_nat (length (nl_buffer s)))%Z →
  (Z.of_nat (length (nl_buffer s)) < 2 ^ 31)%Z →
  ∃ w' l', process_loop fuel this nh len s = Ok tt (set_nl_clients l' (set_nl_world w' s)) ∧
    netted H (nl_world s) w' ∧ sublist l' (nl_clients s).
Proof.
  assert (∀ s, net_safe H s → ∃ w' l', (mret tt : prog netlink_state unit) s =
    Ok tt (set_nl_clients l' (set_nl_world w' s)) ∧ netted H (nl_world s) w' ∧
    sublist l' (nl_clients s)) as Hend.
  { intros s Hs. exists (nl_world s), (nl_clients s).
    split_and!; [by destruct s|apply netted_refl, Hs|done]. }
  induction fuel as [|fuel IH]; intros nh len s Hs Hfuel Hroom Hsmall;
    cbn [process_loop]; unfold mbind at 1, M_bind at 1, gets at 1;
    set (h := header nh (nl_buffer s)); destruct (nlmsg_ok h len) eqn:Hok; cbn [negb]; try by apply Hend.
  { unfold nlmsg_ok in Hok. apply andb_true_iff in Hok as [[H1 _]%andb_true_iff _]. lia. }
  unfold nlmsg_ok in Hok. rewrite !andb_true_iff, !Z.leb_le in Hok. destruct Hok as [[H1 H2] H3].
  assert (NLMSG_LENGTH (nlmsg_len h) = nlmsg_len h + 16)%Z as Hl.
  { unfold NLMSG_LENGTH, NLMSG_HDRLEN. rewrite Z.mod_small; lia. }
  assert (nlmsg_len h ≤ NLMSG_ALIGN (nlmsg_len h))%Z as Hal by (apply align_above; lia).
  destruct (SendNetlinkReply_safe nh s Hs) as (w1 & l1 & Hrun & Hn1 & Hs1).
  { unfold copyable. fold h. rewrite Hl. lia. }
  rewrite (bind_ok _ _ _ _ _ Hrun).
  destruct (IH (nh + Z.to_nat (NLMSG_ALIGN (nlmsg_len h))) (len - NLMSG_ALIGN (nlmsg_len h))%Z
    (set_nl_clients l1 (set_nl_world w1 s))) as (w2 & l2 & Hrun2 & Hn2 & Hs2).
  - by apply net_safe_world.
  - lia.
  - change (nl_buffer (set_nl_clients l1 (set_nl_world w1 s))) with (nl_buffer s). lia.
  - exact Hsmall.
  - exists w2, l2. split_and!; [exact Hrun2|by eapply netted_trans|by etrans].
Qed.
End thread.

(** ** One round *)

(** A datagram leaves room for sixteen bytes in the buffer. *)
Definition fits (r : recv_result) (b : list byte) : Prop :=
  match r with
  | RecvFailed _ => True
  | Datagram bytes => length bytes + NLMSG_HDRLEN ≤ length b ∧ (Z.of_nat (length b) < 2 ^ 31)%Z
  end.

(** What others see of a round. *)
Record round_effect (this : Z) (w w' : world) : Prop := RoundEffect {
  re_clients : ∀ c, is_Some (view w' c) ↔ is_Some (view w c);
  re_own : queue_all net_event w' this;
  re_queue : ∀ c (P : csEvent → Prop), c ≠ this → (∀ e, net_query e → P e) →
    queue_all P w c → queue_all P w' c;
}.

Lemma netted_effect H this w w' :
  wf w H → netted H w w' → queue_all net_event w this → round_effect this w w'.
Proof.
  intros Hw Hn Hq. split.
  - intros c. by eapply netted_clients.
  - eapply netted_queue; [done..| |done]. by right.
  - intros c P _ HP. by eapply netted_queue.
Qed.

Lemma views_effect this w w' q (b : bool) :
  (∀ c, view w' c = if decide (c = this) then Some (b, q) else view w c) →
  is_Some (view w this) → Forall net_event q → round_effect this w w'.
Proof.
  intros Hv Hthis Hq. split.
  - intros c. rewrite Hv. case_decide as Hc; [subst c|done]. split; [done|by eexists].
  - exists b, q. by rewrite Hv, decide_True.
  - intros c P Hc _ (b' & q' & Hq' & HP). exists b', q'. by rewrite Hv, decide_False.
Qed.

Lemma effect_netted H this w w1 w2 :
  wf w1 H → round_effect this w w1 → netted H w1 w2 → round_effect this w w2.
Proof.
  intros Hw1 [Hc Ho Hq] Hn. split.
  - intros c. by rewrite (netted_clients H w1 w2) by done.
  - eapply netted_queue; [done..| |done]. by right.
  - intros c P Hne HP Hall. eapply netted_queue; [done..|]. by apply Hq.
Qed.

(** What the thread keeps when it takes events. *)
Lemma net_at_kept {A} H w (m : prog world A) a w' p :
  wf w H → (∀ ex, IsPersistent ex = true → keeps p ex (λ w, w) m (λ _, True)) →
  m w = Ok a w' → net_at w p → net_at w' p.
Proof.
  intros [Hw _] Hm Hrun (e & Hp & He). exists e. split; [|done].
  eapply (keeps_run (λ w, w)); [apply Hm, He|by eapply there_live|done].
Qed.

Section round.
Context (H : gset Z) (this time : Z) (s : netlink_state) (Hs : net_safe H s).

Abbreviation w0 := (nl_world s).

Lemma safe_taken r w1 :
  EventPop this w0 = Ok r w1 → wf w1 H → event_client w1 ≠ [] → net_safe H (set_nl_world w1 s).
Proof.
  intros Hpop Hw1 Hr. split; [done|done|]. intros p Hp.
  eapply (net_at_kept H w0); [apply Hs|intros; by apply kept_EventPop|done|by apply Hs].
Qed.

(** The round for an event that is no netlink event. *)
Lemma round_other b e q :
  view w0 this = Some (b, e :: q) → Forall net_event (e :: q) → GetId e ≠ csEVENT_NETLINK →
  receivable e →
  ∃ quit s', netlink_round this time (RecvFailed EAGAIN) s = Ok quit s' ∧ net_safe H s' ∧
    nl_buffer s' = nl_buffer s ∧ round_effect this w0 (nl_world s').
Proof.
  intros Hv Hq Hid Hre. destruct (pop_destroy_run w0 H this b e q (ns_wf _ _ Hs) Hv Hre)
    as (r & w1 & e1 & w2 & Hpop & Hr & He1 & Hid1 & _ & _ & Hdel & Hw2 & Hv2).
  assert (round_effect this w0 w2) as Heff.
  { eapply views_effect; [exact Hv2|by eexists|]. apply Forall_cons in Hq as [He Hq].
    destruct (IsSticky e); [by constructor|done]. }
  assert (net_safe H (set_nl_world w2 s)) as Hs2.
  { split; [done| |].
    - apply (view_registered w2 H this (proj1 Hw2)). apply Heff. by eexists.
    - intros p Hp. apply (net_at_kept H w0 (EventPop this;; EventDestroy r) tt); [apply Hs| | |by apply Hs].
      + intros ex Hex. eapply keeps_bind; [by apply kept_EventPop|]. intros _ _. by apply kept_EventDestroy.
      + unfold mbind, M_bind. by rewrite Hpop. }
  unfold netlink_round. rewrite Z.eqb_refl. cbn [negb].
  rewrite (bind_ok _ _ _ _ _ (zoom_ok nl_world set_nl_world (EventPop this) s _ _ Hpop)).
  rewrite (proj2 (Z.eqb_neq _ _)) by done.
  assert (on_net (ev_load r) (set_nl_world w1 s) = Ok e1 (set_nl_world w1 s)) as Hload.
  { unfold zoom, ev_load. cbn. by rewrite He1. }
  assert (on_net (EventDestroy r) (set_nl_world w1 s) = Ok tt (set_nl_world w2 s)) as Hdestroy.
  { by apply (zoom_ok nl_world set_nl_world (EventDestroy r) (set_nl_world w1 s)). }
  rewrite (bind_ok _ _ _ _ _ Hload), Hid1.
  destruct (GetId e =? csEVENT_QUIT)%Z.
  - exists true, (set_nl_world w2 s). by rewrite (bind_ok _ _ _ _ _ Hdestroy).
  - rewrite (proj2 (Z.eqb_neq _ _)) by done.
    exists false, (set_nl_world w2 s). by rewrite (bind_ok _ _ _ _ _ Hdestroy).
Qed.

(** The round that registers a netlink event. *)
Lemma round_query b e q :
  view w0 this = Some (b, e :: q) → Forall net_event q → net_query e →
  ∃ quit s', netlink_round this time (RecvFailed EAGAIN) s = Ok quit s' ∧ net_safe H s' ∧
    nl_buffer s' = nl_buffer s ∧ round_effect this w0 (nl_world s').
Proof.
  intros Hv Hq He. pose proof He as (Hper & Hex & Hst & Hid & Hsrc & Htgt & t & qy & old & rp & Hc).
  destruct (pop_take_run w0 H this b e q (ns_wf _ _ Hs) Hv Hst)
    as (r & w1 & Hpop & Hr & He1 & _ & Hw1 & Hv1).
  unfold EventOps.take in Hw1. rewrite Hper in Hw1.
  assert (round_effect this w0 w1) as Heff by (eapply views_effect; [exact Hv1|by eexists|done]).
  assert (net_safe H (set_nl_world w1 s)) as Hs1.
  { eapply safe_taken; [done..|]. apply (view_registered w1 H this (proj1 Hw1)).
    apply Heff. by eexists. }
  set (s1 := set_nl_world w1 s).
  pose proof (ProcessEvent_run time r s1 e t qy old rp He1 Hc) as Hrun. cbn zeta in Hrun.
  set (c' := EvNetlink t qy _ rp) in Hrun.
  set (w2 := set_heap (<[r := answerable e c']> (heap w1)) w1).
  assert (net_query (answerable e c')) as Hans by (repeat split; [done..|by do 4 eexists]).
  assert (netted H w1 w2) as Hn by by eapply netted_store.
  unfold netlink_round. rewrite Z.eqb_refl. cbn [negb].
  rewrite (bind_ok _ _ _ _ _ (zoom_ok nl_world set_nl_world (EventPop this) s _ _ Hpop)).
  rewrite (proj2 (Z.eqb_neq _ _)) by done. fold s1.
  assert (on_net (ev_load r) s1 = Ok e s1) as Hload.
  { unfold zoom, ev_load. cbn. by rewrite He1. }
  rewrite (bind_ok _ _ _ _ _ Hload), Hid. cbn [Z.eqb].
  change (csEVENT_NETLINK =? csEVENT_QUIT)%Z with false. rewrite Z.eqb_refl. cbn iota.
  rewrite (bind_ok _ _ _ _ _ Hrun). do 2 eexists. split; [reflexivity|]. split_and!.
  - split; [apply Hn|exact (ns_reg _ _ Hs1)|]. cbn. intros p.
    rewrite elem_of_app, list_elem_of_singleton. intros [Hp| ->].
    + eapply netted_at; [exact Hn|by apply Hs1].
    + exists (answerable e c'). split; [apply lookup_insert_eq|done].
  - done.
  - by eapply effect_netted.
Qed.

(** A round returns, and the thread may go on. *)
Lemma netlink_round_safe r :
  this ≠ CS_EVENT_BROADCAST → queue_all net_event w0 this → fits r (nl_buffer s) →
  ∃ quit s', netlink_round this time r s = Ok quit s' ∧ net_safe H s' ∧
    length (nl_buffer s') = length (nl_buffer s) ∧ round_effect this w0 (nl_world s').
Proof.
  intros Hthis (b & q & Hv & Hq) Hfit.
  assert (round_effect this w0 w0) as Hsame by (split; [done|by exists b, q|done]).
  destruct r as [errno|bytes].
  - destruct (errno =? EAGAIN)%Z eqn:He.
    2:{ exists true, s. split; [|done]. unfold netlink_round. by rewrite He. }
    apply Z.eqb_eq in He as ->. destruct q as [|e q].
    + exists false, s. split; [|done]. pose proof (EventPop_result w0 H this b [] (ns_wf _ _ Hs) Hv) as Hpop.
      cbn in Hpop. unfold netlink_round. rewrite Z.eqb_refl. cbn [negb].
      rewrite (bind_ok _ _ _ _ _ (zoom_ok nl_world set_nl_world (EventPop this) s _ _ Hpop)).
      by destruct s.
    + pose proof Hq as [[[Hid Hre]|He] Hq']%Forall_cons.
      * destruct (round_other b e q Hv Hq Hid Hre) as (quit & s' & ? & ? & Hb & ?).
        exists quit, s'. by rewrite Hb.
      * destruct (round_query b e q Hv Hq' He) as (quit & s' & ? & ? & Hb & ?).
        exists quit, s'. by rewrite Hb.
  - destruct Hfit as [Hroom Hsmall]. set (s1 := set_nl_buffer (overwrite 0 bytes (nl_buffer s)) s).
    assert (length (nl_buffer s1) = length (nl_buffer s)) as Hlen.
    { apply length_overwrite. unfold NLMSG_HDRLEN in *. lia. }
    assert (net_safe H s1) as Hs1 by (destruct Hs; by split).
    destruct (process_safe H this Hthis (length bytes) 0 (Z.of_nat (length bytes)) s1 Hs1)
      as (w' & l' & Hrun & Hn & Hl); [lia|unfold NLMSG_HDRLEN in *; lia|lia|].
    exists false, (set_nl_clients l' (set_nl_world w' s1)). split_and!.
    + unfold netlink_round, ProcessNetlinkMessage. fold s1.
      rewrite (bind_ok _ _ _ tt s1) by done. by rewrite (bind_ok _ _ _ _ _ Hrun).
    + by apply net_safe_world.
    + exact Hlen.
    + eapply netted_effect; [apply Hs|exact Hn|by exists b, q].
Qed.
End round.
