(* ===== verification/Log.v ===== *)
(** * Logging (cslog.cpp, cslog.h)

    The loggers and the static vector they register in; [Log] writes to the
    newest.  What was written is a list of destinations and lines.  The clock
    and the formatted message are arguments. *)

From S2P Require Import Prelude Exception Event.
From Stdlib Require Import Strings.Ascii.

(** ** Loggers *)

Inductive LogType := StdOut | LogFile | Syslog.
#[export] Instance LogType_eq_dec : EqDecision LogType.
Proof. solve_decision. Defined.

Definition Info : Z := 0x01.
Definition Warning : Z := 0x02.
Definition Error : Z := 0x04.
Definition Debug : Z := 0x08.
Definition Everything : Z := Z.lor (Z.lor Info Warning) (Z.lor Error Debug).

Record csLog := CsLog {
  log_type : LogType;
  log_filename : option string;
  log_fh : Z;                    (* FILE *, or NULL *)
  log_ident : option string;
  log_option : Z;
  log_facility : Z;
}.

Inductive log_dest := ToStdout | ToStderr | ToFile (fh : Z) | ToSyslog (priority : Z).

Record log_state := LogState {
  logs : gmap Z csLog;              (* live logger objects *)
  logger : list Z;                  (* static vector<csLog *> *)
  logger_mutex : mutex;             (* static *)
  logger_mask : Z;                  (* static *)
  log_files : gset Z;               (* open FILE * *)
  syslog_open : bool;
  output : list (log_dest * string);
}.

(** The static members as the program starts. *)
Definition log0 : log_state := LogState ∅ [] MNull Everything ∅ false [].

Definition set_logs (l : gmap Z csLog) (s : log_state) : log_state :=
  LogState l (logger s) (logger_mutex s) (logger_mask s) (log_files s) (syslog_open s) (output s).
Definition set_logger (l : list Z) (s : log_state) : log_state :=
  LogState (logs s) l (logger_mutex s) (logger_mask s) (log_files s) (syslog_open s) (output s).
Definition set_logger_mutex (m : mutex) (s : log_state) : log_state :=
  LogState (logs s) (logger s) m (logger_mask s) (log_files s) (syslog_open s) (output s).
Definition set_mask (m : Z) (s : log_state) : log_state :=
  LogState (logs s) (logger s) (logger_mutex s) m (log_files s) (syslog_open s) (output s).
Definition set_files (f : gset Z) (s : log_state) : log_state :=
  LogState (logs s) (logger s) (logger_mutex s) (logger_mask s) f (syslog_open s) (output s).
Definition set_syslog (b : bool) (s : log_state) : log_state :=
  LogState (logs s) (logger s) (logger_mutex s) (logger_mask s) (log_files s) b (output s).
Definition put_line (l : log_dest * string) (s : log_state) : log_state :=
  LogState (logs s) (logger s) (logger_mutex s) (logger_mask s) (log_files s) (syslog_open s)
    (output s ++ [l]).

Definition log_get (p : Z) : prog log_state csLog := λ s,
  match logs s !! p with
  | Some l => Ok l s
  | None => Stuck (UseAfterFree p)
  end.

Definition lock_logger : prog log_state unit := mutex_lock logger_mutex set_logger_mutex.
Definition unlock_logger : prog log_state unit := mutex_unlock logger_mutex set_logger_mutex.

Definition SetMask (mask : Z) : prog log_state unit := modify (set_mask mask).

(** ** Construction and destruction *)

Definition Initialize (this : Z) : prog log_state unit :=
  m ← gets logger_mutex;
  when (bool_decide (m = MNull)) (modify (set_logger_mutex MFree));;
  lock_logger;;
  modify (λ s, set_logger (logger s ++ [this]) s);;
  unlock_logger.

(** The members are set before the body of a constructor. *)
Definition log_members (this : Z) (l : csLog) : prog log_state unit :=
  modify (λ s, set_logs (<[this := l]> (logs s)) s).

(** An exception in the constructor: the object is no more. *)
Definition log_throw (this : Z) (x : csException) : prog log_state unit :=
  modify (λ s, set_logs (delete this (logs s)) s);; throw x.

Definition csLog_new (this : Z) : prog log_state unit :=
  log_members this (CsLog StdOut None NULL None (-1) (-1));; Initialize this.

(** [fopen] gives [errno] or a stream. *)
Definition csLog_new_file (this : Z) (filename : string) (fopen : Z + Z) : prog log_state unit :=
  match fopen with
  | inl errno =>
      log_members this (CsLog LogFile (Some filename) NULL None (-1) (-1));;
      log_throw this (csException_int_str errno "fopen")
  | inr fh =>
      log_members this (CsLog LogFile (Some filename) fh None (-1) (-1));;
      modify (λ s, set_files ({[fh]} ∪ log_files s) s);;
      Initialize this
  end.

(** The loop that counts the loggers of the system log. *)
Fixpoint count_syslog (l : list Z) : prog log_state nat :=
  match l with
  | [] => mret 0
  | p :: l =>
      h ← log_get p;
      n ← count_syslog l;
      mret (if bool_decide (log_type h = Syslog) then S n else n)
  end.

Definition csLog_new_syslog (this : Z) (ident : string) (option facility : Z) :
    prog log_state unit :=
  log_members this (CsLog Syslog None NULL (Some ident) option facility);;
  m ← gets logger_mutex;
  n ← (if bool_decide (m = MNull) then mret 0
       else lock_logger;; l ← gets logger; n ← count_syslog l; unlock_logger;; mret n);
  if negb (n =? 0) then log_throw this (csException_str "Syslog logger already exists.")
  else modify (set_syslog true);; Initialize this.

Definition csLog_delete (this : Z) : prog log_state unit :=
  m ← gets logger_mutex;
  n ← (if bool_decide (m = MNull) then mret 0
       else
         lock_logger;;
         modify (λ s, set_logger (erase_first this (logger s)) s);;
         l ← gets logger;
         n ← count_syslog l;
         unlock_logger;;
         when (length l =? 0) (modify (set_logger_mutex MNull));;
         mret n);
  h ← log_get this;
  match log_type h with
  | StdOut => mret tt
  | LogFile =>
      when (negb (log_fh h =? NULL)%Z)
        (modify (λ s, set_files (log_files s ∖ {[log_fh h]}) s))
  | Syslog => when (n =? 0) (modify (set_syslog false))
  end;;
  modify (λ s, set_logs (delete this (logs s)) s).

(** ** Writing *)

Definition has (bit level : Z) : bool := negb (Z.land level bit =? 0)%Z.

Definition newline : string := String (Ascii.ascii_of_N 10) EmptyString.

(** The clock: [localtime_r] fails with an error text or not, and what
    [strftime] makes of the time when that fits. *)
Record log_clock := LogClock { localtime_error : option string; stamp : option string }.

Definition level_prefix (level : Z) : string :=
  if has Warning level then "[Warning]: "
  else if has Error level then "[Error]: "
  else if has Debug level then "[Debug]: "
  else EmptyString.

Definition LOG_ERR : Z := 3.
Definition LOG_WARNING : Z := 4.
Definition LOG_INFO : Z := 6.
Definition LOG_DEBUG : Z := 7.

Definition priority (level : Z) : Z :=
  if has Warning level then LOG_WARNING
  else if has Error level then LOG_ERR
  else if has Debug level then LOG_DEBUG
  else LOG_INFO.

Definition put (d : log_dest) (line : string) : prog log_state unit := λ s,
  match d with
  | ToFile fh => if bool_decide (fh ∈ log_files s) then Ok tt (put_line (d, line) s)
                 else Stuck (UseAfterFree fh)
  | _ => Ok tt (put_line (d, line) s)
  end.

(** [Log], on the message that [vfprintf] and [vsyslog] make. *)
Definition Log (clock : log_clock) (level : Z) (message : string) : prog log_state unit :=
  mask ← gets logger_mask;
  m ← gets logger_mutex;
  if negb (has level mask) || bool_decide (m = MNull) then mret tt
  else
    lock_logger;;
    l ← gets logger;
    match last l with
    | None => stuck OutOfBounds
    | Some p =>
        if (p =? NULL)%Z then unlock_logger
        else
          h ← log_get p;
          match log_type h with
          | Syslog => put (ToSyslog (priority level)) message
          | t =>
              let stream := match t with
                | LogFile => ToFile (log_fh h)
                | _ => if has (Z.lor Info Warning) level then ToStdout else ToStderr
                end in
              match localtime_error clock with
              | Some err => put ToStderr ("Error converting local time: " ++ err)%string
              | None => mret tt
              end;;
              let time := if bool_decide (t = LogFile) || has Debug mask
                then match stamp clock with Some t => (t ++ " ")%string | None => EmptyString end
                else EmptyString in
              put stream (time ++ level_prefix level ++ message ++ newline)%string
          end;;
          unlock_logger
    end.

(** What [printf] makes of a format without arguments; a conversion would read
    one. *)
Fixpoint printf0 (s : string) : option string :=
  match s with
  | EmptyString => Some EmptyString
  | String c s =>
      if Ascii.eqb c "%"%char then
        match s with
        | String d s => if Ascii.eqb d "%"%char then String d <$> printf0 s else None
        | EmptyString => None
        end
      else String c <$> printf0 s
  end.

(** [Log(level, const string &)]: the message becomes the format. *)
Definition Log_string (clock : log_clock) (level : Z) (message : string) : prog log_state unit :=
  mask ← gets logger_mask;
  m ← gets logger_mutex;
  if negb (has level mask) || bool_decide (m = MNull) then mret tt
  else match printf0 message with
  | Some text => Log clock level text
  | None => stuck OutOfBounds
  end.
