(* ===== verification/LogProps.v ===== *)
(** * Logging: the life of the loggers, and where a line goes *)

From S2P Require Import Prelude Exception Event EventOps Log.

(** ** The invariant of the static members *)

Definition kind (s : log_state) (t : LogType) (p : Z) : Prop :=
  ∃ l, logs s !! p = Some l ∧ log_type l = t.

#[export] Instance kind_dec s t p : Decision (kind s t p).
Proof.
  refine (match logs s !! p as o return logs s !! p = o → _ with
    | Some l => λ Hl, match decide (log_type l = t) with left Ht => left _ | right Ht => right _ end
    | None => λ Hl, right _ end eq_refl); unfold kind.
  - by exists l.
  - intros (l' & Hl' & ?). congruence.
  - intros (l' & Hl' & ?). congruence.
Defined.

(** The mutex exists exactly while a logger does; the vector lists the live
    loggers once each; every log file is open, and its own, and nothing else is
    open; there is one logger of the system log at most, and the connection to
    it is open exactly while it lives. *)
Record log_ok (s : log_state) : Prop := LogOk {
  lo_mutex : logger_mutex s = if decide (logger s = []) then MNull else MFree;
  lo_nodup : NoDup (logger s);
  lo_dom : ∀ p, p ∈ logger s ↔ is_Some (logs s !! p);
  lo_null : NULL ∉ logger s;
  lo_file : ∀ p l, logs s !! p = Some l → log_type l = LogFile →
    log_fh l ≠ NULL ∧ log_fh l ∈ log_files s;
  lo_own : ∀ p q l l', logs s !! p = Some l → logs s !! q = Some l' →
    log_type l = LogFile → log_type l' = LogFile → log_fh l = log_fh l' → p = q;
  lo_used : ∀ h, h ∈ log_files s → ∃ p l, logs s !! p = Some l ∧ log_type l = LogFile ∧ log_fh l = h;
  lo_one : ∀ p q, kind s Syslog p → kind s Syslog q → p = q;
  lo_open : syslog_open s = true ↔ ∃ p, kind s Syslog p;
}.

Lemma log0_empty p l : logs log0 !! p ≠ Some l.
Proof. cbn. by rewrite lookup_empty. Qed.

Lemma log0_ok : log_ok log0.
Proof.
  split.
  - done.
  - apply NoDup_nil_2.
  - intros p. split; [by intros ?%elem_of_nil|]. by intros [l Hl%log0_empty].
  - apply not_elem_of_nil.
  - by intros p l Hl%log0_empty.
  - by intros p q l l' Hl%log0_empty.
  - intros h Hh. by apply elem_of_empty in Hh.
  - by intros p q (l & Hl%log0_empty & _).
  - split; [done|]. by intros (p & l & Hl%log0_empty & _).
Qed.

(** ** The operations *)

Lemma Initialize_run this s :
  logger_mutex s = (if decide (logger s = []) then MNull else MFree) →
  Initialize this s = Ok tt (set_logger (logger s ++ [this]) (set_logger_mutex MFree s)).
Proof.
  intros Hm. unfold Initialize, lock_logger, unlock_logger, mutex_lock, mutex_unlock,
    mbind, M_bind, gets, modify, when. destruct s as [lg l m k f y o]. cbn in *. subst m.
  by destruct (decide (l = [])); cbn.
Qed.

(** Counting looks at live loggers only. *)
Lemma count_syslog_run s l :
  (∀ p, p ∈ l → is_Some (logs s !! p)) →
  ∃ n, count_syslog l s = Ok n s ∧ (n = 0 ↔ ∀ p, p ∈ l → ¬ kind s Syslog p).
Proof.
  induction l as [|p l IH]; intros Hl.
  { exists 0. split; [done|]. split; [|done]. intros _ p ?%elem_of_nil. done. }
  destruct IH as (n & Hn & Hz); [intros q Hq; apply Hl; set_solver|].
  destruct (Hl p) as [h Hh]; [set_solver|].
  exists (if bool_decide (log_type h = Syslog) then S n else n). split.
  - cbn. unfold mbind, M_bind, log_get. rewrite Hh. by rewrite Hn.
  - case_bool_decide as Ht.
    + split; [done|]. intros Hno. destruct (Hno p); [set_solver|]. by exists h.
    + rewrite Hz. split; intros Hno q.
      * intros [->|Hq]%elem_of_cons; [|by apply Hno].
        intros (h' & Hh' & Ht'). congruence.
      * intros Hq. apply Hno. set_solver.
Qed.

(** A logger [l] is made at [p]. *)
Definition added (p : Z) (l : csLog) (s : log_state) : log_state :=
  LogState (<[p := l]> (logs s)) (logger s ++ [p]) MFree (logger_mask s)
    (match log_type l with LogFile => {[log_fh l]} ∪ log_files s | _ => log_files s end)
    (match log_type l with Syslog => true | _ => syslog_open s end) (output s).

Lemma not_syslog t (a b : bool) : t ≠ Syslog → match t with Syslog => a | _ => b end = b.
Proof. by destruct t. Qed.

Lemma kind_added p l s t q :
  logs s !! p = None →
  kind (added p l s) t q ↔ (q = p ∧ log_type l = t) ∨ (q ≠ p ∧ kind s t q).
Proof.
  intros Hp. unfold kind, added; cbn. split.
  - intros (l' & [[<- <-]|[Hne Hl]]%lookup_insert_Some & Ht); [by left|].
    right. split; [done|]. by exists l'.
  - intros [[-> Ht]|[Hne (l' & Hl & Ht)]].
    + exists l. by rewrite lookup_insert_eq.
    + exists l'. by rewrite lookup_insert_ne.
Qed.

(** Look at the parts of the states, and not into the sets. *)
Ltac log_cbn := unfold added; cbn [logs logger logger_mutex log_files syslog_open].

Lemma added_ok p l s :
  log_ok s → logs s !! p = None → p ≠ NULL →
  (log_type l = LogFile → log_fh l ≠ NULL ∧ log_fh l ∉ log_files s) →
  (log_type l = Syslog → ∀ q, ¬ kind s Syslog q) → log_ok (added p l s).
Proof.
  intros Hok Hp Hn Hf Hs. destruct Hok as [Hm Hnd Hd Hnull Hfile Hown Hused Hone Hopen].
  assert (p ∉ logger s) as Hnin by (rewrite Hd, Hp; by intros []).
  split.
  - log_cbn. rewrite decide_False; [done|]. by destruct (logger s).
  - log_cbn. apply NoDup_app. split; [done|]. split; [|apply NoDup_singleton].
    by intros x Hx ->%list_elem_of_singleton.
  - intros q. log_cbn. rewrite elem_of_app, list_elem_of_singleton, Hd, lookup_insert_is_Some. naive_solver.
  - log_cbn. rewrite elem_of_app, list_elem_of_singleton. intros [?|?]; [done|congruence].
  - log_cbn. intros q l' [[<- <-]|[Hne Hl]]%lookup_insert_Some Ht.
    + rewrite Ht. split; [by apply Hf|apply elem_of_union; left; by apply elem_of_singleton].
    + destruct (Hfile q l' Hl Ht). split; [done|]. destruct (log_type l); [done|apply elem_of_union; by right|done].
  - log_cbn. intros q q' l1 l2 [[<- <-]|[Hne1 Hl1]]%lookup_insert_Some
      [[<- <-]|[Hne2 Hl2]]%lookup_insert_Some Ht1 Ht2 Heq; [done|..|by eapply Hown].
    + destruct (Hfile q' l2 Hl2 Ht2), (Hf Ht1). congruence.
    + destruct (Hfile q l1 Hl1 Ht1), (Hf Ht2). congruence.
  - log_cbn. intros h Hh.
    assert ((log_type l = LogFile ∧ h = log_fh l) ∨ h ∈ log_files s) as [[Ht ->]|Hh'].
    { destruct (log_type l); [by right| |by right].
      apply elem_of_union in Hh as [->%elem_of_singleton|Hh]; [by left|by right]. }
    + exists p, l. by rewrite lookup_insert_eq.
    + destruct (Hused h Hh') as (q & l' & Hl' & Hr). exists q, l'.
      rewrite lookup_insert_ne by congruence. done.
  - intros q q'. rewrite !kind_added by done. naive_solver.
  - change (syslog_open (added p l s)) with
      (match log_type l with Syslog => true | _ => syslog_open s end).
    destruct (decide (log_type l = Syslog)) as [Ht|Ht].
    + rewrite Ht. split; [|done]. intros _. exists p. apply kind_added; [done|]. by left.
    + rewrite not_syslog by done.
      rewrite Hopen. split; intros [q Hq]; exists q; [|by apply kind_added in Hq as [[_ ?]|[_ ?]]].
      apply kind_added; [done|]. right. split; [|done]. intros ->.
      destruct Hq as (l' & Hl' & _). congruence.
Qed.

(** The logger [l] at [p] is destroyed. *)
Definition removed (p : Z) (l : csLog) (s : log_state) : log_state :=
  LogState (delete p (logs s)) (erase_first p (logger s))
    (if decide (erase_first p (logger s) = []) then MNull else MFree) (logger_mask s)
    (match log_type l with LogFile => log_files s ∖ {[log_fh l]} | _ => log_files s end)
    (match log_type l with Syslog => false | _ => syslog_open s end) (output s).

Lemma kind_removed p l s t q : kind (removed p l s) t q ↔ q ≠ p ∧ kind s t q.
Proof. unfold kind, removed; log_cbn. setoid_rewrite lookup_delete_Some. naive_solver. Qed.

Lemma removed_ok p l s : log_ok s → logs s !! p = Some l → log_ok (removed p l s).
Proof.
  intros Hok Hp. destruct Hok as [Hm Hnd Hd Hnull Hfile Hown Hused Hone Hopen].
  destruct (erase_first_elem p (logger s) Hnd) as [Hnd' Hin].
  split.
  - done.
  - done.
  - intros q. unfold removed; log_cbn. rewrite Hin, Hd, lookup_delete_is_Some. naive_solver.
  - unfold removed; log_cbn. rewrite Hin. tauto.
  - unfold removed; log_cbn. intros q l' [Hne Hl]%lookup_delete_Some Ht. destruct (Hfile q l' Hl Ht).
    split; [done|]. destruct (log_type l) eqn:Htl; [done| |done].
    apply elem_of_difference. split; [done|]. intros Heq%elem_of_singleton.
    by destruct Hne; eapply Hown.
  - unfold removed; log_cbn. intros q q' l1 l2 [_ Hl1]%lookup_delete_Some [_ Hl2]%lookup_delete_Some. by apply Hown.
  - unfold removed; log_cbn. intros h Hh. assert (h ∈ log_files s ∧ (log_type l = LogFile → h ≠ log_fh l)) as [Hh' Hne].
    { destruct (log_type l); [done| |done]. apply elem_of_difference in Hh as [Hh Hne].
      split; [done|]. intros _ ->. by apply Hne, elem_of_singleton. }
    destruct (Hused h Hh') as (q & l' & Hl' & Ht' & Hr). exists q, l'.
    rewrite lookup_delete_ne; [done|]. intros ->. assert (l' = l) as -> by congruence. by apply Hne.
  - intros q q' [_ Hq]%kind_removed [_ Hq']%kind_removed. by apply Hone.
  - change (syslog_open (removed p l s)) with
      (match log_type l with Syslog => false | _ => syslog_open s end).
    destruct (decide (log_type l = Syslog)) as [Ht|Ht].
    + rewrite Ht. split; [done|]. intros (q & [Hne Hq]%kind_removed). destruct Hne. apply Hone; [done|].
      by exists l.
    + rewrite not_syslog by done.
      rewrite Hopen. split; intros [q Hq]; exists q; [|by apply kind_removed in Hq as [_ ?]].
      apply kind_removed. split; [|done]. intros ->. destruct Hq as (l' & Hl' & Ht'). congruence.
Qed.

(** ** Each operation, from a state in order *)

Lemma insert_delete_logs p l s :
  logs s !! p = None → set_logs (delete p (<[p := l]> (logs s))) (set_logs (<[p := l]> (logs s)) s) = s.
Proof. intros Hp. destruct s. unfold set_logs; cbn in *. by rewrite delete_insert_id. Qed.

Lemma registered p l s f y :
  log_ok s → f = (match log_type l with LogFile => {[log_fh l]} ∪ log_files s | _ => log_files s end) →
  y = (match log_type l with Syslog => true | _ => syslog_open s end) →
  Initialize p (set_syslog y (set_files f (set_logs (<[p := l]> (logs s)) s))) = Ok tt (added p l s).
Proof.
  intros Hok -> ->. rewrite Initialize_run by apply (lo_mutex s Hok). unfold added. by destruct s.
Qed.

Lemma csLog_new_run p s : log_ok s →
  csLog_new p s = Ok tt (added p (CsLog StdOut None NULL None (-1) (-1)) s).
Proof.
  intros Hok. rewrite <-(registered p (CsLog StdOut None NULL None (-1) (-1)) s _ _ Hok eq_refl eq_refl).
  by destruct s.
Qed.

Definition file_log (name : string) (fh : Z) : csLog := CsLog LogFile (Some name) fh None (-1) (-1).

Lemma csLog_new_file_run p name fopen s : log_ok s → logs s !! p = None →
  csLog_new_file p name fopen s =
    match fopen with
    | inl errno => Throw (csException_int_str errno "fopen") s
    | inr fh => Ok tt (added p (file_log name fh) s)
    end.
Proof.
  intros Hok Hp. unfold csLog_new_file. destruct fopen as [errno|fh].
  - unfold log_members, log_throw, mbind, M_bind, modify, throw. f_equal.
    by apply insert_delete_logs.
  - rewrite <-(registered p (file_log name fh) s _ _ Hok eq_refl eq_refl). by destruct s.
Qed.

Definition syslog_log (ident : string) (o f : Z) : csLog := CsLog Syslog None NULL (Some ident) o f.

(** What the constructor of the system log and the destructor do under the
    lock. *)
Lemma locked_count s l n :
  logger_mutex s = MFree → l = logger s → count_syslog l (set_logger_mutex MHeld s) = Ok n (set_logger_mutex MHeld s) →
  (lock_logger;; l ← gets logger; n ← count_syslog l; unlock_logger;; mret n) s = Ok n s.
Proof.
  intros Hm -> Hn. unfold lock_logger, unlock_logger, mutex_lock, mutex_unlock, mbind, M_bind, gets.
  rewrite Hm. cbn [logger set_logger_mutex]. change (logger (set_logger_mutex MHeld s)) with (logger s).
  rewrite Hn. cbn. destruct s. cbn in *. by subst.
Qed.

Lemma csLog_new_syslog_run p ident o f s : log_ok s → logs s !! p = None →
  (csLog_new_syslog p ident o f s = Ok tt (added p (syslog_log ident o f) s) ∧
    ∀ q, ¬ kind s Syslog q) ∨
  (csLog_new_syslog p ident o f s = Throw (csException_str "Syslog logger already exists.") s ∧
    ∃ q, kind s Syslog q).
Proof.
  intros Hok Hp. set (l := syslog_log ident o f).
  set (s1 := set_logs (<[p := l]> (logs s)) s).
  assert (∀ q, q ∈ logger s → is_Some (logs s1 !! q) ∧ (kind s1 Syslog q ↔ kind s Syslog q)) as Hq.
  { intros q Hq. assert (q ≠ p) as Hne.
    { intros ->. apply (lo_dom s Hok) in Hq. rewrite Hp in Hq. by destruct Hq. }
    unfold kind, s1; cbn. rewrite lookup_insert_ne by done. split; [by apply (lo_dom s Hok)|done]. }
  assert (∃ n, (m ← gets logger_mutex;
    (if bool_decide (m = MNull) then mret 0
     else lock_logger;; l ← gets logger; n ← count_syslog l; unlock_logger;; mret n)) s1 = Ok n s1 ∧
    (n = 0 ↔ ∀ q, q ∈ logger s → ¬ kind s Syslog q)) as (n & Hrun & Hn).
  { unfold mbind at 1, M_bind at 1, gets at 1. change (logger_mutex s1) with (logger_mutex s).
    pose proof (lo_mutex s Hok) as Hm. case_decide as Hnil.
    - exists 0. rewrite Hm. split; [done|]. rewrite Hnil. split; [|done]. by intros _ q ?%elem_of_nil.
    - destruct (count_syslog_run (set_logger_mutex MHeld s1) (logger s)) as (n & Hc & Hz).
      { intros q Hin. by apply Hq. }
      exists n. rewrite Hm. split; [by apply (locked_count s1 (logger s) n)|].
      rewrite Hz. split; intros Hno q Hin Hk; apply (Hno q Hin); by apply (Hq q Hin). }
  unfold csLog_new_syslog. rewrite (bind_ok _ _ _ tt s1) by done.
  assert (∀ B (g : nat → prog log_state B), (m ← gets logger_mutex;
    n ← (if bool_decide (m = MNull) then mret 0
     else lock_logger;; l ← gets logger; n ← count_syslog l; unlock_logger;; mret n); g n) s1 = g n s1) as Hb.
  { intros B g. unfold mbind, M_bind, gets in *. by rewrite Hrun. }
  rewrite Hb. destruct n as [|n]; cbn [Nat.eqb negb].
  - left. split.
    + rewrite (bind_ok _ _ _ tt (set_syslog true s1)) by done.
      rewrite <-(registered p l s (log_files s) true Hok eq_refl eq_refl). by destruct s.
    + intros q Hk. apply (proj1 Hn eq_refl q); [|done]. apply (lo_dom s Hok). destruct Hk as (? & ? & _). eauto.
  - right. split.
    + unfold log_throw, mbind, M_bind, modify, throw. f_equal. by apply insert_delete_logs.
    + destruct (decide (Exists (kind s Syslog) (logger s))) as [[q [_ Hk]]%Exists_exists|Hno].
      { by exists q. }
      assert (S n = 0) as Hbad; [|done]. apply Hn. intros q Hin Hk. apply Hno, Exists_exists. by exists q.
Qed.

Lemma csLog_delete_run p l s : log_ok s → logs s !! p = Some l →
  csLog_delete p s = Ok tt (removed p l s).
Proof.
  intros Hok Hp. pose proof (lo_mutex s Hok) as Hm.
  assert (p ∈ logger s) as Hin by (apply (lo_dom s Hok); eauto).
  rewrite decide_False in Hm by (intros Hnil; rewrite Hnil in Hin; by apply elem_of_nil in Hin).
  destruct (erase_first_elem p (logger s) (lo_nodup s Hok)) as [_ Her].
  set (sl := set_logger (erase_first p (logger s)) (set_logger_mutex MHeld s)).
  destruct (count_syslog_run sl (erase_first p (logger s))) as (n & Hc & Hz).
  { intros q Hq. cbn. apply (lo_dom s Hok), (Her q), Hq. }
  assert (log_type l = Syslog → n = 0) as Hn.
  { intros Ht. apply Hz. intros q [Hne _]%Her Hk. apply Hne, (lo_one s Hok); [exact Hk|by exists l]. }
  unfold csLog_delete, lock_logger, unlock_logger, mutex_lock, mutex_unlock, when.
  unfold mbind, M_bind, gets, modify. rewrite Hm. cbn [bool_decide decide_rel].
  rewrite bool_decide_eq_false_2 by done. rewrite Hm. cbn [set_logger_mutex logger].
  change (set_logger (erase_first p (logger s)) (set_logger_mutex MHeld s)) with sl.
  change (logger sl) with (erase_first p (logger s)). rewrite Hc.
  change (logger_mutex sl) with MHeld. cbn [mret M_ret].
  unfold removed. destruct s as [lg lr m k f y o]. cbn in *.
  destruct (erase_first p lr) as [|q rest] eqn:Hr; cbn; unfold log_get; cbn; rewrite Hp; cbn.
  - destruct (log_type l) eqn:Ht; cbn; [done| |by rewrite Hn].
    destruct (lo_file _ Hok p l Hp Ht) as [Hfh _]. by rewrite (proj2 (Z.eqb_neq _ _) Hfh).
  - destruct (log_type l) eqn:Ht; cbn; [done| |by rewrite Hn].
    destruct (lo_file _ Hok p l Hp Ht) as [Hfh _]. by rewrite (proj2 (Z.eqb_neq _ _) Hfh).
Qed.

(** What a call of [Log] writes when the logger [l] is the newest. *)
Definition log_lines (clock : log_clock) (mask level : Z) (message : string) (l : csLog) :
    list (log_dest * string) :=
  match log_type l with
  | Syslog => [(ToSyslog (priority level), message)]
  | t =>
      match localtime_error clock with
      | Some err => [(ToStderr, ("Error converting local time: " ++ err)%string)]
      | None => []
      end ++
      [(match t with
        | LogFile => ToFile (log_fh l)
        | _ => if has (Z.lor Info Warning) level then ToStdout else ToStderr
        end,
        ((if bool_decide (t = LogFile) || has Debug mask
          then match stamp clock with Some t => t ++ " " | None => EmptyString end
          else EmptyString) ++ level_prefix level ++ message ++ newline)%string)]
  end.

Definition set_output (o : list (log_dest * string)) (s : log_state) : log_state :=
  LogState (logs s) (logger s) (logger_mutex s) (logger_mask s) (log_files s) (syslog_open s) o.

Lemma Log_run clock level message s : log_ok s →
  Log clock level message s = Ok tt (set_output (output s ++
    (if has level (logger_mask s)
     then match last (logger s) ≫= λ p, logs s !! p with
          | Some l => log_lines clock (logger_mask s) level message l
          | None => []
          end
     else [])) s).
Proof.
  intros Hok. unfold Log. unfold mbind at 1, M_bind at 1, gets at 1.
  unfold mbind at 1, M_bind at 1, gets at 1. pose proof (lo_mutex s Hok) as Hm.
  destruct (has level (logger_mask s)) eqn:Hl; cbn [negb orb].
  2:{ rewrite app_nil_r. by destruct s. }
  destruct (last (logger s)) as [p|] eqn:Hlast.
  - assert (p ∈ logger s) as Hin by (apply last_Some_elem_of; done).
    destruct (proj1 (lo_dom s Hok p) Hin) as [l Hp].
    rewrite decide_False in Hm by (intros Hnil; rewrite Hnil in Hin; by apply elem_of_nil in Hin).
    rewrite Hm, bool_decide_eq_false_2 by done. cbn [option_bind mbind].
    change (Some p ≫= λ p, logs s !! p) with (logs s !! p). rewrite Hp.
    destruct s as [lg lr m k f y o]. cbn in Hm, Hlast, Hp, Hl. subst m.
    unfold mbind at 1, M_bind at 1, lock_logger, mutex_lock. cbn [logger_mutex set_logger_mutex].
    unfold mbind at 1, M_bind at 1, gets at 1. cbn [logger set_logger_mutex]. rewrite Hlast.
    assert (p ≠ NULL) as Hnull by (intros ->; by apply (lo_null _ Hok)).
    rewrite (proj2 (Z.eqb_neq _ _) Hnull).
    unfold mbind at 1, M_bind at 1, log_get at 1. cbn [logs set_logger_mutex]. rewrite Hp.
    unfold log_lines. destruct (log_type l) eqn:Ht.
    + unfold mbind, M_bind. destruct (localtime_error clock); cbn; unfold put;
        destruct (has (Z.lor Info Warning) level); unfold put_line; cbn; rewrite <-?app_assoc; reflexivity.
    + destruct (lo_file _ Hok p l Hp Ht) as [_ Hopen]. cbn in Hopen.
      unfold mbind, M_bind. destruct (localtime_error clock); cbn;
        rewrite bool_decide_eq_true_2 by done; unfold put_line; cbn; rewrite <-?app_assoc;
        reflexivity.
    + done.
  - apply last_None in Hlast. rewrite decide_True in Hm by done. rewrite Hm. cbn.
    rewrite app_nil_r. by destruct s.
Qed.

(** ** Every run of the loggers *)

Inductive log_op :=
  | OpNew (p : Z)
  | OpFile (p : Z) (name : string) (fopen : Z + Z)
  | OpSyslog (p : Z) (ident : string) (option facility : Z)
  | OpDelete (p : Z)
  | OpMask (mask : Z)
  | OpLog (clock : log_clock) (level : Z) (message : string).

Definition run_op (o : log_op) : prog log_state unit :=
  match o with
  | OpNew p => csLog_new p
  | OpFile p name fopen => csLog_new_file p name fopen
  | OpSyslog p ident o f => csLog_new_syslog p ident o f
  | OpDelete p => csLog_delete p
  | OpMask mask => SetMask mask
  | OpLog clock level message => Log clock level message
  end.

(** Objects are made at new addresses, [fopen] gives new streams, and what is
    destroyed is alive. *)
Definition op_ok (o : log_op) (s : log_state) : Prop :=
  match o with
  | OpNew p | OpSyslog p _ _ _ => logs s !! p = None ∧ p ≠ NULL
  | OpFile p _ fopen => logs s !! p = None ∧ p ≠ NULL ∧
      match fopen with inr fh => fh ≠ NULL ∧ fh ∉ log_files s | inl _ => True end
  | OpDelete p => is_Some (logs s !! p)
  | OpMask _ | OpLog _ _ _ => True
  end.

Inductive log_step : log_state → log_state → Prop :=
  | log_step_ok o s s' : op_ok o s → run_op o s = Ok tt s' → log_step s s'
  | log_step_throw o s x s' : op_ok o s → run_op o s = Throw x s' → log_step s s'.

(** One operation never gets stuck, and keeps the invariant when it returns
    and when it throws. *)
Lemma run_op_ok o s : log_ok s → op_ok o s → wp (run_op o) (λ _, log_ok) (λ _, log_ok) s.
Proof.
  intros Hok Ho. unfold wp. destruct o as [p|p name fopen|p ident o f|p|mask|clock level message]; cbn in *.
  - destruct Ho as [Hp Hn]. rewrite csLog_new_run by done. by apply added_ok.
  - destruct Ho as (Hp & Hn & Hf). rewrite csLog_new_file_run by done.
    destruct fopen as [errno|fh]; [done|]. by apply added_ok.
  - destruct Ho as [Hp Hn].
    destruct (csLog_new_syslog_run p ident o f s Hok Hp) as [[-> Hno]|[-> _]]; [|done].
    by apply added_ok.
  - destruct Ho as [l Hp]. rewrite (csLog_delete_run p l) by done. by apply removed_ok.
  - destruct Hok. by split.
  - rewrite Log_run by done. destruct Hok. by split.
Qed.

Lemma log_step_inv s s' : log_ok s → log_step s s' → log_ok s'.
Proof.
  intros Hok Hst. destruct Hst as [o s s' Ho Hrun|o s x s' Ho Hrun];
    pose proof (run_op_ok o s Hok Ho) as Hwp; unfold wp in Hwp; by rewrite Hrun in Hwp.
Qed.

(** C23. However loggers are made, fail to be made, are destroyed, masked and
    used: the vector lists the live loggers and its mutex exists exactly while
    one does, the log files that are open are those of the live loggers, at
    most one logger is of the system log, and every call of [Log] returns and
    writes what [log_lines] says of the newest logger, or nothing when the
    level is masked or no logger is left. *)
Theorem loggers_safe s :
  rtc log_step log0 s →
  log_ok s ∧
  (∀ o, op_ok o s → ∀ f, run_op o s ≠ Stuck f) ∧
  ∀ clock level message, ∃ lines,
    Log clock level message s = Ok tt (set_output (output s ++ lines) s) ∧
    ((has level (logger_mask s) = false ∨ logger s = []) → lines = []) ∧
    (∀ p l, has level (logger_mask s) = true → last (logger s) = Some p → logs s !! p = Some l →
      lines = log_lines clock (logger_mask s) level message l).
Proof.
  intros Hs. assert (log_ok s) as Hok.
  { enough (∀ s0, log_ok s0 → rtc log_step s0 s → log_ok s) as Hgen by by apply (Hgen log0 log0_ok).
    clear Hs. intros s0 H0 Hr. induction Hr as [s|s1 s2 s3 Hst _ IH]; [done|]. apply IH.
    by eapply log_step_inv. }
  split; [done|]. split.
  - intros o Ho f Hf. pose proof (run_op_ok o s Hok Ho) as Hwp. unfold wp in Hwp. by rewrite Hf in Hwp.
  - intros clock level message. eexists. split; [by apply Log_run|]. split.
    + intros [->| ->]; [done|]. by destruct (has level _).
    + intros p l -> -> Hp. cbn. by rewrite Hp.
Qed.

(** The log of the standard output, then the system log; a second system log
    is refused. *)
Definition sample_log1 : log_state := added 1 (CsLog StdOut None NULL None (-1) (-1)) log0.
Definition sample_log2 : log_state := added 2 (syslog_log "clearsyncd" 1 24) sample_log1.

Lemma loggers_safe_witness :
  rtc log_step log0 sample_log2 ∧
  Log (LogClock None None) Warning "disk" sample_log2 =
    Ok tt (set_output [(ToSyslog LOG_WARNING, "disk")] sample_log2).
Proof.
  assert (rtc log_step log0 sample_log2) as Hr.
  { eapply rtc_l; [apply (log_step_ok (OpNew 1) log0 sample_log1); [by split|reflexivity]|].
    eapply rtc_l; [|apply rtc_refl].
    apply (log_step_ok (OpSyslog 2 "clearsyncd" 1 24) sample_log1 sample_log2); [by split|].
    vm_compute. reflexivity. }
  split; [exact Hr|].
  destruct (loggers_safe sample_log2 Hr) as (_ & _ & Hlog).
  destruct (Hlog (LogClock None None) Warning "disk") as (lines & Hrun & _ & Hlines).
  specialize (Hlines 2%Z (syslog_log "clearsyncd" 1 24) eq_refl eq_refl eq_refl).
  rewrite Hlines in Hrun. exact Hrun.
Defined.

(** [Log] for a [string] uses the message as a format: a message with a
    conversion makes it read arguments that are not there. *)
Lemma Log_string_format clock level s :
  log_ok s → logger s ≠ [] → has level (logger_mask s) = true →
  Log_string clock level "100% done" s = Stuck OutOfBounds.
Proof.
  intros Hok Hne Hl. unfold Log_string, mbind, M_bind, gets.
  rewrite Hl, (lo_mutex s Hok), decide_False by done. done.
Qed.
