(* ===== verification/Example.v ===== *)
(** * The example plugin (plugin/csplugin-example.cpp)

    A plugin as the program loads them: its thread counts the events it
    handles, over restarts, and runs a timer; its configuration has one tag.
    It uses the event clients, the timers, the plugin state and the XML parser
    through their operations. *)

From S2P Require Import Prelude Exception Bytes Event Timer Plugin Conf.

(** ** The thread *)

(** The parts of the process the thread works on: timers and bus, and its own
    variables. *)
Record csPluginExample := PluginExample {
  x_timers : timer_state world;
  x_vars : pstate;
}.

Definition set_x_timers (t : timer_state world) (s : csPluginExample) : csPluginExample :=
  PluginExample t (x_vars s).
Definition set_x_vars (v : pstate) (s : csPluginExample) : csPluginExample :=
  PluginExample (x_timers s) v.

Abbreviation on_timers m := (zoom x_timers set_x_timers m).
Abbreviation on_events m := (zoom x_timers set_x_timers (zoom bus set_bus m)).
Abbreviation on_vars m := (zoom x_vars set_x_vars m).

(** The number in the log line for a timer event:
    [static_cast<csEventTimer * >(event)->GetTimer()->GetId()]. *)
Definition timer_of_event (e : csEvent) : prog csPluginExample Z :=
  match ev_class e with
  | EvTimer t => tm ← on_timers (timer_get t); mret (timer_ident tm)
  | _ => stuck OutOfBounds
  end.

(** The body of the loop for an event that [EventPopWait] returned; the
    result is [run].  The event is deleted whether or not it persists. *)
Definition example_event (event : Z) : prog csPluginExample bool :=
  e ← on_events (ev_load event);
  run ← (if (GetId e =? csEVENT_QUIT)%Z then mret false
         else if (GetId e =? csEVENT_TIMER)%Z then timer_of_event e;; mret true
         else mret true);
  on_events (ev_delete event);;
  mret run.

(** The loop: the value of [loops] when it ends, or nothing while it waits (or
    after [fuel] events).  [loops] is an [unsigned long]. *)
Fixpoint example_loop (fuel : nat) (this loops : Z) : prog csPluginExample (option Z) :=
  match fuel with
  | O => mret None
  | S fuel =>
      event ← on_events (EventPop this);
      if (event =? CS_EVENT_NONE)%Z then mret None
      else
        run ← example_event event;
        let loops := ((loops + 1) mod 2 ^ 64)%Z in
        if (run : bool) then example_loop fuel this loops else mret (Some loops)
  end.

(** [Entry]; the new timer is at [timer].  [true] when it returned. *)
Definition example_entry (fuel : nat) (this timer : Z) : prog csPluginExample bool :=
  v ← on_vars (GetStateVar_ulong "loops");
  let loops := default 0%Z v in
  on_timers (csTimer_new timer 500 3 3 this);;
  on_timers (Start timer);;
  r ← example_loop fuel this loops;
  match r with
  | None => mret false
  | Some loops =>
      on_timers (csTimer_delete timer);;
      on_vars (SetStateVar_ulong "loops" loops);;
      mret true
  end.

(** ** The configuration *)

Section conf.
Context {C : Type}.

Definition example_open (p : Z) : prog (xml_state C) unit := mret tt.

Definition example_close (p : Z) : prog (xml_state C) unit :=
  t ← tag_get p;
  if tag_is "test-tag" t then
    st ← gets stack;
    match last st with
    | None => ParseError ("unexpected tag: " ++ tag_name t)
    | Some q =>
        pt ← tag_get q;
        when (negb (tag_is "plugin" pt)) (ParseError ("unexpected tag: " ++ tag_name t))
    end;;
    when (String.length (tag_text t) =? 0)%nat
      (ParseError ("missing value for tag: " ++ tag_name t))
  else mret tt.

Definition example_handlers : XmlHandlers C := {|
  ParseElementOpen := example_open;
  ParseElementClose := example_close;
|}.

(** [Reload]: [csConf::Reload] and a parse. *)
Definition example_reload (page_size : nat) (filename : string) (fopen : Z + list xml_page) :
    prog (xml_state C) unit :=
  Reset page_size;; @Parse C example_handlers page_size filename fopen.

(** [SetConfigurationFile]: the first call makes the configuration and reads
    it; the state is there once it has been called. *)
Definition example_configure (page_size : nat) (filename : string) (fopen : Z + list xml_page)
    (fresh : xml_state C) : prog (option (xml_state C)) unit := λ conf,
  match conf with
  | Some s => Ok tt (Some s)
  | None =>
      match example_reload page_size filename fopen fresh with
      | Ok _ s => Ok tt (Some s)
      | Throw x s => Throw x (Some s)
      | Stuck f => Stuck f
      end
  end.
End conf.
