(* ===== verification/ExampleProps.v ===== *)
(** * The example plugin: what it counts survives, and its parser

    The composition of the event clients, the timers and the plugin state in
    the thread of a plugin, and the parser's contract for its handlers. *)

From S2P Require Import Prelude Exception Bytes Event EventInv EventOps Bus EventProps.
From S2P Require Import Timer TimerProps Plugin PluginProps Conf ConfProps Example.

(** ** The loop *)

Definition with_world (w : world) (s : csPluginExample) : csPluginExample :=
  set_x_timers (set_bus w (x_timers s)) s.

Definition world_of (s : csPluginExample) : world := bus (x_timers s).

(** The timer a timer event is from is alive. *)
Definition timer_alive (ts : gmap Z csTimer) (e : csEvent) : Prop :=
  GetId e = csEVENT_TIMER → IsSticky e = false ∧
    ∃ t, ev_class e = EvTimer t ∧ is_Some (ts !! t).

(** The events the loop counts before it goes on. *)
Definition countable (ts : gmap Z csTimer) (e : csEvent) : Prop :=
  IsSticky e = false ∧ IsPersistent e = false ∧ GetId e ≠ csEVENT_QUIT ∧ timer_alive ts e.

Lemma persistent_flags e e1 : GetFlags e1 = GetFlags e → IsPersistent e1 = IsPersistent e.
Proof. unfold IsPersistent, GetFlags. by intros ->. Qed.

(** One turn of the loop. *)
Lemma example_event_run this s H b e q :
  wf (world_of s) H → view (world_of s) this = Some (b, e :: q) → receivable e →
  IsPersistent e = false → timer_alive (timers (x_timers s)) e →
  ∃ r w1 w2, EventPop this (world_of s) = Ok r w1 ∧ r ≠ CS_EVENT_NONE ∧
    example_event r (with_world w1 s) =
      Ok (negb (GetId e =? csEVENT_QUIT)%Z) (with_world w2 s) ∧ wf w2 H ∧
    view w2 this = Some (b, if IsSticky e then e :: q else q).
Proof.
  intros Hwf Hv Hre Hper Htm. destruct (pop_destroy_run _ H this b e q Hwf Hv Hre)
    as (r & w1 & e1 & w2 & Hpop & Hr & Hr1 & Hid & Hfl & Hst & Hdel & Hwf2 & Hv2).
  exists r, w1, w2. split_and!; try done; [|by rewrite Hv2, decide_True].
  assert (ev_delete r w1 = Ok tt w2) as Hd.
  { unfold EventDestroy, mbind, M_bind, ev_load in Hdel. rewrite Hr1 in Hdel.
    by rewrite (persistent_flags e e1 Hfl), Hper in Hdel. }
  unfold example_event, mbind, M_bind, zoom, ev_load. cbn. rewrite Hr1. cbn. rewrite Hid.
  destruct (GetId e =? csEVENT_QUIT)%Z eqn:Hq; cbn; [by rewrite Hd|].
  destruct (GetId e =? csEVENT_TIMER)%Z eqn:Ht; cbn; [|by rewrite Hd].
  apply Z.eqb_eq in Ht. destruct (Htm Ht) as (Hns & t & Hc & tm & Ht').
  rewrite (Hst Hns). unfold timer_of_event. rewrite Hc. unfold mbind, M_bind, zoom, timer_get.
  cbn. rewrite Ht'. cbn. by rewrite Hd.
Qed.

Lemma example_loop_run this fuel b q1 e q2 s H loops :
  wf (world_of s) H → view (world_of s) this = Some (b, q1 ++ e :: q2) →
  Forall (countable (timers (x_timers s))) q1 →
  GetId e = csEVENT_QUIT → receivable e → IsPersistent e = false →
  length q1 < fuel → (0 ≤ loops < 2 ^ 64)%Z →
  ∃ w, example_loop fuel this loops s =
      Ok (Some ((loops + Z.of_nat (length q1) + 1) mod 2 ^ 64)%Z) (with_world w s) ∧ wf w H ∧
    view w this = Some (b, if IsSticky e then e :: q2 else q2).
Proof.
  intros Hwf Hv Hq1 Hid Hre Hper. revert fuel s loops Hwf Hv Hq1.
  induction q1 as [|x q1 IH]; intros fuel s loops Hwf Hv Hq1 Hfuel Hl;
    (destruct fuel as [|fuel]; [cbn in Hfuel; lia|]); cbn [app] in Hv.
  - destruct (example_event_run this s H b e q2) as (r & w1 & w2 & Hpop & Hr & Hrun & Hwf2 & Hv2);
      try done; [intros Hti; rewrite Hid in Hti; done|].
    exists w2. split_and!; [|done|done]. cbn [example_loop].
    unfold mbind, M_bind, zoom. unfold world_of in Hpop. rewrite Hpop.
    rewrite (proj2 (Z.eqb_neq _ _)) by done.
    change (set_x_timers _ s) with (with_world w1 s). rewrite Hrun, Hid. cbn.
    unfold mret, M_ret. do 3 f_equal. lia.
  - apply Forall_cons in Hq1 as [(Hns & Hnp & Hnq & Hta) Hq1].
    destruct (example_event_run this s H b x (q1 ++ e :: q2))
      as (r & w1 & w2 & Hpop & Hr & Hrun & Hwf2 & Hv2); try done.
    { intros Hs. by rewrite Hns in Hs. }
    rewrite Hns in Hv2. cbn in Hfuel.
    destruct (IH fuel (with_world w2 s) ((loops + 1) mod 2 ^ 64)%Z) as (w & Hend & Hwf' & Hv');
      try done; [lia|apply Z.mod_pos_bound; lia|].
    exists w. split_and!; [|done|done]. cbn [example_loop].
    unfold mbind, M_bind, zoom. unfold world_of in Hpop. rewrite Hpop.
    rewrite (proj2 (Z.eqb_neq _ _)) by done.
    change (set_x_timers (set_bus w1 (x_timers s)) s) with (with_world w1 s). rewrite Hrun.
    rewrite (proj2 (Z.eqb_neq _ _)) by done. cbn [negb]. rewrite Hend. f_equal. f_equal.
    cbn [length]. rewrite Nat2Z.inj_succ, <-Z.add_assoc, Zplus_mod_idemp_l. f_equal. lia.
Qed.

(** ** The thread, over a restart *)

(** The timer of the thread while it runs. *)
Definition example_timer (this : Z) : csTimer := CsTimer true 500 this 3 3 MFree.

(** Where the count starts. *)
Definition loops_of (m : gmap string (list byte)) : Z :=
  match m !! "loops" with
  | Some var => if (length var =? sizeof_ulong)%nat then le_val var else 0
  | None => 0
  end.

Lemma loops_of_range m : (0 ≤ loops_of m < 2 ^ 64)%Z.
Proof.
  unfold loops_of. destruct (m !! "loops") as [var|]; [|lia].
  destruct (length var =? sizeof_ulong)%nat eqn:Hlen; [|lia]. apply Nat.eqb_eq in Hlen.
  pose proof (le_val_range var) as Hr. rewrite Hlen in Hr. exact Hr.
Qed.

Lemma GetStateVar_loops s :
  ∃ o, GetStateVar_ulong "loops" s = Ok o s ∧ default 0%Z o = loops_of (state s).
Proof.
  unfold GetStateVar_ulong, loops_of, mbind, M_bind, gets.
  destruct (state s !! "loops") as [var|]; [|by eexists].
  destruct (length var =? sizeof_ulong)%nat; by eexists.
Qed.

(** The timer is made and started, and afterwards there is no trace of it. *)
Lemma timer_started ts timer this :
  timers_ok ts → instance ts ≠ NULL → timers ts !! timer = None →
  ∃ ts1, (csTimer_new timer 500 3 3 this;; Start timer) ts = Ok tt ts1 ∧ bus ts1 = bus ts ∧
    timers ts1 = <[timer := example_timer this]> (timers ts) ∧
    ∀ w, world_ok w → csTimer_delete timer (set_bus w ts1) = Ok tt (set_bus w ts).
Proof.
  intros Hok Hi Hp. set (t0 := CsTimer false 500 this 3 3 MFree).
  set (ts0 := set_vector (timer_vector ts ++ [timer]) (timer_put timer t0 ts)).
  assert (timers_ok ts0) as Hok0 by by apply timer_new_ok.
  assert (timers ts0 !! timer = Some t0) as Hp0 by apply lookup_insert_eq.
  exists (timer_put timer (example_timer this) ts0). split_and!; try done.
  - rewrite (bind_ok _ _ _ tt ts0) by by rewrite csTimer_new_run.
    by apply (timer_update_locked (set_running true) ts0 timer t0).
  - cbn. by rewrite insert_insert_eq.
  - intros w Hw. set (ts1 := timer_put timer (example_timer this) ts0).
    assert (timers_ok ts1) as Hok1 by by apply (timer_put_ok ts0 timer t0).
    rewrite (csTimer_delete_run (set_bus w ts1) timer (example_timer this)); [|by destruct Hok1|done|].
    2:{ apply lookup_insert_eq. }
    unfold set_bus, set_vector, set_timers. cbn.
    rewrite erase_first_snoc.
    2:{ intros Hin%(to_live ts Hok). rewrite Hp in Hin. by destruct Hin. }
    by rewrite insert_insert_eq, delete_insert_id.
Qed.

(** [Entry] over the whole queue. *)
Lemma example_entry_run s this timer H b q1 e q2 fuel :
  timers_ok (x_timers s) → instance (x_timers s) ≠ NULL → timers (x_timers s) !! timer = None →
  wf (world_of s) H → view (world_of s) this = Some (b, q1 ++ e :: q2) →
  Forall (countable (<[timer := example_timer this]> (timers (x_timers s)))) q1 →
  GetId e = csEVENT_QUIT → receivable e → IsPersistent e = false → length q1 < fuel →
  ∃ w, example_entry fuel this timer s = Ok true (PluginExample (set_bus w (x_timers s))
      (set_state (<["loops" := le_bytes 8 ((loops_of (state (x_vars s)) +
        Z.of_nat (length q1) + 1) mod 2 ^ 64)]> (state (x_vars s))) (x_vars s))) ∧ wf w H.
Proof.
  intros Hok Hi Hp Hwf Hv Hq1 Hid Hre Hper Hfuel. destruct s as [ts v]; cbn in *.
  destruct (GetStateVar_loops v) as (o & Hget & Ho).
  destruct (timer_started ts timer this Hok Hi Hp) as (ts1 & Hstart & Hbus & Htm & Hdel).
  unfold mbind, M_bind in Hstart.
  destruct (csTimer_new timer 500 3 3 this ts) as [[] tsn| |] eqn:Hnew; try done.
  destruct (example_loop_run this fuel b q1 e q2 (PluginExample ts1 v) H (loops_of (state v)))
    as (w & Hloop & Hwf' & _); try done.
  { unfold world_of. cbn. by rewrite Hbus. }
  { unfold world_of. cbn. by rewrite Hbus. }
  { cbn. by rewrite Htm. }
  { apply loops_of_range. }
  exists w. split; [|done]. unfold example_entry, mbind, M_bind, zoom. cbn.
  rewrite Hget. cbn. rewrite Hnew. cbn. rewrite Hstart. cbn. rewrite Ho.
  unfold set_x_vars, set_x_timers. cbn. rewrite Hloop. cbn.
  rewrite Hdel by (by exists H). done.
Qed.

(** C17. What the example plugin counts survives a restart: started on a queue
    that holds a quit event, its thread handles the events in front of it in
    order, among them those of its own timer, returns, leaves no timer behind
    and stores the number of events added to the number it found; destroying
    the plugin and opening the state file again gives the next thread that
    number to start with, and every other variable as it was. *)
Theorem loops_survive_restart alloc_max file_max s this timer H b q1 e q2 fuel h openable name :
  let ts := x_timers s in
  let v := x_vars s in
  let n := ((loops_of (state v) + Z.of_nat (length q1) + 1) mod 2 ^ 64)%Z in
  let m := <["loops" := le_bytes 8 n]> (state v) in
  timers_ok ts → instance ts ≠ NULL → timers ts !! timer = None →
  wf (bus ts) H → view (bus ts) this = Some (b, q1 ++ e :: q2) →
  Forall (countable (<[timer := example_timer this]> (timers ts))) q1 →
  GetId e = csEVENT_QUIT → receivable e → IsPersistent e = false → length q1 < fuel →
  fh_state v = Some h → openable (f_path h) = true →
  no_empty_key (state v) → state_fits alloc_max file_max m →
  ∃ w v1 v2,
    example_entry fuel this timer s = Ok true (PluginExample (set_bus w ts) (set_state m v)) ∧
    wf w H ∧ csPlugin_delete file_max (set_state m v) = Ok tt v1 ∧
    reopen alloc_max openable name (f_path h) v1 = Ok tt v2 ∧
    loops_of (state v2) = n ∧ GetStateVar_ulong "loops" v2 = Ok (Some n) v2 ∧
    ∀ key, key ≠ "loops" → state v2 !! key = state v !! key.
Proof.
  intros ts v n m Hok Hi Hp Hwf Hv Hq1 Hid Hre Hper Hfuel Hh Hopen Hne Hfits.
  destruct (example_entry_run s this timer H b q1 e q2 fuel) as (w & Hrun & Hwf'); try done.
  destruct (restart_run alloc_max file_max (set_state m v) h openable name)
    as (v1 & v2 & Hdel & Hre2 & Hst & _); try done.
  { unfold no_empty_key, m. cbn. by rewrite lookup_insert_ne. }
  assert (length (le_bytes 8 n) =? sizeof_ulong = true)%nat as Hlen.
  { by rewrite length_le_bytes. }
  assert (le_val (le_bytes 8 n) = n) as Hn by (apply le_val_bytes, Z.mod_pos_bound; lia).
  assert (state v2 !! "loops" = Some (le_bytes 8 n)) as Hl.
  { rewrite Hst. apply lookup_insert_eq. }
  exists w, v1, v2. split_and!; try done.
  - unfold loops_of. by rewrite Hl, Hlen.
  - unfold GetStateVar_ulong, mbind, M_bind, gets. by rewrite Hl, Hlen, Hn.
  - intros key Hkey. rewrite Hst. unfold m. cbn. by rewrite lookup_insert_ne.
Qed.

(** *** One event of the timer at 500, then quit; 41 events were counted before *)

Definition sample_loops : gmap string (list byte) :=
  {[ "loops" := le_bytes 8 41; "note" := str_bytes "hi" ]}.
Definition sample_post : world :=
  match (post 100 200 (csEventTimer_new 500);;
         post 100 200 (csEvent_new csEVENT_QUIT Sticky)) sample0 with
  | Ok _ w => w
  | _ => sample0
  end.
Definition sample_example : csPluginExample :=
  PluginExample (set_bus sample_post sample_timers) (sample_plugin sample_loops [xff]).

Lemma sample_post_wf : wf sample_post ∅.
Proof.
  destruct (post_spec sample0 ∅ 100 200 (csEventTimer_new 500) _
    sample0_wf ltac:(by eexists) eq_refl) as (w1 & Hrun1 & Hw1 & _ & _ & Hv1).
  destruct (post_spec w1 ∅ 100 200 (csEvent_new csEVENT_QUIT Sticky) _
    Hw1 ltac:(rewrite Hv1; by eexists) eq_refl) as (w2 & Hrun2 & Hw2 & _).
  replace sample_post with w2; [done|]. unfold sample_post, mbind, M_bind.
  by rewrite Hrun1, Hrun2.
Qed.

Lemma sample_post_ok : timers_ok (set_bus sample_post sample_timers).
Proof.
  destruct sample_timers_ok as [Hm Hn Hl Ht _]. split; try done. exists ∅. apply sample_post_wf.
Qed.

Lemma sample_loops_fits :
  state_fits 4096 4096 (<["loops" := le_bytes 8 43]> sample_loops).
Proof.
  replace (<["loops" := le_bytes 8 43]> sample_loops)
    with ({[ "loops" := le_bytes 8 43; "note" := str_bytes "hi" ]} : gmap string (list byte))
    by by vm_compute.
  fits.
Qed.

Lemma loops_survive_restart_witness :
  ∃ w v1 v2 m,
    example_entry 5 200 900 sample_example =
      Ok true (PluginExample (set_bus w (set_bus sample_post sample_timers))
        (set_state m (x_vars sample_example))) ∧
    csPlugin_delete 4096 (set_state m (x_vars sample_example)) = Ok tt v1 ∧
    reopen 4096 (λ _, true) "p" "/var/p" v1 = Ok tt v2 ∧
    GetStateVar_ulong "loops" v2 = Ok (Some 43%Z) v2.
Proof.
  destruct (loops_survive_restart 4096 4096 sample_example 200 900 ∅ true
    [timer_event 100 200 500] (CsEvent csEVENT_QUIT Sticky 100 200 NULL EvPlain) [] 5
    (Stream "/var/p" 3) (λ _, true) "p") as (w & v1 & v2 & Hrun & _ & Hdel & Hre & _ & Hget & _).
  - apply sample_post_ok.
  - done.
  - reflexivity.
  - apply sample_post_wf.
  - vm_compute. reflexivity.
  - constructor; [|constructor]. split_and!; [reflexivity|reflexivity|discriminate|].
    intros _. split; [reflexivity|]. exists 500%Z. split; [reflexivity|]. eexists. reflexivity.
  - reflexivity.
  - intros _. eexists. reflexivity.
  - reflexivity.
  - cbn. lia.
  - reflexivity.
  - reflexivity.
  - vm_compute. reflexivity.
  - exact sample_loops_fits.
  - exists w, v1, v2. eexists. split_and!; [exact Hrun|exact Hdel|exact Hre|exact Hget].
Defined.

(** ** The parser *)

(** The one element the plugin knows belongs into a plugin element and has a
    text. *)
Definition example_accepts (parent e text : string) : Prop :=
  strcaseeq "test-tag" e = true → strcaseeq "plugin" parent = true ∧ text ≠ EmptyString.

(** Its handlers keep the parser's contract: neither is ever stuck, whatever
    the document, and they throw only for that element. *)
#[export] Program Instance example_ok C : @HandlersOk C example_handlers := {|
  owner_ok := λ _, True;
  data_ok := λ _ _, True;
  accepts := example_accepts;
|}.
Next Obligation. done. Qed.
Next Obligation. intros C s p t _ Ho _ _. split; [apply handled_refl|done]. Qed.
Next Obligation.
  intros C s p t Hp Ho Hst Hpos.
  assert (handled s s ∧ owned (λ _, True) (λ _ _, True) s) as Hsame by by split; [apply handled_refl|].
  assert (∀ what Q, (strcaseeq "test-tag" (tag_name t) = true) →
    (∀ q tq, last (stack s) = Some q → tags s !! q = Some tq →
      strcaseeq "plugin" (tag_name tq) = true → tag_text t = EmptyString) →
    wp (ParseError what) Q (λ _ s', handled s s' ∧ owned (λ _, True) (λ _ _, True) s' ∧
      refused example_accepts s (tag_name t) (λ text, text = tag_text t)) s) as Herr.
  { intros what Q Htag Hbad. apply wp_ParseError; [done|]. intros _. destruct Hsame.
    split_and!; [done|done|]. intros q tq text Hq Htq -> Hacc.
    destruct (Hacc Htag) as [Hplugin Htext]. by eapply Htext, Hbad. }
  cbn. unfold example_close. apply wp_bind, (wp_tag_get s p t); [done|].
  unfold tag_is at 1. destruct (strcaseeq "test-tag" (tag_name t)) eqn:Htag; [|done].
  apply wp_bind, wp_gets, wp_bind.
  destruct (last (stack s)) as [q|] eqn:Hq; [|by apply Herr].
  destruct (Hst q) as [pt Hpt]; [by apply last_Some_elem_of|].
  apply wp_bind, (wp_tag_get s q pt); [done|]. unfold when at 1, tag_is.
  destruct (strcaseeq "plugin" (tag_name pt)) eqn:Hplugin; cbn [negb].
  - apply wp_ret. unfold when. destruct (_ =? 0)%nat eqn:Hlen; [|done].
    apply Herr; [done|]. intros _ _ _ _ _. by destruct (tag_text t).
  - apply Herr; [done|]. intros q' tq Hq' Htq Hp'. simplify_eq. congruence.
Qed.
