(* ===== verification/Process.v ===== *)
(** * The program from its start to its end (csmain.cpp)

    The constructor and the destructor of [csMain] and [main], by the operations
    of the components: loggers, options, threads, the statics of the timer and
    netlink threads, the configuration and its parser, plugins, libcrypto's
    locks. *)

From S2P Require Import Prelude Exception Bytes Event Timer Thread Plugin Conf Netlink Log Util Main.

(** ** What the system gives *)

(** Results of the system's functions, and the files.  [sys_new_client] is the
    address of a new event client; [sys_stdout], [sys_syslog], [sys_conf] and
    [sys_parser] are those of the loggers, the configuration and its parser. *)
Record system := System {
  sys_page : Z;
  sys_alloc_max : Z;
  sys_file_max : Z;
  sys_openable : string → bool;
  sys_fopen : string → Z + list xml_page;
  sys_opendir : string → option (list (string * d_type));
  sys_load : csMain → string → string → Z → dl_results * init_result;
  sys_configure : Z → string → option csException;
  sys_new_client : world → Z;
  sys_stdout : Z;
  sys_syslog : Z;
  sys_conf : Z;
  sys_parser : Z;
  sys_attr_init : option Z;
  sys_attr_setstacksize : Z → option Z;
  sys_create : Z → Z + Z;            (* pthread_create, for a thread object *)
  sys_daemon : option Z;             (* errno *)
  sys_pid_text : list byte;          (* what is written to the pid file *)
  sys_num_locks : Z;                 (* CRYPTO_num_locks() *)
  sys_timer_create : option Z;       (* errno *)
  sys_socket : Z;
  sys_bind : Z;
  sys_sigmask : option Z;            (* the error number of pthread_sigmask *)
}.

(** ** The process *)

(** The pointer members of [csMain]; [log_logfile] is always null. *)
Record members := Members {
  log_stdout : Z;
  log_syslog : Z;
  sig_handler : Z;
  timer_thread : Z;
  netlink_thread : Z;
  main_conf_ptr : Z;
}.

Definition set_log_stdout (p : Z) (m : members) : members :=
  Members p (log_syslog m) (sig_handler m) (timer_thread m) (netlink_thread m) (main_conf_ptr m).
Definition set_log_syslog (p : Z) (m : members) : members :=
  Members (log_stdout m) p (sig_handler m) (timer_thread m) (netlink_thread m) (main_conf_ptr m).
Definition set_sig_handler (p : Z) (m : members) : members :=
  Members (log_stdout m) (log_syslog m) p (timer_thread m) (netlink_thread m) (main_conf_ptr m).
Definition set_timer_thread (p : Z) (m : members) : members :=
  Members (log_stdout m) (log_syslog m) (sig_handler m) p (netlink_thread m) (main_conf_ptr m).
Definition set_netlink_thread (p : Z) (m : members) : members :=
  Members (log_stdout m) (log_syslog m) (sig_handler m) (timer_thread m) p (main_conf_ptr m).
Definition set_main_conf_ptr (p : Z) (m : members) : members :=
  Members (log_stdout m) (log_syslog m) (sig_handler m) (timer_thread m) (netlink_thread m) p.

(** The parser owns the program with its threads, plugins and files; the timer
    thread's statics need no bus of their own. *)
Record process := Process {
  p_parser : xml_state csMain;
  p_logs : log_state;
  p_timers : timer_state unit;
  p_netlink : netlink_static;
  p_locks : option (list mutex);     (* static csCryptoMutex *)
  p_members : members;
}.

Definition set_p_parser (x : xml_state csMain) (s : process) : process :=
  Process x (p_logs s) (p_timers s) (p_netlink s) (p_locks s) (p_members s).
Definition set_p_logs (l : log_state) (s : process) : process :=
  Process (p_parser s) l (p_timers s) (p_netlink s) (p_locks s) (p_members s).
Definition set_p_timers (t : timer_state unit) (s : process) : process :=
  Process (p_parser s) (p_logs s) t (p_netlink s) (p_locks s) (p_members s).
Definition set_p_netlink (n : netlink_static) (s : process) : process :=
  Process (p_parser s) (p_logs s) (p_timers s) n (p_locks s) (p_members s).
Definition set_p_locks (l : option (list mutex)) (s : process) : process :=
  Process (p_parser s) (p_logs s) (p_timers s) (p_netlink s) l (p_members s).
Definition set_p_members (m : members) (s : process) : process :=
  Process (p_parser s) (p_logs s) (p_timers s) (p_netlink s) (p_locks s) m.

Definition p_main (s : process) : csMain := owner (p_parser s).
Definition set_p_main (m : csMain) (s : process) : process :=
  set_p_parser (set_owner m (p_parser s)) s.
Definition p_threads (s : process) : thread_state := m_threads (p_main s).
Definition set_p_threads (t : thread_state) (s : process) : process :=
  set_p_main (set_m_threads t (p_main s)) s.

Abbreviation with_parser m := (zoom p_parser set_p_parser m).
Abbreviation with_main m := (zoom p_main set_p_main m).
Abbreviation with_threads m := (zoom p_threads set_p_threads m).
Abbreviation with_clients m := (with_threads (zoom t_bus set_t_bus m)).
Abbreviation with_logs m := (zoom p_logs set_p_logs m).
Abbreviation with_timers m := (zoom p_timers set_p_timers m).
Abbreviation with_netlink m := (zoom p_netlink set_p_netlink m).
Definition set_member (f : members → members) : prog process unit :=
  modify (λ s, set_p_members (f (p_members s)) s).

Section system.
Context (sys : system).

(** The address of the next event client. *)
Definition new_object : prog process Z := gets (λ s, sys_new_client sys (t_bus (p_threads s))).

(** ** Loggers, options and the pid file *)

Definition LOG_PID : Z := 1.
Definition LOG_DAEMON : Z := 24.

Definition log_to_stdout : prog process unit :=
  with_logs (csLog_new (sys_stdout sys);; SetMask (Z.lor (Z.lor Info Warning) Error));;
  set_member (set_log_stdout (sys_stdout sys)).

(** The option [-d]. *)
Definition log_debug : prog log_state unit :=
  SetMask (Z.lor (Z.lor (Z.lor Info Warning) Error) Debug).

Definition log_to_syslog : prog process unit :=
  with_logs (csLog_new_syslog (sys_syslog sys) "clearsyncd" LOG_PID LOG_DAEMON);;
  set_member (set_log_syslog (sys_syslog sys)).

(** [csMain::DumpStateFile]: the loader object is a plugin, so a thread and an
    event client, for the time of the call. *)
Definition csMain_DumpStateFile (state : string) : prog process unit :=
  p ← new_object;
  with_main (csPlugin_construct (sys_attr_init sys) (sys_attr_setstacksize sys) p
    "StateLoader" 65536);;
  with_main (in_conf (on_plugin p
    (StateLoader_DumpStateFile (sys_alloc_max sys) (sys_openable sys) state)));;
  with_main (csPlugin_destruct (sys_file_max sys) p).

(** The locals [debug], [conf_filename] and [log_file] of the constructor. *)
Record options := Options { opt_debug : bool; opt_conf : string; opt_log : string }.

Definition _CS_MAIN_CONF : string := "/etc/clearsync.conf".
Definition _CS_PLUGIN_CONF : string := "/etc/clearsync.d".
Definition _CS_PID_FILE : string := "/var/run/clearsync/clearsyncd.pid".

Definition options0 : options := Options false _CS_MAIN_CONF EmptyString.

(** The body of the option loop; [Usage] always throws. *)
Definition parse_option (o : option_char) (opts : options) : prog process options :=
  match o with
  | OptVersion | OptHelp => Usage
  | OptConfig arg => mret (Options (opt_debug opts) arg (opt_log opts))
  | OptDebug => with_logs log_debug;; mret (Options true (opt_conf opts) (opt_log opts))
  | OptDump arg => csMain_DumpStateFile arg;; throw csInvalidOptionException_new
  | OptLog arg => mret (Options (opt_debug opts) (opt_conf opts) arg)
  | OptUnknown => throw csInvalidOptionException_new
  end.

Fixpoint parse_options (l : list option_char) (opts : options) : prog process options :=
  match l with
  | [] => mret opts
  | o :: l => opts ← parse_option o opts; parse_options l opts
  end.

(** The pid file is truncated and written; errors are logged only. *)
Definition save_pid : prog process unit :=
  when (sys_openable sys _CS_PID_FILE)
    (with_main (modify (λ m, set_conf (set_disk
      (<[_CS_PID_FILE := sys_pid_text sys]> (disk (m_conf m))) (m_conf m)) m))).

Definition to_background : prog process unit :=
  match sys_daemon sys with
  | Some errno => throw (csException_int_str errno "daemon")
  | None => mret tt
  end;;
  log_to_syslog;;
  save_pid.

(** libcrypto's mutexes. *)
Definition init_crypto : prog process unit :=
  when (0 <? sys_num_locks sys)%Z
    (modify (set_p_locks (Some (replicate (Z.to_nat (sys_num_locks sys)) MFree)))).

(** ** Thread objects *)

(** [csThread()], then the rest of a constructor; if that throws, the base is
    destroyed. *)
Definition thread_object (rest : Z → prog process unit) : prog process Z :=
  p ← new_object;
  with_threads (csThread_new p _CS_THREAD_STACK_SIZE (sys_attr_init sys)
    (sys_attr_setstacksize sys));;
  try_catch (rest p) (λ x, with_threads (csThread_delete p);; throw x);;
  mret p.

Definition new_timer_thread : prog process unit :=
  p ← thread_object (λ p, with_timers (csThreadTimer_new p (sys_timer_create sys)));
  set_member (set_timer_thread p).

Definition new_netlink_thread : prog process unit :=
  p ← thread_object (λ p, with_netlink (csThreadNetlink_new p (sys_socket sys) (sys_bind sys)
    (Z.to_nat (sys_page sys))));
  set_member (set_netlink_thread p).

(** Its own constructor does nothing that can fail. *)
Definition new_signal_handler : prog process Z :=
  p ← thread_object (λ _, mret tt);
  set_member (set_sig_handler p);;
  mret p.

(** ** The configuration *)

Definition csMainConf_new (filename : string) : prog csMain unit :=
  modify (λ m, set_conf (set_filename filename
    (set_plugin_dir _CS_PLUGIN_CONF (set_version (-1) (m_conf m)))) m).

Definition new_parser : prog process unit :=
  with_parser (λ x, csXmlParser_new (Z.to_nat (sys_page sys)) (owner x)).

Definition set_parser_conf (c : Z) (x : xml_state csMain) : xml_state csMain :=
  XmlState (tags x) (tag_brk x) (stack x) c (fh x) (buffer x) (pos x) (owner x).

Definition read_configuration (filename : string) : prog process unit :=
  new_parser;;
  with_main (csMainConf_new filename);;
  set_member (set_main_conf_ptr (sys_conf sys));;
  with_parser (modify (set_parser_conf (sys_conf sys)));;
  with_parser (Reload (sys_page sys) (sys_alloc_max sys) (sys_file_max sys) (sys_openable sys)
    (sys_new_client sys) (sys_attr_init sys) (sys_attr_setstacksize sys) (sys_load sys)
    (sys_configure sys) (sys_fopen sys) (sys_opendir sys)).

(** ** The constructor *)

(** The plugins in the order of [map<string, csPluginLoader *>]. *)
Definition plugin_le (a b : string * csPluginLoader) : Prop := String.leb a.1 b.1 = true.
#[export] Instance plugin_le_dec a b : Decision (plugin_le a b).
Proof. unfold plugin_le. apply _. Defined.
Definition plugin_list (P : gmap string csPluginLoader) : list csPluginLoader :=
  snd <$> merge_sort plugin_le (map_to_list P).

Definition start_thread (p : Z) : prog process unit :=
  with_threads (thread_Start p (sys_create sys p)).

(** The members are read back where the code reads them; an error of a plugin
    is logged. *)
Definition start_threads : prog process unit :=
  sig ← new_signal_handler;
  with_clients (EventsEnable sig false);;
  start_thread sig;;
  m ← gets p_members;
  start_thread (timer_thread m);;
  start_thread (netlink_thread m);;
  P ← gets (λ s, plugin (m_conf (p_main s)));
  foreach (plugin_list P) (λ l, try_catch (start_thread (Plugin.plugin l)) (λ _, mret tt)).

Definition block_signals : prog process unit :=
  match sys_sigmask sys with
  | Some rc => throw (csException_int_str rc "pthread_sigmask")
  | None => mret tt
  end.

Definition csMain_body (argv : list option_char) : prog process unit :=
  log_to_stdout;;
  opts ← parse_options argv options0;
  when (negb (opt_debug opts)) to_background;;
  init_crypto;;
  new_timer_thread;;
  new_netlink_thread;;
  read_configuration (opt_conf opts);;
  block_signals;;
  start_threads.

(** [csMain::csMain]; an exception destroys the base, the event client. *)
Definition csMain_new (this : Z) (argv : list option_char) : prog process unit :=
  with_clients (csEventClient_new this);;
  try_catch (csMain_body argv)
    (λ x, with_clients (csEventClient_delete this);; throw x).

(** ** The destructor *)

(** [pthread_kill] on a thread that was never created or was joined is
    undefined; what the signal makes the thread do is in [signal_entry] of
    Main. *)
Definition pthread_kill (this : Z) : prog thread_state unit :=
  t ← thread_get this;
  s ← gets started;
  match th_id t with
  | None => stuck OutOfBounds
  | Some tid => if bool_decide (tid ∈ s) then mret tt else stuck (UseAfterFree tid)
  end.

Definition csSignalHandler_delete (this : Z) : prog process unit :=
  with_threads (pthread_kill this);;
  with_threads (thread_Join this);;
  with_threads (csThread_delete this).

Definition delete_timer_thread (this : Z) : prog process unit :=
  with_threads (thread_Join this);;
  with_timers (csThreadTimer_delete this);;
  with_threads (csThread_delete this).

Definition delete_netlink_thread (this : Z) : prog process unit :=
  with_threads (thread_Join this);;
  with_netlink (csThreadNetlink_delete this);;
  with_threads (csThread_delete this).

(** A plugin object, whose own destructor joins its thread, and the loader that
    holds its library. *)
Definition plugin_destroy (l : csPluginLoader) : prog process unit :=
  with_threads (thread_Join (Plugin.plugin l));;
  with_main (csPlugin_destruct (sys_file_max sys) (Plugin.plugin l));;
  with_main (csPluginLoader_delete m_handles set_m_handles l).

(** [if (p) delete p;] *)
Definition if_made (p : Z) (m : Z → prog process unit) : prog process unit :=
  when (negb (p =? NULL)%Z) (m p).

Definition csMain_delete (this : Z) : prog process unit :=
  P ← gets (λ s, plugin (m_conf (p_main s)));
  foreach (plugin_list P) plugin_destroy;;
  m ← gets p_members;
  if_made (sig_handler m) csSignalHandler_delete;;
  if_made (timer_thread m) delete_timer_thread;;
  if_made (netlink_thread m) delete_netlink_thread;;
  if_made (main_conf_ptr m)
    (λ _, with_parser (csConf_delete (Z.to_nat (sys_page sys)) (sys_parser sys)));;
  if_made (log_syslog m) (λ p, with_logs (csLog_delete p));;
  if_made (log_stdout m) (λ p, with_logs (csLog_delete p));;
  with_clients (csEventClient_delete this).
End system.

(** ** [main] *)

(** The process when [main] begins, with the files on the disk. *)
Definition process0 (d : gmap string (list byte)) : process :=
  Process (XmlState ∅ 1 [] 0 false [] (XmlPos 1 0 0)
      (CsMain (ThreadState world0 ∅ ∅ ∅)
        (MainConf 0 EmptyString EmptyString ∅ ∅ ∅ ∅ d)))
    log0 (TimerState tt ∅ [] MNull NULL) (NetlinkStatic NULL ∅ ∅) None
    (Members NULL NULL NULL NULL NULL NULL).

(** [main] ends with an exit code: the constructor throws, or it returns, the
    program runs until [Run] returns or throws, and is destroyed.  [runs] is what
    happens from the end of the constructor to the end of [Run], with the
    exception it ends with, if any. *)
Inductive main (sys : system) (this : Z) (argv : list option_char)
    (runs : process → option csException → process → Prop) (s : process) : Z → process → Prop :=
  | main_throws x s' :
      csMain_new sys this argv s = Throw x s' →
      main sys this argv runs s (main_exit (Some x)) s'
  | main_runs s1 x s2 s' :
      csMain_new sys this argv s = Ok tt s1 → runs s1 x s2 →
      csMain_delete sys this s2 = Ok tt s' →
      main sys this argv runs s (main_exit x) s'.
