(* ===== verification/StartProps.v ===== *)
(** * The constructor of the program

    Each step of the constructor of [csMain] returns or throws, and keeps the
    invariant of the program as far as it is built. *)

From S2P Require Import Prelude Exception Bytes Event EventInv EventOps Bus EventProps Timer Thread.
From S2P Require Import ThreadProps Plugin PluginProps Conf ConfProps Log LogProps Netlink.
From S2P Require Import Main MainProps MainConf Process.

(** ** The accessors *)

#[global] Arguments p_main : simpl never.
#[global] Arguments set_p_main : simpl never.
#[global] Arguments p_threads : simpl never.
#[global] Arguments set_p_threads : simpl never.

Lemma main_set m s : p_main (set_p_main m s) = m.
Proof. done. Qed.
Lemma threads_set t s : p_threads (set_p_threads t s) = t.
Proof. done. Qed.
Lemma set_main_same s : set_p_main (p_main s) s = s.
Proof. by destruct s as [[] ? ? ? ? ?]. Qed.
Lemma set_threads_same s : set_p_threads (p_threads s) s = s.
Proof. by destruct s as [[? ? ? ? ? ? ? []] ? ? ? ? ?]. Qed.

(** ** Destroying a plugin object *)

(** What the disk holds after a plugin saved its variables. *)
Definition saved (file_max : Z) (o : option plugin_obj) (d : gmap string (list byte)) :
    gmap string (list byte) :=
  match o with
  | None => d
  | Some o =>
      match csPlugin_delete file_max (PState d (po_name o) (po_fh o) (po_state o)) with
      | Ok _ st => files st
      | _ => d
      end
  end.

Lemma csPlugin_destruct_run file_max m p o :
  plugin_objs (m_conf m) !! p = Some o → is_Some (threads (m_threads m) !! p) →
  world_ok (m_world m) → is_Some (clients (m_world m) !! p) →
  ∃ w c, csPlugin_destruct file_max p m =
      Ok tt (CsMain (ThreadState w (delete p (threads (m_threads m))) (started (m_threads m))
        (ended (m_threads m))) c) ∧
    world_ok w ∧ event_client w = erase_first p (event_client (m_world m)) ∧
    (∀ q, is_Some (clients w !! q) ↔ q ≠ p ∧ is_Some (clients (m_world m) !! q)) ∧
    plugin c = plugin (m_conf m) ∧ handles c = handles (m_conf m) ∧
    plugin_objs c = delete p (plugin_objs (m_conf m)) ∧
    disk c = saved file_max (Some o) (disk (m_conf m)).
Proof.
  intros Ho Ht Hw Hc. destruct (client_delete_run (m_world m) p Hw Hc) as (w & Hdel & Hw' & Hreg & Hdom).
  destruct (csPlugin_delete_total file_max
    (PState (disk (m_conf m)) (po_name o) (po_fh o) (po_state o))) as (st & Hst & _).
  set (u := PluginObj (pl_name st) (fh_state st) (state st)).
  exists w, (set_objs (delete p (<[p := u]> (plugin_objs (m_conf m))))
    (set_disk (files st) (m_conf m))). split_and!; [|done..| |cbn; by rewrite Hst].
  - unfold csPlugin_destruct, mbind, M_bind, zoom, on_plugin, zoom. cbn. rewrite Ho, Hst. cbn.
    by rewrite (csThread_delete_run _ p w Ht Hdel).
  - cbn. by rewrite delete_insert_eq.
Qed.

Section constructor.
Context (sys : system) (this : Z) (stray : Z → Prop).

(** What the system promises: [new] gives memory that is not in use, the
    addresses of the loggers and the configuration are different and not null,
    and every configuration file can be read to its end or to an error that
    leaves nothing open.  [stray] are the plugins whose own configuration may
    fail. *)
Record system_ok : Prop := SystemOk {
  so_fresh : ∀ w, world_ok w → fresh_client w (sys_new_client sys w);
  so_stray : ∀ d f x, sys_configure sys d f = Some x → stray d;
  so_files : ∀ path, readable main_accepts (Z.to_nat (sys_page sys)) (sys_fopen sys path);
  so_pid : loadable (sys_alloc_max sys) (sys_pid_text sys);
  so_create : ∀ p q tid, sys_create sys p = inr tid → sys_create sys q = inr tid → p = q;
  so_stdout : sys_stdout sys ≠ NULL;
  so_syslog : sys_syslog sys ≠ NULL;
  so_logs : sys_stdout sys ≠ sys_syslog sys;
  so_conf : sys_conf sys ≠ NULL;
}.
Context (Hsys : system_ok).

Abbreviation inv others := (main_inv (sys_alloc_max sys) this others stray).
Abbreviation kept_here others := (kept (sys_alloc_max sys) this others).

(** ** The program as far as it is built *)

Definition logs_are (l : gmap Z csLog) (s : log_state) : Prop := log_ok s ∧ logs s = l.

(** [others] are the thread objects that are no plugins. *)
Record booting (others : list Z) (l : gmap Z csLog) (mem : members) (tm : timer_state unit)
    (nl : netlink_static) (s : process) : Prop := Booting {
  bo_main : inv others (p_main s);
  bo_nodup : NoDup (this :: others);
  bo_logs : logs_are l (p_logs s);
  bo_members : p_members s = mem;
  bo_timers : p_timers s = tm;
  bo_netlink : p_netlink s = nl;
  bo_stack : stack (p_parser s) = [];
}.

(** What an exception leaves: the base of the program can be destroyed. *)
Definition alive (s : process) : Prop :=
  world_ok (t_bus (p_threads s)) ∧ is_Some (clients (t_bus (p_threads s)) !! this).

Abbreviation failed := (λ (_ : csException) (s : process), alive s).

Lemma main_alive others m :
  main_ok (sys_alloc_max sys) this others m →
  world_ok (m_world m) ∧ is_Some (clients (m_world m) !! this).
Proof.
  intros Hm. split; [apply (tk_bus _ (mo_threads _ _ _ _ Hm))|].
  apply (mo_clients _ _ _ _ Hm). by left.
Qed.

Lemma booting_alive others l mem tm nl s : booting others l mem tm nl s → alive s.
Proof. intros [[Hm _] _ _ _ _ _ _]. exact (main_alive others (p_main s) Hm). Qed.

Lemma booting_main others l mem tm nl s m :
  booting others l mem tm nl s → kept_here others stray (p_main s) m →
  booting others l mem tm nl (set_p_main m s).
Proof. intros [Hm ? ? ? ? ? ?] Hk. split; try done. by eapply main_inv_kept. Qed.

Lemma booting_logs others l l' mem tm nl s lg :
  booting others l mem tm nl s → logs_are l' lg → booting others l' mem tm nl (set_p_logs lg s).
Proof. by intros [] Hl. Qed.

Lemma booting_member others l mem tm nl s f :
  booting others l mem tm nl s → booting others l (f mem) tm nl (set_p_members (f (p_members s)) s).
Proof. intros [? ? ? <- ? ? ?]. by split. Qed.

(** ** Loggers and options *)

Definition stdout_log : csLog := CsLog StdOut None NULL None (-1) (-1).
Definition stdout_logs : gmap Z csLog := {[ sys_stdout sys := stdout_log ]}.
Definition both_logs : gmap Z csLog :=
  <[sys_syslog sys := syslog_log "clearsyncd" LOG_PID LOG_DAEMON]> stdout_logs.

Lemma logs_are_mask l mask s : logs_are l s → logs_are l (set_mask mask s).
Proof. intros [[] Hl]. by split. Qed.

Lemma wp_log_to_stdout others mem tm nl s :
  booting others ∅ mem tm nl s → p_logs s = log0 →
  wp (log_to_stdout sys)
    (λ _ s', booting others stdout_logs (set_log_stdout (sys_stdout sys) mem) tm nl s') nothrow s.
Proof.
  intros Hs H0. unfold log_to_stdout. apply wp_bind, wp_zoom, wp_bind. rewrite H0.
  eapply wp_ok; [apply (csLog_new_run (sys_stdout sys) log0 log0_ok)|].
  apply wp_modify, wp_modify. apply booting_member, (booting_logs _ ∅); [done|].
  apply logs_are_mask. split; [|done].
  apply added_ok; [apply log0_ok|done|apply so_stdout, Hsys|done|done].
Qed.

Lemma wp_log_to_syslog others mem tm nl s :
  booting others stdout_logs mem tm nl s →
  wp (log_to_syslog sys)
    (λ _ s', booting others both_logs (set_log_syslog (sys_syslog sys) mem) tm nl s') failed s.
Proof.
  intros Hs. pose proof (bo_logs _ _ _ _ _ _ Hs) as [Hok Hl].
  assert (logs (p_logs s) !! sys_syslog sys = None) as Hnew.
  { rewrite Hl. apply lookup_singleton_ne, so_logs, Hsys. }
  unfold log_to_syslog. apply wp_bind, wp_zoom.
  destruct (csLog_new_syslog_run (sys_syslog sys) "clearsyncd" LOG_PID LOG_DAEMON (p_logs s) Hok Hnew)
    as [[Hrun Hno]|[_ (q & u & Hq & Hu)]].
  - eapply wp_ok; [exact Hrun|]. apply wp_modify, booting_member, (booting_logs _ stdout_logs); [done|].
    split; [by apply added_ok; try apply so_syslog, Hsys|]. cbn. by rewrite Hl.
  - rewrite Hl in Hq. unfold stdout_logs in Hq. apply lookup_singleton_Some in Hq as [_ <-]. done.
Qed.

Lemma wp_thrown {A} x (Q : A → process → Prop) s : alive s → wp (throw x) Q failed s.
Proof. done. Qed.

(** The first option that ends the program, and its exit code. *)
Fixpoint option_exit (l : list option_char) : option Z :=
  match l with
  | [] => None
  | o :: l =>
      match o with
      | OptVersion | OptHelp => Some csEXIT_SUCCESS
      | OptDump _ | OptUnknown => Some csEXIT_INVALID_OPTION
      | _ => option_exit l
      end
  end.

(** The exception the options end the program with. *)
Definition ended_by (argv : list option_char) (x : csException) : Prop :=
  option_exit argv = Some (main_exit (Some x)) ∧ x ≠ csDumpStateException_new.

(** The temporary plugin of [--dump-state] can be made. *)
Abbreviation dumps := (makeable (sys_attr_init sys) (sys_attr_setstacksize sys) 65536).

Lemma wp_DumpStateFile others l mem tm nl s path :
  booting others l mem tm nl s →
  wp (csMain_DumpStateFile sys path) (λ _ s', alive s') (λ _ s', alive s' ∧ ¬ dumps) s.
Proof.
  intros Hs. pose proof (bo_main _ _ _ _ _ _ Hs) as [Hm _].
  pose proof (main_alive _ _ Hm) as [_ Hthis]. set (m := p_main s) in *.
  unfold csMain_DumpStateFile, new_object. apply wp_bind, wp_gets, wp_bind, wp_zoom.
  change (t_bus (p_threads s)) with (m_world m). fold m. set (p := sys_new_client sys (m_world m)).
  destruct (construct_cases (sys_alloc_max sys) this others (sys_new_client sys) (sys_attr_init sys)
    (sys_attr_setstacksize sys) (so_fresh Hsys) m "StateLoader" 65536 Hm)
    as [(w & Hrun & Hw & Hcl)|(x & m' & Hrun & [Hm' _] & Hno)].
  2:{ unfold wp. fold p in Hrun. rewrite Hrun. split; [exact (main_alive _ _ Hm')|done]. }
  eapply wp_ok; [exact Hrun|]. apply wp_bind, wp_zoom. rewrite main_set.
  apply wp_zoom. cbn [m_conf built].
  assert (is_Some (clients w !! this) ∧ this ≠ p) as [Hthis' Hne].
  { fold p in Hcl. rewrite Hcl, lookup_insert_is_Some'. split; [by right|].
    destruct (so_fresh Hsys (m_world m)) as [Hp _]; [apply (tk_bus _ (mo_threads _ _ _ _ Hm))|].
    intros ->. fold p in Hp. rewrite Hp in Hthis. by destruct Hthis. }
  destruct (SetStateFile_run (sys_alloc_max sys) (sys_openable sys) path
    (PState (disk (m_conf m)) "StateLoader" None ∅) (mo_disk _ _ _ _ Hm)) as (s1 & H1 & _ & Hd1).
  destruct (LoadState_run (sys_alloc_max sys) s1 Hd1) as (s2 & H2 & _).
  unfold on_plugin, wp at 1. cbn. rewrite lookup_insert_eq. unfold zoom. cbn.
  unfold StateLoader_DumpStateFile. rewrite (bind_ok _ _ _ _ _ H1), (bind_ok _ _ _ _ _ H2). cbn.
  apply wp_zoom. rewrite main_set. match goal with |- wp _ _ _ ?x => set (m3 := x) end.
  destruct (csPlugin_destruct_run (sys_file_max sys) m3 p
    (PluginObj (pl_name s2) (fh_state s2) (state s2))) as (w' & c & Hdel & Hw' & _ & Hdom & _).
  - cbn. apply lookup_insert_eq.
  - cbn. rewrite lookup_insert_eq. by eexists.
  - exact Hw.
  - change (m_world m3) with w. fold p in Hcl. rewrite Hcl, lookup_insert_eq. by eexists.
  - eapply wp_ok; [exact Hdel|]. split; [done|]. by apply Hdom.
Qed.

Lemma wp_parse_option o others l mem tm nl opts s :
  booting others l mem tm nl s →
  wp (parse_option sys o opts)
    (λ _ s', booting others l mem tm nl s' ∧ ∀ argv, option_exit (o :: argv) = option_exit argv)
    (λ x s', alive s' ∧ (dumps → ∀ argv, ended_by (o :: argv) x)) s.
Proof.
  intros Hs. pose proof (booting_alive _ _ _ _ _ _ Hs) as Ha.
  destruct o as [|arg| |arg|arg| |]; try done.
  - apply wp_bind, wp_zoom, wp_modify. apply wp_ret. split; [|done].
    apply (booting_logs _ l); [done|]. apply logs_are_mask, (bo_logs _ _ _ _ _ _ Hs).
  - apply wp_bind. eapply wp_mono; [by eapply wp_DumpStateFile|by intros [] s'|].
    intros x s' [Ha' Hno]. by split.
Qed.

Lemma wp_parse_options argv others l mem tm nl opts s :
  booting others l mem tm nl s →
  wp (parse_options sys argv opts)
    (λ _ s', booting others l mem tm nl s' ∧ option_exit argv = None)
    (λ x s', alive s' ∧ (dumps → ended_by argv x)) s.
Proof.
  revert opts s. induction argv as [|o argv IH]; intros opts s Hs; [done|]. cbn [parse_options].
  apply wp_bind. eapply wp_mono; [by apply wp_parse_option| |].
  - intros opts' s' [Hs' Ho]. unfold ended_by. rewrite Ho. by apply IH.
  - intros x s' [Ha He]. split; [done|]. intros Hd. by apply He.
Qed.
(** ** The background, the pid file, libcrypto *)

Lemma wp_save_pid others l mem tm nl s :
  booting others l mem tm nl s →
  wp (save_pid sys) (λ _ s', booting others l mem tm nl s') failed s.
Proof.
  intros Hs. unfold save_pid, when. destruct (sys_openable sys _CS_PID_FILE); [|done].
  apply wp_zoom, wp_modify, booting_main; [done|].
  destruct (bo_main _ _ _ _ _ _ Hs) as [[Ht Hi Ho Hc Ha Hp Hh Hf Hd Hq] _].
  split; [|split; [done|by left]]. split; try done.
  apply map_Forall_insert_2; [apply so_pid, Hsys|exact Hd].
Qed.

Lemma wp_to_background others mem tm nl s :
  booting others stdout_logs mem tm nl s →
  wp (to_background sys)
    (λ _ s', booting others both_logs (set_log_syslog (sys_syslog sys) mem) tm nl s') failed s.
Proof.
  intros Hs. pose proof (booting_alive _ _ _ _ _ _ Hs) as Ha. unfold to_background. apply wp_bind.
  destruct (sys_daemon sys); [done|]. apply wp_ret, wp_bind.
  eapply wp_conseq; [by apply wp_log_to_syslog|]. intros [] s'. apply wp_save_pid.
Qed.

Lemma wp_init_crypto others l mem tm nl s :
  booting others l mem tm nl s →
  wp (init_crypto sys) (λ _ s', booting others l mem tm nl s') failed s.
Proof.
  intros Hs. unfold init_crypto, when. destruct (0 <? sys_num_locks sys)%Z; [|done].
  apply wp_modify. by destruct Hs.
Qed.

(** ** Thread objects *)

(** One more thread object that is no plugin. *)
Lemma born_inv others m w :
  inv others m → world_ok w → let p := sys_new_client sys (m_world m) in
  clients w = <[p := EventClient true [] MFree 0]> (clients (m_world m)) →
  inv (p :: others) (set_m_threads (born w p (m_threads m)) m) ∧ p ∉ this :: others.
Proof.
  intros [Hm Hk] Hw p Hcl.
  destruct (fresh_plugin (sys_alloc_max sys) this others (sys_new_client sys) (so_fresh Hsys) m Hm)
    as (Hf & Hno & Hnot). fold p in Hf, Hno, Hnot.
  destruct Hm as [Ht Hi Ho Hc Ha Hp Hh Hfl Hd Hun]. split; [|done]. split; [|exact Hk].
  split; cbn; try done.
  - by apply born_ok.
  - intros q t [[_ <-]|[_ Hq]]%lookup_insert_Some; [done|by apply (Hi q)].
  - intros q. rewrite lookup_insert_is_Some', Ho, elem_of_cons. naive_solver.
  - intros q. change (m_world (set_m_threads (born w p (m_threads m)) m)) with w.
    rewrite Hcl, !lookup_insert_is_Some', Hc. naive_solver.
  - intros q. rewrite !elem_of_cons. intros [->|[->|Hq]]; [apply Ha; by left|done|].
    apply Ha. by right.
  - by eapply unposted_fresh.
Qed.

Lemma alive_world s w :
  world_ok w → is_Some (clients w !! this) → alive (set_p_threads (set_t_bus w (p_threads s)) s).
Proof. by split. Qed.

(** The derived part of a constructor changes the statics only. *)
Lemma wp_thread_object rest others l mem tm nl (tm' : Z → timer_state unit)
    (nl' : Z → netlink_static) s :
  booting others l mem tm nl s →
  (∀ p s1, p_timers s1 = tm → p_netlink s1 = nl →
    wp (rest p) (λ _ s', s' = set_p_netlink (nl' p) (set_p_timers (tm' p) s1))
      (λ _ s', ∃ a b, s' = set_p_netlink b (set_p_timers a s1)) s1) →
  wp (thread_object sys rest)
    (λ p s', booting (p :: others) l mem (tm' p) (nl' p) s') failed s.
Proof.
  intros Hs Hrest. pose proof Hs as [Hm Hnd Hl Hmem Htm Hnl Hst].
  pose proof (main_alive _ _ (proj1 Hm)) as [_ Hthis].
  unfold thread_object, new_object. apply wp_bind, wp_gets, wp_bind, wp_zoom.
  change (t_bus (p_threads s)) with (m_world (p_main s)).
  set (p := sys_new_client sys (m_world (p_main s))).
  pose proof (so_fresh Hsys _ (tk_bus _ (mo_threads _ _ _ _ (proj1 Hm)))) as Hf. fold p in Hf.
  destruct (csThread_new_run (p_threads s) p _CS_THREAD_STACK_SIZE (sys_attr_init sys)
    (sys_attr_setstacksize sys) (mo_threads _ _ _ _ (proj1 Hm)) Hf) as (w & Hw & Hcase).
  assert ((∃ x, csThread_new p _CS_THREAD_STACK_SIZE (sys_attr_init sys)
      (sys_attr_setstacksize sys) (p_threads s) = Throw x (set_t_bus w (p_threads s))) ∧ unmade w (p_threads s) →
    ∀ (Q : unit → thread_state → Prop), wp (csThread_new p _CS_THREAD_STACK_SIZE (sys_attr_init sys)
      (sys_attr_setstacksize sys)) Q (λ _ t, alive (set_p_threads t s)) (p_threads s)) as Hbad.
  { intros ([x Hx] & _ & Hdom & _) Q. unfold wp. rewrite Hx. apply alive_world; [done|by apply Hdom]. }
  destruct (sys_attr_init sys); [by apply Hbad|].
  destruct (sys_attr_setstacksize sys _CS_THREAD_STACK_SIZE); [by apply Hbad|].
  destruct Hcase as (Hrun & _ & Hcl).
  destruct (born_inv others (p_main s) w Hm Hw Hcl) as [Hm1 Hp]. fold p in Hm1, Hp.
  eapply wp_ok; [exact Hrun|]. set (s1 := set_p_threads _ s).
  apply wp_bind, wp_try_catch. eapply wp_mono; [by apply (Hrest p s1)| |].
  - intros [] s' ->. apply wp_ret. split; [exact Hm1| |done..].
    apply NoDup_cons in Hnd as [Hn Hnd]. rewrite !NoDup_cons. set_solver.
  - intros x s' (a & b & ->). apply wp_bind, wp_zoom.
    destruct (client_delete_run w p Hw) as (w1 & Hdel & Hw1 & _ & Hdom).
    { rewrite Hcl. fold p. rewrite lookup_insert_eq. by eexists. }
    eapply wp_ok.
    { apply (csThread_delete_run (born w p (p_threads s)) p w1); [|exact Hdel].
      cbn. rewrite lookup_insert_eq. by eexists. }
    apply wp_throw. split; [exact Hw1|]. apply Hdom. split; [by intros ->; apply Hp; left|].
    rewrite Hcl, lookup_insert_is_Some'. by right.
Qed.

(** The statics after the constructors of the timer and the netlink thread. *)
Definition timers1 (p : Z) : timer_state unit := TimerState tt ∅ [] MFree p.
Definition netlink1 (p : Z) : netlink_static :=
  if (sys_socket sys =? -1)%Z then NetlinkStatic p {[ p := NetlinkObject (-1) None ]} ∅
  else NetlinkStatic p
    {[ p := NetlinkObject (sys_socket sys)
         (if (sys_bind sys =? -1)%Z then None else Some (Z.to_nat (sys_page sys))) ]}
    {[ sys_socket sys ]}.
Definition timers0 : timer_state unit := TimerState tt ∅ [] MNull NULL.
Definition netlink0 : netlink_static := NetlinkStatic NULL ∅ ∅.

Lemma set_timers_same s : set_p_timers (p_timers s) s = s.
Proof. by destruct s. Qed.
Lemma set_netlink_same s : set_p_netlink (p_netlink s) s = s.
Proof. by destruct s. Qed.

Lemma wp_new_timer_thread others l mem nl s :
  booting others l mem timers0 nl s →
  wp (new_timer_thread sys)
    (λ _ s', ∃ p, booting (p :: others) l (set_timer_thread p mem) (timers1 p) nl s') failed s.
Proof.
  intros Hs. unfold new_timer_thread. apply wp_bind. eapply wp_conseq.
  { apply (wp_thread_object _ others l mem timers0 nl timers1 (λ _, nl)); [done|].
    intros p s1 Htm Hnl. apply wp_zoom. rewrite Htm. unfold wp, csThreadTimer_new. cbn.
    destruct (sys_timer_create sys); cbn.
    - exists (timers1 p), nl. by rewrite <-Hnl; destruct s1.
    - by rewrite <-Hnl; destruct s1. }
  intros p s' Hs'. apply wp_modify. exists p. by apply booting_member.
Qed.

Lemma wp_new_netlink_thread others l mem tm s :
  booting others l mem tm netlink0 s →
  wp (new_netlink_thread sys)
    (λ _ s', ∃ p, booting (p :: others) l (set_netlink_thread p mem) tm (netlink1 p) s') failed s.
Proof.
  intros Hs. unfold new_netlink_thread. apply wp_bind. eapply wp_conseq.
  { apply (wp_thread_object _ others l mem tm netlink0 (λ _, tm) netlink1); [done|].
    intros p s1 Htm Hnl. apply wp_zoom. rewrite Hnl. unfold wp, csThreadNetlink_new, netlink1. cbn.
    unfold mbind, M_bind, modify. cbn.
    destruct (sys_socket sys =? -1)%Z; cbn; [by rewrite <-Htm; destruct s1|].
    rewrite union_empty_r_L. destruct (sys_bind sys =? -1)%Z; cbn; by rewrite <-Htm; destruct s1. }
  intros p s' Hs'. apply wp_modify. exists p. by apply booting_member.
Qed.
(** ** The configuration *)

Lemma booting_parser others l mem tm nl s x :
  booting others l mem tm nl s → inv others (owner x) → stack x = [] →
  booting others l mem tm nl (set_p_parser x s).
Proof. by intros [] Hm Hst. Qed.

(** A parser that was just made. *)
Definition new_xml (buf : list byte) (c : Z) (m : csMain) : xml_state csMain :=
  XmlState ∅ 1 [] c false buf (XmlPos 1 0 0) m.

Lemma wp_read_configuration others l mem tm nl s filename :
  booting others l mem tm nl s →
  wp (read_configuration sys filename)
    (λ _ s', booting others l (set_main_conf_ptr (sys_conf sys) mem) tm nl s') failed s.
Proof.
  intros Hs. pose proof (bo_main _ _ _ _ _ _ Hs) as Hm. unfold read_configuration.
  set (n := Z.to_nat (sys_page sys)).
  set (m1 := set_conf (set_filename filename (set_plugin_dir _CS_PLUGIN_CONF
    (set_version (-1) (m_conf (p_main s))))) (p_main s)).
  assert (inv others m1) as Hm1.
  { eapply main_inv_kept; [exact Hm|]. eapply kept_stray, kept_conf; [done..|apply Hm]. }
  apply wp_bind, wp_zoom. apply (wp_ok _ tt (new_xml (replicate n x00) 0 (p_main s))); [done|].
  apply wp_bind, wp_zoom, wp_modify, wp_bind, wp_modify, wp_bind, wp_zoom, wp_modify, wp_zoom.
  set (s1 := set_p_parser _ _).
  change (p_parser s1) with (new_xml (replicate n x00) (sys_conf sys) m1).
  assert (booting others l (set_main_conf_ptr (sys_conf sys) mem) tm nl s1) as Hs1.
  { destruct Hs as [_ ? ? <- ? ? _]. split; [exact Hm1|done..]. }
  pose proof (wp_Reload (sys_alloc_max sys) this others (sys_file_max sys) (sys_new_client sys)
    (sys_attr_init sys) (sys_attr_setstacksize sys) (so_fresh Hsys) (sys_load sys) (sys_page sys)
    (sys_openable sys) (sys_configure sys) stray (so_stray Hsys) (sys_fopen sys) (so_files Hsys)
    (sys_opendir sys) (new_xml (replicate n x00) (sys_conf sys) m1)) as Hreload.
  eapply wp_mono; [apply Hreload| |].
  - split; [|done]. split; [split|split]; cbn; try done; [|constructor].
    intros q Hq. by apply elem_of_nil in Hq.
  - intros [] x [[[_ [Hx _]] Hst] _]. by apply booting_parser.
  - intros y x [[[_ [[Hx _] _]] _] _]. exact (main_alive _ _ Hx).
Qed.

Lemma wp_block_signals others l mem tm nl s :
  booting others l mem tm nl s →
  wp (block_signals sys) (λ _ s', s' = s) failed s.
Proof.
  intros Hs. pose proof (booting_alive _ _ _ _ _ _ Hs) as Ha. unfold block_signals.
  by destruct (sys_sigmask sys).
Qed.
(** ** Starting the threads *)

(** The thread [pthread_create] gives an object. *)
Definition created (p : Z) : option Z :=
  match sys_create sys p with inr tid => Some tid | inl _ => None end.

Record ready (ps : list Z) (s : thread_state) : Prop := Ready {
  rd_ok : threads_ok s;
  rd_idle : ∀ p, p ∈ ps → ∃ t, threads s !! p = Some t ∧ th_id t = None;
  rd_fresh : ∀ p tid, p ∈ ps → sys_create sys p = inr tid → tid ∉ started s;
}.

(** One object is started, or not. *)
Record start_result (p : Z) (s s' : thread_state) : Prop := StartResult {
  sr_run : thread_Start p (sys_create sys p) s =
    match sys_create sys p with
    | inl rc => Throw (csException_int_str rc "pthread_create") s'
    | inr _ => Ok tt s'
    end;
  sr_bus : t_bus s' = t_bus s;
  sr_id : ∃ t, threads s' !! p = Some t ∧ th_id t = created p;
  sr_rest : ∀ q, q ≠ p → threads s' !! q = threads s !! q;
}.

Lemma start_one p ps s :
  NoDup (p :: ps) → ready (p :: ps) s → ∃ s', start_result p s s' ∧ ready ps s'.
Proof.
  intros [Hp Hnd]%NoDup_cons [Hs Hid Hf]. destruct (Hid p) as (t & Ht & Htid); [by left|].
  pose proof (thread_Start_run s p t (sys_create sys p) Ht Htid) as Hrun.
  unfold created. destruct (sys_create sys p) as [rc|tid] eqn:Hc.
  - exists s. split; [|split; [done|..]].
    + split; unfold created; rewrite ?Hc; try done. eauto.
    + intros q Hq. apply Hid. by right.
    + intros q x Hq. apply Hf. by right.
  - assert (tid ∉ started s) as Hnew by (apply (Hf p); [by left|done]).
    exists (running_thread p tid t s). split.
    + split; unfold created; rewrite ?Hc; try done.
      * exists (set_th_id (Some tid) t). split; [apply lookup_insert_eq|done].
      * intros q Hq. cbn. by rewrite lookup_insert_ne.
    + split; [by apply running_ok|..].
      * intros q Hq. cbn. rewrite lookup_insert_ne by (by intros ->). apply Hid. by right.
      * intros q x Hq Hx. cbn. rewrite elem_of_union, elem_of_singleton. intros [->|Hst].
        { apply Hp. by rewrite (so_create Hsys p q tid Hc Hx). }
        revert Hst. apply (Hf q); [by right|done].
Qed.

(** What starting some objects does to the threads. *)
Definition launched (ps : list Z) (s s' : thread_state) : Prop :=
  t_bus s' = t_bus s ∧ (∀ q, q ∉ ps → threads s' !! q = threads s !! q) ∧
  ∀ p, p ∈ ps → ∃ t, threads s' !! p = Some t ∧ th_id t = created p.

Lemma launched_one p s s' : start_result p s s' → launched [p] s s'.
Proof.
  intros [_ Hb Hid Hrest]. split_and!; [done| |].
  - intros q Hq. apply Hrest. by intros ->; apply Hq; left.
  - by intros q ->%list_elem_of_singleton.
Qed.

Lemma launched_app ps1 ps2 s s1 s2 :
  (∀ p, p ∈ ps1 → p ∉ ps2) → launched ps1 s s1 → launched ps2 s1 s2 → launched (ps1 ++ ps2) s s2.
Proof.
  intros Hd (Hb1 & Hr1 & Hi1) (Hb2 & Hr2 & Hi2). split_and!; [congruence| |].
  - intros q [Hq1 Hq2]%not_elem_of_app. by rewrite Hr2, Hr1.
  - intros p [Hp|Hp]%elem_of_app; [|by apply Hi2]. rewrite Hr2 by by apply Hd. by apply Hi1.
Qed.

(** One of the threads the program needs. *)
Lemma wp_start_thread p ps s :
  NoDup (p :: ps) → ready (p :: ps) (p_threads s) → alive s →
  wp (start_thread sys p)
    (λ _ s', ∃ t, s' = set_p_threads t s ∧ launched [p] (p_threads s) t ∧ ready ps t ∧
      is_Some (created p)) failed s.
Proof.
  intros Hnd Hr Ha. destruct (start_one p ps (p_threads s) Hnd Hr) as (t & Hres & Hr').
  pose proof (launched_one _ _ _ Hres) as Hl. destruct Hres as [Hrun Hb _ _].
  unfold start_thread. apply wp_zoom. unfold wp, created. rewrite Hrun.
  destruct (sys_create sys p) as [rc|tid].
  - destruct Ha as [Hw Hc]. by split; rewrite threads_set, Hb.
  - exists t. by split_and!; [..|eexists].
Qed.

(** The plugins, whichever of them cannot be started. *)
Lemma start_plugins_run l s :
  NoDup (Plugin.plugin <$> l) → ready (Plugin.plugin <$> l) (p_threads s) →
  ∃ t, foreach l (λ l, try_catch (start_thread sys (Plugin.plugin l)) (λ _, mret tt)) s =
      Ok tt (set_p_threads t s) ∧ launched (Plugin.plugin <$> l) (p_threads s) t ∧ threads_ok t.
Proof.
  revert s. induction l as [|x l IH]; intros s Hnd Hr.
  { exists (p_threads s). rewrite set_threads_same. split_and!; [done| |apply Hr].
    split_and!; [done..|]. by intros p ?%elem_of_nil. }
  cbn [fmap list_fmap] in *. set (p := Plugin.plugin x) in *.
  destruct (start_one p (Plugin.plugin <$> l) (p_threads s) Hnd Hr) as (t1 & Hres & Hr1).
  apply NoDup_cons in Hnd as [Hp Hnd].
  destruct (IH (set_p_threads t1 s) Hnd Hr1) as (t & Hrun & Hl & Hok).
  exists t. split_and!; [|by eapply (launched_app [p]); [by intros q ->%list_elem_of_singleton|
    by apply launched_one|]|done].
  cbn [foreach]. rewrite (bind_ok _ _ _ tt (set_p_threads t1 s)); [exact Hrun|].
  unfold try_catch, start_thread, zoom. fold p. rewrite (sr_run _ _ _ Hres).
  by destruct (sys_create sys p).
Qed.
(** ** The program with its threads *)

Lemma plugin_list_perm P : plugin_list P ≡ₚ snd <$> map_to_list P.
Proof. unfold plugin_list. by rewrite (merge_sort_Permutation plugin_le). Qed.

Lemma plugin_list_elem P l : l ∈ plugin_list P ↔ ∃ name, P !! name = Some l.
Proof.
  rewrite plugin_list_perm, list_elem_of_fmap. split.
  - intros ([name l'] & -> & Hin%elem_of_map_to_list). by exists name.
  - intros [name Hn%elem_of_map_to_list]. by exists (name, l).
Qed.

(** The plugins of a program, by the addresses of their objects. *)
Definition plugin_ptrs (c : main_conf) : list Z := Plugin.plugin <$> plugin_list (plugin c).

Definition named_objects (c : main_conf) : Prop :=
  ∀ name l, plugin c !! name = Some l →
    ∃ o, plugin_objs c !! Plugin.plugin l = Some o ∧ po_name o = name.

Lemma plugin_ptrs_elem c p :
  named_objects c → p ∈ plugin_ptrs c ↔ registered c p.
Proof.
  intros Hn. unfold plugin_ptrs. rewrite list_elem_of_fmap. split.
  - intros (l & -> & [name Hl]%plugin_list_elem). destruct (Hn name l Hl) as (o & Ho & <-).
    by exists o, l.
  - intros (o & l & Ho & Hl & <-). exists l. split; [done|]. apply plugin_list_elem. eauto.
Qed.

Lemma plugin_ptrs_nodup c : named_objects c → NoDup (plugin_ptrs c).
Proof.
  intros Hn. unfold plugin_ptrs. rewrite plugin_list_perm, <-list_fmap_compose.
  apply NoDup_fmap_2_strong; [|apply NoDup_map_to_list].
  intros [n1 l1] [n2 l2] H1%elem_of_map_to_list H2%elem_of_map_to_list Heq. cbn in Heq.
  destruct (Hn n1 l1 H1) as (o1 & Ho1 & <-), (Hn n2 l2 H2) as (o2 & Ho2 & <-).
  rewrite Heq, Ho2 in Ho1. injection Ho1 as ->. congruence.
Qed.

Record running (sig timer net : Z) (s : process) : Prop := Running {
  rn_threads : threads_ok (p_threads s);
  rn_nodup : NoDup [this; sig; timer; net];
  rn_objects : ∀ q, is_Some (threads (p_threads s) !! q) ↔
    q ∈ [sig; timer; net] ∨ is_Some (plugin_objs (m_conf (p_main s)) !! q);
  rn_clients : ∀ q, is_Some (clients (t_bus (p_threads s)) !! q) ↔
    q = this ∨ is_Some (threads (p_threads s) !! q);
  rn_apart : ∀ q, q ∈ [this; sig; timer; net] → plugin_objs (m_conf (p_main s)) !! q = None;
  rn_plugin : named_objects (m_conf (p_main s));
  rn_handles : handles_of (plugin (m_conf (p_main s))) ⊆ handles (m_conf (p_main s));
  rn_known : known stray (p_main s);
  rn_started : ∀ p, p ∈ [sig; timer; net] ++ plugin_ptrs (m_conf (p_main s)) →
    ∃ t, threads (p_threads s) !! p = Some t ∧ th_id t = created p;
  rn_needed : ∀ p, p ∈ [sig; timer; net] → is_Some (created p);
}.

(** The signal handler does not take events. *)
Lemma wp_disable others l mem tm nl s p :
  booting others l mem tm nl s → p ∈ others →
  wp (zoom p_threads set_p_threads (zoom t_bus set_t_bus (EventsEnable p false)))
    (λ _ s', booting others l mem tm nl s' ∧ m_conf (p_main s') = m_conf (p_main s)) failed s.
Proof.
  intros Hs Hp. destruct (bo_main _ _ _ _ _ _ Hs) as [Hm _].
  assert (is_Some (clients (m_world (p_main s)) !! p)) as [cl Hcl].
  { apply (mo_clients _ _ _ _ Hm). right. apply (mo_objects _ _ _ _ Hm). by left. }
  set (w := client_put p (set_enable false cl) (m_world (p_main s))).
  apply wp_zoom, wp_zoom. apply (wp_ok _ tt w).
  { unfold EventsEnable, client_update, client_get, mbind, M_bind, modify.
    change (t_bus (p_threads s)) with (m_world (p_main s)). by rewrite Hcl. }
  split; [|done]. apply (booting_main _ _ _ _ _ s (set_world w (p_main s))); [done|].
  apply kept_stray, kept_world; [done| | |].
  - destruct (tk_bus _ (mo_threads _ _ _ _ Hm)) as [H Hw]. exists H. by apply wf_enable.
  - pose proof (mo_unposted _ _ _ _ Hm) as Hq. apply map_Forall_insert_2; [|exact Hq].
    exact (Hq p cl Hcl).
  - intros q. cbn. rewrite lookup_insert_is_Some'. split; [|by right].
    intros [<-|Hq]; [by eexists|done].
Qed.

Lemma booting_ready others l mem tm nl s ps :
  booting others l mem tm nl s →
  (∀ p, p ∈ ps → p ∈ others ∨ is_Some (plugin_objs (m_conf (p_main s)) !! p)) →
  ready ps (p_threads s).
Proof.
  intros Hs Hps. destruct (bo_main _ _ _ _ _ _ Hs) as [Hm _]. split; [apply Hm| |].
  - intros p [t Ht]%Hps%(mo_objects _ _ _ _ Hm). exists t.
    split; [done|by apply (mo_idle _ _ _ _ Hm p)].
  - intros p tid _ _ Hin. apply (tk_started _ (mo_threads _ _ _ _ Hm)) in Hin as (q & t & Hq & Hid).
    by rewrite (mo_idle _ _ _ _ Hm q t Hq) in Hid.
Qed.

Lemma wp_new_signal_handler others l mem tm nl s :
  booting others l mem tm nl s →
  wp (new_signal_handler sys)
    (λ p s', booting (p :: others) l (set_sig_handler p mem) tm nl s') failed s.
Proof.
  intros Hs. unfold new_signal_handler. apply wp_bind. eapply wp_conseq.
  { apply (wp_thread_object _ others l mem tm nl (λ _, tm) (λ _, nl)); [done|].
    intros p s1 Htm Hnl. apply wp_ret. by rewrite <-Htm, <-Hnl; destruct s1. }
  intros p s' Hs'. apply wp_bind, wp_modify, wp_ret. by apply booting_member.
Qed.

(** All threads are started on top of a program that is built. *)
Lemma running_launched sig timer net l mem tm nl s t :
  booting [sig; net; timer] l mem tm nl s → threads_ok t →
  launched ([sig; timer; net] ++ plugin_ptrs (m_conf (p_main s))) (p_threads s) t →
  (∀ p, p ∈ [sig; timer; net] → is_Some (created p)) →
  running sig timer net (set_p_threads t s).
Proof.
  intros Hs Hok (Hb & Hr & Hi) Hc. pose proof Hs as [[Hm Hk] Hnd _ _ _ _ _].
  set (ps := _ ++ _) in *.
  assert (∀ p, p ∈ ps → is_Some (threads (p_threads s) !! p)) as Hps.
  { intros p [Hp|Hp]%elem_of_app; apply (mo_objects _ _ _ _ Hm); [left; set_solver|].
    right. apply plugin_ptrs_elem in Hp as (o & _ & Ho & _); [by eexists|exact (mo_plugin _ _ _ _ Hm)]. }
  assert (∀ q, is_Some (threads t !! q) ↔ is_Some (threads (p_threads s) !! q)) as Hdom.
  { intros q. destruct (decide (q ∈ ps)) as [Hq|Hq]; [|by rewrite Hr].
    destruct (Hi q Hq) as (u & Hu & _). split; [intros _; by apply Hps|by eexists]. }
  split; try done; rewrite ?threads_set.
  - rewrite !NoDup_cons in *. set_solver.
  - intros q. rewrite Hdom. rewrite (mo_objects _ _ _ _ Hm q).
    change (m_conf (p_main (set_p_threads t s))) with (m_conf (p_main s)). set_solver.
  - intros q. rewrite Hb, Hdom. apply (mo_clients _ _ _ _ Hm).
  - intros q Hq. apply (mo_apart _ _ _ _ Hm). set_solver.
  - exact (mo_plugin _ _ _ _ Hm).
  - exact (mo_handles _ _ _ _ Hm).
Qed.

(** The result of the constructor. *)
Definition completed (l : gmap Z csLog) (tm : timer_state unit) (nl : netlink_static)
    (sig timer net : Z) (mem : members) (s : process) : Prop :=
  running sig timer net s ∧ filters_ok this (m_conf (p_main s)) ∧ logs_are l (p_logs s) ∧
  p_timers s = tm ∧ p_netlink s = nl ∧ stack (p_parser s) = [] ∧
  p_members s = set_sig_handler sig mem ∧ unposted (t_bus (p_threads s)).

Lemma wp_start_threads timer net l mem tm nl s :
  booting [net; timer] l mem tm nl s → timer_thread mem = timer → netlink_thread mem = net →
  wp (start_threads sys) (λ _ s', ∃ sig, completed l tm nl sig timer net mem s') failed s.
Proof.
  intros Hs Htimer Hnet. unfold start_threads. apply wp_bind.
  eapply wp_conseq; [by apply wp_new_signal_handler|]. intros sig s0 Hs0. apply wp_bind.
  eapply wp_conseq; [apply (wp_disable _ _ _ _ _ _ sig Hs0); by left|].
  intros [] s1 [Hs1 _]. pose proof Hs1 as [[Hm Hk] Hnd Hl Hmem Htm Hnl Hst].
  set (ptrs := plugin_ptrs (m_conf (p_main s1))).
  assert (NoDup (sig :: timer :: net :: ptrs)) as Hnd1.
  { pose proof (plugin_ptrs_nodup _ (mo_plugin _ _ _ _ Hm)) as Hp. fold ptrs in Hp.
    assert (∀ q, q ∈ ptrs → q ∉ [sig; net; timer]) as Hout.
    { intros q (o & _ & Ho & _)%plugin_ptrs_elem Hq; [|exact (mo_plugin _ _ _ _ Hm)].
      rewrite (mo_apart _ _ _ _ Hm q) in Ho; [done|by right]. }
    rewrite !NoDup_cons in *. set_solver. }
  assert (ready (sig :: timer :: net :: ptrs) (p_threads s1)) as Hr1.
  { eapply booting_ready; [exact Hs1|]. intros p. rewrite !elem_of_cons.
    intros [->|[->|[->|Hp]]]; [left; set_solver..|right].
    apply plugin_ptrs_elem in Hp as (o & _ & Ho & _); [by eexists|exact (mo_plugin _ _ _ _ Hm)]. }
  pose proof (booting_alive _ _ _ _ _ _ Hs1) as Ha1.
  apply wp_bind. eapply wp_conseq; [by apply (wp_start_thread sig (timer :: net :: ptrs))|].
  intros [] s2 (t2 & -> & Hl2 & Hr2 & Hc2).
  apply wp_bind, wp_gets. change (p_members (set_p_threads t2 s1)) with (p_members s1).
  rewrite Hmem. cbn [timer_thread netlink_thread set_sig_handler]. rewrite Htimer, Hnet.
  pose proof Hnd1 as [Hn1 Hnd2]%NoDup_cons. pose proof Hnd2 as [Hn2 Hnd3]%NoDup_cons.
  assert (alive (set_p_threads t2 s1)) as Ha2.
  { destruct Hl2 as [Hb2 _], Ha1. by split; rewrite threads_set, Hb2. }
  apply wp_bind. eapply wp_conseq; [by apply (wp_start_thread timer (net :: ptrs))|].
  intros [] s3 (t3 & -> & Hl3 & Hr3 & Hc3). rewrite threads_set in Hl3.
  assert (alive (set_p_threads t3 (set_p_threads t2 s1))) as Ha3.
  { destruct Hl3 as [Hb3 _], Ha2 as [? ?]. by split; rewrite threads_set, Hb3. }
  apply wp_bind. eapply wp_conseq; [by apply (wp_start_thread net ptrs)|].
  intros [] s4 (t4 & -> & Hl4 & Hr4 & Hc4). rewrite threads_set in Hl4.
  apply wp_bind, wp_gets. pose proof Hnd3 as [Hn3 Hnd4]%NoDup_cons.
  destruct (start_plugins_run (plugin_list (plugin (m_conf (p_main s1))))
    (set_p_threads t4 (set_p_threads t3 (set_p_threads t2 s1))) Hnd4 Hr4) as (t & Hrun & Hl5 & Hok).
  eapply wp_ok; [exact Hrun|]. exists sig. rewrite threads_set in Hl5.
  assert (launched ([sig; timer; net] ++ ptrs) (p_threads s1) t) as Hall.
  { apply (launched_app [sig] ([timer; net] ++ ptrs) _ t2); [set_solver|done|].
    apply (launched_app [timer] ([net] ++ ptrs) _ t3); [set_solver|done|].
    by apply (launched_app [net] ptrs _ t4); [set_solver|..]. }
  assert (unposted (t_bus t)) as Hun.
  { destruct Hall as [-> _]. exact (mo_unposted _ _ _ _ Hm). }
  split; [|split; [exact (main_ok_filters _ _ _ _ Hm)|done]].
  apply (running_launched sig timer net l (set_sig_handler sig mem) tm nl s1 t Hs1 Hok Hall).
  intros p. rewrite !elem_of_cons, elem_of_nil. by intros [->|[->|[->|[]]]].
Qed.
(** ** The constructor *)

Definition members0 : members := Members NULL NULL NULL NULL NULL NULL.

(** With [-d] the program stays in the foreground and has no system log. *)
Definition main_logs (debug : bool) : gmap Z csLog := if debug then stdout_logs else both_logs.

(** The constructor returned: which threads were made, and whether in the
    foreground. *)
Record constructed_main (sig timer net : Z) (debug : bool) (s : process) : Prop := Constructed {
  cm_running : running sig timer net s;
  cm_filters : filters_ok this (m_conf (p_main s));
  cm_logs : logs_are (main_logs debug) (p_logs s);
  cm_timers : p_timers s = timers1 timer;
  cm_netlink : p_netlink s = netlink1 net;
  cm_stack : stack (p_parser s) = [];
  cm_members : p_members s = Members (sys_stdout sys) (if debug then NULL else sys_syslog sys)
    sig timer net (sys_conf sys);
  cm_unposted : unposted (t_bus (p_threads s));
}.

Lemma wp_csMain_body argv s :
  booting [] ∅ members0 timers0 netlink0 s → p_logs s = log0 →
  wp (csMain_body sys argv) (λ _ s', ∃ sig timer net debug, constructed_main sig timer net debug s')
    failed s.
Proof.
  intros Hs H0. unfold csMain_body.
  apply wp_bind. eapply wp_mono; [by apply wp_log_to_stdout| |done]. clear Hs H0. intros [] s1 Hs.
  apply wp_bind. eapply wp_mono; [by apply wp_parse_options| |by intros x s' []].
  clear s1 Hs. intros opts s1 [Hs _].
  set (debug := opt_debug opts).
  set (mem := Members (sys_stdout sys) (if debug then NULL else sys_syslog sys) NULL NULL NULL NULL).
  assert (wp (when (negb debug) (to_background sys))
    (λ _ s', booting [] (main_logs debug) mem timers0 netlink0 s') failed s1) as Hbg.
  { unfold when, mem. destruct debug; [exact Hs|]. exact (wp_to_background [] (set_log_stdout (sys_stdout sys) members0) _ _ s1 Hs). }
  apply wp_bind. eapply wp_conseq; [exact Hbg|]. clear Hbg s1 Hs. intros [] s1 Hs.
  apply wp_bind. eapply wp_conseq; [by apply wp_init_crypto|]. clear s1 Hs. intros [] s1 Hs.
  apply wp_bind. eapply wp_conseq; [by apply wp_new_timer_thread|]. clear s1 Hs.
  intros [] s1 (timer & Hs).
  apply wp_bind. eapply wp_conseq; [by apply wp_new_netlink_thread|]. clear s1 Hs.
  intros [] s1 (net & Hs).
  apply wp_bind. eapply wp_conseq; [by apply wp_read_configuration|]. clear s1 Hs. intros [] s1 Hs.
  apply wp_bind. eapply wp_conseq; [by eapply wp_block_signals|]. intros [] s2 ->.
  eapply wp_conseq; [by apply (wp_start_threads timer net _ _ _ _ _ Hs)|].
  intros [] s2 (sig & Hrun & Hf & Hl & Htm & Hnl & Hst & Hmem & Hun). by exists sig, timer, net, debug.
Qed.

Lemma process0_inv d :
  this ≠ NULL → this ≠ CS_EVENT_BROADCAST → disk_loadable (sys_alloc_max sys) d →
  inv [] (CsMain (ThreadState (constructed this world0) ∅ ∅ ∅)
    (MainConf 0 EmptyString EmptyString ∅ ∅ ∅ ∅ d)).
Proof.
  intros Hn Hb Hd. split; [|intros q; cbn; rewrite lookup_empty; by intros []]. split; try done.
  - split; cbn; try done.
    + exists ∅. by apply (constructed_ok world0 ∅ this world0_wf).
    + intros p [t Ht]. by rewrite lookup_empty in Ht.
    + intros tid. rewrite elem_of_empty. split; [done|]. by intros (p & t & ? & _).
  - intros p. cbn. rewrite !lookup_empty, elem_of_nil. split; [by right|by intros [[]|]].
  - intros p. unfold m_world. cbn.
    rewrite lookup_insert_is_Some', !lookup_empty. split; (intros [->|[]]; [by left|done]).
  - by eapply (unposted_fresh world0); [|apply map_Forall_empty].
Qed.

Lemma process0_booting d :
  this ≠ NULL → this ≠ CS_EVENT_BROADCAST → disk_loadable (sys_alloc_max sys) d →
  booting [] ∅ members0 timers0 netlink0
    (set_p_threads (set_t_bus (constructed this world0) (p_threads (process0 d))) (process0 d)).
Proof.
  intros Hn Hb Hd. split; try done; [exact (process0_inv d Hn Hb Hd)|apply NoDup_singleton|].
  split; [apply log0_ok|done].
Qed.

Lemma csMain_new_begins argv d :
  this ≠ NULL → this ≠ CS_EVENT_BROADCAST →
  csMain_new sys this argv (process0 d) =
    try_catch (csMain_body sys argv)
      (λ x, zoom p_threads set_p_threads (zoom t_bus set_t_bus (csEventClient_delete this));; throw x)
      (set_p_threads (set_t_bus (constructed this world0) (p_threads (process0 d))) (process0 d)).
Proof.
  intros Hn Hb. unfold csMain_new.
  set (s1 := set_p_threads _ _). rewrite (bind_ok _ _ _ tt s1); [done|].
  change (p_threads (process0 d)) with (ThreadState world0 ∅ ∅ ∅) in s1.
  unfold zoom. change (t_bus (p_threads (process0 d))) with world0.
  by rewrite (csEventClient_new_run world0 ∅ this world0_wf).
Qed.

(** An exception unregisters the program. *)
Definition unregistered (s : process) : Prop :=
  world_ok (t_bus (p_threads s)) ∧ clients (t_bus (p_threads s)) !! this = None.

Lemma wp_unregister {A} (Q : A → process → Prop) (X : csException → process → Prop) x s :
  alive s → (∀ s', unregistered s' → X x s') →
  wp (zoom p_threads set_p_threads (zoom t_bus set_t_bus (csEventClient_delete this));; throw x) Q X s.
Proof.
  intros [Hw Hc] HX. apply wp_bind, wp_zoom, wp_zoom.
  destruct (client_delete_run _ this Hw Hc) as (w & Hrun & Hw' & _ & Hdom).
  eapply wp_ok; [exact Hrun|]. apply wp_throw, HX. split; [exact Hw'|].
  change (clients w !! this = None). apply eq_None_not_Some. intros Hthis%Hdom. by destruct Hthis.
Qed.

(** The constructor returns with the program running, or throws and has
    unregistered the program; it is never stuck. *)
Lemma wp_csMain_new argv d :
  this ≠ NULL → this ≠ CS_EVENT_BROADCAST → disk_loadable (sys_alloc_max sys) d →
  wp (csMain_new sys this argv)
    (λ _ s', ∃ sig timer net debug, constructed_main sig timer net debug s')
    (λ _ s', unregistered s') (process0 d).
Proof.
  intros Hn Hb Hd. unfold wp. rewrite csMain_new_begins by done. apply wp_try_catch.
  eapply wp_mono; [by apply wp_csMain_body; [apply process0_booting|]|done|].
  intros x s Ha. by apply wp_unregister.
Qed.

(** An option that ends the program ends it. *)
Lemma wp_csMain_options argv d c :
  this ≠ NULL → this ≠ CS_EVENT_BROADCAST → disk_loadable (sys_alloc_max sys) d →
  dumps → option_exit argv = Some c →
  wp (csMain_new sys this argv) (λ _ _, False) (λ x s', ended_by argv x ∧ unregistered s')
    (process0 d).
Proof.
  intros Hn Hb Hd Hdump Hc. unfold wp. rewrite csMain_new_begins by done. apply wp_try_catch.
  unfold csMain_body. apply wp_bind.
  eapply wp_mono; [by apply wp_log_to_stdout; [apply process0_booting|]| |done].
  intros [] s Hs. apply wp_bind. eapply wp_mono; [by apply wp_parse_options| |].
  - intros opts s' [_ Hno]. congruence.
  - intros x s' [Ha He]. apply wp_unregister; [done|]. intros s2 Hu. split; [by apply He|done].
Qed.
End constructor.
