(* ===== verification/ProcessProps.v ===== *)
(** * The program starts and ends cleanly

    The destructor of [csMain] after its constructor: whatever the configuration
    loaded and whatever happened while the program ran, it takes everything apart. *)

From S2P Require Import Prelude Exception Bytes Event EventInv EventOps Bus EventProps Timer Thread.
From S2P Require Import ThreadProps Plugin PluginProps Conf ConfProps Log LogProps Netlink.
From S2P Require Import Main MainProps MainConf Process StartProps.

(** ** Objects that are destroyed after their threads ended *)

(** Every thread has ended. *)
Definition all_ended (s : thread_state) : Prop := started s ⊆ ended s.

Lemma all_joinable s p t :
  threads_ok s → all_ended s → threads s !! p = Some t → joinable s t.
Proof.
  intros Hs He Ht. unfold joinable. destruct (th_id t) as [tid|] eqn:Hid; [|done].
  apply He, (tk_started s Hs). eauto.
Qed.

(** Without some objects and their clients. *)
Definition without (ps : list Z) (s s' : thread_state) : Prop :=
  threads_ok s' ∧ all_ended s' ∧
  (∀ q, threads s' !! q = if decide (q ∈ ps) then None else threads s !! q) ∧
  ∀ q, is_Some (clients (t_bus s') !! q) ↔ q ∉ ps ∧ is_Some (clients (t_bus s) !! q).

Lemma without_trans ps1 ps2 s s1 s2 :
  without ps1 s s1 → without ps2 s1 s2 → without (ps1 ++ ps2) s s2.
Proof.
  intros (_ & _ & Ht1 & Hc1) (Hs & He & Ht2 & Hc2). split_and!; [done|done| |].
  - intros q. rewrite Ht2, Ht1. repeat case_decide; set_solver.
  - intros q. rewrite Hc2, Hc1, elem_of_app. naive_solver.
Qed.

Lemma gone_without s p t w :
  threads_ok s → all_ended s → threads s !! p = Some t → world_ok w →
  (∀ q, is_Some (clients w !! q) ↔ q ≠ p ∧ is_Some (clients (t_bus s) !! q)) →
  without [p] s (gone w p t s).
Proof.
  intros Hs He Ht Hw Hd. split_and!.
  - by apply gone_ok.
  - unfold all_ended, gone in *. cbn. set_solver.
  - intros q. cbn. case_decide as Hq.
    + apply list_elem_of_singleton in Hq as ->. by rewrite lookup_delete_eq.
    + rewrite lookup_delete_ne; [done|]. intros ->. apply Hq. by apply list_elem_of_singleton.
  - intros q. rewrite list_elem_of_singleton. apply Hd.
Qed.

(** Joining an object, which is still there, and destroying it. *)
Lemma destroy_parts s p :
  threads_ok s → all_ended s → is_Some (threads s !! p) →
  ∃ s1 s', thread_Join p s = Ok tt s1 ∧ csThread_delete p s1 = Ok tt s' ∧ without [p] s s'.
Proof.
  intros Hs He [t Ht]. pose proof (all_joinable s p t Hs He Ht) as Hj.
  destruct (thread_destroy_run s p t Hs Ht Hj) as (w & Hrun & Hw & _ & Hd).
  destruct (thread_Join_run s p t Hs Ht) as [[_ Hjoin]|[? _]]; [|done].
  unfold thread_destroy, mbind, M_bind in Hrun. rewrite Hjoin in Hrun.
  do 2 eexists. split_and!; [exact Hjoin|exact Hrun|by apply gone_without].
Qed.

(** The destructors of the timer and the netlink thread, which work on their
    statics in between, and that of the signal handler. *)
Lemma thread_destroyed p (mid : prog process unit) tm nl s :
  threads_ok (p_threads s) → all_ended (p_threads s) → is_Some (threads (p_threads s) !! p) →
  (∀ t, mid (set_p_threads t s) = Ok tt (set_p_netlink nl (set_p_timers tm (set_p_threads t s)))) →
  ∃ t, (zoom p_threads set_p_threads (thread_Join p);; mid;;
      zoom p_threads set_p_threads (csThread_delete p)) s =
      Ok tt (set_p_netlink nl (set_p_timers tm (set_p_threads t s))) ∧ without [p] (p_threads s) t.
Proof.
  intros Hs He Hp Hmid. destruct (destroy_parts _ p Hs He Hp) as (t1 & t & Hj & Hd & Hw).
  exists t. split; [|done].
  rewrite (bind_ok _ _ _ tt (set_p_threads t1 s)) by (unfold zoom; by rewrite Hj).
  rewrite (bind_ok _ _ _ _ _ (Hmid t1)). unfold zoom.
  change (p_threads (set_p_netlink nl (set_p_timers tm (set_p_threads t1 s)))) with t1.
  by rewrite Hd.
Qed.

(** ** Plugins *)

(** What the disk holds after the plugins at [ps] saved their variables. *)
Definition all_saved (file_max : Z) (ps : list Z) (c : main_conf) : gmap string (list byte) :=
  foldl (λ d p, saved file_max (plugin_objs c !! p) d) (disk c) ps.

Lemma all_saved_ext file_max ps c c' :
  (∀ p, p ∈ ps → plugin_objs c' !! p = plugin_objs c !! p) →
  all_saved file_max ps c' = foldl (λ d p, saved file_max (plugin_objs c !! p) d) (disk c') ps.
Proof.
  unfold all_saved. generalize (disk c'). induction ps as [|p ps IH]; intros d Hp; [done|]. cbn.
  rewrite Hp by by left. apply IH. intros q Hq. apply Hp. by right.
Qed.

(** The program without the plugins of some loaders. *)
Record unloaded (file_max : Z) (ls : list csPluginLoader) (m m' : csMain) : Prop := Unloaded {
  ul_threads : without (Plugin.plugin <$> ls) (m_threads m) (m_threads m');
  ul_plugin : plugin (m_conf m') = plugin (m_conf m);
  ul_handles : handles (m_conf m') =
    handles (m_conf m) ∖ list_to_set_disj (so_handle <$> ls);
  ul_objs : ∀ q, plugin_objs (m_conf m') !! q =
    if decide (q ∈ Plugin.plugin <$> ls) then None else plugin_objs (m_conf m) !! q;
  ul_disk : disk (m_conf m') = all_saved file_max (Plugin.plugin <$> ls) (m_conf m);
}.

Lemma unloaded_nil file_max m :
  threads_ok (m_threads m) → all_ended (m_threads m) → unloaded file_max [] m m.
Proof.
  intros Hs He. split; cbn; [|done|multiset_solver| |done].
  - split_and!; [done|done| |]; intros q.
    + by rewrite decide_False by apply not_elem_of_nil.
    + split; [|by intros []]. intros Hq. split; [apply not_elem_of_nil|done].
  - intros q. by rewrite decide_False by apply not_elem_of_nil.
Qed.

Lemma unloaded_app file_max l1 l2 m m1 m2 :
  NoDup (Plugin.plugin <$> l1 ++ l2) →
  unloaded file_max l1 m m1 → unloaded file_max l2 m1 m2 → unloaded file_max (l1 ++ l2) m m2.
Proof.
  rewrite fmap_app. intros (_ & Hnd & _)%NoDup_app [Ht1 Hp1 Hh1 Ho1 Hd1] [Ht2 Hp2 Hh2 Ho2 Hd2].
  split; rewrite ?fmap_app.
  - by eapply without_trans.
  - congruence.
  - rewrite Hh2, Hh1, list_to_set_disj_app. multiset_solver.
  - intros q. rewrite Ho2, Ho1. repeat case_decide; set_solver.
  - rewrite Hd2, (all_saved_ext _ _ (m_conf m)), Hd1; [unfold all_saved; by rewrite foldl_app|].
    intros p Hp. rewrite Ho1, decide_False; [done|]. intros Hp1'. by apply (Hnd p).
Qed.

Lemma no_clients_left s :
  world_ok s → (∀ q, ¬ is_Some (clients s !! q)) → event_client s = [] ∧ event_client_mutex s = MNull.
Proof.
  intros [H [Hc Hm]] Hno. assert (event_client s = []) as Hnil.
  { destruct (event_client s) as [|x l] eqn:Hl; [done|]. destruct (Hno x).
    apply (core_dom _ _ Hc). rewrite Hl. by left. }
  split; [done|]. by rewrite Hm, decide_True.
Qed.

(** ** Loggers *)

Lemma logs_empty s :
  log_ok s → logs s = ∅ →
  logger s = [] ∧ logger_mutex s = MNull ∧ log_files s = ∅ ∧ syslog_open s = false.
Proof.
  intros Hok Hnil. assert (logger s = []) as Hl.
  { destruct (logger s) as [|p l] eqn:Hp; [done|].
    destruct (proj1 (lo_dom s Hok p)) as [u Hu]; [rewrite Hp; by left|].
    by rewrite Hnil, lookup_empty in Hu. }
  split; [done|]. split; [by rewrite (lo_mutex s Hok), decide_True|]. split.
  - apply leibniz_equiv. intros h. rewrite elem_of_empty. split; [|done]. intros Hh.
    destruct (lo_used s Hok h Hh) as (p & u & Hu & _). by rewrite Hnil, lookup_empty in Hu.
  - destruct (syslog_open s) eqn:Ho; [|done]. apply (lo_open s Hok) in Ho as (p & u & Hu & _).
    by rewrite Hnil, lookup_empty in Hu.
Qed.

(** One logger less. *)
Lemma log_deleted s p :
  log_ok s → is_Some (logs s !! p) →
  ∃ s', csLog_delete p s = Ok tt s' ∧ log_ok s' ∧ logs s' = delete p (logs s).
Proof.
  intros Hok [l Hp]. exists (removed p l s). split_and!; [by apply csLog_delete_run| |done].
  by apply removed_ok.
Qed.

Section shutdown.
Context (sys : system).

Lemma plugin_destroyed l o s :
  let m := p_main s in
  threads_ok (m_threads m) → all_ended (m_threads m) →
  plugin_objs (m_conf m) !! Plugin.plugin l = Some o →
  is_Some (threads (m_threads m) !! Plugin.plugin l) →
  ∃ m', plugin_destroy sys l s = Ok tt (set_p_main m' s) ∧ unloaded (sys_file_max sys) [l] m m'.
Proof.
  intros m Hs He Ho [t Ht]. set (p := Plugin.plugin l) in *.
  destruct (thread_Join_run (m_threads m) p t Hs Ht) as [[_ Hjoin]|[Hn _]].
  2:{ destruct Hn. by apply (all_joinable (m_threads m) p). }
  set (t1 := ThreadState _ _ _ _) in Hjoin. set (m1 := set_m_threads t1 m).
  destruct (csPlugin_destruct_run (sys_file_max sys) m1 p o Ho) as
    (w & c & Hdel & Hw & _ & Hdom & Hp & Hh & Hob & Hdisk).
  - cbn. rewrite lookup_insert_eq. by eexists.
  - apply (tk_bus _ Hs).
  - apply (tk_client _ Hs). by eexists.
  - cbn in Hdel. rewrite delete_insert_eq in Hdel.
    eexists. split.
    + unfold plugin_destroy. fold p.
      rewrite (bind_ok _ _ _ tt (set_p_main m1 s)) 
        by (unfold zoom; change (p_threads s) with (m_threads m); by rewrite Hjoin).
      rewrite (bind_ok _ _ _ tt (set_p_main (CsMain (gone w p t (m_threads m)) c) s)).
      * reflexivity.
      * unfold zoom. rewrite main_set, Hdel. done.
    + split.
      * by apply gone_without.
      * exact Hp.
      * change (handles c ∖ {[+ so_handle l +]} =
          handles (m_conf m) ∖ list_to_set_disj [so_handle l]).
        rewrite Hh. change (handles (m_conf m1)) with (handles (m_conf m)).
        cbn [list_to_set_disj foldr]. multiset_solver.
      * intros q. change (plugin_objs c !! q =
          if decide (q ∈ [p]) then None else plugin_objs (m_conf m) !! q).
        rewrite Hob. case_decide as Hq.
        { apply list_elem_of_singleton in Hq as ->. apply lookup_delete_eq. }
        rewrite lookup_delete_ne; [done|]. intros <-. apply Hq. by left.
      * change (disk c = all_saved (sys_file_max sys) [p] (m_conf m)).
        unfold all_saved. cbn. by rewrite Ho.
Qed.

Lemma plugins_destroyed ls s :
  threads_ok (p_threads s) → all_ended (p_threads s) → NoDup (Plugin.plugin <$> ls) →
  (∀ l, l ∈ ls → is_Some (plugin_objs (m_conf (p_main s)) !! Plugin.plugin l) ∧
    is_Some (threads (p_threads s) !! Plugin.plugin l)) →
  ∃ m', foreach ls (plugin_destroy sys) s = Ok tt (set_p_main m' s) ∧
    unloaded (sys_file_max sys) ls (p_main s) m'.
Proof.
  revert s. induction ls as [|l ls IH]; intros s Hs He Hnd Hl.
  { exists (p_main s). rewrite set_main_same. split; [done|by apply unloaded_nil]. }
  destruct (Hl l) as [[o Ho] Ht]; [by left|]. cbn in Hnd. apply NoDup_cons in Hnd as [Hp Hnd].
  destruct (plugin_destroyed l o s Hs He Ho Ht) as (m1 & Hrun & Hu).
  pose proof (ul_threads _ _ _ _ Hu) as (Hs1 & He1 & Ht1 & _).
  destruct (IH (set_p_main m1 s)) as (m2 & Hrest & Hu2); [exact Hs1|exact He1|done| |].
  { intros x Hx. assert (Plugin.plugin x ∉ Plugin.plugin <$> [l]) as Hne.
    { intros Hin%list_elem_of_singleton. apply Hp. rewrite <-Hin. by apply list_elem_of_fmap_2. }
    destruct (Hl x) as [Hxo Hxt]; [by right|].
    change (p_threads (set_p_main m1 s)) with (m_threads m1). rewrite main_set.
    rewrite Ht1, (ul_objs _ _ _ _ Hu), !decide_False by done. done. }
  exists m2. split; [|refine (unloaded_app _ [l] ls _ _ _ _ Hu Hu2); by constructor].
  cbn [foreach]. rewrite (bind_ok _ _ _ _ _ Hrun). exact Hrest.
Qed.

Lemma plugin_list_handles P :
  list_to_set_disj (so_handle <$> plugin_list P) = handles_of P.
Proof.
  unfold handles_of. apply list_to_set_disj_perm.
  rewrite plugin_list_perm, <-list_fmap_compose. done.
Qed.

(** ** The program while it runs *)

(** The program writes lines. *)
Definition logged (s s' : log_state) : Prop :=
  ∃ clock level message, Log clock level message s = Ok tt s'.

Lemma logged_logs l s s' : rtc logged s s' → logs_are l s → logs_are l s'.
Proof.
  induction 1 as [s|s1 s2 s3 (clock & level & msg & Hrun) _ IH]; [done|].
  intros [Hok Hl]. apply IH. rewrite Log_run in Hrun by done. injection Hrun as <-.
  by destruct Hok.
Qed.

Lemma run_steps_ok s s' :
  rtc run_step s s' → threads_ok s → threads_ok s' ∧ threads s' = threads s ∧
    ∀ q, is_Some (clients (t_bus s') !! q) ↔ is_Some (clients (t_bus s) !! q).
Proof.
  induction 1 as [s|s1 s2 s3 Hst _ IH]; [done|]. intros Hs.
  destruct (run_step_ok s1 s2 Hst Hs) as (Hs2 & Ht & Hd). destruct (IH Hs2) as (Hs3 & Ht3 & Hd3).
  split_and!; [done|congruence|]. intros q. by rewrite Hd3.
Qed.

(** From the end of the constructor to the beginning of the destructor: threads
    exchange events and end, lines are logged, timers are made and deleted,
    plugins change their state and write their files; plugins are not loaded
    and the program's members and the netlink socket stay. *)
Record lived (s s' : process) : Prop := Lived {
  lv_threads : rtc run_step (p_threads s) (p_threads s');
  lv_logs : rtc logged (p_logs s) (p_logs s');
  lv_plugin : plugin (m_conf (p_main s')) = plugin (m_conf (p_main s));
  lv_filter : plugin_event_filter (m_conf (p_main s')) = plugin_event_filter (m_conf (p_main s));
  lv_handles : handles (m_conf (p_main s')) = handles (m_conf (p_main s));
  lv_objs : ∀ q, po_name <$> plugin_objs (m_conf (p_main s')) !! q =
    po_name <$> plugin_objs (m_conf (p_main s)) !! q;
  lv_stack : stack (p_parser s') = stack (p_parser s);
  lv_timers : instance (p_timers s') = instance (p_timers s);
  lv_netlink : p_netlink s' = p_netlink s;
  lv_members : p_members s' = p_members s;
}.

Context (this : Z) (stray : Z → Prop).

Lemma named_objects_later c c' :
  plugin c' = plugin c → (∀ q, po_name <$> plugin_objs c' !! q = po_name <$> plugin_objs c !! q) →
  named_objects c → named_objects c'.
Proof.
  intros Hp Ho Hn name l Hl. rewrite Hp in Hl. destruct (Hn name l Hl) as (o & Hol & <-).
  specialize (Ho (Plugin.plugin l)). rewrite Hol in Ho. cbn in Ho.
  apply fmap_Some in Ho as (o' & Hol' & Heq). by exists o'.
Qed.

Lemma running_later sig timer net s s' :
  running sys this stray sig timer net s → lived s s' → running sys this stray sig timer net s'.
Proof.
  intros [Hs Hnd Hobj Hcl Hap Hpl Hh Hk Hid Hneed] [Hr _ Hp _ Hhh Ho _ _ _ _].
  destruct (run_steps_ok _ _ Hr Hs) as (Hs' & Ht & Hd).
  assert (∀ q, is_Some (plugin_objs (m_conf (p_main s')) !! q) ↔
    is_Some (plugin_objs (m_conf (p_main s)) !! q)) as Hdom.
  { intros q. by rewrite <-(fmap_is_Some po_name), Ho, fmap_is_Some. }
  assert (plugin_ptrs (m_conf (p_main s')) = plugin_ptrs (m_conf (p_main s))) as Hptrs.
  { unfold plugin_ptrs. by rewrite Hp. }
  split; rewrite ?Ht, ?Hptrs, ?Hp, ?Hhh; try done.
  - intros q. by rewrite Hobj, Hdom.
  - intros q. by rewrite Hd, Hcl.
  - intros q Hq. apply eq_None_not_Some. rewrite Hdom, (Hap q Hq). by intros [].
  - by eapply named_objects_later.
  - intros q Hq. apply Hdom in Hq. destruct (Hk q Hq) as [(o & l & Hol & Hl & Hlp)|?]; [left|by right].
    specialize (Ho q). rewrite Hol in Ho. apply fmap_Some in Ho as (o' & Hol' & Heq).
    exists o', l. rewrite Hp, <-Heq. done.
Qed.

(** ** The threads of the program *)

Lemma if_made_run p (m : Z → prog process unit) : p ≠ NULL → if_made p m = m p.
Proof. intros Hp. unfold if_made, when. by rewrite (proj2 (Z.eqb_neq _ _)). Qed.

Lemma statics_same s : set_p_netlink (p_netlink s) (set_p_timers (p_timers s) s) = s.
Proof. by destruct s. Qed.

(** The thread of the signal handler is there to be signalled. *)
Lemma handler_destroyed p t tid s :
  threads_ok (p_threads s) → all_ended (p_threads s) → threads (p_threads s) !! p = Some t →
  th_id t = Some tid →
  ∃ t', csSignalHandler_delete p s = Ok tt (set_p_threads t' s) ∧ without [p] (p_threads s) t'.
Proof.
  intros Hs He Ht Hid.
  destruct (thread_destroyed p (mret tt) (p_timers s) (p_netlink s) s Hs He) as (t' & Hrun & Hw).
  - by eexists.
  - intros u. by unfold mret, M_ret; f_equal.
  - exists t'. split; [|done].
    rewrite <-(statics_same (set_p_threads t' s)). unfold csSignalHandler_delete.
    rewrite (bind_ok _ _ _ tt s); [exact Hrun|]. rewrite <-(set_threads_same s) at 2. apply zoom_ok.
    unfold pthread_kill, thread_get, mbind, M_bind, gets. rewrite Ht, Hid.
    rewrite bool_decide_eq_true_2; [done|]. apply (tk_started _ Hs). eauto.
Qed.

Lemma timer_destroyed p s :
  threads_ok (p_threads s) → all_ended (p_threads s) → is_Some (threads (p_threads s) !! p) →
  instance (p_timers s) = p →
  ∃ t tm, delete_timer_thread p s = Ok tt (set_p_timers tm (set_p_threads t s)) ∧
    without [p] (p_threads s) t ∧ vector_mutex tm = MNull.
Proof.
  intros Hs He Hp Hi.
  destruct (thread_destroyed p (zoom p_timers set_p_timers (csThreadTimer_delete p))
    (set_vector_mutex MNull (p_timers s)) (p_netlink s) s Hs He Hp) as (t & Hrun & Hw).
  - intros u. unfold zoom, csThreadTimer_delete, mbind, M_bind, gets.
    change (p_timers (set_p_threads u s)) with (p_timers s). rewrite Hi, Z.eqb_refl. by destruct s.
  - exists t, (set_vector_mutex MNull (p_timers s)). split; [|done].
    unfold delete_timer_thread. rewrite Hrun. by destruct s.
Qed.

Lemma netlink_destroyed p s :
  threads_ok (p_threads s) → all_ended (p_threads s) → is_Some (threads (p_threads s) !! p) →
  p_netlink s = netlink1 sys p →
  ∃ t, delete_netlink_thread p s = Ok tt (set_p_netlink (NetlinkStatic p ∅ ∅) (set_p_threads t s)) ∧
    without [p] (p_threads s) t.
Proof.
  intros Hs He Hp Hn.
  destruct (thread_destroyed p (zoom p_netlink set_p_netlink (csThreadNetlink_delete p))
    (p_timers s) (NetlinkStatic p ∅ ∅) s Hs He Hp) as (t & Hrun & Hw).
  - intros u. unfold zoom, csThreadNetlink_delete.
    change (p_netlink (set_p_threads u s)) with (p_netlink s). rewrite Hn. unfold netlink1.
    destruct (sys_socket sys =? -1)%Z eqn:Hfd; cbn; rewrite lookup_singleton_eq; cbn;
      rewrite Z.eqb_refl, ?Hfd; cbn; rewrite delete_singleton_eq, ?difference_diag_L;
      by destruct s.
  - exists t. split; [|done]. unfold delete_netlink_thread. rewrite Hrun. by destruct s.
Qed.

(** ** The destructor *)

Context (Hsys : system_ok sys stray).

(** The program at the end of [Run]. *)
Record at_end (sig timer net : Z) (debug : bool) (s : process) : Prop := AtEnd {
  ae_running : running sys this stray sig timer net s;
  ae_ended : all_ended (p_threads s);
  ae_logs : logs_are (main_logs sys debug) (p_logs s);
  ae_timers : instance (p_timers s) = timer;
  ae_netlink : p_netlink s = netlink1 sys net;
  ae_stack : stack (p_parser s) = [];
  ae_members : p_members s = Members (sys_stdout sys) (if debug then NULL else sys_syslog sys)
    sig timer net (sys_conf sys);
}.

Lemma constructed_later sig timer net debug s s' :
  constructed_main sys this stray sig timer net debug s → lived s s' → all_ended (p_threads s') →
  at_end sig timer net debug s'.
Proof.
  intros [Hr _ Hl Htm Hnl Hst Hmem _] Hlv He. pose proof Hlv as [].
  split; [by eapply running_later|done|by eapply logged_logs| |congruence..].
  by rewrite lv_timers0, Htm.
Qed.

(** The objects that are left are plugins whose configuration failed. *)
Record closed (s s' : process) : Prop := Closed {
  cl_ok : threads_ok (p_threads s');
  cl_threads : ∀ q, is_Some (threads (p_threads s') !! q) → stray q;
  cl_clients : ∀ q, is_Some (clients (t_bus (p_threads s')) !! q) → stray q;
  cl_handles : handles (m_conf (p_main s')) =
    handles (m_conf (p_main s)) ∖ handles_of (plugin (m_conf (p_main s)));
  cl_logs : logs (p_logs s') = ∅ ∧ logger (p_logs s') = [] ∧ logger_mutex (p_logs s') = MNull ∧
    log_files (p_logs s') = ∅ ∧ syslog_open (p_logs s') = false;
  cl_timers : vector_mutex (p_timers s') = MNull;
  cl_netlink : nl_objects (p_netlink s') = ∅ ∧ nl_fds (p_netlink s') = ∅;
  cl_disk : disk (m_conf (p_main s')) =
    all_saved (sys_file_max sys) (plugin_ptrs (m_conf (p_main s))) (m_conf (p_main s));
}.

(** The plugins and the threads. *)
Lemma objects_destroyed sig timer net debug s (rest : members → prog process unit) :
  at_end sig timer net debug s →
  ∃ m tm, (foreach (plugin_list (plugin (m_conf (p_main s)))) (plugin_destroy sys);;
      mem ← gets p_members; if_made (sig_handler mem) csSignalHandler_delete;;
      if_made (timer_thread mem) delete_timer_thread;;
      if_made (netlink_thread mem) delete_netlink_thread;; rest mem) s =
      rest (p_members s) (set_p_netlink (NetlinkStatic net ∅ ∅) (set_p_timers tm (set_p_main m s))) ∧
    vector_mutex tm = MNull ∧
    handles (m_conf m) = handles (m_conf (p_main s)) ∖ handles_of (plugin (m_conf (p_main s))) ∧
    without (plugin_ptrs (m_conf (p_main s)) ++ [sig] ++ [timer] ++ [net]) (p_threads s)
      (m_threads m) ∧
    disk (m_conf m) =
      all_saved (sys_file_max sys) (plugin_ptrs (m_conf (p_main s))) (m_conf (p_main s)).
Proof.
  intros [[Hs Hnd Hobj Hcl Hap Hpl Hh Hk Hid Hneed] He _ Htm Hnl _ Hmem].
  set (ls := plugin_list (plugin (m_conf (p_main s)))).
  assert (∀ q, q ∈ [sig; timer; net] → q ≠ NULL ∧ is_Some (threads (p_threads s) !! q) ∧
    q ∉ Plugin.plugin <$> ls) as Hq.
  { intros q Hq. assert (is_Some (threads (p_threads s) !! q)) as Ht by (apply Hobj; by left).
    split_and!; [|done|].
    - intros ->. assert (is_Some (clients (t_bus (p_threads s)) !! NULL)) as Hn by (apply Hcl; by right).
      destruct (tk_bus _ Hs) as [H [Hc _]]. apply (core_dom _ _ Hc), (core_addr _ _ Hc) in Hn.
      by destruct Hn.
    - intros (o & _ & Ho & _)%(plugin_ptrs_elem _ _ Hpl). rewrite Hap in Ho by by right. done. }
  destruct (plugins_destroyed ls s Hs He (plugin_ptrs_nodup _ Hpl)) as (m & Hrun & [Hw _ Hh' _ Hdisk]).
  { intros l [name Hl]%plugin_list_elem. destruct (Hpl name l Hl) as (o & Ho & _).
    split; [by eexists|]. apply Hobj. right. by eexists. }
  pose proof Hw as (Hs1 & He1 & Ht1 & _).
  destruct (Hid sig) as (t & Ht & Htid); [by left|]. destruct (Hneed sig) as [tid Hc]; [by left|].
  rewrite Hc in Htid. set (s1 := set_p_main m s).
  destruct (handler_destroyed sig t tid s1) as (t2 & Hrun2 & Hw2); [exact Hs1|exact He1| |done|].
  { change (p_threads s1) with (m_threads m). rewrite Ht1, decide_False; [done|]. apply Hq. by left. }
  pose proof Hw2 as (Hs2 & He2 & Ht2 & _). set (s2 := set_p_threads t2 s1) in *.
  apply NoDup_cons in Hnd as [_ Hnd]. rewrite !NoDup_cons in Hnd.
  destruct (timer_destroyed timer s2) as (t3 & tm & Hrun3 & Hw3 & Hm); [exact Hs2|exact He2| |done|].
  { change (p_threads s2) with t2. rewrite Ht2. change (p_threads s1) with (m_threads m).
    rewrite Ht1, !decide_False; [|apply Hq; set_solver|set_solver]. apply Hq. set_solver. }
  pose proof Hw3 as (Hs3 & He3 & Ht3 & _).
  destruct (netlink_destroyed net (set_p_timers tm (set_p_threads t3 s2))) as (t4 & Hrun4 & Hw4);
    [exact Hs3|exact He3| |done|].
  { change (is_Some (threads t3 !! net)). rewrite Ht3. change (p_threads s2) with t2.
    rewrite Ht2. change (p_threads s1) with (m_threads m).
    rewrite Ht1, !decide_False; [|apply Hq; set_solver|set_solver..]. apply Hq. set_solver. }
  exists (set_m_threads t4 m), tm. split_and!; [|done| | |exact Hdisk].
  - rewrite (bind_ok _ _ _ _ _ Hrun), (bind_ok (gets p_members) _ s1 (p_members s) s1 eq_refl), Hmem.
    cbn [sig_handler timer_thread netlink_thread].
    rewrite !if_made_run by (apply Hq; set_solver).
    rewrite (bind_ok _ _ _ _ _ Hrun2), (bind_ok _ _ _ _ _ Hrun3).
    by rewrite (bind_ok _ _ _ _ _ Hrun4).
  - change (handles (m_conf m) = handles (m_conf (p_main s)) ∖ handles_of (plugin (m_conf (p_main s)))).
    rewrite Hh'. unfold ls. by rewrite plugin_list_handles.
  - exact (without_trans _ _ _ _ _ Hw (without_trans _ _ _ _ _ Hw2
      (without_trans _ _ _ _ _ Hw3 Hw4))).
Qed.

(** The loggers that were made, the system log first. *)
Lemma loggers_destroyed debug s (rest : prog process unit) :
  logs_are (main_logs sys debug) (p_logs s) →
  ∃ lg, (if_made (if debug then NULL else sys_syslog sys)
        (λ p, zoom p_logs set_p_logs (csLog_delete p));;
      if_made (sys_stdout sys) (λ p, zoom p_logs set_p_logs (csLog_delete p));; rest) s =
      rest (set_p_logs lg s) ∧ log_ok lg ∧ logs lg = ∅.
Proof.
  intros [Hok Hl]. pose proof (so_stdout _ _ Hsys). pose proof (so_syslog _ _ Hsys).
  assert (∃ lg, if_made (if debug then NULL else sys_syslog sys)
      (λ p, zoom p_logs set_p_logs (csLog_delete p)) s = Ok tt (set_p_logs lg s) ∧
    log_ok lg ∧ logs lg = stdout_logs sys) as (l1 & Hrun1 & Hok1 & Hl1).
  { destruct debug.
    - exists (p_logs s). split; [|done]. by destruct s.
    - rewrite if_made_run by done.
      assert (both_logs sys !! sys_syslog sys = Some (syslog_log "clearsyncd" LOG_PID LOG_DAEMON))
        as Hin by apply lookup_insert_eq.
      destruct (log_deleted (p_logs s) (sys_syslog sys) Hok) as (lg & Hrun & Hok1 & Hd).
      { rewrite Hl. by eexists. }
      exists lg. split_and!; [by apply zoom_ok|done|]. rewrite Hd, Hl. unfold main_logs, both_logs.
      apply delete_insert_id, lookup_singleton_ne. exact (so_logs _ _ Hsys). }
  destruct (log_deleted l1 (sys_stdout sys) Hok1) as (l2 & Hrun2 & Hok2 & Hl2).
  { rewrite Hl1. exists stdout_log. apply lookup_singleton_eq. }
  exists l2. split_and!; [|done|by rewrite Hl2, Hl1; apply delete_singleton_eq].
  rewrite if_made_run with (p := sys_stdout sys) by done.
  rewrite (bind_ok _ _ _ _ _ Hrun1).
  rewrite (bind_ok _ _ _ tt (set_p_logs l2 (set_p_logs l1 s))); [done|]. by apply zoom_ok.
Qed.

Lemma conf_destroyed p s :
  stack (p_parser s) = [] →
  ∃ x, if_made p (λ _, zoom p_parser set_p_parser
      (csConf_delete (Z.to_nat (sys_page sys)) (sys_parser sys))) s = Ok tt (set_p_parser x s) ∧
    owner x = p_main s.
Proof.
  intros Hst. unfold if_made, when.
  destruct (negb (p =? NULL)%Z); [|exists (p_parser s); by destruct s].
  unfold csConf_delete, when. destruct (negb _).
  - eexists. split.
    + apply zoom_ok. unfold csXmlParser_delete.
      rewrite (bind_ok _ _ _ _ _ (Reset_idle _ _ Hst)). unfold modify. reflexivity.
    + done.
  - exists (p_parser s). split; [|done]. by apply zoom_ok.
Qed.

(** What the destructor has taken away. *)
Lemma stray_left sig timer net s q :
  running sys this stray sig timer net s → is_Some (threads (p_threads s) !! q) →
  q ∉ plugin_ptrs (m_conf (p_main s)) ++ [sig] ++ [timer] ++ [net] → stray q.
Proof.
  intros Hr Ht Hq. apply (rn_objects _ _ _ _ _ _ _ Hr) in Ht as [Ht|Ht]; [set_solver|].
  destruct (rn_known _ _ _ _ _ _ _ Hr q Ht) as [Hreg|?]; [|done].
  apply (plugin_ptrs_elem _ _ (rn_plugin _ _ _ _ _ _ _ Hr)) in Hreg. set_solver.
Qed.

(** The program is an event client and nothing else. *)
Lemma this_no_thread sig timer net s :
  running sys this stray sig timer net s → threads (p_threads s) !! this = None.
Proof.
  intros Hr. apply eq_None_not_Some. intros [Hq|Hq]%(rn_objects _ _ _ _ _ _ _ Hr).
  - by pose proof (rn_nodup _ _ _ _ _ _ _ Hr) as [Hnd _]%NoDup_cons.
  - rewrite (rn_apart _ _ _ _ _ _ _ Hr) in Hq by by left. by destruct Hq.
Qed.

Lemma csMain_delete_run sig timer net debug s :
  at_end sig timer net debug s → ∃ s', csMain_delete sys this s = Ok tt s' ∧ closed s s'.
Proof.
  intros Hs. pose proof Hs as [Hr _ Hl _ _ Hst Hmem]. unfold csMain_delete.
  rewrite (bind_ok (gets _) _ s _ s eq_refl).
  edestruct (objects_destroyed sig timer net debug s) as (m & tm & Hrun & Hm & Hh & (Hok & _ & Ht & Hc) & Hdisk);
    [done|]. rewrite Hrun. clear Hrun. set (s1 := set_p_netlink _ _). rewrite Hmem.
  cbn [main_conf_ptr log_syslog log_stdout].
  destruct (conf_destroyed (sys_conf sys) s1 Hst) as (x & Hrun2 & Hx).
  rewrite (bind_ok _ _ _ _ _ Hrun2). set (s2 := set_p_parser x s1).
  edestruct (loggers_destroyed debug s2) as (lg & Hrun3 & Hlg & Hnil); [exact Hl|].
  rewrite Hrun3. clear Hrun3. set (s3 := set_p_logs lg s2).
  assert (p_main s3 = m) as Hm3 by exact Hx.
  assert (p_threads s3 = m_threads m) as Ht3 by by unfold p_threads; rewrite Hm3.
  destruct (client_delete_run (t_bus (m_threads m)) this (tk_bus _ Hok)) as (w & Hdel & Hw & _ & Hd).
  { apply Hc. split; [|apply (rn_clients _ _ _ _ _ _ _ Hr); by left]. intros Hp.
    assert (∃ t, threads (p_threads s) !! this = Some t ∧ th_id t = created sys this) as (t & Hthis & _).
    { apply (rn_started _ _ _ _ _ _ _ Hr). set_solver. }
    by rewrite (this_no_thread _ _ _ _ Hr) in Hthis. }
  exists (set_p_threads (set_t_bus w (m_threads m)) s3). split.
  { rewrite <-Ht3. apply zoom_ok, zoom_ok. by rewrite Ht3. }
  assert (∀ q, is_Some (threads (m_threads m) !! q) → stray q) as Hstray.
  { intros q Hq. rewrite Ht in Hq. case_decide as Hin; [by destruct Hq|]. by eapply stray_left. }
  assert (∀ q, is_Some (clients w !! q) → is_Some (threads (m_threads m) !! q)) as Hcl.
  { intros q [Hne Hq]%Hd. apply Hc in Hq as [Hq Hcq]. rewrite Ht, decide_False by done.
    apply (rn_clients _ _ _ _ _ _ _ Hr) in Hcq as [?|?]; done. }
  destruct (logs_empty lg Hlg Hnil) as (Hl1 & Hl2 & Hl3 & Hl4).
  split; rewrite ?threads_set.
  - apply set_bus_ok; [done|done|]. intros q Hq Hq'. apply Hd. split; [|done].
    intros ->. rewrite Ht, (this_no_thread _ _ _ _ Hr) in Hq. by case_decide; destruct Hq.
  - exact Hstray.
  - intros q Hq. by apply Hstray, Hcl.
  - change (handles (m_conf (p_main s3)) = handles (m_conf (p_main s)) ∖
      handles_of (plugin (m_conf (p_main s)))). by rewrite Hm3.
  - done.
  - exact Hm.
  - done.
  - change (disk (m_conf (p_main s3)) = all_saved (sys_file_max sys)
      (plugin_ptrs (m_conf (p_main s))) (m_conf (p_main s))). by rewrite Hm3.
Qed.

(** Without failed plugins nothing is left. *)
Lemma closed_empty s s' :
  closed s s' → (∀ q, ¬ stray q) →
  threads (p_threads s') = ∅ ∧ started (p_threads s') = ∅ ∧
  event_client (t_bus (p_threads s')) = [] ∧ event_client_mutex (t_bus (p_threads s')) = MNull.
Proof.
  intros [Hok Ht Hc _ _ _ _] Hno.
  assert (threads (p_threads s') = ∅) as Hnil.
  { apply map_empty. intros q. apply eq_None_not_Some. intros Hq. by apply (Hno q), Ht. }
  destruct (no_clients_left _ (tk_bus _ Hok)) as [Hreg Hm].
  { intros q Hq. by apply (Hno q), Hc. }
  split_and!; [done| |done|done]. apply leibniz_equiv. intros tid.
  rewrite elem_of_empty, (tk_started _ Hok), Hnil. split; [|done]. by intros (? & ? & ? & _).
Qed.

(** C7. The program starts and ends cleanly, if its files do not break it: each
    configuration file is missing, unreadable, no XML from the start, or a
    document of one page whose inner elements the program accepts (an error
    inside an element makes a later [Reset] delete its tag twice, and one beyond
    the first page is reported from outside the page); loading any file on the
    disk as a state file, and the text of the pid file, fails no allocation
    (nothing catches [bad_alloc]); and [new], [pthread_create] and the linker
    give addresses and thread ids that are not in use.  This is [system_ok] with
    [disk_loadable].  Then, with any options and plugins and whatever else the
    system's functions return, the constructor of [csMain] is never stuck.  It
    throws, and the program is no event client any more; or it returns with its
    loggers, its three threads and every plugin that could be started running,
    with good event filters and an idle parser.
    Then, whatever events are exchanged, lines are logged and state files are
    written, in whatever order the threads end: once all have ended, the
    destructor joins each one that was created, destroys every object, closes
    the library of every plugin, the netlink socket and the logs, and
    unregisters every event client, the program's own the last, which takes
    the client mutex with it.  Only objects of plugins whose own configuration
    failed are left. *)
Theorem program_ends_clean argv d :
  this ≠ NULL → this ≠ CS_EVENT_BROADCAST → disk_loadable (sys_alloc_max sys) d →
  (∃ x s', csMain_new sys this argv (process0 d) = Throw x s' ∧ unregistered this s') ∨
  ∃ s1 sig timer net debug, csMain_new sys this argv (process0 d) = Ok tt s1 ∧
    constructed_main sys this stray sig timer net debug s1 ∧
    ∀ s2, lived s1 s2 → all_ended (p_threads s2) →
      ∃ s3, csMain_delete sys this s2 = Ok tt s3 ∧ closed s2 s3 ∧
        ((∀ q, ¬ stray q) → threads (p_threads s3) = ∅ ∧ started (p_threads s3) = ∅ ∧
          event_client (t_bus (p_threads s3)) = [] ∧
          event_client_mutex (t_bus (p_threads s3)) = MNull).
Proof.
  intros Hn Hb Hd. pose proof (wp_csMain_new sys this stray Hsys argv d Hn Hb Hd) as Hrun.
  unfold wp in Hrun. destruct (csMain_new sys this argv (process0 d)) as [[] s1|x s'|]; [right|left|done].
  - destruct Hrun as (sig & timer & net & debug & Hc). exists s1, sig, timer, net, debug.
    split_and!; [done|done|]. intros s2 Hl He.
    destruct (csMain_delete_run sig timer net debug s2) as (s3 & Hdel & Hcl).
    { by eapply constructed_later. }
    exists s3. split_and!; [done|done|]. by eapply closed_empty.
  - by exists x, s'.
Qed.

(** C40. The options that end the program.  When an option asks for the version,
    the help or the dump of a state file, or is unknown, the program ends in its
    constructor: it is unregistered, and the first of these options gives the
    exit code of [main], which for a dump that was made is that of an invalid
    option.  The exception made for dumps, which [main] turns into success, is
    never thrown.  This holds if the loader object of a dump can be made, the
    system is as in C7 ([system_ok]), and loading any file on the disk as a state
    file fails no allocation ([disk_loadable]): a dump of a corrupt state file,
    with a length in it that [new] cannot give, ends in an uncaught
    [bad_alloc] instead. *)
Theorem options_end_program argv d c :
  this ≠ NULL → this ≠ CS_EVENT_BROADCAST → disk_loadable (sys_alloc_max sys) d →
  makeable (sys_attr_init sys) (sys_attr_setstacksize sys) 65536 → option_exit argv = Some c →
  ∃ x s', csMain_new sys this argv (process0 d) = Throw x s' ∧ x ≠ csDumpStateException_new ∧
    unregistered this s' ∧ ∀ runs, main sys this argv runs (process0 d) c s'.
Proof.
  intros Hn Hb Hd Hm Hc.
  pose proof (wp_csMain_options sys this stray Hsys argv d c Hn Hb Hd Hm Hc) as Hrun.
  unfold wp in Hrun. destruct (csMain_new sys this argv (process0 d)) as [|x s'|] eqn:Hnew; [done| |done].
  destruct Hrun as [[He Hx] Hu]. exists x, s'. split_and!; [done..|]. intros runs.
  replace c with (main_exit (Some x)) by congruence. by apply main_throws.
Qed.
End shutdown.

(** *** A program with one plugin *)

Definition sample_system : system :=
  System 64 4096 4096 (λ _, true) sample_files sample_opendir sample_load (λ _ _, None) next_client
    1 2 9 10 None (λ _, None) (λ p, inr (p + 1000)%Z) None [] 2 None 5 0 None.

Lemma sample_system_ok : system_ok sample_system nobody.
Proof.
  split; try done.
  - intros w _. apply next_client_fresh.
  - exact sample_files_readable.
  - apply loadable_short. cbn. lia.
  - cbn. intros p q tid [= <-] [= ?]. lia.
Qed.

Definition sample_result := csMain_new sample_system 100 [] (process0 ∅).
Definition sample_running : process := match sample_result with Ok _ s => s | _ => process0 ∅ end.

Lemma sample_returns : sample_result = Ok tt sample_running.
Proof.
  unfold sample_running. destruct sample_result as [[]| |] eqn:Hr; [done|exfalso..].
  all: assert (match sample_result with Ok _ _ => true | _ => false end = true) as Hok
    by (vm_compute; reflexivity); by rewrite Hr in Hok.
Qed.

(** Its four threads end. *)
Definition sample_ids : list Z := [1101; 1104; 1103; 1102]%Z.
Definition sample_stopped : process :=
  set_p_threads (foldl (λ t i, thread_end i t) (p_threads sample_running) sample_ids) sample_running.

Lemma threads_end l s :
  Forall (λ i, i ∈ started s) l → rtc run_step s (foldl (λ t i, thread_end i t) s l).
Proof.
  revert s. induction l as [|i l IH]; intros s Hl; [apply rtc_refl|].
  apply Forall_cons in Hl as [Hi Hl].
  eapply rtc_l; [apply (run_end s i Hi)|]. by apply (IH (thread_end i s)).
Qed.

Lemma lived_threads t s : rtc run_step (p_threads s) t → lived s (set_p_threads t s).
Proof. intros Ht. split; [done|apply rtc_refl|done..]. Qed.

Lemma sample_lived : lived sample_running sample_stopped ∧ all_ended (p_threads sample_stopped).
Proof.
  split.
  - apply lived_threads, threads_end.
    apply (bool_decide_unpack _). vm_compute. exact I.
  - unfold all_ended. apply (bool_decide_unpack _). vm_compute. exact I.
Qed.

Lemma program_ends_clean_witness :
  ∃ s3, csMain_delete sample_system 100 sample_stopped = Ok tt s3 ∧
    threads (p_threads s3) = ∅ ∧ event_client_mutex (t_bus (p_threads s3)) = MNull ∧
    handles (m_conf (p_main s3)) = ∅ ∧ logger_mutex (p_logs s3) = MNull ∧
    nl_fds (p_netlink s3) = ∅ ∧ elements (started (p_threads sample_running)) ≠ [].
Proof.
  destruct (program_ends_clean sample_system 100 nobody sample_system_ok [] ∅)
    as [(x & s' & Hx & _)|(s1 & sig & timer & net & debug & Hrun & _ & Hend)];
    [done|done|apply map_Forall_empty| |].
  - exfalso. pose proof sample_returns as Hr. unfold sample_result in Hr. congruence.
  - assert (s1 = sample_running) as ->.
    { pose proof sample_returns as Hr. unfold sample_result in Hr. congruence. }
    destruct sample_lived as [Hl He].
    destruct (Hend sample_stopped Hl He) as (s3 & Hdel & Hcl & Hnil).
    destruct Hnil as (Ht & _ & _ & Hm); [by intros q []|].
    exists s3. split_and!; [exact Hdel|exact Ht|exact Hm| | | |].
    + rewrite (cl_handles _ _ _ _ Hcl). vm_compute. reflexivity.
    + apply (cl_logs _ _ _ _ Hcl).
    + apply (cl_netlink _ _ _ _ Hcl).
    + vm_compute. discriminate.
Defined.

(** With [-d], [--dump-state] and then [--version]. *)
Lemma options_end_program_witness :
  ∃ s', main sample_system 100 [OptDebug; OptDump "/var/a"; OptVersion] (λ _ _ _, False)
      (process0 ∅) csEXIT_INVALID_OPTION s' ∧ clients (t_bus (p_threads s')) !! 100%Z = None.
Proof.
  destruct (options_end_program sample_system 100 nobody sample_system_ok
    [OptDebug; OptDump "/var/a"; OptVersion] ∅ csEXIT_INVALID_OPTION) as (x & s' & _ & _ & [_ Hu] & Hm).
  - discriminate.
  - discriminate.
  - apply map_Forall_empty.
  - by split.
  - reflexivity.
  - exists s'. split; [exact (Hm (λ _ _ _, False))|exact Hu].
Defined.
