(* ===== verification/ThreadKeep.v ===== *)
(** * The program's threads leave persistent events alone

    [keeps] of [EventKeep] for the main loop, the timer thread and the signal
    handler, for an event that is no plugin event. *)

From S2P Require Import Prelude Exception Bytes Event EventInv EventOps Bus EventProps EventKeep.
From S2P Require Import Timer Thread Plugin Conf Main.

Section threads.
Context (x : Z) (ex : csEvent) (Hper : IsPersistent ex = true) (Hid : GetId ex ≠ csEVENT_PLUGIN).

Abbreviation any := (λ _, True).
Abbreviation main_keeps m := (keeps x ex m_world m any).
Abbreviation timers_keep m := (keeps x ex (bus (W:=world)) m any).

(** ** The main loop *)

Lemma keeps_on_world {A} (m : prog world A) Q :
  keeps x ex (λ w, w) m Q → keeps x ex m_world (on_world m) Q.
Proof. intros Hm. by apply (keeps_zoom x ex m_world (λ w, w)). Qed.

Lemma keeps_in_conf {A} (m : prog main_conf A) : main_keeps (in_conf m).
Proof. by apply keeps_beside. Qed.

Lemma keeps_load_value p : keeps x ex (λ w, w) (ev_load p) (λ e, p = x → e = ex).
Proof.
  intros w [Hx Hb]. unfold ev_load. destruct (heap w !! p) as [e|] eqn:Hp; [|done].
  split; [done|]. intros ->. congruence.
Qed.

Lemma keeps_SetValue p key value : p ≠ x → keeps x ex (λ w, w) (event_SetValue p key value) any.
Proof.
  intros Hp. eapply keeps_bind; [apply kept_ev_load|]. intros e _.
  destruct (ev_class e); try apply keeps_stuck. by apply kept_ev_store.
Qed.

Lemma keeps_filter this event source dst names :
  main_keeps (dispatch_filter this event source dst names).
Proof.
  induction names as [|j names IH]; [by apply keeps_ret|]. cbn [dispatch_filter].
  destruct (negb _); [done|]. eapply keeps_bind; [apply keeps_in_conf|]. intros name _.
  eapply keeps_bind; [by apply keeps_gets|]. intros c _. destruct (plugin c !! name); [|done].
  eapply keeps_bind; [by apply keeps_on_world, kept_Clone|]. intros copy Hcopy.
  by apply keeps_on_world, kept_EventDispatch.
Qed.

Lemma keeps_Dispatch this event : event ≠ x → main_keeps (DispatchPluginEvent this event).
Proof.
  intros Hne. unfold DispatchPluginEvent.
  eapply keeps_bind; [by apply keeps_on_world, kept_ev_load|]. intros e _.
  eapply keeps_bind; [apply keeps_in_conf|]. intros name _.
  eapply keeps_bind; [apply keeps_on_world, keeps_SetValue; exact Hne|]. intros _ _.
  eapply keeps_bind; [by apply keeps_gets|]. intros c _.
  apply keeps_foreach. intros f. apply keeps_filter.
Qed.

Lemma keeps_run_event this event : main_keeps (run_event this event).
Proof.
  unfold run_event. eapply keeps_bind; [apply keeps_on_world, keeps_load_value|]. intros e He.
  destruct (GetId e =? csEVENT_QUIT)%Z.
  - eapply keeps_bind; [by apply keeps_on_world, kept_EventDestroy|]. intros _ _. by apply keeps_ret.
  - eapply keeps_bind.
    + instantiate (1 := any). unfold when.
      destruct (GetId e =? csEVENT_PLUGIN)%Z eqn:Hp; [|by apply keeps_ret].
      apply keeps_Dispatch. intros Heq. apply Z.eqb_eq in Hp. by rewrite (He Heq) in Hp.
    + intros _ _. eapply keeps_bind; [by apply keeps_on_world, kept_EventDestroy|].
      intros _ _. by apply keeps_ret.
Qed.

Lemma keeps_Run fuel this : main_keeps (Run fuel this).
Proof.
  induction fuel as [|fuel IH]; [by apply keeps_ret|]. cbn [Run].
  eapply keeps_bind; [by apply keeps_on_world, kept_EventPop|]. intros event _.
  destruct (event =? CS_EVENT_NONE)%Z; [by apply keeps_ret|].
  eapply keeps_bind; [apply keeps_run_event|]. intros [] _; [by apply keeps_ret|done].
Qed.

(** ** The signal handler *)

Lemma keeps_signal sig r : keeps x ex (λ w, w) (signal_round sig r) any.
Proof.
  assert (∀ e b, keeps x ex (λ w, w) (p ← ev_new e; EventBroadcast sig p;; mret (b : bool)) any) as Hpost.
  { intros e b. eapply keeps_bind; [by apply kept_ev_new|]. intros p Hp. unfold EventBroadcast.
    eapply keeps_bind; [eapply kept_EventDispatch; [exact Hper|exact Hp]|]. intros _ _.
    by apply keeps_ret. }
  unfold signal_round. destruct r as [errno|n]; repeat case_match; try apply Hpost; by apply keeps_ret.
Qed.

(** ** The timer thread *)

Lemma keeps_timer_get p : timers_keep (timer_get p).
Proof. intros s Hs. unfold timer_get. by destruct (timers s !! p). Qed.

Lemma keeps_timer_update p f : timers_keep (timer_update p f).
Proof. eapply keeps_bind; [apply keeps_timer_get|]. intros t _. by apply keeps_modify. Qed.

Lemma keeps_lock_timer p : timers_keep (lock_timer p).
Proof. eapply keeps_bind; [apply keeps_timer_get|]. intros t _. by apply keeps_lock. Qed.

Lemma keeps_unlock_timer p : timers_keep (unlock_timer p).
Proof. eapply keeps_bind; [apply keeps_timer_get|]. intros t _. by apply keeps_unlock. Qed.

Lemma keeps_Tick this parent : timers_keep (Tick this parent).
Proof.
  unfold Tick. eapply keeps_bind; [by apply keeps_lock|]. intros _ _.
  eapply keeps_bind; [by apply keeps_gets|]. intros v _.
  eapply keeps_bind; [|intros _ _; by apply keeps_unlock].
  apply keeps_foreach. intros p. unfold tick_timer.
  eapply keeps_bind; [apply keeps_lock_timer|]. intros _ _.
  eapply keeps_bind; [apply keeps_timer_get|]. intros t _.
  eapply keeps_bind; [|intros _ _; apply keeps_unlock_timer]. apply keeps_when.
  eapply keeps_bind.
  { instantiate (1 := any). unfold add_time. destruct (_ && _); [by apply keeps_ret|apply keeps_stuck]. }
  intros v' _. eapply keeps_bind; [apply keeps_timer_update|]. intros _ _. apply keeps_when.
  eapply keeps_bind; [apply keeps_timer_get|]. intros t' _.
  eapply keeps_bind.
  { apply (keeps_zoom x ex bus (λ w, w)); [done|done|]. by apply kept_post. }
  intros _ _. eapply keeps_bind; [apply keeps_timer_update|]. intros _ _. apply keeps_timer_update.
Qed.
End threads.
