(* ===== verification/Running.v ===== *)
(** * The program while it runs

    The threads of the program as one relation on the process: the main loop,
    the timer thread, the signal handler, the netlink thread and whoever posts,
    takes, keeps and releases events, interleaved in any order from the end of
    the constructor on. *)

From S2P Require Import Prelude Exception Bytes Event EventInv EventOps Bus EventProps EventKeep.
From S2P Require Import Timer TimerProps Thread ThreadProps Plugin Conf ConfProps Log LogProps.
From S2P Require Import Netlink NetlinkLive Main MainProps MainConf Process StartProps ProcessProps.
From S2P Require Import ThreadKeep.

(** ** The state of the timer thread *)

(** The timers with the event clients, of which the process has one copy. *)
Definition p_ticks (s : process) : timer_state world :=
  TimerState (t_bus (p_threads s)) (timers (p_timers s)) (timer_vector (p_timers s))
    (vector_mutex (p_timers s)) (instance (p_timers s)).
Definition set_p_ticks (t : timer_state world) (s : process) : process :=
  set_p_timers (TimerState tt (timers t) (timer_vector t) (vector_mutex t) (instance t))
    (set_p_threads (set_t_bus (bus t) (p_threads s)) s).

(** A client that takes the next event of its queue and destroys it. *)
Definition take_event (c : Z) : prog world unit :=
  event ← EventPop c;
  if (event =? CS_EVENT_NONE)%Z then mret tt else EventDestroy event.

(** ** Queues *)

(** An event the main loop ends with or can handle. *)
Definition main_event (c : main_conf) (e : csEvent) : Prop :=
  (GetId e = csEVENT_QUIT ∧ receivable e) ∨ (GetId e ≠ csEVENT_QUIT ∧ manageable c e).

Definition main_queue (this : Z) (c : main_conf) (w : world) : Prop :=
  queue_all (main_event c) w this.

Lemma enqueue_Forall (P : csEvent → Prop) e q : P e → Forall P q → Forall P (enqueue e q).
Proof.
  intros He Hq. assert (∀ id l, Forall P l → Forall P (remove_first_id id l)) as Hrem.
  { intros id l. induction 1 as [|x l Hx Hl IH]; [done|]. cbn.
    destruct (GetId x =? id)%Z; [done|by constructor]. }
  unfold enqueue. destruct (IsExclusive e), (IsHighPriority e); auto using Forall_app_2.
Qed.

Lemma deliver_Forall (P : csEvent → Prop) (b : bool) e v :
  (b = true → P e) → Forall P v.2 → Forall P (deliver_if b e v).2.
Proof.
  intros He Hv. destruct b; [|done]. cbn. unfold deliver. destruct v.1; [|done].
  apply enqueue_Forall; auto.
Qed.

Lemma queue_all_deliver (P : csEvent → Prop) (w w' : world) (c : Z) (b : bool) e :
  queue_all P w c → view w' c = deliver_if b e <$> view w c → (b = true → P e) →
  queue_all P w' c.
Proof.
  intros (en & q & Hv & Hq) Hv' He. rewrite Hv in Hv'. eexists _, _.
  split; [by rewrite Hv'; cbn; rewrite <-surjective_pairing|]. by apply deliver_Forall.
Qed.

Lemma queue_all_view (P : csEvent → Prop) (w w' : world) (c : Z) :
  queue_all P w c → view w' c = view w c → queue_all P w' c.
Proof. intros (en & q & Hv & Hq) Hv'. exists en, q. by rewrite Hv'. Qed.

Lemma view_clients w c : is_Some (view w c) ↔ is_Some (clients w !! c).
Proof. unfold view. destruct (clients w !! c); cbn; [by split; eexists|done]. Qed.

Lemma views_clients w w' :
  (∀ c, is_Some (view w' c) ↔ is_Some (view w c)) →
  ∀ c, is_Some (clients w' !! c) ↔ is_Some (clients w !! c).
Proof. intros Hv c. by rewrite <-!view_clients. Qed.

(** ** One round of the main loop *)

Lemma Run_round this m H b q :
  wf (m_world m) H → view (m_world m) this = Some (b, q) → Forall (main_event (m_conf m)) q →
  filters_ok this (m_conf m) →
  ∃ r w, Run 1 this m = Ok r (set_world w m) ∧ wf w H ∧ main_queue this (m_conf m) w ∧
    ∀ c, c ≠ this →
      ∃ b e', view w c = deliver_if b e' <$> view (m_world m) c ∧ (b = true → passed_on e').
Proof.
  intros Hwf Hv Hq Hf. destruct q as [|e q].
  - exists false, (m_world m). rewrite set_world_same. split_and!; [|done|by exists b, []|].
    2:{ intros c _. exists false, main_quit. split; [by rewrite option_fmap_id|done]. }
    pose proof (EventPop_result (m_world m) H this b [] Hwf Hv) as Hpop. cbn in Hpop.
    cbn [Run]. unfold mbind, M_bind, zoom. rewrite Hpop. cbn. by rewrite set_world_same.
  - apply Forall_cons in Hq as [[[Hid He]|[Hid He]] Hq].
    + destruct (pop_destroy_run (m_world m) H this b e q Hwf Hv He)
        as (r & w1 & e1 & w2 & Hpop & Hr & He1 & Hid1 & _ & _ & Hdel & Hwf2 & Hv2).
      exists true, w2. split_and!; [|done| |].
      * cbn [Run]. unfold mbind, M_bind, zoom. rewrite Hpop. cbn.
        rewrite (proj2 (Z.eqb_neq _ _)) by done.
        unfold run_event, mbind, M_bind, zoom, ev_load. cbn. rewrite !world_set, He1. cbn.
        rewrite Hid1, Hid. cbn. by rewrite world_set, Hdel.
      * eexists b, _. split; [by rewrite Hv2, decide_True|].
        destruct (IsSticky e); [|done]. constructor; [by left|done].
      * intros c Hc. exists false, e. rewrite Hv2, decide_False by done.
        split; [by rewrite option_fmap_id|done].
    + pose proof He as [Hst _].
      destruct (pop_take_run (m_world m) H this b e _ Hwf Hv Hst)
        as (r & w1 & Hpop & Hr & He1 & Hnin & Hwf1 & Hv1).
      pose proof (Hv1 this) as Hthis. rewrite decide_True in Hthis by done.
      destruct (run_event_other this r H (set_world w1 m) e Hwf1 He1 Hnin)
        as (w2 & Hrun & Hwf2 & Hv2 & Hd2); try done.
      exists false, w2. split_and!; [|done| |].
      * cbn [Run]. unfold mbind, M_bind, zoom. rewrite Hpop. cbn.
        rewrite (proj2 (Z.eqb_neq _ _)) by done. by rewrite Hrun.
      * exists b, q. by rewrite Hv2, world_set.
      * intros c Hc. destruct (handed_passed this (m_conf m) c e He) as (b' & e' & Heq & He').
        exists b', e'. split; [|done]. rewrite Hd2, world_set, Hv1, decide_False by done.
        by apply option_fmap_ext.
Qed.

(** What the round leaves registered. *)
Lemma round_registered this w w' c0 :
  main_queue this c0 w → main_queue this c0 w' →
  (∀ c, c ≠ this → ∃ b e', view w' c = deliver_if b e' <$> view w c ∧ (b = true → passed_on e')) →
  ∀ c, is_Some (view w' c) ↔ is_Some (view w c).
Proof.
  intros (? & ? & Hq & _) (? & ? & Hq' & _) Hv c. destruct (decide (c = this)) as [->|Hc].
  - rewrite Hq, Hq'. by split; eexists.
  - destruct (Hv c Hc) as (b & e' & -> & _). by rewrite fmap_is_Some.
Qed.

(** ** Taking, keeping and releasing events *)

(** What such a step changes: it adds nothing to any queue. *)
Record calm (w w' : world) : Prop := Calm {
  ca_ok : world_ok w';
  ca_clients : ∀ c, is_Some (view w' c) ↔ is_Some (view w c);
  ca_queues : ∀ (P : csEvent → Prop) c, queue_all P w c → queue_all P w' c;
}.

(** If the first event of the queue is sticky, it can be copied. *)
Definition can_take (w : world) (c : Z) : Prop :=
  ∀ b e q, view w c = Some (b, e :: q) → receivable e.

(** An event that some thread has in its hands: allocated, to be deleted, in no
    queue. *)
Definition loose (w : world) (p : Z) : Prop :=
  (∃ e, heap w !! p = Some e ∧ IsPersistent e = false) ∧ ∀ c, p ∉ queue_of w c.

Lemma views_calm H w w' : wf w' H → (∀ c, view w' c = view w c) → calm w w'.
Proof.
  intros Hw Hv. split; [by exists H|intros c; by rewrite Hv|].
  intros P c Hq. by eapply queue_all_view.
Qed.

Lemma popped_calm H w w' c b e q :
  view w c = Some (b, e :: q) → wf w' H →
  (∀ x, view w' x = if decide (x = c) then Some (b, if IsSticky e then e :: q else q) else view w x) →
  calm w w'.
Proof.
  intros Hv Hw Hv'. split; [by exists H| |].
  - intros x. rewrite Hv'. case_decide as Hx; [|done]. subst x. rewrite Hv. by split; eexists.
  - intros P x (b' & q' & Hq & HP). destruct (decide (x = c)) as [->|Hx].
    + rewrite Hv in Hq. simplify_eq. eexists _, _. split; [by rewrite Hv', decide_True|].
      destruct (IsSticky e); [done|by apply Forall_cons in HP as [_ ?]].
    + exists b', q'. by rewrite Hv', decide_False.
Qed.

Lemma release_run w H p e :
  wf w H → heap w !! p = Some e → (IsPersistent e = false → p ∈ H) →
  ∃ w', EventDestroy p w = Ok tt w' ∧ calm w w'.
Proof.
  intros [Hw Hm] Hp Hh. destruct (destroy_ok w H p e Hw Hp Hh) as [Hw' Hv].
  exists (set_heap (destroyed (heap w) p e) w). split; [by apply EventDestroy_run|].
  eapply views_calm; [by split|exact Hv].
Qed.

Lemma loose_held w H p : core w H → loose w p → p ∈ H.
Proof.
  intros Hw [(e & He & Hper) Hq]. destruct (decide (p ∈ H)) as [|Hn%held_not_in]; [done|].
  pose proof (core_own _ _ Hw p) as Ho. unfold own_at in Ho. rewrite He, Hper, Hn in Ho.
  assert (refs w p = 0) as Hz; [|lia]. unfold refs. clear Ho.
  induction (event_client w) as [|c l IH]; [done|]. cbn. rewrite IH.
  destruct (cnt p (queue_of w c)) eqn:Hc; [done|]. destruct (Hq c). apply cnt_pos. lia.
Qed.

Lemma loose_release w p :
  world_ok w → loose w p → ∃ w', EventDestroy p w = Ok tt w' ∧ calm w w'.
Proof.
  intros [H Hw] Hp. pose proof (loose_held w H p (proj1 Hw) Hp) as Hh.
  destruct Hp as [(e & He & _) _]. by apply (release_run w H p e).
Qed.

(** [EventPop]: the event can be kept, and destroyed. *)
Lemma receive_run w c :
  world_ok w → is_Some (view w c) → can_take w c →
  ∃ p w', EventPop c w = Ok p w' ∧ calm w w' ∧
    (p = CS_EVENT_NONE ∨ ∃ w2, EventDestroy p w' = Ok tt w2 ∧ calm w' w2).
Proof.
  intros [H Hw] [[b q] Hv] Hre. destruct q as [|e q].
  - exists CS_EVENT_NONE, w. pose proof (EventPop_result w H c b [] Hw Hv) as Hpop. cbn in Hpop.
    split_and!; [done| |by left]. by apply (views_calm H).
  - destruct (pop_run w H c b e q Hw Hv (Hre b e q Hv))
      as (p & w1 & e1 & Hpop & Hp & He1 & _ & _ & _ & _ & Hw1 & Hv1).
    exists p, w1. split_and!; [done| |right].
    + exact (popped_calm _ w w1 c b e q Hv Hw1 Hv1).
    + apply (release_run w1 _ p e1 Hw1 He1). unfold EventOps.take. intros ->. set_solver.
Qed.

Lemma take_run w c :
  world_ok w → is_Some (view w c) → can_take w c →
  ∃ w', take_event c w = Ok tt w' ∧ calm w w'.
Proof.
  intros Hw Hc Hre. destruct (receive_run w c Hw Hc Hre) as (p & w1 & Hpop & Hcalm & Hp).
  unfold take_event, mbind, M_bind. rewrite Hpop. destruct (p =? CS_EVENT_NONE)%Z eqn:Hn.
  - by exists w1.
  - apply Z.eqb_neq in Hn. destruct Hp as [?|(w2 & Hdel & [Hok Hcl Hq])]; [done|].
    exists w2. split; [done|]. destruct Hcalm as [_ Hcl1 Hq1]. split; [done| |auto].
    intros x. by rewrite Hcl.
Qed.

(** A pop needs a client. *)
Lemma popped_registered w c p w' : EventPop c w = Ok p w' → is_Some (view w c).
Proof.
  unfold EventPop, lock_queue, client_get, mbind, M_bind, view.
  by destruct (clients w !! c); [eexists|].
Qed.

Lemma received_calm w c p w' :
  world_ok w → can_take w c → EventPop c w = Ok p w' → calm w w'.
Proof.
  intros Hw Hc Hrun. destruct (receive_run w c Hw (popped_registered _ _ _ _ Hrun) Hc)
    as (p1 & w1 & Hpop & Hcalm & _). rewrite Hrun in Hpop. by simplify_eq.
Qed.

Lemma taken_calm w c w' :
  world_ok w → can_take w c → take_event c w = Ok tt w' → calm w w'.
Proof.
  intros Hw Hc Hrun. assert (is_Some (view w c)) as Hv.
  { unfold take_event, mbind, M_bind in Hrun. destruct (EventPop c w) eqn:Hpop; try done.
    by eapply popped_registered. }
  destruct (take_run w c Hw Hv Hc) as (w1 & Htake & Hcalm). rewrite Hrun in Htake. by simplify_eq.
Qed.

(** What the signal handler does with a signal. *)
Lemma signal_round_cases sig r :
  (∀ w, signal_round sig r w = Ok false w) ∨
  ∃ e b, (e = main_quit ∨ e = csEvent_new csEVENT_RELOAD FlagNone) ∧
    ∀ w, signal_round sig r w = (post sig CS_EVENT_BROADCAST e;; mret (b : bool)) w.
Proof.
  assert (∀ e b w, (p ← ev_new e; EventBroadcast sig p;; mret b : prog world bool) w =
    (post sig CS_EVENT_BROADCAST e;; mret b) w) as Heq.
  { intros e b w. unfold post, mbind, M_bind. by destruct (ev_new e w). }
  unfold signal_round. destruct r as [errno|n].
  - destruct (errno =? EINTR)%Z; [by left|right]. exists main_quit, true. auto.
  - destruct ((n =? SIGINT)%Z || (n =? SIGTERM)%Z); [right; exists main_quit, true; auto|].
    destruct (n =? SIGHUP)%Z; [right|by left]. eexists _, false. auto.
Qed.

(** ** The steps of the threads *)

Section running.
Context (sys : system) (this : Z) (stray : Z → Prop) (Hsys : system_ok sys stray).
Context (sig timer net : Z) (debug : bool).

Abbreviation queue_ok c w := (main_queue this c w).

(** [ps_post] is any thread that dispatches a new event: a plugin event for the
    main program comes from a plugin, and [to_net] says what the netlink thread
    is sent.  [ps_receive] and [ps_release] are the two halves of [ps_take],
    for a thread that keeps the event in between.  [ps_timer] is any use of
    timers besides the tick. *)
Inductive thread_step (to_net : csEvent → Prop) : process → process → Prop :=
  | ps_main b s s' :
      with_main (Run 1 this) s = Ok b s' → thread_step to_net s s'
  | ps_tick s s' :
      zoom p_ticks set_p_ticks (Tick timer this) s = Ok tt s' → thread_step to_net s s'
  | ps_signal r b s s' :
      with_clients (signal_round sig r) s = Ok b s' → thread_step to_net s s'
  | ps_post src dst e e' s s' :
      is_Some (clients (t_bus (p_threads s)) !! src) → posted src dst e = Some e' →
      (reaches dst this = true → main_event (m_conf (p_main s)) e') →
      (reaches dst net = true → to_net e') →
      with_clients (post src dst e) s = Ok tt s' → thread_step to_net s s'
  | ps_take c s s' :
      c ≠ this → can_take (t_bus (p_threads s)) c →
      with_clients (take_event c) s = Ok tt s' → thread_step to_net s s'
  | ps_receive c p s s' :
      c ≠ this → can_take (t_bus (p_threads s)) c →
      with_clients (EventPop c) s = Ok p s' → thread_step to_net s s'
  | ps_release p s s' :
      loose (t_bus (p_threads s)) p →
      with_clients (EventDestroy p) s = Ok tt s' → thread_step to_net s s'
  | ps_timer s t :
      timer_step timer this (p_ticks s) t → bus t = bus (p_ticks s) → instance t = timer →
      thread_step to_net s (set_p_ticks t s)
  | ps_vars p o o' d s :
      plugin_objs (m_conf (p_main s)) !! p = Some o → po_name o' = po_name o →
      thread_step to_net s (set_p_main (set_conf (set_disk d
        (set_objs (<[p := o']> (plugin_objs (m_conf (p_main s)))) (m_conf (p_main s))))
        (p_main s)) s)
  | ps_log clock level message l s :
      Log clock level message (p_logs s) = Ok tt l → thread_step to_net s (set_p_logs l s)
  | ps_end tid s :
      tid ∈ started (p_threads s) →
      thread_step to_net s (set_p_threads (thread_end tid (p_threads s)) s).

(** ** The invariant *)

Lemma lived_refl s : lived s s.
Proof. by split. Qed.

Lemma lived_trans s1 s2 s3 : lived s1 s2 → lived s2 s3 → lived s1 s3.
Proof.
  intros [] []. split; try congruence; try (by etrans).
Qed.

Record operating (s0 s : process) : Prop := Operating {
  op_lived : lived s0 s;
  op_timers : timers_ok (p_ticks s);
  op_queue : queue_ok (m_conf (p_main s)) (t_bus (p_threads s));
}.

Context (s0 : process) (Hs0 : constructed_main sys this stray sig timer net debug s0).

Abbreviation good := (operating s0).

Lemma good_running s : good s → running sys this stray sig timer net s.
Proof. intros [Hl _ _]. eapply running_later; [apply Hs0|done]. Qed.

Lemma good_world s : good s → world_ok (t_bus (p_threads s)).
Proof. intros Hs. apply (tk_bus _ (rn_threads _ _ _ _ _ _ _ (good_running s Hs))). Qed.

Lemma good_client s p : good s → p ∈ [this; sig; timer; net] → is_Some (view (t_bus (p_threads s)) p).
Proof.
  intros Hs Hp. apply view_clients. apply (rn_clients _ _ _ _ _ _ _ (good_running s Hs)).
  apply elem_of_cons in Hp as [->|Hp]; [by left|right].
  apply (rn_objects _ _ _ _ _ _ _ (good_running s Hs)). by left.
Qed.

Lemma good_instance s : good s → instance (p_timers s) = timer ∧ timer ≠ NULL.
Proof.
  intros Hs. split.
  - rewrite (lv_timers _ _ (op_lived _ _ Hs)). by rewrite (cm_timers _ _ _ _ _ _ _ _ Hs0).
  - intros Hn. assert (is_Some (view (t_bus (p_threads s)) NULL)) as Hv.
    { rewrite <-Hn. apply good_client; [done|]. right. right. left. }
    destruct (good_world s Hs) as [H [Hc _]].
    apply view_clients, (core_dom _ _ Hc), (core_addr _ _ Hc) in Hv. by destruct Hv.
Qed.

Lemma good_filters s : good s → filters_ok this (m_conf (p_main s)).
Proof.
  intros [Hl _ _]. destruct (cm_filters _ _ _ _ _ _ _ _ Hs0) as [Hno Hknown].
  unfold filters_ok. rewrite (lv_filter _ _ Hl). split; [done|]. intros d names Hd.
  destruct (Hknown d names Hd) as (Hb & o & l & Ho & Hp & Hpl). split; [done|].
  pose proof (lv_objs _ _ Hl d) as Hname. rewrite Ho in Hname.
  apply fmap_Some in Hname as (o' & Ho' & Hn). exists o', l.
  by rewrite <-Hn, (lv_plugin _ _ Hl).
Qed.

Lemma start_operating : good s0.
Proof.
  pose proof (cm_running _ _ _ _ _ _ _ _ Hs0) as Hr. split; [apply lived_refl| |].
  - pose proof (tk_bus _ (rn_threads _ _ _ _ _ _ _ Hr)) as Hw.
    unfold p_ticks. rewrite (cm_timers _ _ _ _ _ _ _ _ Hs0). split; cbn; try done.
    + apply NoDup_nil_2.
    + intros p. rewrite lookup_empty, elem_of_nil. split; [done|by intros []].
  - assert (is_Some (clients (t_bus (p_threads s0)) !! this)) as [cl Hcl].
    { apply (rn_clients _ _ _ _ _ _ _ Hr). by left. }
    exists (event_enable cl), []. split; [|done]. rewrite (view_client _ _ cl Hcl).
    by rewrite (cm_unposted _ _ _ _ _ _ _ _ Hs0 this cl Hcl).
Qed.

(** *** Steps on the event clients *)

Abbreviation set_events w s := (set_p_threads (set_t_bus w (p_threads s)) s).

Lemma good_events s w :
  good s → world_ok w → queue_ok (m_conf (p_main s)) w →
  (∀ c, is_Some (view w c) ↔ is_Some (view (t_bus (p_threads s)) c)) → good (set_events w s).
Proof.
  intros [Hl [Hvm Hnd Hlive Ht _] _] Hw Hq Hv. split; [|by split|exact Hq].
  apply (lived_trans _ _ _ Hl), lived_threads, rtc_once, run_bus; [done|].
  by apply views_clients.
Qed.

(** Dispatching a new event. *)
Lemma good_post s src dst e e' :
  good s → is_Some (view (t_bus (p_threads s)) src) → posted src dst e = Some e' →
  (reaches dst this = true → main_event (m_conf (p_main s)) e') →
  ∃ w, post src dst e (t_bus (p_threads s)) = Ok tt w ∧ good (set_events w s).
Proof.
  intros Hs Hsrc Hp He. destruct (good_world s Hs) as [H Hw].
  destruct (post_spec _ H src dst e e' Hw Hsrc Hp) as (w & Hrun & Hw' & _ & _ & Hv).
  exists w. split; [done|]. apply good_events; [done|by exists H| |].
  - eapply queue_all_deliver; [apply (op_queue _ _ Hs)|apply Hv|done].
  - intros c. by rewrite Hv, fmap_is_Some.
Qed.

(** Taking and releasing events. *)
Lemma good_calm s w : good s → calm (t_bus (p_threads s)) w → good (set_events w s).
Proof.
  intros Hs [Hw Hv Hq]. apply good_events; [done|done| |done]. by apply Hq, (op_queue _ _ Hs).
Qed.

Lemma clients_step {A} (m : prog world A) s a s' :
  with_clients m s = Ok a s' → ∃ w, m (t_bus (p_threads s)) = Ok a w ∧ s' = set_events w s.
Proof.
  unfold zoom. destruct (m (t_bus (p_threads s))) as [a' w| |]; [|done..].
  intros [= <- <-]. by exists w.
Qed.

Lemma main_run s :
  good s → ∃ b s', with_main (Run 1 this) s = Ok b s' ∧ good s'.
Proof.
  intros Hs. destruct (good_world s Hs) as [H Hw]. destruct (op_queue _ _ Hs) as (b & q & Hq & Hall).
  destruct (Run_round this (p_main s) H b q Hw Hq Hall (good_filters s Hs))
    as (r & w & Hrun & Hw' & Hq' & Hv).
  exists r, (set_events w s). split; [|apply good_events; [done|by exists H|done|]].
  2:{ eapply round_registered; [apply (op_queue _ _ Hs)|exact Hq'|exact Hv]. }
  unfold zoom. by rewrite Hrun.
Qed.

(** A signal makes the handler post one of two events, or nothing. *)
Lemma signal_posted r w :
  signal_round sig r w = Ok false w ∨
  ∃ e e' (b : bool), signal_round sig r w = (post sig CS_EVENT_BROADCAST e;; mret b) w ∧
    posted sig CS_EVENT_BROADCAST e = Some e' ∧ net_event e' ∧ ∀ c, main_event c e'.
Proof.
  destruct (signal_round_cases sig r) as [Hn|(e & b & He & Heq)]; [by left|right].
  destruct He as [-> | ->]; eexists _, _, b; (split; [apply Heq|]); (split; [reflexivity|]).
  - split; [left; split; [done|]; intros _; by eexists|]. intros c. left. split; [done|].
    intros _. by eexists.
  - split; [left; split; done|]. intros c. right. by split.
Qed.

Lemma signal_run s r :
  good s → ∃ b s', with_clients (signal_round sig r) s = Ok b s' ∧ good s'.
Proof.
  intros Hs. assert (is_Some (view (t_bus (p_threads s)) sig)) as Hsig.
  { apply good_client; [done|]. right. left. }
  destruct (signal_posted r (t_bus (p_threads s))) as [Hn|(e & e' & b & Heq & Hp & _ & He)].
  - exists false, (set_events (t_bus (p_threads s)) s). split; [by unfold zoom; rewrite Hn|].
    apply good_events; [done|by apply good_world|apply (op_queue _ _ Hs)|done].
  - destruct (good_post s sig CS_EVENT_BROADCAST e e' Hs Hsig Hp) as (w & Hrun & Hg); [done|].
    exists b, (set_events w s). split; [|done]. unfold zoom. rewrite Heq.
    unfold mbind, M_bind. by rewrite Hrun.
Qed.

(** *** Steps on the timers *)

Lemma good_ticks s t :
  good s → timers_ok t → instance t = instance (p_timers s) →
  queue_ok (m_conf (p_main s)) (bus t) →
  (∀ c, is_Some (view (bus t) c) ↔ is_Some (view (t_bus (p_threads s)) c)) →
  good (set_p_ticks t s).
Proof.
  intros Hs Ht Hi Hq Hv. pose proof (good_events s (bus t) Hs (to_bus t Ht) Hq Hv) as [Hl _ _].
  split; [|by destruct Ht|exact Hq]. pose proof (lv_timers _ _ Hl) as Hti.
  destruct Hl. split; try done. exact (eq_trans Hi Hti).
Qed.

Lemma timer_event_main c tgt p : main_event c (timer_event timer tgt p).
Proof. right. split; [done|]. by split. Qed.

Lemma net_query_main c e : net_query e → GetId e ≠ csEVENT_QUIT ∧ manageable c e.
Proof. intros (_ & _ & Hst & Hid & _). split; [by rewrite Hid|]. split; [done|by rewrite Hid]. Qed.

Lemma tick_queue (P : csEvent → Prop) ts c l v :
  (∀ tgt p, P (timer_event timer tgt p)) → Forall P v.2 →
  Forall P (foldl (offered timer this ts c) v l).2.
Proof.
  intros HP. revert v. induction l as [|p l IH]; intros v Hv; [done|]. cbn. apply IH. unfold offered.
  destruct (ts !! p) as [t|]; [|done]. destruct (due t); [|done]. by apply deliver_Forall.
Qed.

Lemma tick_run s :
  good s → ∃ s', zoom p_ticks set_p_ticks (Tick timer this) s = Ok tt s' ∧ good s'.
Proof.
  intros Hs. destruct (Tick_run timer this (p_ticks s) (op_timers _ _ Hs))
    as (t & Hrun & Hok & [_ Hv _ (_ & _ & Hi)]).
  { apply (good_client s timer Hs). right. right. left. }
  exists (set_p_ticks (set_vector_mutex MFree t) s). split; [unfold zoom; by rewrite Hrun|].
  apply good_ticks; [done|done|exact Hi| |].
  - destruct (op_queue _ _ Hs) as (b & q & Hq & Hall). specialize (Hv this).
    change (bus_view ?w) with (view w) in Hv. change (bus (p_ticks s)) with (t_bus (p_threads s)) in Hv.
    rewrite Hq in Hv. eexists _, _. split; [cbn; by rewrite Hv; cbn; rewrite <-surjective_pairing|].
    apply tick_queue; [intros; apply timer_event_main|done].
  - intros c. specialize (Hv c). cbn in Hv. cbn. by rewrite Hv, fmap_is_Some.
Qed.

Lemma good_serving s : good s → serving timer (p_ticks s).
Proof.
  intros Hs. destruct (good_instance s Hs) as [Hins Hnull].
  split_and!; [apply Hs|by cbn; rewrite Hins|]. apply (good_client s timer Hs). right. right. left.
Qed.

(** *** All steps *)

Lemma manageable_mono c c' e :
  (∀ q, is_Some (plugin_objs c !! q) → is_Some (plugin_objs c' !! q)) →
  main_event c e → main_event c' e.
Proof.
  intros Ho [?|[Hid [Hst Hp]]]; [by left|right]. split; [done|]. split; [done|].
  intros Hpl. destruct (Hp Hpl) as (? & ? & ?). eauto.
Qed.

Lemma step_operating to_net s s' : thread_step to_net s s' → good s → good s'.
Proof.
  intros Hstep Hs. pose proof Hs as [Hl Htm Hq]. pose proof (good_world s Hs) as Hw.
  destruct Hstep as [b s s' Hrun|s s' Hrun|r b s s' Hrun|src dst e e' s s' Hsrc Hp He _ Hrun
    |c s s' Hc Hre Hrun|c p s s' Hc Hre Hrun|p s s' Hp Hrun|s t Hstep Hb Hi|p o o' d s Ho Hn
    |clock level msg l s Hrun|tid s Htid].
  - destruct (main_run s Hs) as (b' & s1 & Hrun' & Hg). rewrite Hrun in Hrun'. by simplify_eq.
  - destruct (tick_run s Hs) as (s1 & Hrun' & Hg). rewrite Hrun in Hrun'. by simplify_eq.
  - destruct (signal_run s r Hs) as (b' & s1 & Hrun' & Hg). rewrite Hrun in Hrun'. by simplify_eq.
  - destruct (good_post s src dst e e' Hs) as (w & Hpost & Hg); [by apply view_clients|done..|].
    unfold zoom in Hrun. rewrite Hpost in Hrun. by simplify_eq.
  - apply clients_step in Hrun as (w & Hrun & ->). apply good_calm; [done|].
    by eapply taken_calm.
  - apply clients_step in Hrun as (w & Hrun & ->). apply good_calm; [done|].
    by eapply received_calm.
  - apply clients_step in Hrun as (w & Hrun & ->). apply good_calm; [done|].
    destruct (loose_release _ p Hw Hp) as (w' & Hrun' & Hcalm). rewrite Hrun in Hrun'. by simplify_eq.
  - assert (serving timer (p_ticks s)) as Hsrv by by apply good_serving.
    pose proof (timer_step_serving timer this _ _ Hstep Hsrv) as (Ht & _ & _).
    apply good_ticks; [done|done| |by rewrite Hb|by rewrite Hb].
    by rewrite Hi, (proj1 (good_instance s Hs)).
  - split; [|done|].
    + apply (lived_trans _ s); [done|]. split; try done.
      intros q. rewrite main_set. cbn. destruct (decide (q = p)) as [->|Hqp].
      * by rewrite lookup_insert_eq, Ho; cbn; rewrite Hn.
      * by rewrite lookup_insert_ne.
    + destruct Hq as (b & q & Hv & Hall). exists b, q. split; [exact Hv|].
      eapply Forall_impl; [exact Hall|]. intros e. apply manageable_mono. intros x Hx.
      rewrite main_set. cbn. apply lookup_insert_is_Some'. by right.
  - split; [|done|done]. apply (lived_trans _ s); [done|]. split; try done.
    apply rtc_once. by exists clock, level, msg.
  - split; [|done|done]. apply (lived_trans _ s); [done|].
    by apply lived_threads, rtc_once, run_end.
Qed.
(** *** What the netlink thread relies on *)

Lemma step_there to_net x ex s s' :
  IsPersistent ex = true → GetId ex ≠ csEVENT_PLUGIN → thread_step to_net s s' →
  there x ex (t_bus (p_threads s)) → there x ex (t_bus (p_threads s')).
Proof.
  intros Hper Hid Hstep Hx.
  assert (∀ A (m : prog world A) s a s', keeps x ex (λ w, w) m (λ _, True) →
    with_clients m s = Ok a s' → there x ex (t_bus (p_threads s)) →
    there x ex (t_bus (p_threads s'))) as Hclients.
  { intros A m s1 a s2 Hm Hrun%clients_step Hs1. destruct Hrun as (w & Hrun & ->).
    by apply (keeps_run (λ w, w) _ _ _ _ _ _ _ Hm Hs1 Hrun). }
  destruct Hstep as [b s s' Hrun|s s' Hrun|r b s s' Hrun|src dst e e' s s' Hsrc Hp He _ Hrun
    |c s s' Hc Hre Hrun|c p s s' Hc Hre Hrun|p s s' Hp Hrun|s t Hstep Hb Hi|p o o' d s Ho Hn
    |clock level msg l s Hrun|tid s Htid].
  - unfold zoom in Hrun. destruct (Run 1 this (p_main s)) as [b' m| |] eqn:Hm; simplify_eq.
    by apply (keeps_run m_world _ _ _ _ _ _ _ (keeps_Run x ex Hper Hid 1 this) Hx Hm).
  - unfold zoom in Hrun. destruct (Tick timer this (p_ticks s)) as [[] t| |] eqn:Ht; simplify_eq.
    by apply (keeps_run (bus (W:=world)) _ _ _ _ (p_ticks s) _ _ (keeps_Tick x ex Hper timer this) Hx Ht).
  - eapply Hclients; [by apply keeps_signal|done..].
  - eapply Hclients; [by apply kept_post|done..].
  - eapply Hclients; [|done..]. eapply keeps_bind; [by apply kept_EventPop|]. intros p _.
    destruct (p =? CS_EVENT_NONE)%Z; [by apply keeps_ret|by apply kept_EventDestroy].
  - eapply Hclients; [by apply kept_EventPop|done..].
  - eapply Hclients; [by apply kept_EventDestroy|done..].
  - change (there x ex (bus t)). by rewrite Hb.
  - done.
  - done.
  - done.
Qed.

Lemma net_apart s : good s → net ≠ this.
Proof.
  intros Hs. pose proof (rn_nodup _ _ _ _ _ _ _ (good_running s Hs)) as Hnd.
  by apply NoDup_cons in Hnd as [Hn _]; set_solver.
Qed.

Lemma net_addr s : good s → net ≠ CS_EVENT_BROADCAST.
Proof.
  intros Hs. destruct (good_world s Hs) as [H [Hw _]]. apply (core_addr _ _ Hw), (core_dom _ _ Hw).
  apply view_clients, (good_client s net Hs). set_solver.
Qed.

Abbreviation net_queue s := (queue_all net_event (t_bus (p_threads s)) net).

Lemma step_net_queue s s' : good s → thread_step net_event s s' → net_queue s → net_queue s'.
Proof.
  intros Hs Hstep Hq. pose proof (good_world s Hs) as Hw. pose proof (net_apart s Hs) as Hnet.
  destruct Hstep as [b s s' Hrun|s s' Hrun|r b s s' Hrun|src dst e e' s s' Hsrc Hp _ He Hrun
    |c s s' Hc Hre Hrun|c p s s' Hc Hre Hrun|p s s' Hp Hrun|s t Hstep Hb Hi|p o o' d s Ho Hn
    |clock level msg l s Hrun|tid s Htid]; try done.
  - destruct Hw as [H Hw]. destruct (op_queue _ _ Hs) as (bm & q & Hm & Hall).
    destruct (Run_round this (p_main s) H bm q Hw Hm Hall (good_filters s Hs))
      as (r & w & Hr & _ & _ & Hv).
    unfold zoom in Hrun. rewrite Hr in Hrun. injection Hrun as _ <-.
    destruct (Hv net Hnet) as (b' & e' & Hvn & He'). eapply queue_all_deliver; [exact Hq|exact Hvn|].
    intros Hb. destruct (He' Hb) as (Hid & Hst & _). left. rewrite Hid. split; [done|].
    intros Hst'. by rewrite Hst in Hst'.
  - destruct (Tick_run timer this (p_ticks s) (op_timers _ _ Hs)) as (t & Htick & _ & [_ Hv _ _]).
    { apply (good_serving s Hs). }
    unfold zoom in Hrun. rewrite Htick in Hrun. injection Hrun as <-. specialize (Hv net).
    destruct Hq as (b & q & Hvq & Hq). change (bus_view ?w) with (view w) in Hv.
    change (bus (p_ticks s)) with (t_bus (p_threads s)) in Hv. rewrite Hvq in Hv. eexists _, _.
    split; [etrans; [exact Hv|]; cbn; by rewrite <-surjective_pairing|].
    apply tick_queue; [|done]. intros. left. by split.
  - apply clients_step in Hrun as (w & Hrun & ->). destruct Hw as [H Hw].
    destruct (signal_posted r (t_bus (p_threads s))) as [Hn|(e & e' & b' & Heq & Hp & He & _)].
    { rewrite Hn in Hrun. by injection Hrun as _ <-. }
    destruct (post_spec _ H sig CS_EVENT_BROADCAST e e' Hw) as (w' & Hpost & _ & _ & _ & Hv);
      [apply (good_client s sig Hs); set_solver|done|].
    rewrite Heq in Hrun. unfold mbind, M_bind in Hrun. rewrite Hpost in Hrun. injection Hrun as _ <-.
    by eapply queue_all_deliver; [exact Hq|apply Hv|].
  - apply clients_step in Hrun as (w & Hrun & ->). destruct Hw as [H Hw].
    destruct (post_spec _ H src dst e e' Hw) as (w' & Hpost & _ & _ & _ & Hv);
      [by apply view_clients|done|]. rewrite Hrun in Hpost. simplify_eq.
    by eapply queue_all_deliver; [exact Hq|apply Hv|].
  - apply clients_step in Hrun as (w & Hrun & ->). by apply (taken_calm _ c w Hw Hre Hrun).
  - apply clients_step in Hrun as (w & Hrun & ->). by apply (received_calm _ c p w Hw Hre Hrun).
  - apply clients_step in Hrun as (w & Hrun & ->).
    destruct (loose_release _ p Hw Hp) as (w' & Hrun' & Hcalm). rewrite Hrun in Hrun'. simplify_eq.
    by apply Hcalm.
  - change (queue_all net_event (bus t) net). by rewrite Hb.
Qed.
End running.

(** ** The program with its netlink thread *)

(** The process, and what the netlink thread keeps: the events it has not
    answered, its sequence number, its buffer and the requests it has sent. *)
Record live := Live {
  l_process : process;
  l_clients : list Z;
  l_seq : Z;
  l_buffer : list byte;
  l_sent : list nl_request;
}.
Definition set_l_process (s : process) (l : live) : live :=
  Live s (l_clients l) (l_seq l) (l_buffer l) (l_sent l).
Definition l_world (l : live) : world := t_bus (p_threads (l_process l)).
Definition l_netlink (l : live) : netlink_state :=
  NetlinkState (l_world l) (l_clients l) (l_seq l) (l_buffer l) (l_sent l).
Definition set_l_netlink (n : netlink_state) (l : live) : live :=
  Live (set_p_threads (set_t_bus (nl_world n) (p_threads (l_process l))) (l_process l))
    (nl_clients n) (nl_seq n) (nl_buffer n) (nl_sent n).

Section live.
Context (sys : system) (this : Z) (stray : Z → Prop) (sig timer net : Z).

(** A step of a thread, or a round of the netlink thread with whatever the
    kernel sends. *)
Inductive program_step : live → live → Prop :=
  | pr_thread l s :
      thread_step this sig timer net net_event (l_process l) s → program_step l (set_l_process s l)
  | pr_netlink r time quit l l' :
      fits r (l_buffer l) →
      zoom l_netlink set_l_netlink (netlink_round net time r) l = Ok quit l' → program_step l l'.

(** What each thread can do next returns. *)
Record responsive (l : live) : Prop := Responsive {
  rs_main : ∃ b s', with_main (Run 1 this) (l_process l) = Ok b s';
  rs_tick : ∃ s', zoom p_ticks set_p_ticks (Tick timer this) (l_process l) = Ok tt s';
  rs_signal : ∀ r, ∃ b s', with_clients (signal_round sig r) (l_process l) = Ok b s';
  rs_netlink : ∀ r time, fits r (l_buffer l) →
    ∃ quit l', zoom l_netlink set_l_netlink (netlink_round net time r) l = Ok quit l';
  rs_post : ∀ src dst e e', is_Some (clients (l_world l) !! src) → posted src dst e = Some e' →
    (reaches dst this = true → main_event (m_conf (p_main (l_process l))) e') →
    ∃ s', with_clients (post src dst e) (l_process l) = Ok tt s';
  rs_take : ∀ c, is_Some (clients (l_world l) !! c) → can_take (l_world l) c →
    ∃ s', with_clients (take_event c) (l_process l) = Ok tt s';
  rs_receive : ∀ c, is_Some (clients (l_world l) !! c) → can_take (l_world l) c →
    ∃ p s', with_clients (EventPop c) (l_process l) = Ok p s' ∧
      (p = CS_EVENT_NONE ∨ ∃ s2, with_clients (EventDestroy p) s' = Ok tt s2);
  rs_release : ∀ p, loose (l_world l) p →
    ∃ s', with_clients (EventDestroy p) (l_process l) = Ok tt s';
  rs_timers : usable (p_ticks (l_process l));
  rs_log : ∀ clock level message, ∃ lg, Log clock level message (p_logs (l_process l)) = Ok tt lg;
  rs_end : all_ended (p_threads (l_process l)) →
    ∃ s', csMain_delete sys this (l_process l) = Ok tt s' ∧ closed sys stray (l_process l) s';
}.

Context (Hsys : system_ok sys stray) (debug : bool) (s0 : process).
Context (Hs0 : constructed_main sys this stray sig timer net debug s0).

Record in_order (l : live) : Prop := InOrder {
  io_good : operating this s0 (l_process l);
  io_clients : ∀ p, p ∈ l_clients l → net_at (l_world l) p;
  io_queue : queue_all net_event (l_world l) net;
}.

Lemma start_in_order seq buf : in_order (Live s0 [] seq buf []).
Proof.
  assert (operating this s0 s0) as Hg by by eapply start_operating.
  split; [done|cbn; set_solver|].
  assert (is_Some (clients (t_bus (p_threads s0)) !! net)) as [cl Hcl].
  { apply view_clients. eapply good_client; [done..|set_solver]. }
  exists (event_enable cl), []. split; [|done]. unfold l_world. cbn.
  rewrite (view_client _ _ cl Hcl). by rewrite (cm_unposted _ _ _ _ _ _ _ _ Hs0 net cl Hcl).
Qed.

Lemma net_round l r time :
  in_order l → fits r (l_buffer l) →
  ∃ quit l', zoom l_netlink set_l_netlink (netlink_round net time r) l = Ok quit l' ∧ in_order l'.
Proof.
  intros [Hg Hc Hq] Hfit.
  destruct (good_world sys this stray sig timer net debug s0 Hs0 _ Hg) as [H Hw].
  assert (net_safe H (l_netlink l)) as Hs.
  { split; [exact Hw| |exact Hc]. apply (view_registered _ H net (proj1 Hw)).
    by eapply good_client; [done..|set_solver]. }
  destruct (netlink_round_safe H net time (l_netlink l) Hs r) as (quit & n & Hrun & Hn & _ & Heff);
    [by eapply net_addr|done|done|].
  exists quit, (set_l_netlink n l). split; [unfold zoom; by rewrite Hrun|].
  destruct Heff as [Hv Hown Hother]. split; [|apply Hn|exact Hown].
  eapply good_events; [exact Hg|exists H; apply Hn| |exact Hv].
  apply Hother; [|by intros e He; right; apply net_query_main|apply Hg].
  apply not_eq_sym. by eapply net_apart.
Qed.

Lemma step_in_order l l' : program_step l l' → in_order l → in_order l'.
Proof.
  intros [l0 s Hstep|r time quit l0 l1 Hfit Hrun] Hl.
  - destruct Hl as [Hg Hc Hq]. split.
    + by eapply step_operating.
    + intros p Hp. destruct (Hc p Hp) as (e & He & Hnq). exists e. split; [|done].
      destruct (good_world sys this stray sig timer net debug s0 Hs0 _ Hg) as [H [Hw _]].
      eapply (step_there this sig timer net net_event p e); [apply Hnq| |exact Hstep|].
      * destruct Hnq as (_ & _ & _ & -> & _). done.
      * by eapply there_live.
    + by eapply step_net_queue.
  - destruct (net_round l0 r time Hl Hfit) as (q & l2 & Hrun' & Hl2). rewrite Hrun in Hrun'.
    by simplify_eq.
Qed.

Lemma steps_in_order l l' : in_order l → rtc program_step l l' → in_order l'.
Proof. intros Hl Hsteps. induction Hsteps; eauto using step_in_order. Qed.

Lemma clients_returns {A} (m : prog world A) l a w :
  m (l_world l) = Ok a w →
  with_clients m (l_process l) =
    Ok a (set_p_threads (set_t_bus w (p_threads (l_process l))) (l_process l)).
Proof. intros Hrun. unfold zoom. change (t_bus _) with (l_world l). by rewrite Hrun. Qed.

Lemma in_order_responsive l : in_order l → responsive l.
Proof.
  intros Hl. pose proof Hl as [Hg Hc Hq].
  pose proof (good_world sys this stray sig timer net debug s0 Hs0 _ Hg) as Hw. split.
  - edestruct main_run as (b & s' & Hrun & _); [done..|]. eauto.
  - edestruct tick_run as (s' & Hrun & _); [done..|]. eauto.
  - intros r. edestruct signal_run as (b & s' & Hrun & _); [done..|]. eauto.
  - intros r time Hfit. destruct (net_round l r time Hl Hfit) as (q & l' & Hrun & _). eauto.
  - intros src dst e e' Hsrc%view_clients Hp He.
    edestruct good_post as (w & Hrun & _); [done..|]. eexists. by apply clients_returns.
  - intros c Hcl%view_clients Hre. destruct (take_run _ c Hw Hcl Hre) as (w & Hrun & _).
    eexists. by apply clients_returns.
  - intros c Hcl%view_clients Hre. destruct (receive_run _ c Hw Hcl Hre) as (p & w & Hrun & _ & Hp).
    do 2 eexists. split; [by apply clients_returns|]. destruct Hp as [?|(w2 & Hdel & _)]; [by left|right].
    eexists. exact (clients_returns _
      (set_l_process (set_p_threads (set_t_bus w (p_threads (l_process l))) (l_process l)) l) tt w2 Hdel).
  - intros p Hp. destruct (loose_release _ p Hw Hp) as (w & Hrun & _).
    eexists. by apply clients_returns.
  - eapply serving_usable, good_serving; done.
  - intros clock level msg.
    destruct (logged_logs _ _ _ (lv_logs _ _ (op_lived _ _ _ Hg)) (cm_logs _ _ _ _ _ _ _ _ Hs0)) as [Hok _].
    eexists. by apply Log_run.
  - intros He. eapply csMain_delete_run; [done|]. by eapply constructed_later; [done|apply Hg|].
Qed.
End live.

(** C8. The program while it runs, from the end of its constructor on: however
    the rounds of its main loop, ticks of its timer thread, rounds of its
    netlink thread with whatever the kernel sends, signals, events that are
    dispatched, taken, kept and released by any of its threads, uses of timers,
    changes of plugin variables and state files, log lines and the ends of
    threads follow each other, the program stays in order, and what any thread
    can do next returns: the main loop's next round, the next tick, the reaction
    to any signal, the netlink thread's next round, every dispatch of an event
    that the main loop can handle if it reaches it, every pop by a registered
    client (with the destruction of what it got), the destruction of an event
    that a thread kept, every operation on a live timer and the making of a new
    one (but an extension that overflows), every log line; and once all threads have ended the
    destructor takes everything apart.  Side conditions, in the steps and in
    [responsive]: a sticky event that is popped can be copied; what is sent to
    the netlink thread under the netlink id is a persistent netlink event, and
    what is sent to the main program is an event it can handle; a datagram
    leaves room for a header in the buffer.  (Inside one operation on the event
    system the others are held off by its mutexes.) *)
Theorem program_runs sys this stray sig timer net debug s0 seq buf l :
  system_ok sys stray → constructed_main sys this stray sig timer net debug s0 →
  rtc (program_step this sig timer net) (Live s0 [] seq buf []) l →
  running sys this stray sig timer net (l_process l) ∧
  filters_ok this (m_conf (p_main (l_process l))) ∧
  responsive sys this stray sig timer net l.
Proof.
  intros Hsys Hs0 Hsteps.
  assert (in_order this net s0 l) as Hl.
  { eapply steps_in_order; [exact Hsys|exact Hs0| |exact Hsteps]. by eapply start_in_order. }
  split_and!.
  - eapply good_running; [exact Hs0|apply Hl].
  - eapply good_filters; [exact Hs0|apply Hl].
  - by eapply in_order_responsive.
Qed.

(** *** A signal, a tick and a round of the main loop *)

Lemma sample_constructed :
  constructed_main sample_system 100 nobody 104 101 102 false sample_running.
Proof.
  pose proof (wp_csMain_new sample_system 100 nobody sample_system_ok [] ∅ ltac:(done) ltac:(done)
    (map_Forall_empty _)) as Hrun.
  unfold wp in Hrun. pose proof sample_returns as Hr. unfold sample_result in Hr. rewrite Hr in Hrun.
  destruct Hrun as (sig & timer & net & debug & Hc).
  assert (p_members sample_running = Members 1 2 104 101 102 9) as Hm by (vm_compute; reflexivity).
  rewrite (cm_members _ _ _ _ _ _ _ _ Hc) in Hm. destruct debug; [discriminate Hm|].
  injection Hm as -> -> ->. exact Hc.
Qed.

Definition after {S A} (m : prog S A) (s : S) : S :=
  match m s with Ok _ s' => s' | _ => s end.

Lemma after_ok {S A} (m : prog S A) s :
  match m s with Ok _ _ => true | _ => false end = true → ∃ a, m s = Ok a (after m s).
Proof. unfold after. destruct (m s); [by eexists|done..]. Qed.

(** A tick; the plugin watches routes, and the netlink thread registers the
    event; the kernel sends a route, which is handed to the plugin and taken by
    it; the program is told to terminate. *)
Definition sample_watching : csEvent := SetPersistent true (csEventNetlink_new NL_RouteWatch 0).
Definition sample_route : list byte :=
  le_bytes 4 16 ++ le_bytes 2 RTM_NEWROUTE ++ le_bytes 2 0 ++ le_bytes 4 9 ++ le_bytes 4 0.
Definition sample_live : live := Live sample_running [] 7 (replicate 64 x00) [].
Abbreviation sample_net r := (zoom l_netlink set_l_netlink (netlink_round 102 0 r)).
Abbreviation sample_do m l := (set_l_process (after m (l_process l)) l).
Definition sample_ticked : live := sample_do (zoom p_ticks set_p_ticks (Tick 101 100)) sample_live.
Definition sample_asked : live := sample_do (with_clients (post 103 102 sample_watching)) sample_ticked.
Definition sample_registered : live := after (sample_net (RecvFailed EAGAIN)) sample_asked.
Definition sample_answered : live := after (sample_net (Datagram sample_route)) sample_registered.
Definition sample_taken : live := sample_do (with_clients (EventPop 103)) sample_answered.
Definition sample_signalled : live :=
  sample_do (with_clients (signal_round 104 (inr SIGTERM))) sample_taken.

Abbreviation sample_step := (program_step 100 104 101 102).

Lemma do_step {A} (m : prog process A) l :
  match m (l_process l) with Ok _ _ => true | _ => false end = true →
  (∀ a s', m (l_process l) = Ok a s' → thread_step 100 104 101 102 net_event (l_process l) s') →
  sample_step l (sample_do m l).
Proof. intros Hm Hstep. apply pr_thread. destruct (after_ok m (l_process l) Hm) as [a Ha]. eauto. Qed.

Lemma net_step l r :
  fits r (l_buffer l) → match sample_net r l with Ok _ _ => true | _ => false end = true →
  sample_step l (after (sample_net r) l).
Proof.
  intros Hfit Hok. destruct (after_ok (sample_net r) l Hok) as [q Hq]. by eapply pr_netlink.
Qed.

Lemma sample_step_tick : sample_step sample_live sample_ticked.
Proof.
  apply do_step; [vm_compute; reflexivity|]. intros [] s' Hrun.
  exact (ps_tick 100 104 101 102 net_event _ _ Hrun).
Qed.

Lemma sample_step_ask : sample_step sample_ticked sample_asked.
Proof.
  apply do_step; [vm_compute; reflexivity|]. intros [] s' Hrun.
  refine (ps_post 100 104 101 102 net_event 103 102 sample_watching
    (SetSource 103 (SetTarget 102 sample_watching)) _ _ _ eq_refl _ _ Hrun).
  - apply (bool_decide_unpack _). vm_compute. exact I.
  - intros Hr. discriminate Hr.
  - intros _. clear. right. split_and!; [reflexivity..|discriminate|discriminate|].
    do 4 eexists. reflexivity.
Qed.

Lemma sample_step_register : sample_step sample_asked sample_registered.
Proof. apply net_step; [exact I|vm_compute; reflexivity]. Qed.

Lemma sample_step_answer : sample_step sample_registered sample_answered.
Proof.
  apply net_step; [|vm_compute; reflexivity].
  split; apply (bool_decide_unpack _); vm_compute; exact I.
Qed.

Lemma sample_step_taken : sample_step sample_answered sample_taken.
Proof.
  apply do_step; [vm_compute; reflexivity|]. intros p s' Hrun.
  refine (ps_receive 100 104 101 102 net_event 103 p _ _ _ _ Hrun); [discriminate|].
  intros b e q Hv. assert (view (t_bus (p_threads (l_process sample_answered))) 103 ≫=
    (λ v, IsSticky <$> head v.2) = Some false) as Hst by (vm_compute; reflexivity).
  rewrite Hv in Hst. injection Hst as Hst. intros Hst'. congruence.
Qed.

Lemma sample_step_signal : sample_step sample_taken sample_signalled.
Proof.
  apply do_step; [vm_compute; reflexivity|]. intros b s' Hrun.
  exact (ps_signal 100 104 101 102 net_event _ _ _ _ Hrun).
Qed.

Lemma sample_steps : rtc sample_step sample_live sample_signalled.
Proof.
  eapply rtc_l; [exact sample_step_tick|]. eapply rtc_l; [exact sample_step_ask|].
  eapply rtc_l; [exact sample_step_register|]. eapply rtc_l; [exact sample_step_answer|].
  eapply rtc_l; [exact sample_step_taken|]. eapply rtc_l; [exact sample_step_signal|]. apply rtc_refl.
Qed.

Lemma program_runs_witness :
  rtc sample_step sample_live sample_signalled ∧
  l_clients sample_signalled = [1%Z] ∧
  (∃ s', with_main (Run 1 100) (l_process sample_signalled) = Ok true s') ∧
  (∃ l', sample_net (Datagram sample_route) sample_signalled = Ok false l').
Proof.
  split; [exact sample_steps|].
  split; [vm_compute; reflexivity|].
  destruct (program_runs sample_system 100 nobody 104 101 102 false sample_running 7 (replicate 64 x00)
    sample_signalled sample_system_ok sample_constructed sample_steps) as (_ & _ & Hr).
  split.
  - destruct (rs_main _ _ _ _ _ _ _ Hr) as (b & s' & Hrun). exists s'.
    assert (match with_main (Run 1 100) (l_process sample_signalled) with Ok b _ => b | _ => false end = true)
      as Hb by (vm_compute; reflexivity).
    rewrite Hrun in Hb. rewrite Hrun, Hb. reflexivity.
  - destruct (rs_netlink _ _ _ _ _ _ _ Hr (Datagram sample_route) 0%Z) as (b & l' & Hrun).
    { split; apply (bool_decide_unpack _); vm_compute; exact I. }
    exists l'. assert (match sample_net (Datagram sample_route) sample_signalled with
      Ok b _ => negb b | _ => false end = true) as Hb by (vm_compute; reflexivity).
    rewrite Hrun in Hb. apply negb_true_iff in Hb. rewrite Hrun, Hb. reflexivity.
Defined.
