(* ===== verification/Saved.v ===== *)
(** * What the plugins stored survives the program

    The destructor of [csMain] destroys every plugin, which writes its
    variables; the next program reads them back. *)

From S2P Require Import Prelude Exception Bytes Event EventInv EventOps Bus EventProps Timer Thread.
From S2P Require Import ThreadProps Plugin PluginProps Conf ConfProps Log LogProps Netlink.
From S2P Require Import Main MainProps MainConf Process StartProps ProcessProps Running.

(** No other plugin has the state file of the plugin at [p] open. *)
Definition own_file (c : main_conf) (p : Z) (path : string) : Prop :=
  ∀ q o, plugin_objs c !! q = Some o → q ≠ p → f_path <$> po_fh o ≠ Some path.

Lemma own_file_only c p path : dom (plugin_objs c) ⊆ {[ p ]} → own_file c p path.
Proof.
  intros Hd q o Ho Hq. apply elem_of_dom_2 in Ho. set_solver.
Qed.

Section saved.
Context (alloc_max file_max : Z).

Lemma saved_other o d path :
  f_path <$> po_fh o ≠ Some path → saved file_max (Some o) d !! path = d !! path.
Proof.
  intros Hne. cbn. destruct (csPlugin_delete_total file_max
    (PState d (po_name o) (po_fh o) (po_state o))) as (st & -> & Hq). by apply Hq.
Qed.

Lemma saved_own o d h :
  po_fh o = Some h → state_fits alloc_max file_max (po_state o) →
  ∃ tail, saved file_max (Some o) d !! f_path h = Some (encode (po_state o) ++ tail).
Proof.
  intros Hh (_ & _ & Hmax & _). cbn. rewrite Hh. unfold csPlugin_delete.
  rewrite (bind_ok _ _ _ _ _ (SaveState_run file_max (PState d (po_name o) (Some h) (po_state o)) h
    eq_refl Hmax)).
  eexists. cbn. apply lookup_insert_eq.
Qed.

(** The file of one plugin after all were destroyed. *)
Lemma all_saved_file ps c p o h :
  NoDup ps → p ∈ ps → plugin_objs c !! p = Some o → po_fh o = Some h →
  own_file c p (f_path h) → state_fits alloc_max file_max (po_state o) →
  ∃ tail, all_saved file_max ps c !! f_path h = Some (encode (po_state o) ++ tail).
Proof.
  intros Hnd Hp Ho Hh Hown Hfits. unfold all_saved.
  assert (∀ l d, p ∉ l →
    foldl (λ d q, saved file_max (plugin_objs c !! q) d) d l !! f_path h = d !! f_path h) as Hrest.
  { induction l as [|q l IH]; intros d Hl; [done|]. apply not_elem_of_cons in Hl as [Hq Hl].
    cbn. rewrite IH by done. destruct (plugin_objs c !! q) as [oq|] eqn:Hoq; [|done].
    apply saved_other. by apply (Hown q oq). }
  apply list_elem_of_split in Hp as (l1 & l2 & ->). rewrite foldl_app. cbn [foldl].
  apply NoDup_app in Hnd as (_ & _ & [Hp _]%NoDup_cons). rewrite Hrest, Ho by done.
  by apply saved_own.
Qed.

(** A new plugin that opens the file. *)
Lemma reopen_encoded openable name path s m tail :
  files s !! path = Some (encode m ++ tail) → openable path = true →
  state_fits alloc_max file_max m → no_empty_key m →
  ∃ s', reopen alloc_max openable name path s = Ok tt s' ∧ state s' = m.
Proof.
  intros Hf Hopen Hfits Hne.
  unfold reopen, csPlugin_new, SetStateFile, mbind, M_bind, gets, modify, when. cbn.
  rewrite bool_decide_eq_false_2 by by rewrite Hf. rewrite Hopen. cbn.
  erewrite (load_saved alloc_max file_max _ (Stream path 0) tail m); try done; [by eexists|].
  unfold contents. cbn. by rewrite Hf.
Qed.
End saved.

Section program.
Context (sys : system) (this : Z) (stray : Z → Prop) (Hsys : system_ok sys stray).

(** The plugin finds what it stored. *)
Lemma delete_saves sig timer net debug s p o h name :
  at_end sys this stray sig timer net debug s → registered (m_conf (p_main s)) p →
  plugin_objs (m_conf (p_main s)) !! p = Some o → po_fh o = Some h →
  own_file (m_conf (p_main s)) p (f_path h) → sys_openable sys (f_path h) = true →
  state_fits (sys_alloc_max sys) (sys_file_max sys) (po_state o) → no_empty_key (po_state o) →
  ∃ s' v, csMain_delete sys this s = Ok tt s' ∧ closed sys stray s s' ∧
    reopen (sys_alloc_max sys) (sys_openable sys) name (f_path h)
      (PState (disk (m_conf (p_main s'))) name None ∅) = Ok tt v ∧ state v = po_state o.
Proof.
  intros Hs Hreg Ho Hh Hown Hopen Hfits Hne.
  destruct (csMain_delete_run sys this stray Hsys sig timer net debug s Hs) as (s' & Hdel & Hcl).
  pose proof (rn_plugin _ _ _ _ _ _ _ (ae_running _ _ _ _ _ _ _ _ Hs)) as Hpl.
  destruct (all_saved_file (sys_alloc_max sys) (sys_file_max sys)
    (plugin_ptrs (m_conf (p_main s))) (m_conf (p_main s)) p o h) as [tail Hf]; try done.
  { by apply plugin_ptrs_nodup. }
  { by apply plugin_ptrs_elem. }
  rewrite <-(cl_disk _ _ _ _ Hcl) in Hf.
  destruct (reopen_encoded (sys_alloc_max sys) (sys_file_max sys) (sys_openable sys) name (f_path h)
    (PState (disk (m_conf (p_main s'))) name None ∅) (po_state o) tail) as (v & Hv & Hst); try done.
  by exists s', v.
Qed.

Lemma registered_lived s s' p :
  lived s s' → registered (m_conf (p_main s)) p → registered (m_conf (p_main s')) p.
Proof.
  intros Hl (o & l & Ho & Hlo & Hlp). pose proof (lv_objs _ _ Hl p) as Hn. rewrite Ho in Hn.
  apply fmap_Some in Hn as (o' & Ho' & Heq). exists o', l. by rewrite (lv_plugin _ _ Hl), <-Heq.
Qed.
End program.

(** C10. What a plugin stores survives the end of the program.  Whatever happened
    while the program ran, once all threads have ended, its destructor writes
    the variables of every plugin whose state file is open, and a plugin of the
    next program (of any name) that opens the same file finds exactly the
    variables it had, whatever the file held before and whatever the other
    plugins wrote to theirs.  The conditions: the system is as in C7; no variable
    has an empty name, since a record with one ends the reading and what the
    file held before shows through ([empty_name_reads_stale] in PluginProps); sizes and
    the file's length are in the range of their types and of what [new] and the
    disk give ([state_fits]); no other plugin has the same file, and it can be
    opened. *)
Theorem variables_survive_program sys this stray sig timer net debug s0 s p o h name :
  system_ok sys stray → constructed_main sys this stray sig timer net debug s0 →
  registered (m_conf (p_main s0)) p → lived s0 s → all_ended (p_threads s) →
  plugin_objs (m_conf (p_main s)) !! p = Some o → po_fh o = Some h →
  own_file (m_conf (p_main s)) p (f_path h) → sys_openable sys (f_path h) = true →
  state_fits (sys_alloc_max sys) (sys_file_max sys) (po_state o) → no_empty_key (po_state o) →
  ∃ s' v, csMain_delete sys this s = Ok tt s' ∧ closed sys stray s s' ∧
    reopen (sys_alloc_max sys) (sys_openable sys) name (f_path h)
      (PState (disk (m_conf (p_main s'))) name None ∅) = Ok tt v ∧ state v = po_state o.
Proof.
  intros Hsys Hs0 Hreg Hl He Ho Hh Hown Hopen Hfits Hne.
  eapply delete_saves; [done| |by eapply registered_lived|done..].
  by eapply constructed_later.
Qed.

(** *** The sample program, its plugin with a variable *)

Definition sample_objs (m : gmap string (list byte)) : gmap Z plugin_obj :=
  {[ 103%Z := PluginObj "Alpha" (Some (Stream "/var/a" 0)) m ]}.
Definition sample_vars : gmap string (list byte) := 
  {[ "k" := [x41; x42]; "note" := [] ]}.
Definition sample_changed : process :=
  set_p_main (set_conf (set_objs (sample_objs sample_vars) (m_conf (p_main sample_stopped)))
    (p_main sample_stopped)) sample_stopped.

Lemma sample_objs_names m q :
  po_name <$> sample_objs m !! q = po_name <$> sample_objs ∅ !! q.
Proof.
  unfold sample_objs. destruct (decide (q = 103%Z)) as [->|Hq]; [by rewrite !lookup_singleton_eq|].
  by rewrite !lookup_singleton_ne.
Qed.

(** Other objects with the same names. *)
Lemma lived_objs s0 s m :
  lived s0 s → (∀ q, po_name <$> m !! q = po_name <$> plugin_objs (m_conf (p_main s0)) !! q) →
  lived s0 (set_p_main (set_conf (set_objs m (m_conf (p_main s))) (p_main s)) s).
Proof. intros [] Hm. by split. Qed.

Lemma sample_changed_lived : lived sample_running sample_changed.
Proof.
  apply (lived_objs _ _ _ (proj1 sample_lived)). intros q.
  assert (plugin_objs (m_conf (p_main sample_running)) = sample_objs ∅) as ->
    by (vm_compute; reflexivity).
  exact (sample_objs_names sample_vars q).
Qed.

Lemma set_objs_threads s m :
  p_threads (set_p_main (set_conf (set_objs m (m_conf (p_main s))) (p_main s)) s) = p_threads s.
Proof. done. Qed.

Lemma set_objs_objs s m :
  plugin_objs (m_conf (p_main
    (set_p_main (set_conf (set_objs m (m_conf (p_main s))) (p_main s)) s))) = m.
Proof. done. Qed.

Lemma sample_changed_objs :
  plugin_objs (m_conf (p_main sample_changed)) = sample_objs sample_vars.
Proof. apply set_objs_objs. Qed.

Lemma sample_changed_ended : all_ended (p_threads sample_changed).
Proof. unfold sample_changed. rewrite set_objs_threads. exact (proj2 sample_lived). Qed.

Lemma variables_survive_program_witness :
  ∃ s' v, csMain_delete sample_system 100 sample_changed = Ok tt s' ∧
    reopen 4096 (λ _, true) "Beta" "/var/a" (PState (disk (m_conf (p_main s'))) "Beta" None ∅)
      = Ok tt v ∧ state v = sample_vars.
Proof.
  destruct (variables_survive_program sample_system 100 nobody 104 101 102 false sample_running
    sample_changed 103 (PluginObj "Alpha" (Some (Stream "/var/a" 0)) sample_vars)
    (Stream "/var/a" 0) "Beta") as (s' & v & Hdel & _ & Hre & Hst).
  - exact sample_system_ok.
  - exact sample_constructed.
  - exists (PluginObj "Alpha" (Some (Stream "/var/a" 0)) ∅), (PluginLoader "a.so" 7 103).
    split; [vm_compute; reflexivity|]. split; vm_compute; reflexivity.
  - exact sample_changed_lived.
  - exact sample_changed_ended.
  - rewrite sample_changed_objs. apply lookup_singleton_eq.
  - reflexivity.
  - intros q o. rewrite sample_changed_objs. unfold sample_objs.
    intros [<- <-]%lookup_singleton_Some Hq. by destruct Hq.
  - reflexivity.
  - change (state_fits 4096 4096 {[ "k" := [x41; x42]; "note" := [] ]}). fits.
  - vm_compute. reflexivity.
  - exists s', v. split; [exact Hdel|]. split; [exact Hre|exact Hst].
Defined.
