(* ===== verification/ExampleLoaded.v ===== *)
(** * The example plugin as a plugin the program loads

    Construction, configuration and destruction of [csPluginExample]: what its
    library does is what the model of the main program assumes of plugins, and a
    system whose plugins are example plugins is a system in the sense of
    [StartProps]. *)

From S2P Require Import Prelude Exception Bytes Event EventInv EventOps Bus EventProps Timer Thread.
From S2P Require Import ThreadProps Plugin PluginProps Conf ConfProps Log LogProps Netlink.
From S2P Require Import Main MainProps MainConf Example ExampleProps Process StartProps ProcessProps.

(** ** The class *)

(** The process, and the member [conf] of one plugin object: the parser of its
    [csPluginConf], or null. *)
Record hosted := Hosted { h_process : process; h_conf : option (xml_state unit) }.

Definition set_h_process (s : process) (h : hosted) : hosted := Hosted s (h_conf h).
Definition set_h_conf (c : option (xml_state unit)) (h : hosted) : hosted := Hosted (h_process h) c.

Abbreviation on_process m := (zoom h_process set_h_process m).
Abbreviation on_member m := (zoom h_conf set_h_conf m).

Lemma on_process_ok {A} (m : prog process A) s c a s' :
  m s = Ok a s' → on_process m (Hosted s c) = Ok a (Hosted s' c).
Proof. intros Hm. unfold zoom. cbn. by rewrite Hm. Qed.

Lemma on_member_ok {A} (m : prog (option (xml_state unit)) A) s c a c' :
  m c = Ok a c' → on_member m (Hosted s c) = Ok a (Hosted s c').
Proof. intros Hm. unfold zoom. cbn. by rewrite Hm. Qed.

Section class.
Context (sys : system).
Abbreviation page := (Z.to_nat (sys_page sys)).

(** The constructor, for a plugin at [p]. *)
Definition csPluginExample_new (p : Z) (name : string) (size : Z) : prog hosted unit :=
  on_process (with_main
    (csPlugin_construct (sys_attr_init sys) (sys_attr_setstacksize sys) p name size));;
  modify (set_h_conf None).

(** [csPluginInit(csPluginExample)]; [new] does not return null. *)
Definition example_init (name : string) (size : Z) : prog hosted Z :=
  p ← on_process (new_object sys);
  csPluginExample_new p name size;;
  mret p.

(** A parser with its configuration set: a new [csPluginConf], at 1. *)
Definition fresh_parser : xml_state unit :=
  XmlState ∅ 1 [] 1 false (replicate page x00) (XmlPos 1 0 0) tt.

Definition example_SetConfigurationFile (p : Z) (filename : string) : prog hosted unit :=
  on_member (example_configure page filename (sys_fopen sys filename) fresh_parser).

(** [delete conf] deletes the parser, which is not null. *)
Definition delete_conf : prog (option (xml_state unit)) unit := λ c,
  match c with
  | None => Ok tt None
  | Some x =>
      match csConf_delete page 1 x with
      | Ok _ _ => Ok tt None
      | Throw e x => Throw e (Some x)
      | Stuck f => Stuck f
      end
  end.

(** The destructor, with that of [csPlugin]. *)
Definition csPluginExample_delete (p : Z) : prog hosted unit :=
  on_process (with_threads (thread_Join p));;
  on_member delete_conf;;
  on_process (with_main (csPlugin_destruct (sys_file_max sys) p)).

(** ** Its operations *)

(** What [SetConfigurationFile] of a new plugin throws. *)
Definition example_throws (p : Z) (filename : string) : option csException :=
  match example_configure page filename (sys_fopen sys filename) fresh_parser None with
  | Throw x _ => Some x
  | _ => None
  end.

Lemma fresh_idle : idle (H := example_handlers) (H0 := example_ok unit) fresh_parser.
Proof.
  split; [|done]. split; [split; cbn; [|done|constructor]|split; [done|]].
  - intros q Hq. by apply elem_of_nil in Hq.
  - intros q t Hq. by destruct (lookup_empty_Some (M:=gmap Z) q t Hq).
Qed.

(** Reading the configuration is never stuck, and leaves a parser that can be
    deleted. *)
Lemma example_configure_run p filename :
  one_page page (sys_fopen sys filename) →
  ∃ x, sound (H := example_handlers) (H0 := example_ok unit) x ∧
    example_configure page filename (sys_fopen sys filename) fresh_parser None =
      match example_throws p filename with
      | Some e => Throw e (Some x)
      | None => Ok tt (Some x)
      end.
Proof.
  intros Hf.
  assert (wp (@example_reload unit page filename (sys_fopen sys filename))
    (λ _ x, sound (H := example_handlers) (H0 := example_ok unit) x)
    (λ _ x, sound (H := example_handlers) (H0 := example_ok unit) x) fresh_parser) as Hrun.
  { unfold example_reload. apply wp_bind.
    eapply wp_ok; [by apply Reset_idle|].
    apply (wp_Parse_any (H := example_handlers) (H0 := example_ok unit)); [exact Hf|apply fresh_idle]. }
  unfold example_throws, example_configure, wp in *.
  destruct (example_reload page filename (sys_fopen sys filename) fresh_parser) as [[] x|e x|];
    [by exists x|by exists x|done].
Qed.

(** A document whose every [test-tag] is in an element [plugin] and has text. *)
Definition accepted (file : Z + list xml_page) : Prop :=
  ∃ bytes e a p inner e' p',
    file = inr [XmlPage bytes None (document e a p inner e' p') None] ∧
    length bytes ≤ page ∧ content example_accepts e inner ∧ strcaseeq "test-tag" e = false ∧
    Forall (λ x, 0 ≤ byte_index x.2 < sys_page sys)%Z (document e a p inner e' p').

(** No exception comes out of the events of such a document. *)
Lemma accepted_document e a p inner e' p' (x : xml_state unit) :
  content example_accepts e inner → strcaseeq "test-tag" e = false →
  sound (H := example_handlers) (H0 := example_ok unit) x → stack x = [] →
  pages_ok x (document e a p inner e' p') →
  ∃ x', foreach (document e a p inner e' p') (callback (H := example_handlers)) x = Ok tt x'.
Proof.
  intros Hin He Hx Hst Hp.
  pose proof (wp_open (H := example_handlers) (H0 := example_ok unit) example_accepts x EmptyString
    e a EmptyString p Hx ltac:(by apply Forall_cons in Hp as [? _])
    ltac:(intros q; by rewrite Hst) ltac:(by rewrite Hst)) as Hopen.
  unfold wp in Hopen. destruct (callback (XOpen e a, p) x) as [[] x1|err x1|] eqn:Ho; [|by cbn in Ho|done].
  pose proof (opened_stack _ _ _ _ Hopen) as Hne1. pose proof (opened_within _ _ _ _ Hopen) as Hw1.
  pose proof Hopen as (_ & _ & Hst1 & Hb1 & _ & _ & Hs1 & _).
  pose proof Hp as [[_ Hpi]%Forall_cons _]%Forall_app.
  pose proof (wp_content (H := example_handlers) (H0 := example_ok unit) example_accepts e inner Hin
    x1 Hs1 Hne1 Hw1 ltac:(by apply (pages_same x))) as Hcont.
  unfold wp in Hcont. destruct (foreach inner callback x1) as [[] x2|err x2|] eqn:Hi; [|by destruct Hcont as (_ & _ & Hacc); destruct Hacc|done].
  destruct Hcont as [Htx Hs2].
  destruct (opened_seen x e a _ x1 x2 Hopen Htx) as (q & t & Hst2 & Ht & Hft).
  rewrite Hst in Hst2. injection Hft as Hname _ _.
  assert (∃ x3, callback (H := example_handlers) (XClose e', p') x2 = Ok tt x3) as [x3 Hclose].
  { unfold callback, csXmlElementClose, stack_back, modify, mbind, M_bind. cbn.
    rewrite Hst2. cbn. unfold example_close, tag_get, tag_is, mbind, M_bind. cbn. rewrite Ht. cbn.
    rewrite Hname, He. cbn. unfold tag_delete, tag_get, mbind, M_bind. cbn. rewrite Ht. cbn.
    by eexists. }
  exists x3. unfold document. change (((XOpen e a, p) :: inner) ++ [(XClose e', p')])
    with ([(XOpen e a, p)] ++ (inner ++ [(XClose e', p')])).
  rewrite (foreach_app_ok _ _ _ x x1) by (cbn; unfold mbind, M_bind; by rewrite Ho).
  rewrite (foreach_app_ok _ _ _ x1 x2) by done. cbn. unfold mbind, M_bind. by rewrite Hclose.
Qed.

Lemma accepted_quiet p filename :
  accepted (sys_fopen sys filename) → example_throws p filename = None.
Proof.
  intros (bytes & e & a & ps & inner & e' & p' & Hfile & Hlen & Hin & He & Hpages).
  unfold example_throws, example_configure, example_reload. rewrite Hfile.
  unfold Parse. rewrite (bind_ok _ _ _ _ _ (Reset_idle page fresh_parser eq_refl)).
  set (x1 := set_buffer _ fresh_parser).
  assert (Reset page x1 = Ok tt x1) as Hr by by apply Reset_idle.
  rewrite (bind_ok _ _ _ _ _ Hr). set (x2 := set_buffer (bytes ++ drop (length bytes) (buffer x1)) (set_fh true x1)).
  destruct (accepted_document e a ps inner e' p' x2) as [x3 Hrun]; [done|done| |done| |].
  - apply (sound_frame (H := example_handlers) (H0 := example_ok unit) fresh_parser);
      [apply fresh_idle|done..].
  - unfold pages_ok, in_page. eapply Forall_impl; [exact Hpages|]. intros ev. cbn.
    rewrite length_page by done. lia.
  - rewrite (bind_ok _ _ _ (conf x1) x1) by done. change (conf x1 =? 0)%Z with false. cbn iota.
    rewrite (bind_ok _ _ _ tt (set_fh true x1)) by done.
    assert (parse_pages (H := example_handlers) filename
      [XmlPage bytes None (document e a ps inner e' p') None] (set_fh true x1) = Ok tt x3) as Hpages3.
    { cbn [parse_pages page_bytes page_errno page_events page_error].
      rewrite (bind_ok _ _ _ tt x2) by done. by rewrite (bind_ok _ _ _ _ _ Hrun). }
    by rewrite (bind_ok _ _ _ _ _ Hpages3).
Qed.

Lemma absent_throws p filename errno :
  sys_fopen sys filename = inl errno →
  example_throws p filename = Some (csException_int_str errno filename).
Proof. intros Hf. unfold example_throws, example_configure, example_reload. by rewrite Hf. Qed.

Lemma delete_conf_run c :
  (∀ x, c = Some x → sound (H := example_handlers) (H0 := example_ok unit) x) →
  delete_conf c = Ok tt None.
Proof.
  intros Hc. destruct c as [x|]; [|done]. unfold delete_conf, csConf_delete, when, csXmlParser_delete.
  cbn [negb Z.eqb]. destruct (Reset_sound page x (Hc x eq_refl)) as (x' & Hr & _).
  by rewrite (bind_ok _ _ _ _ _ Hr).
Qed.
End class.

(** ** The program with example plugins *)

(** The system, every plugin of which is an example plugin. *)
Definition example_system (sys : system) : system :=
  System (sys_page sys) (sys_alloc_max sys) (sys_file_max sys) (sys_openable sys) (sys_fopen sys)
    (sys_opendir sys) (λ m library name size, ((sys_load sys m library name size).1, InitDone))
    (example_throws sys) (sys_new_client sys) (sys_stdout sys) (sys_syslog sys) (sys_conf sys)
    (sys_parser sys) (sys_attr_init sys) (sys_attr_setstacksize sys) (sys_create sys)
    (sys_daemon sys) (sys_pid_text sys) (sys_num_locks sys) (sys_timer_create sys)
    (sys_socket sys) (sys_bind sys) (sys_sigmask sys).

(** Objects whose configuration file the example plugin may reject. *)
Definition rejected (sys : system) (p : Z) : Prop :=
  ∃ filename, ¬ accepted sys (sys_fopen sys filename).

Lemma example_init_run sys name size h :
  example_init sys name size h =
    match csPluginInit (sys_file_max sys) (sys_new_client sys) (sys_attr_init sys)
      (sys_attr_setstacksize sys) name size InitDone (p_main (h_process h)) with
    | Ok p m => Ok p (Hosted (set_p_main m (h_process h)) None)
    | Throw x m => Throw x (Hosted (set_p_main m (h_process h)) (h_conf h))
    | Stuck f => Stuck f
    end.
Proof.
  destruct h as [s c].
  unfold example_init, csPluginInit, csPluginExample_new, new_object, mbind, M_bind, zoom, gets,
    modify, mret, M_ret. cbn [h_process set_h_process set_h_conf h_conf].
  change (t_bus (p_threads s)) with (m_world (p_main s)).
  by destruct (csPlugin_construct (sys_attr_init sys) (sys_attr_setstacksize sys)
    (sys_new_client sys (m_world (p_main s))) name size (p_main s)).
Qed.

(** Destroying it is destroying a plugin. *)
Lemma example_delete_run sys p c s1 s2 s3 :
  (∀ x, c = Some x → sound (H := example_handlers) (H0 := example_ok unit) x) → with_threads (thread_Join p) s1 = Ok tt s2 →
  with_main (csPlugin_destruct (sys_file_max sys) p) s2 = Ok tt s3 →
  csPluginExample_delete sys p (Hosted s1 c) = Ok tt (Hosted s3 None).
Proof.
  intros Hc Hj Hd. unfold csPluginExample_delete.
  rewrite (bind_ok _ _ _ _ _ (on_process_ok _ _ c _ _ Hj)).
  rewrite (bind_ok _ _ _ _ _ (on_member_ok _ s2 _ _ _ (delete_conf_run sys c Hc))).
  by apply on_process_ok.
Qed.

(** C18. The example plugin as a plugin of the program.  Its library's
    [csPluginInit] makes exactly the plugin object that the program's loader
    expects, with no configuration.  Reading its configuration from any file of
    one page, well-formed or not, is never stuck: a document in which every
    [test-tag] stands in [plugin] and has text is accepted, a file that cannot
    be opened is reported with its error number, and later calls do nothing.
    Whatever the file was, also after an error that leaves elements open, the
    destructor deletes the parser, and is otherwise joining the thread and
    destroying a plugin.  So a system whose libraries all are example plugins
    keeps the assumptions of the program's theorems, and if every file is
    accepted no plugin is left behind. *)
Theorem example_fits sys stray :
  system_ok sys stray →
  (∀ name size h, example_init sys name size h =
    match csPluginInit (sys_file_max sys) (sys_new_client sys) (sys_attr_init sys)
      (sys_attr_setstacksize sys) name size InitDone (p_main (h_process h)) with
    | Ok p m => Ok p (Hosted (set_p_main m (h_process h)) None)
    | Throw x m => Throw x (Hosted (set_p_main m (h_process h)) (h_conf h))
    | Stuck f => Stuck f
    end) ∧
  (∀ p filename s, one_page (Z.to_nat (sys_page sys)) (sys_fopen sys filename) →
    ∃ x, (example_SetConfigurationFile sys p filename (Hosted s None) = Ok tt (Hosted s (Some x)) ∨
          ∃ err, example_SetConfigurationFile sys p filename (Hosted s None) =
            Throw err (Hosted s (Some x))) ∧
      (accepted sys (sys_fopen sys filename) →
        example_SetConfigurationFile sys p filename (Hosted s None) = Ok tt (Hosted s (Some x))) ∧
      (∀ errno, sys_fopen sys filename = inl errno →
        example_SetConfigurationFile sys p filename (Hosted s None) =
          Throw (csException_int_str errno filename) (Hosted s (Some x))) ∧
      (∀ other, example_SetConfigurationFile sys p other (Hosted s (Some x)) =
        Ok tt (Hosted s (Some x))) ∧
      ∀ s1 s2 s3, with_threads (thread_Join p) s1 = Ok tt s2 →
        with_main (csPlugin_destruct (sys_file_max sys) p) s2 = Ok tt s3 →
        csPluginExample_delete sys p (Hosted s1 (Some x)) = Ok tt (Hosted s3 None)) ∧
  system_ok (example_system sys) (rejected sys) ∧
  ((∀ filename, accepted sys (sys_fopen sys filename)) → system_ok (example_system sys) nobody).
Proof.
  intros [Hfr _ Hfiles Hpid Hcr Ho Hsy Hl Hc].
  assert (∀ stray', (∀ d f x, example_throws sys d f = Some x → stray' d) →
    system_ok (example_system sys) stray') as Hsys by (intros; by split).
  split_and!.
  - intros. apply example_init_run.
  - intros p filename s Hpage.
    destruct (example_configure_run sys p filename Hpage) as (x & Hx & Hrun).
    exists x. unfold example_SetConfigurationFile, zoom. cbn [h_conf]. rewrite Hrun. split_and!.
    + destruct (example_throws sys p filename) as [err|]; [right; by exists err|by left].
    + intros Ha. by rewrite (accepted_quiet sys p filename Ha).
    + intros errno Hf. by rewrite (absent_throws sys p filename errno Hf).
    + done.
    + intros s1 s2 s3 Hj Hd. eapply example_delete_run; [by intros ? [= <-]|done..].
  - apply Hsys. intros d f x Hx. exists f. intros Ha. by rewrite (accepted_quiet sys d f Ha) in Hx.
  - intros Ha. apply Hsys. intros d f x Hx. by rewrite (accepted_quiet sys d f (Ha f)) in Hx.
Qed.

(** *** A system with one example plugin, whose file has its tag *)

Definition sample_test_xml : list (xml_event * xml_pos) :=
  document "plugin" [("name", "Alpha"); ("library", "example.so")] (at_byte 0)
    [(XOpen "state-file" [], at_byte 8); (XText "/var/a", at_byte 12);
     (XClose "state-file", at_byte 20); (XOpen "test-tag" [], at_byte 24);
     (XText "hello", at_byte 28); (XClose "test-tag", at_byte 32)] "plugin" (at_byte 40).
Definition sample_test_files (path : string) : Z + list xml_page :=
  inr [XmlPage [] None
    (if bool_decide (path = "/etc/clearsync.conf") then sample_main_xml else sample_test_xml) None].

Lemma sample_test_document ok path :
  ok "csconf" "plugin-dir" "/etc/clearsync.d" → ok "plugin" "state-file" "/var/a" →
  ok "plugin" "test-tag" "hello" →
  ∃ e a p inner e' p', sample_test_files path = inr [XmlPage [] None (document e a p inner e' p') None] ∧
    content ok e inner ∧ strcaseeq "test-tag" e = false ∧
    Forall (λ x, 0 ≤ byte_index x.2 < 64)%Z (document e a p inner e' p').
Proof.
  intros H1 H2 H3. unfold sample_test_files.
  case_bool_decide; do 6 eexists; (split; [reflexivity|]); split_and!.
  - apply (content_elem _ _ "plugin-dir" [] _ [(XText "/etc/clearsync.d", at_byte 12)]);
      [exact H1|apply content_text, content_nil|apply content_nil].
  - reflexivity.
  - repeat (apply List.Forall_cons; [cbn; lia|]); apply List.Forall_nil.
  - apply (content_elem _ _ "state-file" [] _ [(XText "/var/a", at_byte 12)]);
      [exact H2|apply content_text, content_nil|].
    apply (content_elem _ _ "test-tag" [] _ [(XText "hello", at_byte 28)]);
      [exact H3|apply content_text, content_nil|apply content_nil].
  - reflexivity.
  - repeat (apply List.Forall_cons; [cbn; lia|]); apply List.Forall_nil.
Qed.

Definition sample_test_system : system :=
  System 64 4096 4096 (λ _, true) sample_test_files sample_opendir sample_load (λ _ _, None) next_client
    1 2 9 10 None (λ _, None) (λ p, inr (p + 1000)%Z) None [] 2 None 5 0 None.

Lemma sample_test_ok : system_ok sample_test_system nobody.
Proof.
  split; try done.
  - intros w _. apply next_client_fresh.
  - intros path. destruct (sample_test_document main_accepts path)
      as (e & a & p & inner & e' & p' & Hf & Hc & _ & Hp);
      [split_and!; try done; by intros [|]..|].
    cbn [sys_fopen sample_test_system]. rewrite Hf. by apply readable_document; [cbn; lia|..].
  - apply loadable_short. cbn. lia.
  - cbn. intros p q tid [= <-] [= ?]. lia.
Qed.

Lemma sample_test_accepted path : accepted sample_test_system (sample_test_files path).
Proof.
  destruct (sample_test_document example_accepts path)
    as (e & a & p & inner & e' & p' & Hf & Hc & He & Hp); [by intros ?..|].
  exists [], e, a, p, inner, e', p'. split_and!; try done. cbn. lia.
Qed.

(** The program with the plugin in it, and the plugin's own configuration. *)
Lemma example_fits_witness :
  system_ok (example_system sample_test_system) nobody ∧
  (∃ x, example_SetConfigurationFile sample_test_system 103 "/etc/a" (Hosted (process0 ∅) None) =
    Ok tt (Hosted (process0 ∅) (Some x))) ∧
  match csMain_new (example_system sample_test_system) 100 [] (process0 ∅) with
  | Ok _ s => plugin_ptrs (m_conf (p_main s)) = [103%Z]
  | _ => False
  end.
Proof.
  destruct (example_fits sample_test_system nobody sample_test_ok) as (_ & Hconf & _ & Hok).
  split; [apply Hok, sample_test_accepted|]. split.
  - destruct (Hconf 103%Z "/etc/a" (process0 ∅)) as (x & _ & Hacc & _).
    + split; [cbn; lia|]. split; [reflexivity|]. split; [|exact I].
      repeat (apply List.Forall_cons; [cbn; lia|]); apply List.Forall_nil.
    + exists x. apply Hacc, sample_test_accepted.
  - vm_compute. reflexivity.
Defined.
