(* ===== verification/PluginThread.v ===== *)
(** * The thread of the example plugin, turn by turn

    [Entry] of the plugin as the sequence of its calls on the process: between
    two turns every other thread may run.  Run alone, the turns are the
    [example_entry] of [Example]. *)

From S2P Require Import Prelude Exception Bytes Event EventInv EventOps Bus EventProps Timer TimerProps.
From S2P Require Import Thread ThreadProps Plugin PluginProps Conf ConfProps Log LogProps Netlink.
From S2P Require Import Main MainProps MainConf Example ExampleProps Process StartProps ProcessProps.
From S2P Require Import Running.

(** ** The turns *)

(** Where the thread is, with its locals [timer], [loops], [event] and [run]. *)
Inductive example_pc :=
  | PcEntry
  | PcNew (loops : Z)
  | PcStart (timer loops : Z)
  | PcWait (timer loops : Z)
  | PcDelete (timer loops event : Z) (run : bool)
  | PcStop (timer loops : Z)
  | PcSave (loops : Z)
  | PcReturn.

#[export] Instance example_pc_eq_dec : EqDecision example_pc.
Proof. solve_decision. Defined.

Section turns.
Context (this : Z).

Definition own_vars {A} (m : prog pstate A) : prog process A :=
  with_main (zoom m_conf set_conf (on_plugin this m)).
Definition own_timers {A} (m : prog (timer_state world) A) : prog process A :=
  zoom p_ticks set_p_ticks m.

(** The [switch] on the id of the event: the value of [run].  Nobody else has
    a pointer to the event. *)
Definition example_look (event : Z) : prog process bool :=
  e ← with_clients (ev_load event);
  if (GetId e =? csEVENT_QUIT)%Z then mret false
  else if (GetId e =? csEVENT_TIMER)%Z then
    match ev_class e with
    | EvTimer t => own_timers (timer_get t);; mret true
    | _ => stuck OutOfBounds
    end
  else mret true.

(** One turn; [fresh] is the address of a new timer.  A wait that finds no
    event goes on waiting. *)
Definition example_turn (fresh : Z) (pc : example_pc) : prog process example_pc :=
  match pc with
  | PcEntry => v ← own_vars (GetStateVar_ulong "loops"); mret (PcNew (default 0%Z v))
  | PcNew loops => own_timers (csTimer_new fresh 500 3 3 this);; mret (PcStart fresh loops)
  | PcStart timer loops => own_timers (Start timer);; mret (PcWait timer loops)
  | PcWait timer loops =>
      event ← with_clients (EventPop this);
      if (event =? CS_EVENT_NONE)%Z then mret pc
      else run ← example_look event; mret (PcDelete timer loops event run)
  | PcDelete timer loops event run =>
      with_clients (ev_delete event);;
      let loops := ((loops + 1) mod 2 ^ 64)%Z in
      mret (if run : bool then PcWait timer loops else PcStop timer loops)
  | PcStop timer loops => own_timers (csTimer_delete timer);; mret (PcSave loops)
  | PcSave loops => own_vars (SetStateVar_ulong "loops" loops);; mret PcReturn
  | PcReturn => mret PcReturn
  end.

(** The thread alone. *)
Definition turn (a b : example_pc * process) : Prop :=
  ∃ fresh, example_turn fresh a.1 a.2 = Ok b.1 b.2.

(** ** The turns are [Entry] *)

(** What the thread sees of the process, and a process with another one. *)
Definition x_view (o : plugin_obj) (s : process) : csPluginExample :=
  PluginExample (p_ticks s)
    (PState (disk (m_conf (p_main s))) (po_name o) (po_fh o) (po_state o)).

Definition set_vars (v : pstate) (s : process) : process :=
  set_p_main (set_conf (set_objs
    (<[this := PluginObj (pl_name v) (fh_state v) (state v)]> (plugin_objs (m_conf (p_main s))))
    (set_disk (files v) (m_conf (p_main s)))) (p_main s)) s.

Lemma own_vars_run {A} (m : prog pstate A) s o a v :
  plugin_objs (m_conf (p_main s)) !! this = Some o →
  m (x_vars (x_view o s)) = Ok a v → own_vars m s = Ok a (set_vars v s).
Proof.
  intros Ho Hrun. unfold own_vars, zoom, on_plugin. rewrite Ho. unfold zoom.
  unfold x_view in Hrun. cbn [x_vars] in Hrun. by rewrite Hrun.
Qed.

Lemma own_timers_run {A} (m : prog (timer_state world) A) s a t :
  m (p_ticks s) = Ok a t → own_timers m s = Ok a (set_p_ticks t s).
Proof. apply zoom_ok. Qed.

Definition sees (s : process) (x : csPluginExample) : Prop :=
  ∃ o, plugin_objs (m_conf (p_main s)) !! this = Some o ∧ x_view o s = x.

Lemma sees_timers {A} (m : prog (timer_state world) A) s x a x' :
  sees s x → zoom x_timers set_x_timers m x = Ok a x' →
  ∃ s', own_timers m s = Ok a s' ∧ sees s' x'.
Proof.
  intros (o & Ho & <-). unfold zoom at 1. cbn.
  destruct (m (p_ticks s)) as [a' t| |] eqn:Hrun; try done. intros [= -> <-].
  exists (set_p_ticks t s). split; [by apply own_timers_run|].
  exists o. split; [done|]. unfold x_view, set_x_timers. cbn. by destruct t.
Qed.

Lemma sees_events {A} (m : prog world A) s x a x' :
  sees s x → zoom x_timers set_x_timers (zoom bus set_bus m) x = Ok a x' →
  ∃ s', with_clients m s = Ok a s' ∧ sees s' x'.
Proof.
  intros (o & Ho & <-). unfold zoom at 1 2. cbn.
  destruct (m (t_bus (p_threads s))) as [a' w| |] eqn:Hrun; try done. intros [= -> <-].
  exists (set_p_threads (set_t_bus w (p_threads s)) s).
  split; [unfold zoom; by rewrite Hrun|]. by exists o.
Qed.

Lemma sees_vars {A} (m : prog pstate A) s x a x' :
  sees s x → zoom x_vars set_x_vars m x = Ok a x' → ∃ s', own_vars m s = Ok a s' ∧ sees s' x'.
Proof.
  intros (o & Ho & <-). unfold zoom at 1.
  destruct (m (x_vars (x_view o s))) as [a' v| |] eqn:Hrun; try done. intros [= -> <-].
  exists (set_vars v s). split; [by eapply own_vars_run|].
  exists (PluginObj (pl_name v) (fh_state v) (state v)). split; [apply lookup_insert_eq|].
  unfold x_view, set_x_vars. cbn. by destruct v.
Qed.

(** One event: the turns that look at it and delete it. *)
Lemma sees_event s x event run x' timer loops :
  sees s x → example_event event x = Ok run x' →
  ∃ s1 s', example_look event s = Ok run s1 ∧ sees s' x' ∧
    turn (PcDelete timer loops event run, s1)
      (let loops := ((loops + 1) mod 2 ^ 64)%Z in
       if run then PcWait timer loops else PcStop timer loops, s').
Proof.
  intros Hs Hrun. unfold example_event in Hrun.
  apply bind_inv in Hrun as (e & x1 & He & Hrun). apply bind_inv in Hrun as (run' & x2 & Hlook & Hrun).
  apply bind_inv in Hrun as ([] & x3 & Hdel & [= -> <-]).
  destruct (sees_events _ s x e x1 Hs He) as (s1 & He' & Hs1).
  assert (∃ s2, example_look event s = Ok run s2 ∧ sees s2 x2) as (s2 & Hlook' & Hs2).
  { unfold example_look. rewrite (bind_ok _ _ _ _ _ He').
    destruct (GetId e =? csEVENT_QUIT)%Z; [injection Hlook as <- <-; by exists s1|].
    destruct (GetId e =? csEVENT_TIMER)%Z; [|injection Hlook as <- <-; by exists s1].
    apply bind_inv in Hlook as (id & x4 & Htm & [= <- <-]). unfold timer_of_event in Htm.
    destruct (ev_class e) as [|t| |]; try done.
    apply bind_inv in Htm as (tm & x5 & Hget & [= <- <-]).
    destruct (sees_timers _ s1 x1 tm x5 Hs1 Hget) as (s2 & Hget' & Hs2).
    exists s2. by rewrite (bind_ok _ _ _ _ _ Hget'). }
  destruct (sees_events _ s2 x2 tt x3 Hs2 Hdel) as (s3 & Hdel' & Hs3).
  exists s2, s3. split; [done|]. split; [done|]. exists 0%Z. cbn [example_turn fst snd].
  by rewrite (bind_ok _ _ _ _ _ Hdel').
Qed.

Lemma sees_loop fuel timer loops l s x x' :
  sees s x → example_loop fuel this loops x = Ok (Some l) x' →
  ∃ s', rtc turn (PcWait timer loops, s) (PcStop timer l, s') ∧ sees s' x'.
Proof.
  revert loops s x. induction fuel as [|fuel IH]; intros loops s x Hs Hrun; [done|].
  cbn [example_loop] in Hrun. apply bind_inv in Hrun as (event & x1 & Hpop & Hrun).
  destruct (sees_events _ s x event x1 Hs Hpop) as (s1 & Hpop' & Hs1).
  destruct (event =? CS_EVENT_NONE)%Z eqn:Hnone; [done|].
  apply bind_inv in Hrun as (run & x2 & Hev & Hrun).
  destruct (sees_event s1 x1 event run x2 timer loops Hs1 Hev) as (s2 & s3 & Hlook & Hs3 & Hdel).
  assert (turn (PcWait timer loops, s) (PcDelete timer loops event run, s2)) as Hwait.
  { exists 0%Z. cbn [example_turn fst snd]. rewrite (bind_ok _ _ _ _ _ Hpop'), Hnone.
    by rewrite (bind_ok _ _ _ _ _ Hlook). }
  destruct run.
  - destruct (IH _ s3 x2 Hs3 Hrun) as (s' & Hsteps & Hs'). exists s'. split; [|done].
    eapply rtc_l; [exact Hwait|]. eapply rtc_l; [exact Hdel|exact Hsteps].
  - injection Hrun as <- <-. exists s3. split; [|done].
    eapply rtc_l; [exact Hwait|]. by eapply rtc_once.
Qed.

(** Left alone, the thread does what [Entry] does. *)
Lemma turns_entry fuel timer s x x' :
  sees s x → example_entry fuel this timer x = Ok true x' →
  ∃ s', rtc turn (PcEntry, s) (PcReturn, s') ∧ sees s' x'.
Proof.
  intros Hs Hrun. unfold example_entry in Hrun.
  apply bind_inv in Hrun as (v & x1 & Hget & Hrun).
  apply bind_inv in Hrun as ([] & x2 & Hnew & Hrun).
  apply bind_inv in Hrun as ([] & x3 & Hstart & Hrun).
  apply bind_inv in Hrun as ([loops|] & x4 & Hloop & Hrun); [|done].
  apply bind_inv in Hrun as ([] & x5 & Hstop & Hrun).
  apply bind_inv in Hrun as ([] & x6 & Hsave & [= <-]).
  destruct (sees_vars _ s x v x1 Hs Hget) as (s1 & Hget' & Hs1).
  destruct (sees_timers _ s1 x1 tt x2 Hs1 Hnew) as (s2 & Hnew' & Hs2).
  destruct (sees_timers _ s2 x2 tt x3 Hs2 Hstart) as (s3 & Hstart' & Hs3).
  destruct (sees_loop fuel timer _ loops s3 x3 x4 Hs3 Hloop) as (s4 & Hsteps & Hs4).
  destruct (sees_timers _ s4 x4 tt x5 Hs4 Hstop) as (s5 & Hstop' & Hs5).
  destruct (sees_vars _ s5 x5 tt x6 Hs5 Hsave) as (s6 & Hsave' & Hs6).
  exists s6. split; [|done].
  apply rtc_l with (PcNew (default 0%Z v), s1); [exists 0%Z; cbn; by rewrite (bind_ok _ _ _ _ _ Hget')|].
  apply rtc_l with (PcStart timer (default 0%Z v), s2);
    [exists timer; cbn; by rewrite (bind_ok _ _ _ _ _ Hnew')|].
  apply rtc_l with (PcWait timer (default 0%Z v), s3);
    [exists 0%Z; cbn; by rewrite (bind_ok _ _ _ _ _ Hstart')|].
  etrans; [exact Hsteps|].
  apply rtc_l with (PcSave loops, s5); [exists 0%Z; cbn; by rewrite (bind_ok _ _ _ _ _ Hstop')|].
  apply rtc_once. exists 0%Z. cbn. by rewrite (bind_ok _ _ _ _ _ Hsave').
Qed.
End turns.
