(* ===== verification/PluginRun.v ===== *)
(** * The example plugin in the running program

    The turns of the plugin's thread interleaved with the main loop, the timer
    thread, the signal handler and everybody else: the thread is never stuck,
    it counts what it handles, and its timer does not outlive it. *)

From S2P Require Import Prelude Exception Bytes Event EventInv EventOps Bus EventProps Timer TimerProps.
From S2P Require Import Thread ThreadProps Plugin PluginProps Conf ConfProps Log LogProps Netlink.
From S2P Require Import Main MainProps MainConf Example ExampleProps Process StartProps ProcessProps.
From S2P Require Import Running Saved PluginThread.

(** ** Events a thread holds while others run *)

Lemma held_live w H r :
  core w H → r ∈ H → ∃ e, heap w !! r = Some e ∧ IsPersistent e = false.
Proof.
  intros Hw Hr. pose proof (core_own _ _ Hw r) as Ho. unfold own_at in Ho.
  assert (held H r ≠ 0) as Hh by by rewrite held_not_in; auto.
  destruct (heap w !! r) as [e|]; [|lia]. exists e. split; [done|].
  destruct (IsPersistent e); [lia|done].
Qed.

(** [delete event] *)
Lemma ev_delete_held w H r :
  wf w H → r ∈ H → ∃ w', ev_delete r w = Ok tt w' ∧ wf w' (H ∖ {[r]}) ∧ ∀ c, view w' c = view w c.
Proof.
  intros [Hw Hm] Hr. destruct (held_live w H r Hw Hr) as (e & He & Hper).
  destruct (destroy_ok w H r e Hw He) as [Hw' Hv]; [done|].
  unfold destroyed in Hw', Hv. rewrite Hper in Hw', Hv. eexists. split_and!; [|by split|exact Hv].
  unfold ev_delete. by rewrite He.
Qed.

(** A tick keeps what any thread holds: the bus contract with the set of held
    events fixed. *)
Program Definition bus_at (H : gset Z) : EventBus world := {|
  bus_ok := λ w, wf w H;
  bus_view := view;
  bus_post := post;
|}.
Next Obligation.
  intros H w src dst e e' Hw Hsrc Hp.
  destruct (post_spec w H src dst e e') as (w' & Hrun & Hok & _ & _ & Hv); try done.
  by exists w'.
Qed.

Lemma Tick_keeps this parent (s t : timer_state world) H :
  timers_ok s → is_Some (view (bus s) this) → wf (bus s) H →
  Tick this parent s = Ok tt t → wf (bus t) H.
Proof.
  intros [Hvm Hnd Hl Ht _] Hthis Hw Hrun.
  assert (@timers_ok world (bus_at H) s) as Hs by by split.
  destruct (@Tick_run world (bus_at H) this parent s Hs Hthis) as (t' & Hrun' & [_ _ _ _ Hb] & _).
  change (@Tick world (bus_at H) this parent s) with (Tick this parent s) in Hrun'.
  rewrite Hrun in Hrun'. by injection Hrun' as ->.
Qed.

Lemma GetStateVar_ulong_stored key n v :
  state v !! key = Some (le_bytes 8 n) → (0 ≤ n < 2 ^ 64)%Z →
  GetStateVar_ulong key v = Ok (Some n) v.
Proof.
  intros Hk Hn. unfold GetStateVar_ulong, mbind, M_bind, gets. rewrite Hk, length_le_bytes. cbn.
  by rewrite le_val_bytes.
Qed.

Lemma obj_eta o : PluginObj (po_name o) (po_fh o) (po_state o) = o.
Proof. by destruct o. Qed.

Section plugin.
Context (sys : system) (this : Z) (stray : Z → Prop).
Context (sig timer net : Z) (debug : bool) (s0 : process).
Context (Hs0 : constructed_main sys this stray sig timer net debug s0).
(** The plugin, and its object at the start. *)
Context (p : Z) (o0 : plugin_obj) (Ho0 : plugin_objs (m_conf (p_main s0)) !! p = Some o0).

(** ** The steps *)

(** The timer the thread has, and whether it will look at its queue again. *)
Definition timer_of (pc : example_pc) : option Z :=
  match pc with
  | PcStart t _ | PcWait t _ | PcDelete t _ _ _ | PcStop t _ => Some t
  | _ => None
  end.
Definition listens (pc : example_pc) : bool :=
  match pc with
  | PcEntry | PcNew _ | PcStart _ _ | PcWait _ _ | PcDelete _ _ _ true => true
  | _ => false
  end.

(** Events the thread can handle: the only timer events are those of its own
    timer. *)
Definition agreeable (own : option Z) (e : csEvent) : Prop :=
  receivable e ∧ IsPersistent e = false ∧
  (GetId e = csEVENT_TIMER → IsSticky e = false ∧ ∃ t, own = Some t ∧ ev_class e = EvTimer t).

(** No timer but [own] sends its events to the plugin. *)
Definition away (own : option Z) (ts : gmap Z csTimer) : Prop :=
  ∀ q t, ts !! q = Some t → own ≠ Some q → reaches (timer_target this t) p = false.

(** What everybody else does while the thread is at [pc]: nobody takes the
    plugin's events, changes its variables, touches its timer, ends its thread
    or gives it a timer event or a persistent one. *)
Inductive around (pc : example_pc) : process → process → Prop :=
  | ar_main b s s' :
      with_main (Run 1 this) s = Ok b s' → around pc s s'
  | ar_tick s s' :
      zoom p_ticks set_p_ticks (Tick timer this) s = Ok tt s' → around pc s s'
  | ar_signal r b s s' :
      with_clients (signal_round sig r) s = Ok b s' → around pc s s'
  | ar_post src dst e e' s s' :
      is_Some (clients (t_bus (p_threads s)) !! src) → posted src dst e = Some e' →
      (reaches dst this = true → main_event (m_conf (p_main s)) e') →
      (reaches dst p = true → receivable e' ∧ IsPersistent e' = false ∧ GetId e' ≠ csEVENT_TIMER) →
      with_clients (post src dst e) s = Ok tt s' → around pc s s'
  | ar_take c s s' :
      c ≠ this → c ≠ p →
      (∀ b e q, view (t_bus (p_threads s)) c = Some (b, e :: q) → receivable e) →
      with_clients (take_event c) s = Ok tt s' → around pc s s'
  | ar_timer s t :
      timer_step timer this (p_ticks s) t → bus t = bus (p_ticks s) → instance t = timer →
      (∀ q, timer_of pc = Some q → timers t !! q = timers (p_timers s) !! q) →
      away (timer_of pc) (timers t) → around pc s (set_p_ticks t s)
  | ar_vars q o o' d s :
      q ≠ p → plugin_objs (m_conf (p_main s)) !! q = Some o → po_name o' = po_name o →
      around pc s (set_p_main (set_conf (set_disk d
        (set_objs (<[q := o']> (plugin_objs (m_conf (p_main s)))) (m_conf (p_main s))))
        (p_main s)) s)
  | ar_log clock level message l s :
      Log clock level message (p_logs s) = Ok tt l → around pc s (set_p_logs l s)
  | ar_end tid s :
      tid ∈ started (p_threads s) →
      (∀ t, threads (p_threads s) !! p = Some t → th_id t ≠ Some tid) →
      around pc s (set_p_threads (thread_end tid (p_threads s)) s).

(** The events the thread is done with are counted in the second component. *)
Definition counted (pc : example_pc) (n : nat) : nat :=
  match pc with PcDelete _ _ _ _ => S n | _ => n end.

Inductive plugin_step : example_pc * nat * process → example_pc * nat * process → Prop :=
  | pl_around pc n s s' : around pc s s' → plugin_step (pc, n, s) (pc, n, s')
  | pl_turn fresh pc n s pc' s' :
      timers (p_timers s) !! fresh = None → example_turn p fresh pc s = Ok pc' s' →
      plugin_step (pc, n, s) (pc', counted pc n, s')
  | pl_end n s t tid :
      threads (p_threads s) !! p = Some t → th_id t = Some tid →
      plugin_step (PcReturn, n, s) (PcReturn, n, set_p_threads (thread_end tid (p_threads s)) s).

Lemma around_step pc s s' : around pc s s' → thread_step this sig timer net (λ _, True) s s'.
Proof.
  destruct 1.
  - by eapply ps_main.
  - by eapply ps_tick.
  - by eapply ps_signal.
  - by eapply ps_post.
  - by eapply ps_take.
  - by eapply ps_timer.
  - by eapply ps_vars.
  - by eapply ps_log.
  - by eapply ps_end.
Qed.

(** ** The invariant *)

(** What the thread counted when it has handled [n] events. *)
Definition count (n : nat) : Z := ((loops_of (po_state o0) + Z.of_nat n) mod 2 ^ 64)%Z.
Definition loops_at (pc : example_pc) : option Z :=
  match pc with
  | PcEntry | PcReturn => None
  | PcNew l | PcStart _ l | PcWait _ l | PcDelete _ l _ _ | PcStop _ l | PcSave l => Some l
  end.
Definition vars_at (pc : example_pc) (n : nat) : gmap string (list byte) :=
  match pc with
  | PcReturn => <["loops" := le_bytes 8 (count n)]> (po_state o0)
  | _ => po_state o0
  end.

Definition listening (pc : example_pc) (w : world) : Prop :=
  ∃ b q, view w p = Some (b, q) ∧ (listens pc = true → Forall (agreeable (timer_of pc)) q).
Definition holding (pc : example_pc) (w : world) : Prop :=
  match pc with PcDelete _ _ e _ => ∃ H, wf w H ∧ e ∈ H | _ => True end.

Record plugged (pc : example_pc) (n : nat) (s : process) : Prop := Plugged {
  pg_good : operating this s0 s;
  pg_queue : listening pc (t_bus (p_threads s));
  pg_own : ∀ t, timer_of pc = Some t →
    ∃ tm, timers (p_timers s) !! t = Some tm ∧ timer_target this tm = p;
  pg_away : away (timer_of pc) (timers (p_timers s));
  pg_held : holding pc (t_bus (p_threads s));
  pg_vars : plugin_objs (m_conf (p_main s)) !! p =
    Some (PluginObj (po_name o0) (po_fh o0) (vars_at pc n));
  pg_count : ∀ l, loops_at pc = Some l → l = count n;
  pg_fresh : pc = PcEntry → n = 0;
}.

Abbreviation good := (operating this s0).
Abbreviation events_of s := (t_bus (p_threads s)).
Abbreviation set_events w s := (set_p_threads (set_t_bus w (p_threads s)) s).

Lemma p_apart q : q ∈ [this; sig; timer; net] → q ≠ p.
Proof.
  intros Hq ->. pose proof (rn_apart _ _ _ _ _ _ _ (cm_running _ _ _ _ _ _ _ _ Hs0) p Hq) as Hn.
  congruence.
Qed.

Lemma p_client : is_Some (clients (events_of s0) !! p).
Proof.
  pose proof (cm_running _ _ _ _ _ _ _ _ Hs0) as Hr. apply (rn_clients _ _ _ _ _ _ _ Hr). right.
  apply (rn_objects _ _ _ _ _ _ _ Hr). right. by eexists.
Qed.

Lemma p_addr : p ≠ NULL ∧ p ≠ CS_EVENT_BROADCAST.
Proof.
  destruct (tk_bus _ (rn_threads _ _ _ _ _ _ _ (cm_running _ _ _ _ _ _ _ _ Hs0))) as [H [Hc _]].
  apply (core_addr _ _ Hc), (core_dom _ _ Hc), p_client.
Qed.

(** ** The start *)

Lemma plugged_start : plugged PcEntry 0 s0.
Proof.
  pose proof (start_operating sys this stray sig timer net debug s0 Hs0) as Hg.
  destruct p_client as [cl Hcl]. split; try done.
  - exists (event_enable cl), []. split; [|intros _; constructor].
    rewrite (view_client _ _ cl Hcl). by rewrite (cm_unposted _ _ _ _ _ _ _ _ Hs0 p cl Hcl).
  - rewrite (cm_timers _ _ _ _ _ _ _ _ Hs0). intros q t Hq.
    by destruct (lookup_empty_Some (M:=gmap Z) q t Hq).
  - rewrite Ho0. cbn. by rewrite obj_eta.
Qed.

(** ** Steps of the others *)

(** An event that the plugin is offered. *)
Lemma listening_deliver pc w w' (b : bool) e :
  listening pc w → view w' p = deliver_if b e <$> view w p →
  (b = true → listens pc = true → agreeable (timer_of pc) e) → listening pc w'.
Proof.
  intros (v & q & Hv & Hq) Hv' He. rewrite Hv in Hv'. eexists _, _.
  split; [by rewrite Hv'; cbn; rewrite <-surjective_pairing|].
  intros Hl. apply deliver_Forall; auto.
Qed.

Lemma holding_keeps pc w w' :
  (∀ H, wf w H → wf w' H) → holding pc w → holding pc w'.
Proof. intros Hk. destruct pc; cbn; try done. intros (H & Hw & He). eauto. Qed.

Lemma plugged_events pc n s w (b : bool) e :
  plugged pc n s → good (set_events w s) → (∀ H, wf (events_of s) H → wf w H) →
  view w p = deliver_if b e <$> view (events_of s) p →
  (b = true → listens pc = true → agreeable (timer_of pc) e) →
  plugged pc n (set_events w s).
Proof.
  intros [_ Hq Ho Ha Hh Hv Hc Hf] Hg Hk Hp He. split; try done.
  - by eapply listening_deliver.
  - by eapply holding_keeps.
Qed.

Lemma around_main pc n s b s' :
  plugged pc n s → good s' → with_main (Run 1 this) s = Ok b s' → plugged pc n s'.
Proof.
  intros Hs Hg Hrun. pose proof (pg_good _ _ _ Hs) as Hgs.
  pose proof (good_filters sys this stray sig timer net debug s0 Hs0 s Hgs) as Hf.
  destruct (op_queue _ _ _ Hgs) as (bm & q & Hq & Hall).
  destruct (good_world sys this stray sig timer net debug s0 Hs0 s Hgs) as [H Hw].
  assert (∀ H', wf (events_of s) H' → ∃ w, s' = set_events w s ∧ wf w H' ∧ ∀ c, c ≠ this →
      ∃ b e', view w c = deliver_if b e' <$> view (events_of s) c ∧ (b = true → passed_on e')) as Hround.
  { intros H' Hw'. destruct (Run_round this (p_main s) H' bm q Hw' Hq Hall Hf)
      as (r & w & Hr & Hww & _ & Hvw).
    exists w. split; [|done]. unfold zoom in Hrun. rewrite Hr in Hrun. by injection Hrun as _ <-. }
  destruct (Hround H Hw) as (w & -> & _ & Hvw).
  destruct (Hvw p) as (b' & e' & Hvp & He'); [apply not_eq_sym, p_apart; left|].
  apply (plugged_events pc n s w b' e' Hs Hg); [|done|].
  - intros H' Hw'. destruct (Hround H' Hw') as (w' & Heq & Hw2 & _).
    assert (w = w') as -> by exact (f_equal (λ s, events_of s) Heq). done.
  - intros Hb _. destruct (He' Hb) as (Hid & Hst & Hper). split_and!; [|done|].
    + intros Hst'. by rewrite Hst in Hst'.
    + intros Ht. by rewrite Hid in Ht.
Qed.

Lemma around_post pc n s src dst e e' s' :
  plugged pc n s → is_Some (clients (events_of s) !! src) → posted src dst e = Some e' →
  (reaches dst this = true → main_event (m_conf (p_main s)) e') →
  (reaches dst p = true → listens pc = true → agreeable (timer_of pc) e') →
  with_clients (post src dst e) s = Ok tt s' → plugged pc n s'.
Proof.
  intros Hs Hsrc%view_clients Hp Hm He Hrun. pose proof (pg_good _ _ _ Hs) as Hgs.
  destruct (good_post sys this stray sig timer net debug s0 Hs0 s src dst e e' Hgs Hsrc Hp Hm)
    as (w & Hpost & Hg).
  unfold zoom in Hrun. rewrite Hpost in Hrun. injection Hrun as <-.
  assert (∀ H, wf (events_of s) H → wf w H ∧
    view w p = deliver_if (reaches dst p) e' <$> view (events_of s) p) as Hw.
  { intros H Hw. destruct (post_spec _ H src dst e e' Hw Hsrc Hp) as (w' & Hr & Hw' & _ & _ & Hv).
    rewrite Hpost in Hr. injection Hr as <-. split; [done|apply Hv]. }
  destruct (good_world sys this stray sig timer net debug s0 Hs0 s Hgs) as [H HH].
  eapply plugged_events; [done..|by intros H' [? _]%Hw|apply (Hw H HH)|exact He].
Qed.

Lemma around_signal pc n s r b s' :
  plugged pc n s → with_clients (signal_round sig r) s = Ok b s' → plugged pc n s'.
Proof.
  intros Hs Hrun. destruct (signal_round_cases sig r) as [Hnone|(e & b' & He & Heq)].
  - unfold zoom in Hrun. rewrite Hnone in Hrun. injection Hrun as _ <-.
    replace (set_p_threads _ s) with s; [done|]. by destruct s as [[? ? ? ? ? ? ? [[]]]].
  - assert (with_clients (post sig CS_EVENT_BROADCAST e) s = Ok tt s') as Hpost.
    { unfold zoom in Hrun |- *. rewrite Heq in Hrun. unfold mbind, M_bind in Hrun.
      destruct (post sig CS_EVENT_BROADCAST e (events_of s)) as [[] w| |]; try done.
      by injection Hrun as _ <-. }
    assert (is_Some (clients (events_of s) !! sig)) as Hsig.
    { apply view_clients. eapply good_client; [exact Hs0|apply Hs|]. right. left. }
    assert (∃ e', posted sig CS_EVENT_BROADCAST e = Some e' ∧
      main_event (m_conf (p_main s)) e' ∧ agreeable (timer_of pc) e') as (e' & Hp & Hm & Ha).
    { destruct He as [-> | ->]; (eexists; split; [reflexivity|]).
      - split; [left; split; [done|]; intros _; by eexists|].
        split_and!; [intros _; by eexists|done|done].
      - split; [right; by split|by split_and!]. }
    by eapply (around_post pc n s sig CS_EVENT_BROADCAST e e').
Qed.

Lemma around_take pc n s c s' :
  plugged pc n s → good s' → c ≠ p →
  (∀ b e q, view (events_of s) c = Some (b, e :: q) → receivable e) →
  with_clients (take_event c) s = Ok tt s' → plugged pc n s'.
Proof.
  intros Hs Hg Hc Hre Hrun. pose proof (pg_good _ _ _ Hs) as Hgs.
  assert (∃ w, s' = set_events w s ∧ take_event c (events_of s) = Ok tt w) as (w & -> & Htake).
  { unfold zoom in Hrun. destruct (take_event c (events_of s)) as [[] w| |]; try done.
    injection Hrun as <-. by exists w. }
  assert (∀ H, wf (events_of s) H → wf w H ∧ view w p = view (events_of s) p) as Hw.
  { intros H Hw. unfold take_event, mbind, M_bind in Htake.
    destruct (view (events_of s) c) as [[b [|e q]]|] eqn:Hv.
    - pose proof (EventPop_result _ H c b [] Hw Hv) as Hpop. cbn in Hpop. rewrite Hpop in Htake.
      cbn in Htake. by injection Htake as <-.
    - destruct (pop_destroy_run _ H c b e q Hw Hv (Hre b e q eq_refl))
        as (r & w1 & e1 & w2 & Hpop & Hr & _ & _ & _ & _ & Hdel & Hw2 & Hv2).
      rewrite Hpop, (proj2 (Z.eqb_neq _ _)), Hdel in Htake by done. injection Htake as <-.
      split; [done|]. by rewrite Hv2, decide_False.
    - unfold EventPop, client_get, lock_queue, client_get, mbind, M_bind in Htake.
      unfold view in Hv. by destruct (clients (events_of s) !! c). }
  destruct (good_world sys this stray sig timer net debug s0 Hs0 s Hgs) as [H HH].
  apply (plugged_events pc n s w false main_quit Hs Hg); [by intros H' [? _]%Hw| |done].
  destruct (Hw H HH) as [_ ->]. by rewrite option_fmap_id.
Qed.

(** *** Timers *)

Definition own_timer (own : option Z) (ts : gmap Z csTimer) : Prop :=
  ∀ t, own = Some t → ∃ tm, ts !! t = Some tm ∧ timer_target this tm = p.

Lemma tick_agreeable own ts l v :
  own_timer own ts → away own ts → Forall (agreeable own) v.2 →
  Forall (agreeable own) (foldl (offered timer this ts p) v l).2.
Proof.
  intros Ho Ha. revert v. induction l as [|q l IH]; intros v Hv; [done|]. cbn. apply IH.
  unfold offered. destruct (ts !! q) as [t|] eqn:Hq; [|done]. destruct (due t); [|done].
  apply deliver_Forall; [|done]. intros Hr.
  assert (own = Some q) as Hown.
  { destruct (decide (own = Some q)) as [|Hne]; [done|]. by rewrite (Ha q t Hq Hne) in Hr. }
  destruct (Ho q Hown) as (tm & Hq' & Htgt). rewrite Hq in Hq'. injection Hq' as <-. rewrite Htgt.
  split_and!; [done|done|]. intros _. split; [done|]. exists q. split; [done|].
  unfold timer_event. cbn [ev_class]. by rewrite (proj2 (Z.eqb_neq _ _) (proj2 p_addr)).
Qed.

Lemma ticked_target t : timer_target this (ticked t) = timer_target this t.
Proof.
  unfold timer_target. replace (target (ticked t)) with (target t); [done|].
  unfold ticked. destruct (negb (Timer.running t)); [done|]. by destruct (value t <=? 1)%Z.
Qed.

Lemma around_tick pc n s s' :
  plugged pc n s → good s' → zoom p_ticks set_p_ticks (Tick timer this) s = Ok tt s' →
  plugged pc n s'.
Proof.
  intros [Hgs Hq Ho Ha Hh Hv Hc Hf] Hg Hrun.
  assert (is_Some (view (bus (p_ticks s)) timer)) as Hthis.
  { apply (good_client sys this stray sig timer net debug s0 Hs0 s timer Hgs). right. right. left. }
  destruct (Tick_run timer this (p_ticks s) (op_timers _ _ _ Hgs) Hthis)
    as (t & Htick & Hok & [_ Hvw Htm _]).
  assert (∀ H, wf (events_of s) H → wf (bus t) H) as Hk.
  { intros H HH. exact (Tick_keeps timer this (p_ticks s) _ H (op_timers _ _ _ Hgs) Hthis HH Htick). }
  unfold zoom in Hrun. rewrite Htick in Hrun. injection Hrun as <-.
  assert (∀ q, timers t !! q = (if decide (q ∈ timer_vector (p_ticks s)) then ticked else id) <$>
    timers (p_timers s) !! q) as Htm' by exact Htm.
  split; try done.
  - destruct Hq as (b & q & Hb & Hq). specialize (Hvw p).
    change (bus_view ?w) with (view w) in Hvw. change (bus (p_ticks s)) with (events_of s) in Hvw.
    rewrite Hb in Hvw. eexists _, _. split.
    { etrans; [exact Hvw|]. cbn. by rewrite <-surjective_pairing. }
    intros Hl. apply tick_agreeable; [exact Ho|exact Ha|by apply Hq].
  - intros q Hown. destruct (Ho q Hown) as (tm & Htq & Htgt). change (∃ tm, timers t !! q = Some tm ∧ timer_target this tm = p).
    rewrite Htm', Htq. cbn. eexists. split; [done|]. case_decide; cbn; [by rewrite ticked_target|done].
  - intros q tm Htq Hne. change (timers t !! q = Some tm) in Htq. rewrite Htm' in Htq.
    apply fmap_Some in Htq as (t0 & Ht0 & ->). case_decide; cbn; rewrite ?ticked_target; eauto.
  - by eapply holding_keeps.
Qed.

Lemma plugged_ticks pc pc' n s t :
  plugged pc n s → good (set_p_ticks t s) → bus t = bus (p_ticks s) →
  own_timer (timer_of pc') (timers t) → away (timer_of pc') (timers t) →
  (listens pc' = true → listens pc = true ∧ ∀ e, agreeable (timer_of pc) e → agreeable (timer_of pc') e) →
  (holding pc (events_of s) → holding pc' (events_of s)) →
  vars_at pc' n = vars_at pc n → (∀ l, loops_at pc' = Some l → l = count n) →
  (pc' = PcEntry → n = 0) → plugged pc' n (set_p_ticks t s).
Proof.
  intros [Hgs Hq Ho Ha Hh Hv Hc Hf] Hg Hb Ho' Ha' Hl Hh' Hv' Hc' Hf'.
  assert (events_of (set_p_ticks t s) = events_of s) as He by exact Hb.
  split; [done| |done|done|rewrite He; auto| |done|done].
  - rewrite He. destruct Hq as (b & q & Hbq & Hq). exists b, q. split; [done|]. intros Hl'.
    destruct (Hl Hl') as [Hls Hag]. eapply Forall_impl; [by apply Hq|done].
  - rewrite Hv'. exact Hv.
Qed.

(** *** All of them *)

Lemma around_plugged pc n s s' : around pc s s' → plugged pc n s → plugged pc n s'.
Proof.
  intros Hstep Hs. assert (good s') as Hg.
  { eapply step_operating; [exact Hs0|by eapply around_step|apply Hs]. }
  destruct Hstep as [b s s' Hrun|s s' Hrun|r b s s' Hrun|src dst e e' s s' Hsrc Hp Hm He Hrun
    |c s s' Hc Hcp Hre Hrun|s t Hstep Hb Hi Hown Haway|q o o' d s Hq Ho Hn|clock level msg l s Hrun|tid s Htid Hne].
  - by eapply around_main.
  - by eapply around_tick.
  - by eapply around_signal.
  - eapply around_post; try done. intros Hr _. destruct (He Hr) as (? & ? & ?). by split_and!.
  - by eapply around_take.
  - pose proof Hs as [_ _ Ho _ _ _ Hc Hf]. apply (plugged_ticks pc); try done.
    intros x Hx. destruct (Ho x Hx) as (tm & Htm & Htgt). exists tm. by rewrite Hown.
  - destruct Hs as [_ Hqq Ho' Ha Hh Hv Hc Hf]. split; try done.
    rewrite main_set. cbn. by rewrite lookup_insert_ne.
  - by destruct Hs.
  - by destruct Hs.
Qed.

(** ** Turns of the thread *)

Lemma plugged_vars pc pc' n s m :
  plugged pc n s → listens pc' = false ∨ (listens pc = true ∧ timer_of pc' = timer_of pc) →
  timer_of pc' = timer_of pc → holding pc' (events_of s) → vars_at pc' n = m →
  (∀ l, loops_at pc' = Some l → l = count n) → (pc' = PcEntry → n = 0) →
  plugged pc' n (set_vars p (PState (disk (m_conf (p_main s))) (po_name o0) (po_fh o0) m) s).
Proof.
  intros [Hgs Hq Ho Ha Hh Hv Hc Hf] Hl Ht Hh' Hm Hc' Hf'. split; rewrite ?Ht; try done.
  - eapply step_operating; [exact Hs0| |exact Hgs].
    by apply (ps_vars this sig timer net (λ _, True) p _ (PluginObj (po_name o0) (po_fh o0) m) _ s Hv).
  - destruct Hq as (b & q & Hb & Hq). exists b, q. split; [done|]. intros Hl'.
    destruct Hl as [Hl|[Hl _]]; [congruence|]. rewrite Ht. by apply Hq.
  - unfold set_vars. rewrite main_set. cbn. rewrite lookup_insert_eq. by subst m.
Qed.

Lemma turn_entry n s :
  n = 0 → plugged PcEntry n s →
  ∃ pc' s', example_turn p 0 PcEntry s = Ok pc' s' ∧ plugged pc' n s'.
Proof.
  intros -> Hs. pose proof (pg_vars _ _ _ Hs) as Hv.
  destruct (GetStateVar_loops (x_vars (x_view (PluginObj (po_name o0) (po_fh o0) (po_state o0)) s)))
    as (v & Hget & Hdef). cbn in Hdef.
  pose proof (own_vars_run p _ s _ v _ Hv Hget) as Hrun.
  exists (PcNew (default 0%Z v)). eexists. split; [cbn; by rewrite (bind_ok _ _ _ _ _ Hrun)|].
  apply (plugged_vars PcEntry); try done; [by right|].
  intros l [= <-]. unfold count. rewrite Hdef, Z.add_0_r.
  symmetry. apply Z.mod_small, loops_of_range.
Qed.

Lemma turn_save l n s :
  plugged (PcSave l) n s →
  ∃ s', example_turn p 0 (PcSave l) s = Ok PcReturn s' ∧ plugged PcReturn n s'.
Proof.
  intros Hs. pose proof (pg_vars _ _ _ Hs) as Hv.
  assert (l = count n) as -> by by apply (pg_count _ _ _ Hs).
  pose proof (own_vars_run p (SetStateVar_ulong "loops" (count n)) s _ tt
    (PState (disk (m_conf (p_main s))) (po_name o0) (po_fh o0) (vars_at PcReturn n)) Hv eq_refl)
    as Hrun.
  eexists. split; [cbn; by rewrite (bind_ok _ _ _ _ _ Hrun)|].
  apply (plugged_vars (PcSave (count n)) PcReturn n s _ Hs); try done. by left.
Qed.

(** *** Its timer *)

Lemma plugged_timer pc pc' n s t :
  plugged pc n s → timer_step timer this (p_ticks s) t → bus t = bus (p_ticks s) →
  instance t = instance (p_ticks s) →
  own_timer (timer_of pc') (timers t) → away (timer_of pc') (timers t) →
  (listens pc' = true → listens pc = true ∧ ∀ e, agreeable (timer_of pc) e → agreeable (timer_of pc') e) →
  holding pc' (events_of s) →
  vars_at pc' n = vars_at pc n → (∀ l, loops_at pc' = Some l → l = count n) →
  (pc' = PcEntry → n = 0) → plugged pc' n (set_p_ticks t s).
Proof.
  intros Hs Hstep Hb Hi Ho Ha Hl Hh Hv Hc Hf. pose proof (pg_good _ _ _ Hs) as Hgs.
  eapply plugged_ticks; try done. eapply step_operating; [exact Hs0| |exact Hgs].
  apply (ps_timer this sig timer net (λ _, True)); [done|done|]. rewrite Hi. apply (good_instance sys this stray sig timer net debug s0 Hs0 s Hgs).
Qed.

Lemma ticks_ok pc n s :
  plugged pc n s → timers_ok (p_ticks s) ∧ instance (p_ticks s) ≠ NULL.
Proof.
  intros Hs. pose proof (pg_good _ _ _ Hs) as Hgs. split; [by apply (op_timers _ _ _ Hgs)|].
  destruct (good_instance sys this stray sig timer net debug s0 Hs0 s Hgs) as [Hi Hn]. cbn. congruence.
Qed.

Lemma turn_new fresh l n s :
  plugged (PcNew l) n s → timers (p_timers s) !! fresh = None →
  ∃ s', example_turn p fresh (PcNew l) s = Ok (PcStart fresh l) s' ∧ plugged (PcStart fresh l) n s'.
Proof.
  intros Hs Hf. destruct (ticks_ok _ _ _ Hs) as [Hok Hi].
  pose proof (csTimer_new_run (p_ticks s) fresh 500 3 3 p Hok Hi) as Hnew.
  pose proof (own_timers_run _ s _ _ Hnew) as Hrun.
  eexists. split; [cbn; by rewrite (bind_ok _ _ _ _ _ Hrun)|].
  apply (plugged_timer (PcNew l)); try done.
  - by eapply (timer_create timer this (p_ticks s) fresh 500 3 3 p).
  - intros t [= <-]. cbn. rewrite lookup_insert_eq. eexists. split; [done|].
    unfold timer_target. cbn. by rewrite (proj2 (Z.eqb_neq _ _) (proj1 p_addr)).
  - intros q t Hq Hne. cbn in Hq. rewrite lookup_insert_ne in Hq by (intros ->; by apply Hne).
    by apply (pg_away _ _ _ Hs q t).
  - intros _. split; [done|]. intros e (Hre & Hp & Ht). split_and!; [done|done|].
    intros He. destruct (Ht He) as (_ & t & ? & _). done.
  - apply (pg_count _ _ _ Hs).
Qed.

Lemma turn_start t l n s :
  plugged (PcStart t l) n s →
  ∃ s', example_turn p 0 (PcStart t l) s = Ok (PcWait t l) s' ∧ plugged (PcWait t l) n s'.
Proof.
  intros Hs. destruct (ticks_ok _ _ _ Hs) as [Hok Hi].
  destruct (pg_own _ _ _ Hs t eq_refl) as (tm & Htm & Htgt).
  assert (Timer.Start t (p_ticks s) = Ok tt (timer_put t (set_running true tm) (p_ticks s))) as Hstart.
  { apply (timer_update_locked (set_running true)); [done| |done]. apply (to_timer _ Hok t tm Htm). }
  pose proof (own_timers_run _ s _ _ Hstart) as Hrun.
  eexists. split; [cbn; by rewrite (bind_ok _ _ _ _ _ Hrun)|].
  apply (plugged_timer (PcStart t l)); try done.
  - by eapply timer_start.
  - intros q [= <-]. cbn. rewrite lookup_insert_eq. by eexists.
  - intros q u Hq Hne. cbn in Hq. rewrite lookup_insert_ne in Hq by (intros ->; by apply Hne).
    by apply (pg_away _ _ _ Hs q u).
  - apply (pg_count _ _ _ Hs).
Qed.

Lemma turn_stop t l n s :
  plugged (PcStop t l) n s →
  ∃ s', example_turn p 0 (PcStop t l) s = Ok (PcSave l) s' ∧ plugged (PcSave l) n s'.
Proof.
  intros Hs. destruct (ticks_ok _ _ _ Hs) as [Hok Hi].
  destruct (pg_own _ _ _ Hs t eq_refl) as (tm & Htm & Htgt).
  pose proof (csTimer_delete_run (p_ticks s) t tm Hok Hi Htm) as Hdel.
  pose proof (own_timers_run _ s _ _ Hdel) as Hrun.
  eexists. split; [cbn; by rewrite (bind_ok _ _ _ _ _ Hrun)|].
  apply (plugged_timer (PcStop t l)); try done.
  - eapply timer_delete; [by eexists|exact Hdel].
  - intros q u Hq _. cbn in Hq. apply lookup_delete_Some in Hq as [Hne Hq]. apply (pg_away _ _ _ Hs q u Hq). cbn. congruence.
  - apply (pg_count _ _ _ Hs).
Qed.

(** *** Its events *)

Lemma good_queue s w :
  good s → world_ok w → (∀ c, c ≠ p → view w c = view (events_of s) c) →
  is_Some (view w p) → good (set_events w s).
Proof.
  intros Hgs Hw Hv Hp. apply good_events; [done|done| |].
  - destruct (op_queue _ _ _ Hgs) as (b & q & Hb & Hq). exists b, q. split; [|done].
    rewrite Hv; [done|]. apply p_apart. left.
  - intros c. destruct (decide (c = p)) as [->|Hc]; [|by rewrite Hv].
    split; [|done]. intros _. apply view_clients.
    apply (rn_clients _ _ _ _ _ _ _ (good_running _ _ _ _ _ _ _ _ Hs0 s Hgs)). right.
    apply (rn_objects _ _ _ _ _ _ _ (good_running _ _ _ _ _ _ _ _ Hs0 s Hgs)). right.
    rewrite <-(fmap_is_Some po_name), (lv_objs _ _ (op_lived _ _ _ Hgs)), Ho0. by eexists.
Qed.

Lemma set_ticks_same s : set_p_ticks (p_ticks s) s = s.
Proof. by destruct s as [[? ? ? ? ? ? ? [[]]] ? [[]] ? ? ?]. Qed.

(** A new place of the thread and other events. *)
Lemma plugged_moved pc pc' n n' s w :
  plugged pc n s → good (set_events w s) → listening pc' w → timer_of pc' = timer_of pc →
  holding pc' w → vars_at pc' n' = vars_at pc n → (∀ l, loops_at pc' = Some l → l = count n') →
  (pc' = PcEntry → n' = 0) →
  plugged pc' n' (set_events w s).
Proof. intros [_ Hq Ho Ha Hh Hv Hc Hf] Hg Hl Ht Hh' Hv' Hc' Hf'. split; rewrite ?Ht, ?Hv'; done. Qed.

Lemma clients_run {A} (m : prog world A) s a w :
  m (events_of s) = Ok a w → with_clients m s = Ok a (set_events w s).
Proof. intros Hrun. unfold zoom. by rewrite Hrun. Qed.

(** Looking at an event that was just taken. *)
Lemma look_run t l n s w1 r e e1 :
  plugged (PcWait t l) n s → heap w1 !! r = Some e1 → GetId e1 = GetId e →
  (IsSticky e = false → e1 = e) → agreeable (Some t) e →
  example_look r (set_events w1 s) = Ok (negb (GetId e =? csEVENT_QUIT)%Z) (set_events w1 s).
Proof.
  intros Hs Hr Hid Hst (_ & _ & Htm). unfold example_look.
  assert (with_clients (ev_load r) (set_events w1 s) = Ok e1 (set_events w1 s)) as Hload.
  { apply (clients_run (ev_load r) (set_events w1 s)). unfold ev_load.
    change (events_of (set_events w1 s)) with w1. by rewrite Hr. }
  rewrite (bind_ok _ _ _ _ _ Hload), Hid. destruct (GetId e =? csEVENT_QUIT)%Z; [done|].
  destruct (GetId e =? csEVENT_TIMER)%Z eqn:Ht; [|done]. apply Z.eqb_eq in Ht.
  destruct (Htm Ht) as (Hns & q & [= <-] & Hcl). rewrite (Hst Hns), Hcl.
  destruct (pg_own _ _ _ Hs t eq_refl) as (tm & Hlive & _).
  assert (own_timers (timer_get t) (set_events w1 s) = Ok tm (set_events w1 s)) as Hget.
  { rewrite <-(set_ticks_same (set_events w1 s)) at 2. apply own_timers_run.
    unfold timer_get. change (timers (p_ticks (set_events w1 s))) with (timers (p_timers s)).
    by rewrite Hlive. }
  by rewrite (bind_ok _ _ _ _ _ Hget).
Qed.

Lemma turn_wait t l n s :
  plugged (PcWait t l) n s →
  ∃ pc' s', example_turn p 0 (PcWait t l) s = Ok pc' s' ∧ plugged pc' n s'.
Proof.
  intros Hs. pose proof (pg_good _ _ _ Hs) as Hgs.
  destruct (good_world sys this stray sig timer net debug s0 Hs0 s Hgs) as [H Hw].
  destruct (pg_queue _ _ _ Hs) as (b & [|e q] & Hv & Hq); specialize (Hq eq_refl).
  - pose proof (EventPop_result _ H p b [] Hw Hv) as Hpop. cbn in Hpop.
    assert (with_clients (EventPop p) s = Ok CS_EVENT_NONE (set_events (events_of s) s)) as Hrun
      by by apply clients_run.
    exists (PcWait t l). eexists. split; [cbn [example_turn]; by rewrite (bind_ok _ _ _ _ _ Hrun)|].
    apply (plugged_events (PcWait t l) n s _ false main_quit); [done| |done| |done].
    + by apply good_queue; [..|by exists H| |rewrite Hv; eexists].
    + by rewrite option_fmap_id.
  - apply Forall_cons in Hq as [He Hq]. pose proof He as (Hre & Hper & _).
    destruct (pop_run _ H p b e q Hw Hv Hre)
      as (r & w1 & e1 & Hpop & Hr & Hr1 & Hid & Hfl & Hst & Hnin & Hw1 & Hv1).
    pose proof (clients_run _ s _ _ Hpop) as Hrun.
    exists (PcDelete t l r (negb (GetId e =? csEVENT_QUIT)%Z)), (set_events w1 s). split.
    { cbn [example_turn]. rewrite (bind_ok _ _ _ _ _ Hrun), (proj2 (Z.eqb_neq _ _) Hr).
      by rewrite (bind_ok _ _ _ _ _ (look_run t l n s w1 r e e1 Hs Hr1 Hid Hst He)). }
    apply (plugged_moved (PcWait t l) _ n); try done.
    + apply good_queue; [done|by eexists| |rewrite Hv1, decide_True by done; by eexists].
      intros c Hc. by rewrite Hv1, decide_False.
    + eexists _, _. split; [by rewrite Hv1, decide_True|]. intros _. destruct (IsSticky e); [|done].
      by constructor.
    + exists (EventOps.take r e1 H). split; [done|]. unfold EventOps.take.
      rewrite (persistent_flags e e1 Hfl), Hper. set_solver.
    + apply (pg_count _ _ _ Hs).
Qed.

Lemma turn_delete t l r run n s :
  plugged (PcDelete t l r run) n s →
  ∃ pc' s', example_turn p 0 (PcDelete t l r run) s = Ok pc' s' ∧ plugged pc' (S n) s'.
Proof.
  intros Hs. destruct (pg_held _ _ _ Hs) as (H & Hw & Hr).
  destruct (ev_delete_held _ H r Hw Hr) as (w' & Hdel & Hw' & Hv').
  pose proof (clients_run _ s _ _ Hdel) as Hrun.
  assert (l = count n) as -> by by apply (pg_count _ _ _ Hs).
  assert ((count n + 1) mod 2 ^ 64 = count (S n))%Z as Hcount.
  { unfold count. rewrite Zplus_mod_idemp_l. f_equal. lia. }
  eexists _, (set_events w' s). split; [cbn [example_turn]; by rewrite (bind_ok _ _ _ _ _ Hrun)|].
  cbn zeta. rewrite Hcount. destruct (pg_queue _ _ _ Hs) as (b & q & Hb & Hq).
  apply (plugged_moved (PcDelete t (count n) r run) _ n).
  - done.
  - apply good_queue; [apply Hs|by eexists|done|rewrite Hv', Hb; by eexists].
  - exists b, q. rewrite Hv'. split; [done|]. by destruct run.
  - by destruct run.
  - by destruct run.
  - by destruct run.
  - by destruct run; intros ? [= <-].
  - by destruct run.
Qed.

Lemma turn_plugged fresh pc n s :
  plugged pc n s → timers (p_timers s) !! fresh = None →
  ∃ pc' s', example_turn p fresh pc s = Ok pc' s' ∧ plugged pc' (counted pc n) s'.
Proof.
  intros Hs Hf. destruct pc as [|l|t l|t l|t l r run|t l|l|].
  - assert (n = 0) as -> by apply (pg_fresh _ _ _ Hs eq_refl). by apply turn_entry.
  - destruct (turn_new fresh l n s Hs Hf) as (s' & ? & ?). eauto.
  - destruct (turn_start t l n s Hs) as (s' & ? & ?). eauto.
  - by apply turn_wait.
  - by apply turn_delete.
  - destruct (turn_stop t l n s Hs) as (s' & ? & ?). eauto.
  - destruct (turn_save l n s Hs) as (s' & ? & ?). eauto.
  - eexists _, s. by split.
Qed.

(** ** All steps *)

Lemma end_plugged n s t tid :
  threads (p_threads s) !! p = Some t → th_id t = Some tid → plugged PcReturn n s →
  plugged PcReturn n (set_p_threads (thread_end tid (p_threads s)) s).
Proof.
  intros Ht Hid Hs. pose proof (pg_good _ _ _ Hs) as Hgs.
  assert (good (set_p_threads (thread_end tid (p_threads s)) s)) as Hg.
  { eapply step_operating; [exact Hs0| |exact Hgs]. apply (ps_end this sig timer net (λ _, True)).
    apply (tk_started _ (rn_threads _ _ _ _ _ _ _ (good_running _ _ _ _ _ _ _ _ Hs0 s Hgs))). eauto. }
  by destruct Hs.
Qed.

Lemma step_plugged c c' :
  plugin_step c c' → plugged c.1.1 c.1.2 c.2 → plugged c'.1.1 c'.1.2 c'.2.
Proof.
  destruct 1 as [pc n s s' Hstep|fresh pc n s pc' s' Hf Hrun|n s t tid Ht Hid]; cbn; intros Hs.
  - by eapply around_plugged.
  - destruct (turn_plugged fresh pc n s Hs Hf) as (pc1 & s1 & Hrun' & Hs1).
    rewrite Hrun in Hrun'. by injection Hrun' as -> ->.
  - by eapply end_plugged.
Qed.

Lemma steps_plugged pc n s :
  rtc plugin_step (PcEntry, 0, s0) (pc, n, s) → plugged pc n s.
Proof.
  enough (∀ c, rtc plugin_step (PcEntry, 0, s0) c → plugged c.1.1 c.1.2 c.2) as H by exact (H _).
  apply (rtc_ind_r (R:=plugin_step) (λ c, plugged c.1.1 c.1.2 c.2)); [apply plugged_start|].
  intros c1 c2 _ Hstep. by apply step_plugged.
Qed.
End plugin.

(** C9. The example plugin's thread in the running program.  However its turns
    and the steps of all other threads follow each other (the main loop, ticks,
    signals, dispatches, other clients and timers, logging, ends of threads; the
    others leave alone what is the plugin's own), the plugin's next turn always
    returns: no event, timer or variable it uses is dead.  When it has handled
    [n] events its counter is [n] above the stored one, modulo 2^64; when it
    has returned, exactly that is stored under "loops", its other variables are
    as they were, and no timer sends it events any more; and once all threads
    have ended, the program's destructor takes everything apart and the next
    program's plugin starts from that count. *)
Theorem plugin_thread_runs sys this stray sig timer net debug s0 p o0 pc n s :
  system_ok sys stray → constructed_main sys this stray sig timer net debug s0 →
  plugin_objs (m_conf (p_main s0)) !! p = Some o0 →
  rtc (plugin_step this sig timer p) (PcEntry, 0, s0) (pc, n, s) →
  let loops := ((loops_of (po_state o0) + Z.of_nat n) mod 2 ^ 64)%Z in
  (∀ fresh, timers (p_timers s) !! fresh = None → ∃ pc' s', example_turn p fresh pc s = Ok pc' s') ∧
  running sys this stray sig timer net s ∧
  (∀ l, loops_at pc = Some l → l = loops) ∧
  (pc = PcReturn →
    plugin_objs (m_conf (p_main s)) !! p = Some (PluginObj (po_name o0) (po_fh o0)
      (<["loops" := le_bytes 8 loops]> (po_state o0))) ∧
    ∀ q t, timers (p_timers s) !! q = Some t → reaches (timer_target this t) p = false) ∧
  (all_ended (p_threads s) → ∃ s', csMain_delete sys this s = Ok tt s' ∧ closed sys stray s s') ∧
  ∀ h, pc = PcReturn → all_ended (p_threads s) → registered (m_conf (p_main s0)) p →
    po_fh o0 = Some h → own_file (m_conf (p_main s)) p (f_path h) →
    sys_openable sys (f_path h) = true → no_empty_key (po_state o0) →
    state_fits (sys_alloc_max sys) (sys_file_max sys)
      (<["loops" := le_bytes 8 loops]> (po_state o0)) →
    ∃ s' v, csMain_delete sys this s = Ok tt s' ∧
      reopen (sys_alloc_max sys) (sys_openable sys) (po_name o0) (f_path h)
        (PState (disk (m_conf (p_main s'))) (po_name o0) None ∅) = Ok tt v ∧
      GetStateVar_ulong "loops" v = Ok (Some loops) v.
Proof.
  intros Hsys Hs0 Ho0 Hsteps loops.
  assert (plugged this s0 p o0 pc n s) as Hs by by eapply steps_plugged.
  pose proof (pg_good _ _ _ _ _ _ _ Hs) as Hg. split_and!.
  - intros fresh Hf. edestruct turn_plugged as (pc' & s' & Hrun & _); [done..|]. eauto.
  - by eapply good_running.
  - apply Hs.
  - intros ->. split; [apply Hs|]. intros q t Hq. by apply (pg_away _ _ _ _ _ _ _ Hs q t Hq).
  - intros He. eapply csMain_delete_run; [done|]. eapply constructed_later; [done|apply Hg|done].
  - intros h -> He Hreg Hh Hown Hopen Hne Hfits.
    destruct (delete_saves sys this stray Hsys sig timer net debug s p _ h (po_name o0)
      (constructed_later _ _ _ _ _ _ _ _ _ Hs0 (op_lived _ _ _ Hg) He)
      (registered_lived _ _ _ (op_lived _ _ _ Hg) Hreg) (pg_vars _ _ _ _ _ _ _ Hs) Hh Hown Hopen Hfits)
      as (s' & v & Hdel & _ & Hre & Hst).
    { unfold no_empty_key. cbn. by rewrite lookup_insert_ne. }
    exists s', v. split_and!; [done|done|]. apply GetStateVar_ulong_stored.
    + by rewrite Hst; apply lookup_insert_eq.
    + apply Z.mod_pos_bound. lia.
Qed.

(** *** A run: a tick that is due, a signal, and the thread in between *)

Inductive action :=
  | ATurn (fresh : Z)
  | AMain
  | ATick
  | ASignal (r : Z + Z)
  | AEnd (tid : Z)         (* the thread of another object ends *)
  | AOwnEnd (tid : Z).

Definition settled {A} (m : prog process A) (c : example_pc * nat * process) :
    option (example_pc * nat * process) :=
  match m c.2 with Ok _ s' => Some (c.1.1, c.1.2, s') | _ => None end.

Definition own_tid (p : Z) (s : process) : option Z :=
  threads (p_threads s) !! p ≫= th_id.

Definition act (this sig timer p : Z) (a : action) (c : example_pc * nat * process) :
    option (example_pc * nat * process) :=
  match a with
  | ATurn fresh =>
      if bool_decide (timers (p_timers c.2) !! fresh = None) then
        match example_turn p fresh c.1.1 c.2 with
        | Ok pc' s' => Some (pc', counted c.1.1 c.1.2, s')
        | _ => None
        end
      else None
  | AMain => settled (with_main (Run 1 this)) c
  | ATick => settled (zoom p_ticks set_p_ticks (Tick timer this)) c
  | ASignal r => settled (with_clients (signal_round sig r)) c
  | AEnd tid =>
      if bool_decide (tid ∈ started (p_threads c.2) ∧ own_tid p c.2 ≠ Some tid)
      then settled (modify (λ s, set_p_threads (thread_end tid (p_threads s)) s)) c else None
  | AOwnEnd tid =>
      if bool_decide (c.1.1 = PcReturn ∧ own_tid p c.2 = Some tid)
      then settled (modify (λ s, set_p_threads (thread_end tid (p_threads s)) s)) c else None
  end.

Fixpoint acts (this sig timer p : Z) (l : list action) (c : example_pc * nat * process) :
    option (example_pc * nat * process) :=
  match l with
  | [] => Some c
  | a :: l => c ← act this sig timer p a c; acts this sig timer p l c
  end.

Lemma settled_inv {A} (m : prog process A) c c' :
  settled m c = Some c' → ∃ a s', m c.2 = Ok a s' ∧ c' = (c.1.1, c.1.2, s').
Proof. unfold settled. destruct (m c.2) as [a s'| |]; [|done..]. intros [= <-]. eauto. Qed.

Lemma act_step this sig timer p a c c' :
  act this sig timer p a c = Some c' → plugin_step this sig timer p c c'.
Proof.
  destruct c as [[pc n] s]. destruct a as [fresh| | |r|tid|tid]; cbn.
  - case_bool_decide; [|done]. destruct (example_turn p fresh pc s) eqn:Hrun; try done.
    intros [= <-]. by eapply pl_turn.
  - intros (b & s' & Hrun & ->)%settled_inv. by eapply pl_around, ar_main.
  - intros ([] & s' & Hrun & ->)%settled_inv. by eapply pl_around, ar_tick.
  - intros (b & s' & Hrun & ->)%settled_inv. by eapply pl_around, ar_signal.
  - case_bool_decide as Hb; [|done]. destruct Hb as [Hs Ht]. intros [= <-].
    apply pl_around, ar_end; [done|]. intros t Hp Hid. apply Ht. unfold own_tid. by rewrite Hp.
  - case_bool_decide as Hb; [|done]. destruct Hb as [-> Ht]. intros [= <-].
    unfold own_tid in Ht. destruct (threads (p_threads s) !! p) as [t|] eqn:Hp; [|done].
    by eapply pl_end.
Qed.

Lemma acts_steps this sig timer p l c c' :
  acts this sig timer p l c = Some c' → rtc (plugin_step this sig timer p) c c'.
Proof.
  revert c. induction l as [|a l IH]; intros c; cbn; [by intros [= <-]; apply rtc_refl|].
  destruct (act this sig timer p a c) as [c1|] eqn:Ha; [|done]. intros Hl.
  eapply rtc_l; [by eapply act_step|by apply IH].
Qed.

Definition sample_plan : list action :=
  [ATurn 900; ATurn 900; ATick; ATurn 901; ATick; ATick; ATick; AMain; ATurn 901;
   ASignal (inr SIGHUP); ATurn 901; ATurn 901; AEnd 1102; ATurn 901; ASignal (inr SIGTERM);
   ATurn 901; AMain; ATick; ATurn 901; AEnd 1101; ATurn 901; ATurn 901;
   AOwnEnd 1103; AEnd 1104].

Definition sample_trace : option (example_pc * nat * process) :=
  acts 100 104 101 103 sample_plan (PcEntry, 0, sample_running).
Definition sample_last : process := match sample_trace with Some c => c.2 | None => sample_running end.

Lemma fst_known {A B} (o : option (A * B)) a b :
  fst <$> o = Some a → o = Some (a, match o with Some c => c.2 | None => b end).
Proof. destruct o as [[]|]; [|done]. by intros [= ->]. Qed.

Lemma sample_trace_run : sample_trace = Some (PcReturn, 3, sample_last).
Proof. apply fst_known. vm_compute. reflexivity. Qed.

Lemma sample_last_ended : all_ended (p_threads sample_last).
Proof. unfold all_ended. apply (bool_decide_unpack _). vm_compute. exact I. Qed.

Lemma plugin_thread_runs_witness :
  rtc (plugin_step 100 104 101 103) (PcEntry, 0, sample_running) (PcReturn, 3, sample_last) ∧
  ∃ s' v, csMain_delete sample_system 100 sample_last = Ok tt s' ∧
    reopen 4096 (λ _, true) "Alpha" "/var/a" (PState (disk (m_conf (p_main s'))) "Alpha" None ∅)
      = Ok tt v ∧ GetStateVar_ulong "loops" v = Ok (Some 3%Z) v.
Proof.
  pose proof (acts_steps _ _ _ _ _ _ _ sample_trace_run) as Hsteps.
  split; [exact Hsteps|].
  destruct (plugin_thread_runs sample_system 100 nobody 104 101 102 false sample_running 103
    (PluginObj "Alpha" (Some (Stream "/var/a" 0)) ∅) PcReturn 3 sample_last sample_system_ok
    sample_constructed ltac:(vm_compute; reflexivity) Hsteps) as (_ & _ & _ & Hobj & _ & Hend).
  destruct (Hobj eq_refl) as [Hobj' _].
  destruct (Hend (Stream "/var/a" 0)) as (s' & v & Hdel & Hre & Hget).
  - reflexivity.
  - exact sample_last_ended.
  - exists (PluginObj "Alpha" (Some (Stream "/var/a" 0)) ∅), (PluginLoader "a.so" 7 103).
    split; [vm_compute; reflexivity|]. split; vm_compute; reflexivity.
  - reflexivity.
  - apply own_file_only, (bool_decide_eq_true_1 _). vm_compute. reflexivity.
  - reflexivity.
  - reflexivity.
  - change (state_fits 4096 4096 {[ "loops" := le_bytes 8 3 ]}). split_and!.
    + apply map_Forall_singleton. split; vm_compute; discriminate.
    + vm_compute. reflexivity.
    + vm_compute. discriminate.
    + vm_compute. reflexivity.
  - exists s', v. split; [exact Hdel|]. split; [exact Hre|exact Hget].
Defined.
