(* ===== verification/Shutdown.v ===== *)
(** * A signal ends the program

    The composition of the signal handler, the event clients and the loops of
    the main program, the timer thread, the netlink thread and the example
    plugin: after SIGTERM or SIGINT each of them returns the next time it looks
    at its queue, in any order and however often. *)

From S2P Require Import Prelude Exception Bytes Event EventInv EventOps Bus EventProps.
From S2P Require Import Timer TimerProps Plugin PluginProps Conf Main MainProps Netlink Example ExampleProps.

(** A quit event that stays is the first in the queue of [c]. *)
Definition stopping (w : world) (c : Z) : Prop :=
  ∃ b e q, view w c = Some (b, e :: q) ∧ GetId e = csEVENT_QUIT ∧
    IsSticky e = true ∧ IsPersistent e = false ∧ receivable e.

(** The queues are as they were. *)
Definition same_queues (H : gset Z) (w w' : world) : Prop :=
  wf w' H ∧ ∀ x, view w' x = view w x.

Lemma stopping_same H w w' c : same_queues H w w' → stopping w c → stopping w' c.
Proof. intros [_ Hv] (b & e & q & Hq & Hr). exists b, e, q. by rewrite Hv. Qed.

Lemma stopping_pop w H c :
  wf w H → stopping w c →
  ∃ r w1 e1 w2, EventPop c w = Ok r w1 ∧ r ≠ CS_EVENT_NONE ∧ heap w1 !! r = Some e1 ∧
    GetId e1 = csEVENT_QUIT ∧ EventDestroy r w1 = Ok tt w2 ∧ ev_delete r w1 = Ok tt w2 ∧
    same_queues H w w2.
Proof.
  intros Hwf (b & e & q & Hv & Hid & Hst & Hper & Hre).
  destruct (pop_destroy_run w H c b e q Hwf Hv Hre)
    as (r & w1 & e1 & w2 & Hpop & Hr & Hr1 & Hid1 & Hfl & _ & Hdel & Hwf2 & Hv2).
  exists r, w1, e1, w2. split_and!; try done; [congruence| |].
  - unfold EventDestroy, mbind, M_bind, ev_load in Hdel. rewrite Hr1 in Hdel.
    by rewrite (persistent_flags e e1 Hfl), Hper in Hdel.
  - split; [done|]. intros x. rewrite Hv2, Hst. case_decide; [by subst|done].
Qed.

(** ** The four loops *)

Lemma main_stops w H c m fuel :
  wf w H → stopping w c →
  ∃ w', Run (S fuel) c (set_world w m) = Ok true (set_world w' m) ∧ same_queues H w w'.
Proof.
  intros Hwf Hs. destruct (stopping_pop w H c Hwf Hs)
    as (r & w1 & e1 & w2 & Hpop & Hr & Hr1 & Hid & Hdel & _ & Hsame).
  exists w2. split; [|done]. cbn [Run]. unfold mbind, M_bind, zoom. rewrite world_set, Hpop. cbn.
  rewrite (proj2 (Z.eqb_neq _ _)) by done.
  unfold run_event, mbind, M_bind, zoom, ev_load. cbn. rewrite world_set, Hr1. cbn. rewrite Hid. cbn.
  by rewrite world_set, Hdel.
Qed.

Lemma timer_stops w H c parent ts results :
  wf w H → stopping w c →
  ∃ w', Entry c parent results (set_bus w ts) = Ok true (set_bus w' ts) ∧ same_queues H w w'.
Proof.
  intros Hwf Hs. destruct (stopping_pop w H c Hwf Hs)
    as (r & w1 & e1 & w2 & Hpop & Hr & Hr1 & Hid & Hdel & _ & Hsame).
  exists w2. split; [|done].
  assert (entry_event c (set_bus w ts) = Ok true (set_bus w2 ts)) as He.
  { unfold entry_event, mbind, M_bind, zoom. cbn. rewrite Hpop.
    rewrite (proj2 (Z.eqb_neq _ _)) by done. unfold ev_load. cbn. rewrite Hr1. cbn.
    by rewrite Hdel, Hid. }
  destruct results; cbn; by rewrite (bind_ok _ _ _ _ _ He).
Qed.

Lemma netlink_stops w H c ns time results :
  wf w H → stopping w c →
  ∃ w', netlink_entry c ((RecvFailed EAGAIN, time) :: results) (set_nl_world w ns) =
      Ok true (set_nl_world w' ns) ∧ same_queues H w w'.
Proof.
  intros Hwf Hs. destruct (stopping_pop w H c Hwf Hs)
    as (r & w1 & e1 & w2 & Hpop & Hr & Hr1 & Hid & Hdel & _ & Hsame).
  exists w2. split; [|done]. cbn [netlink_entry]. unfold netlink_round. rewrite Z.eqb_refl.
  cbn [negb]. unfold mbind, M_bind, zoom, ev_load. cbn. rewrite Hpop.
  rewrite (proj2 (Z.eqb_neq _ _)) by done. cbn. rewrite Hr1. cbn. rewrite Hid. cbn.
  by rewrite Hdel.
Qed.

Lemma example_stops w H c xs loops fuel :
  wf w H → stopping w c →
  ∃ w', example_loop (S fuel) c loops (with_world w xs) =
      Ok (Some ((loops + 1) mod 2 ^ 64)%Z) (with_world w' xs) ∧ same_queues H w w'.
Proof.
  intros Hwf Hs. destruct (stopping_pop w H c Hwf Hs)
    as (r & w1 & e1 & w2 & Hpop & Hr & Hr1 & Hid & _ & Hdel & Hsame).
  exists w2. split; [|done]. cbn [example_loop]. unfold mbind, M_bind, zoom. cbn. rewrite Hpop.
  rewrite (proj2 (Z.eqb_neq _ _)) by done.
  unfold example_event, mbind, M_bind, zoom, ev_load. cbn. rewrite Hr1. cbn. rewrite Hid. cbn.
  by rewrite Hdel.
Qed.

(** ** The signal *)

Definition ends_program (sig : Z) : bool := (sig =? SIGINT)%Z || (sig =? SIGTERM)%Z.

Lemma quit_posted w H this c q :
  wf w H → is_Some (view w this) → view w c = Some (true, q) →
  ∀ w1, post this CS_EVENT_BROADCAST main_quit w = Ok tt w1 → stopping w1 c.
Proof.
  intros Hwf Hthis Hv w1 Hrun.
  destruct (post_spec w H this CS_EVENT_BROADCAST main_quit _ Hwf Hthis eq_refl)
    as (w1' & Hrun' & _ & _ & _ & Hv1). rewrite Hrun in Hrun'. injection Hrun' as <-.
  specialize (Hv1 c). rewrite Hv in Hv1. eexists _, _, q. split; [exact Hv1|].
  split_and!; try done. intros _. by eexists.
Qed.

(** C26. A signal ends the program: the signal handler's thread returns on SIGINT
    and on SIGTERM, and leaves the program so that every client that accepts
    events, whatever its queue holds, returns the next time it looks there (the
    main loop, the timer thread, the netlink thread, a plugin as the example),
    handles nothing else and takes nothing from the others, who therefore
    return as well, in any order. *)
Theorem signal_ends_program w H this sig rest :
  wf w H → is_Some (view w this) → ends_program sig = true →
  ∃ w1, signal_entry this (inr sig :: rest) w = Ok true w1 ∧ wf w1 H ∧
    (∀ c q, view w c = Some (true, q) → stopping w1 c) ∧
    (∀ w2 w3 c, same_queues H w2 w3 → stopping w2 c → stopping w3 c) ∧
    ∀ w2 c, wf w2 H → stopping w2 c → ∀ m ts ns xs parent results time loops fuel,
      ∃ wa wb wc wd,
        (Run (S fuel) c (set_world w2 m) = Ok true (set_world wa m) ∧ same_queues H w2 wa) ∧
        (Entry c parent results (set_bus w2 ts) = Ok true (set_bus wb ts) ∧ same_queues H w2 wb) ∧
        (netlink_entry c ((RecvFailed EAGAIN, time) :: []) (set_nl_world w2 ns) =
           Ok true (set_nl_world wc ns) ∧ same_queues H w2 wc) ∧
        (example_loop (S fuel) c loops (with_world w2 xs) =
           Ok (Some ((loops + 1) mod 2 ^ 64)%Z) (with_world wd xs) ∧ same_queues H w2 wd).
Proof.
  intros Hwf Hthis Hsig.
  destruct (post_spec w H this CS_EVENT_BROADCAST main_quit _ Hwf Hthis eq_refl)
    as (w1 & Hrun & Hwf1 & _).
  exists w1. split_and!; [|done| |by apply stopping_same|].
  - cbn [signal_entry]. unfold signal_round. unfold ends_program in Hsig. rewrite Hsig.
    unfold post in Hrun. unfold mbind, M_bind in *.
    destruct (ev_new main_quit w) as [p w0| |]; try done. unfold EventBroadcast. by rewrite Hrun.
  - intros c q Hv. by apply (quit_posted w H this c q).
  - intros w2 c Hwf2 Hs m ts ns xs parent results time loops fuel.
    destruct (main_stops w2 H c m fuel Hwf2 Hs) as (wa & Ha).
    destruct (timer_stops w2 H c parent ts results Hwf2 Hs) as (wb & Hb).
    destruct (netlink_stops w2 H c ns time [] Hwf2 Hs) as (wc & Hc).
    destruct (example_stops w2 H c xs loops fuel Hwf2 Hs) as (wd & Hd). by exists wa, wb, wc, wd.
Qed.

(** The signal handler at 100, a client at 200 with an event in its queue. *)
Lemma signal_ends_program_witness :
  ∃ w1, signal_entry 100 [inr SIGTERM] sample_queued = Ok true w1 ∧ stopping w1 200.
Proof.
  destruct (signal_ends_program sample_queued ∅ 100 SIGTERM []) as (w1 & Hrun & _ & Hst & _).
  - apply sample_queued_wf.
  - vm_compute. eexists. reflexivity.
  - reflexivity.
  - exists w1. split; [exact Hrun|]. apply (Hst 200%Z [queued_event]). vm_compute. reflexivity.
Defined.
